(** * KMZ overlay bulk automation: a shallow embedding of [kmzAutomationBulk.py]

    The definitions follow the source file:

    - [PyStr]: the string and path builtins the script calls
      ([str.rsplit], [str.strip], [str.lower], [str.endswith],
      [os.path.basename], [os.path.splitext], [os.path.join], ...),
      in their POSIX reading, on ASCII text;
    - [parse_trailing_number] and the stable [sorted] of Python;
    - [Element] and [ET]: the [xml.etree.ElementTree] element tree, every
      element carrying the identity of the Python object that represents
      it, and the path queries and mutations the script uses;
    - [reorder_overlays] and the steps of [modify_kml] on the tree
      ([locate_group], [rename_group], [create_overlays]), composed in
      [modify_kml_tree];
    - [content], [node], [FS], [Os]: files, directories, archives, and the
      monad [M] of the script (the file system as state, exceptions);
    - [extract_kmz], [create_kmz], [modify_kml], [process_subfolder],
      [run_units] and [main].

    The lemmas come after the definitions: the string builtins and
    [parse_trailing_number]; the stable sort; element trees of distinct
    objects and their mutations; the invariants of [modify_kml] and the
    properties of the transformed document; the file system, the batch
    and the archive; the overlays that refer to the image of the
    template. *)

From Stdlib Require Import Ascii String NArith Lia DecimalString.
From stdpp Require Import base option list strings sorting.

Local Open Scope string_scope.

(** ** Strings and paths *)

Module PyStr.

(** [bool(s)] of a Python string: the empty string is falsy. *)
Definition truthy (s : string) : bool :=
  match s with
  | EmptyString => false
  | String _ _ => true
  end.

(** [c in s] for a one-character string [c]. *)
Fixpoint contains (c : ascii) (s : string) : bool :=
  match s with
  | EmptyString => false
  | String a s' => Ascii.eqb a c || contains c s'
  end.

(** Position-independent form of [s.rsplit(sep, 1)] for a one-character
    separator: [None] when the separator does not occur (Python returns
    the one-element list [[s]]), otherwise the text before and after its
    last occurrence (Python returns a two-element list). *)
Fixpoint rsplit_last (sep : ascii) (s : string) : option (string * string) :=
  match s with
  | EmptyString => None
  | String a s' =>
      match rsplit_last sep s' with
      | Some (l, r) => Some (String a l, r)
      | None => if Ascii.eqb a sep then Some (EmptyString, s') else None
      end
  end.

Definition rsplit1 (sep : ascii) (s : string) : list string :=
  match rsplit_last sep s with
  | Some (l, r) => [l; r]
  | None => [s]
  end.

(** The class [\d] of [re], on ASCII text. *)
Definition is_digit (c : ascii) : bool :=
  (48 <=? nat_of_ascii c)%nat && (nat_of_ascii c <=? 57)%nat.

Definition digit_value (c : ascii) : N := N_of_ascii c - 48.

(** The group captured by [re.match(r"^(\d+)", s)]: the maximal run of
    digits at the start of [s]; no match when the run is empty. *)
Fixpoint leading_digits (s : string) : string :=
  match s with
  | EmptyString => EmptyString
  | String a s' => if is_digit a then String a (leading_digits s') else EmptyString
  end.

Definition re_match_digits (s : string) : option string :=
  let g := leading_digits s in
  if truthy g then Some g else None.

(** [int(g)] on a run of decimal digits (unbounded integers).  CPython
    refuses to convert more than [sys.get_int_max_str_digits()] digits
    (4300 unless the interpreter is set up otherwise) and raises
    [ValueError]; that limit of the interpreter is not part of [int]
    here, and the statements that depend on it carry it as a
    hypothesis. *)
Fixpoint int_acc (acc : N) (s : string) : N :=
  match s with
  | EmptyString => acc
  | String a s' => int_acc (10 * acc + digit_value a) s'
  end.

Definition int (s : string) : N := int_acc 0 s.

Definition starts_with_digit (s : string) : bool :=
  match s with
  | EmptyString => false
  | String a _ => is_digit a
  end.

Fixpoint all_digits (s : string) : bool :=
  match s with
  | EmptyString => true
  | String a s' => is_digit a && all_digits s'
  end.

(** [c.isascii()]: in UTF-8 text, a character of its own and not a part
    of the encoding of a character beyond ASCII. *)
Definition is_ascii (c : ascii) : bool := (nat_of_ascii c <? 128)%nat.

(** Where a run of digits ends on any text: at the end of the string or
    in front of an ASCII character that is not a digit (a character
    beyond ASCII can be a digit of another script, which [\d] takes). *)
Definition no_digit_ahead (s : string) : bool :=
  match s with
  | EmptyString => true
  | String a _ => is_ascii a && negb (is_digit a)
  end.


(** [str.isspace] on ASCII: tab, line feed, vertical tab, form feed,
    carriage return, the separators 0x1c-0x1f and the space. *)
Definition is_space (c : ascii) : bool :=
  let n := nat_of_ascii c in
  ((9 <=? n)%nat && (n <=? 13)%nat) || ((28 <=? n)%nat && (n <=? 32)%nat).

Fixpoint lstrip (s : string) : string :=
  match s with
  | EmptyString => EmptyString
  | String a s' => if is_space a then lstrip s' else s
  end.

Fixpoint rstrip (s : string) : string :=
  match s with
  | EmptyString => EmptyString
  | String a s' =>
      let r := rstrip s' in
      if negb (truthy r) && is_space a then EmptyString else String a r
  end.

(** [s.strip()] *)
Definition strip (s : string) : string := rstrip (lstrip s).

Definition lower_char (c : ascii) : ascii :=
  let n := nat_of_ascii c in
  if (65 <=? n)%nat && (n <=? 90)%nat then ascii_of_nat (n + 32) else c.

(** [s.lower()] on ASCII text. *)
Fixpoint lower (s : string) : string :=
  match s with
  | EmptyString => EmptyString
  | String a s' => String (lower_char a) (lower s')
  end.

(** [s.startswith(p)] and [s.endswith(suffix)] *)
Definition startswith (p s : string) : bool := String.prefix p s.

Definition endswith (suffix s : string) : bool :=
  let n := String.length s in
  let m := String.length suffix in
  (m <=? n)%nat && String.eqb (String.substring (n - m) m s) suffix.

Fixpoint rstrip_sep (s : string) : string :=
  match s with
  | EmptyString => EmptyString
  | String a s' =>
      let r := rstrip_sep s' in
      if negb (truthy r) && Ascii.eqb a "/" then EmptyString else String a r
  end.

(** [posixpath.basename(p)]: what follows the last ['/']. *)
Definition basename (p : string) : string :=
  match rsplit_last "/" p with
  | Some (_, r) => r
  | None => p
  end.

(** [posixpath.dirname(p)]: what precedes the last ['/'], without its
    trailing separators unless it consists of separators only. *)
Definition dirname (p : string) : string :=
  match rsplit_last "/" p with
  | Some (l, _) =>
      let head := l ++ "/" in
      if truthy (rstrip_sep head) then rstrip_sep head else head
  | None => EmptyString
  end.

Fixpoint all_dots (s : string) : bool :=
  match s with
  | EmptyString => true
  | String a s' => Ascii.eqb a "." && all_dots s'
  end.

(** [posixpath.splitext(p)[0]]: the last ['.'] of the last path component
    starts the extension, unless only dots precede it in that component. *)
Definition splitext_root (p : string) : string :=
  let '(dir, file) :=
    match rsplit_last "/" p with
    | Some (l, r) => (l ++ "/", r)
    | None => (EmptyString, p)
    end in
  match rsplit_last "." file with
  | Some (stem, _) => if all_dots stem then p else dir ++ stem
  | None => p
  end.

(** [posixpath.join(a, b)] *)
Definition join (a b : string) : string :=
  if startswith "/" b then b
  else if negb (truthy a) || endswith "/" a then a ++ b
  else a ++ "/" ++ b.

(** [s.split(sep)] for a one-character separator. *)
Fixpoint split (sep : ascii) (s : string) : list string :=
  match s with
  | EmptyString => [EmptyString]
  | String a s' =>
      if Ascii.eqb a sep then EmptyString :: split sep s'
      else match split sep s' with
           | w :: ws => String a w :: ws
           | [] => [String a EmptyString]
           end
  end.

End PyStr.

(** ** Sort keys *)

Definition sentinel : N := 999999999.

(** [parse_trailing_number(name_str)] *)
Definition parse_trailing_number (name_str : string) : N :=
  if negb (PyStr.truthy name_str) then sentinel
  else
    let parts := PyStr.rsplit1 "-" name_str in
    if (length parts <? 2)%nat then sentinel
    else
      let suffix := nth 1 parts EmptyString in
      match PyStr.re_match_digits suffix with
      | Some g => PyStr.int g
      | None => sentinel
      end.

(** Python's [list.sort] and [sorted] are stable, and a stable sort has one
    possible result.  It is computed here by insertion from the right,
    each element going in front of the first one that is not smaller (so
    in front of the later elements that compare equal). *)
Fixpoint insert_sorted {A} (le : A → A → bool) (x : A) (l : list A) : list A :=
  match l with
  | [] => [x]
  | y :: l' => if le x y then x :: y :: l' else y :: insert_sorted le x l'
  end.

Fixpoint sort_with {A} (le : A → A → bool) (l : list A) : list A :=
  match l with
  | [] => []
  | x :: l' => insert_sorted le x (sort_with le l')
  end.

(** [sorted(l, key=key)] for integer keys *)
Definition sorted {A} (key : A → N) (l : list A) : list A :=
  sort_with (λ x y, (key x <=? key y)%N) l.

(** [names.sort()] for a list of strings *)
Definition sort_names (names : list string) : list string :=
  sort_with String.leb names.

(** The order of the sort keys, on the elements that carry them. *)
Definition key_le {A} (key : A → N) (x y : A) : Prop := (key x ≤ key y)%N.

(** ** Element trees

    An [xml.etree.ElementTree.Element]: tag (namespace-qualified, as
    ElementTree stores it), text, children in document order.  [eid] is
    the identity of the Python object: [Element.remove] and attribute
    assignment act on an object, not on a value.  Attributes and tails are
    not read or written by the script and are left out (see [ET.clone]
    for the one place where a tail matters). *)

#[warnings="-register-all"]
Inductive Element : Type :=
  mkElement { eid : nat; tag : string; text : option string; children : list Element }.

Module ET.

Definition kml_ns : string := "http://www.opengis.net/kml/2.2".

(** The tag that the prefixed name [kml:local] resolves to. *)
Definition kml (local : string) : string := "{" ++ kml_ns ++ "}" ++ local.

Definition has_tag (t : string) (e : Element) : bool := String.eqb (tag e) t.
Definition has_id (i : nat) (e : Element) : bool := Nat.eqb (eid e) i.

(** [e.iter()]: the element and its descendants, in document order. *)
Fixpoint nodes (e : Element) : list Element :=
  match e with
  | mkElement _ _ _ cs => e :: flat_map nodes cs
  end.

(** The proper descendants of [e], in document order. *)
Definition descendants (e : Element) : list Element := flat_map nodes (children e).

Definition ids (e : Element) : list nat := map eid (nodes e).

(** [e.findall(".//kml:t", ns)], [e.find(".//kml:t", ns)] *)
Definition findall_desc (t : string) (e : Element) : list Element :=
  List.filter (has_tag (kml t)) (descendants e).
Definition find_desc (t : string) (e : Element) : option Element :=
  head (findall_desc t e).

(** [e.findall("kml:t", ns)], [e.find("kml:t", ns)] *)
Definition findall_child (t : string) (e : Element) : list Element :=
  List.filter (has_tag (kml t)) (children e).
Definition find_child (t : string) (e : Element) : option Element :=
  head (findall_child t e).

(** [e.find(".//kml:Icon/kml:href", ns)] *)
Definition find_icon_href (e : Element) : option Element :=
  head (flat_map (findall_child "href") (findall_desc "Icon" e)).

(** The object [i] as it currently is in the tree under [e]: the first
    element with that identity in document order (the only one in a
    tree of distinct objects, see [wf]). *)
Definition get (i : nat) (e : Element) : option Element :=
  List.find (has_id i) (nodes e).

(** A mutation [f] of the object [i] in the tree under [e]; the search
    stops at an element with that identity. *)
Fixpoint upd (i : nat) (f : Element → Element) (e : Element) : Element :=
  match e with
  | mkElement j t x cs =>
      if Nat.eqb j i then f e else mkElement j t x (map (upd i f) cs)
  end.

(** [e.text = s] *)
Definition set_text (s : string) (e : Element) : Element :=
  mkElement (eid e) (tag e) (Some s) (children e).

(** [e.append(c)] *)
Definition append (c : Element) (e : Element) : Element :=
  mkElement (eid e) (tag e) (text e) (children e ++ [c]).

Definition set_children (cs : list Element) (e : Element) : Element :=
  mkElement (eid e) (tag e) (text e) cs.

(** [list.remove] by identity on a list of children: the first child that
    is the object [i] is taken out; [None] stands for [ValueError]. *)
Fixpoint remove_child (i : nat) (cs : list Element) : option (list Element) :=
  match cs with
  | [] => None
  | c :: cs' =>
      if has_id i c then Some cs'
      else match remove_child i cs' with
           | Some r => Some (c :: r)
           | None => None
           end
  end.

(** An identity that no object of the tree has. *)
Definition fresh (e : Element) : nat := S (list_max (ids e)).

(** The same tree made of other objects. *)
Fixpoint shift (k : nat) (e : Element) : Element :=
  match e with
  | mkElement j t x cs => mkElement (k + j) t x (map (shift k) cs)
  end.

(** [ET.fromstring(ET.tostring(e))], evaluated while the document is
    [root]: a deep copy of [e] made of objects that are not in [root].
    [ET.tostring] also writes the tail of [e], the text between its end
    tag and the next tag, and [ET.fromstring] raises [ParseError] when
    that text is more than white space; elements have no tail here, so
    the documents of the model are those in which the template overlay
    is followed by white space only, and the copy never fails. *)
Definition clone (root e : Element) : Element := shift (fresh root) e.

(** Truth value of [el.text] *)
Definition text_truthy (e : Element) : bool :=
  match text e with
  | Some s => PyStr.truthy s
  | None => false
  end.

Definition text_or_empty (e : Element) : string :=
  match text e with
  | Some s => s
  | None => EmptyString
  end.

(** A tree as [ET.parse] builds it and as the script keeps it: no object
    occurs at two places. *)
Definition wf (e : Element) : Prop := NoDup (ids e).

(** The identity and the tag of every node of the tree. *)
Definition labels (e : Element) : list (nat * string) :=
  map (λ x, (eid x, tag x)) (nodes e).

End ET.

Definition overlay_tag : string := ET.kml "GroundOverlay".

Definition is_overlay (e : Element) : bool := ET.has_tag overlay_tag e.

(** ** Exceptions *)

Inductive exn : Type :=
  | ValueError            (* [Element.remove(x)]: x not in list *)
  | ParseError            (* [ET.parse]: malformed markup *)
  | BadZipFile            (* [zipfile.ZipFile]: not a zip archive *)
  | FileNotFoundError
  | FileExistsError
  | NotADirectoryError
  | IsADirectoryError
  | SameFileError
  | PermissionError.

Inductive result (A : Type) : Type :=
  | Ok (a : A)
  | Raise (e : exn).
Arguments Ok {A} a.
Arguments Raise {A} e.

Definition rbind {A B} (r : result A) (k : A → result B) : result B :=
  match r with
  | Ok a => k a
  | Raise e => Raise e
  end.

(** ** The overlay-document transformation, on the element tree *)

(** [get_overlay_key(overlay)] of [reorder_overlays] *)
Definition get_overlay_key (overlay : Element) : N :=
  match ET.find_desc "name" overlay with
  | Some name_el =>
      if ET.text_truthy name_el then parse_trailing_number (ET.text_or_empty name_el)
      else sentinel
  | None => sentinel
  end.

(** The loop [for ov in overlays: node.remove(ov)] on the children of
    [node]. *)
Fixpoint remove_all (overlays : list Element) (cs : list Element) : option (list Element) :=
  match overlays with
  | [] => Some cs
  | ov :: rest =>
      match ET.remove_child (eid ov) cs with
      | Some cs' => remove_all rest cs'
      | None => None
      end
  end.

(** [reorder_overlays(document_node, namespace)], where [document_node] is
    the object [doc] of the tree [root]. *)
Definition reorder_node (document_node : Element) : result Element :=
  let overlays := ET.findall_child "GroundOverlay" document_node in
  let sorted_overlays := sorted get_overlay_key overlays in
  match remove_all overlays (children document_node) with
  | Some cs => Ok (ET.set_children (cs ++ sorted_overlays) document_node)
  | None => Raise ValueError
  end.

Definition reorder_overlays (doc : nat) (root : Element) : result Element :=
  match ET.get doc root with
  | Some document_node =>
      rbind (reorder_node document_node) (λ n, Ok (ET.upd doc (λ _, n) root))
  | None => Ok root
  end.

(** Lines 103-115 of [modify_kml]: the first [Document], else the first
    [Folder]; else a new [Document] under the root that takes over the
    overlays, each one removed from the children of the root and
    appended to the new node.  Answers the tree and the identity of
    [document_node]. *)
Fixpoint move_overlays (doc : nat) (overlays : list Element) (root : Element)
  : result Element :=
  match overlays with
  | [] => Ok root
  | ov :: rest =>
      match ET.remove_child (eid ov) (children root), ET.get (eid ov) root with
      | Some cs, Some o =>
          move_overlays doc rest (ET.upd doc (ET.append o) (ET.set_children cs root))
      | _, _ => Raise ValueError
      end
  end.

Definition locate_group (overlays : list Element) (root : Element)
  : result (Element * nat) :=
  match ET.find_desc "Document" root with
  | Some d => Ok (root, eid d)
  | None =>
      match ET.find_desc "Folder" root with
      | Some d => Ok (root, eid d)
      | None =>
          let doc := ET.fresh root in
          let root := ET.append (mkElement doc (ET.kml "Document") None []) root in
          rbind (move_overlays doc overlays root) (λ root, Ok (root, doc))
      end
  end.

(** Lines 117-123: the name of the group node. *)
Definition rename_group (subfolder_name : string) (doc : nat) (root : Element) : Element :=
  match ET.get doc root with
  | Some document_node =>
      match ET.find_child "name" document_node with
      | Some doc_name_el => ET.upd (eid doc_name_el) (ET.set_text subfolder_name) root
      | None =>
          ET.upd doc
            (ET.append (mkElement (ET.fresh root) (ET.kml "name") (Some subfolder_name) []))
            root
      end
  | None => root
  end.

(** Lines 125-129: the file name the template overlay refers to. *)
Definition original_png_of (first_overlay : Element) : option string :=
  match ET.find_icon_href first_overlay with
  | Some icon_href_el =>
      if ET.text_truthy icon_href_el
      then Some (PyStr.basename (PyStr.strip (ET.text_or_empty icon_href_el)))
      else None
  | None => None
  end.

(** The same for the object [tmpl] of the tree [root]. *)
Definition template_png (tmpl : nat) (root : Element) : option string :=
  match ET.get tmpl root with
  | Some t => original_png_of t
  | None => None
  end.

(** The test [original_png and fname == original_png] *)
Definition is_original (original_png : option string) (fname : string) : bool :=
  match original_png with
  | Some o => PyStr.truthy o && String.eqb fname o
  | None => false
  end.

(** Lines 131-144 *)
Definition all_pngs_of (png_filepaths : list string) : list (string * string) :=
  map (λ abs_path, (abs_path, PyStr.basename abs_path)) png_filepaths.

Definition create_list_of (original_png : option string) (all_pngs : list (string * string))
  : list (string * string) :=
  List.filter (λ p, negb (is_original original_png (snd p))) all_pngs.

(** [el = e.find(...)] followed by [if el is not None: el.text = s] *)
Definition assign_text (found : option Element) (s : string) (e : Element) : Element :=
  match found with
  | Some el => ET.upd (eid el) (ET.set_text s) e
  | None => e
  end.

(** Lines 152-163: the clone of the template for one file name. *)
Definition new_overlay_for (subfolder_name fname : string) (root first_overlay : Element)
  : Element :=
  let new_overlay := ET.clone root first_overlay in
  let new_overlay :=
    assign_text (ET.find_icon_href new_overlay) (subfolder_name ++ "/" ++ fname) new_overlay in
  assign_text (ET.find_desc "name" new_overlay) (PyStr.splitext_root fname) new_overlay.

(** Lines 150-166: one clone per entry of [create_list], appended to the
    group node; the template is read as it is at that moment. *)
Fixpoint create_overlays (subfolder_name : string) (tmpl doc : nat)
    (create_list : list (string * string)) (root : Element) : Element :=
  match create_list with
  | [] => root
  | (_, fname) :: rest =>
      let root :=
        match ET.get tmpl root with
        | Some first_overlay =>
            ET.upd doc (ET.append (new_overlay_for subfolder_name fname root first_overlay)) root
        | None => root
        end in
      create_overlays subfolder_name tmpl doc rest root
  end.

(** Lines 96-166: the tree before the files are copied; [None] is the
    answer [False] ("No GroundOverlay found"). *)
Definition build_overlays (root : Element) (png_filepaths : list string)
    (subfolder_name : string) : result (option (Element * nat)) :=
  let overlays := ET.findall_desc "GroundOverlay" root in
  match overlays with
  | [] => Ok None
  | first_overlay :: _ =>
      rbind (locate_group overlays root) (λ '(root, doc),
        let root := rename_group subfolder_name doc root in
        let original_png := template_png (eid first_overlay) root in
        let all_pngs := all_pngs_of png_filepaths in
        let create_list := create_list_of original_png all_pngs in
        Ok (Some (create_overlays subfolder_name (eid first_overlay) doc create_list root, doc)))
  end.

(** The tree that [modify_kml] writes back: [build_overlays], then
    [reorder_overlays] on the group node. *)
Definition modify_kml_tree (root : Element) (png_filepaths : list string)
    (subfolder_name : string) : result (option Element) :=
  rbind (build_overlays root png_filepaths subfolder_name) (λ r,
    match r with
    | Some (root, doc) => rbind (reorder_overlays doc root) (λ root, Ok (Some root))
    | None => Ok None
    end).

(** The overlay children of the group node [doc], in document order. *)
Definition group_overlays (doc : nat) (root : Element) : list Element :=
  match ET.get doc root with
  | Some document_node => ET.findall_child "GroundOverlay" document_node
  | None => []
  end.

(** The number a display name ends with, if it has one: what follows the
    last ['-'] starts with digits. *)
Definition suffix_number (name : string) : option N :=
  match PyStr.rsplit_last "-" name with
  | Some (_, suffix) => PyStr.int <$> PyStr.re_match_digits suffix
  | None => None
  end.

Definition overlay_number (overlay : Element) : option N :=
  match ET.find_desc "name" overlay with
  | Some name_el =>
      match text name_el with
      | Some s => suffix_number s
      | None => None
      end
  | None => None
  end.

(** ** Files, directories and archives

    A file is abstracted to what the script can read from it: a
    well-formed XML document (its element tree), a zip archive (its
    members in archive order), or anything else.  A directory lists its
    entries in the order [os.listdir] and [os.walk] report them; a new
    entry goes to the end of the listing.  Paths are resolved from the
    root directory, component by component; there are no links and
    [".."] is not interpreted. *)

#[warnings="-register-all"]
Inductive content : Type :=
  | Bytes (data : string)
  | Xml (root : Element)
  | Zip (members : list (string * content)).

#[warnings="-register-all"]
Inductive node : Type :=
  | File (c : content)
  | Dir (entries : list (string * node)).

Module FS.

(** The components a path string resolves through, from the root
    directory; empty components and ["."] do not count. *)
Definition components (p : string) : list string :=
  List.filter (λ c, PyStr.truthy c && negb (String.eqb c ".")) (PyStr.split "/" p).

(** Member names of an archive are cleaned the way [ZipFile.extract]
    does it: [".."] is dropped as well. *)
Definition member_components (name : string) : list string :=
  List.filter (λ c, negb (String.eqb c "..")) (components name).

Fixpoint lookup_entry (name : string) (es : list (string * node)) : option node :=
  match es with
  | [] => None
  | (k, v) :: es' => if String.eqb k name then Some v else lookup_entry name es'
  end.

Fixpoint set_entry (name : string) (v : node) (es : list (string * node))
  : list (string * node) :=
  match es with
  | [] => [(name, v)]
  | (k, x) :: es' =>
      if String.eqb k name then (k, v) :: es' else (k, x) :: set_entry name v es'
  end.

Definition del_entry (name : string) (es : list (string * node)) : list (string * node) :=
  List.filter (λ e, negb (String.eqb (fst e) name)) es.

Fixpoint resolve (cs : list string) (n : node) : option node :=
  match cs with
  | [] => Some n
  | c :: cs' =>
      match n with
      | Dir es =>
          match lookup_entry c es with
          | Some sub => resolve cs' sub
          | None => None
          end
      | File _ => None
      end
  end.

(** Puts [v] at the path [cs]; the parent has to be a directory. *)
Fixpoint put (cs : list string) (v : node) (n : node) : option node :=
  match cs with
  | [] => None
  | c :: cs' =>
      match n with
      | Dir es =>
          match cs' with
          | [] => Some (Dir (set_entry c v es))
          | _ :: _ =>
              match lookup_entry c es with
              | Some sub =>
                  match put cs' v sub with
                  | Some sub' => Some (Dir (set_entry c sub' es))
                  | None => None
                  end
              | None => None
              end
          end
      | File _ => None
      end
  end.

(** Takes the entry at the path [cs] out of its directory. *)
Fixpoint del (cs : list string) (n : node) : option node :=
  match cs with
  | [] => None
  | c :: cs' =>
      match n with
      | Dir es =>
          match lookup_entry c es with
          | Some sub =>
              match cs' with
              | [] => Some (Dir (del_entry c es))
              | _ :: _ =>
                  match del cs' sub with
                  | Some sub' => Some (Dir (set_entry c sub' es))
                  | None => None
                  end
              end
          | None => None
          end
      | File _ => None
      end
  end.

Fixpoint nest (cs : list string) : node :=
  match cs with
  | [] => Dir []
  | c :: cs' => Dir [(c, nest cs')]
  end.

(** [os.makedirs(path, exist_ok=exist_ok)] on the components of [path] *)
Fixpoint mkdirs (exist_ok : bool) (cs : list string) (n : node) : result node :=
  match cs with
  | [] =>
      match n with
      | Dir _ => if exist_ok then Ok n else Raise FileExistsError
      | File _ => Raise FileExistsError
      end
  | c :: cs' =>
      match n with
      | Dir es =>
          match lookup_entry c es with
          | Some sub => rbind (mkdirs exist_ok cs' sub) (λ sub', Ok (Dir (set_entry c sub' es)))
          | None => Ok (Dir (set_entry c (nest cs') es))
          end
      | File _ => Raise NotADirectoryError
      end
  end.

(** The error of a path that does not resolve: [ENOTDIR] when the path
    goes through a file, [ENOENT] when an entry is missing. *)
Fixpoint through_file (cs : list string) (n : node) : bool :=
  match cs, n with
  | [], _ => false
  | _ :: _, File _ => true
  | c :: cs', Dir es =>
      match lookup_entry c es with
      | Some sub => through_file cs' sub
      | None => false
      end
  end.

Definition no_entry (cs : list string) (n : node) : exn :=
  if through_file cs n then NotADirectoryError else FileNotFoundError.

Definition is_file (n : node) : bool := match n with File _ => true | Dir _ => false end.
Definition is_dir (n : node) : bool := match n with File _ => false | Dir _ => true end.

Definition file_names (es : list (string * node)) : list string :=
  map fst (List.filter (λ e, is_file (snd e)) es).
Definition dir_names (es : list (string * node)) : list string :=
  map fst (List.filter (λ e, is_dir (snd e)) es).

End FS.

(** ** The script's monad: the file system as state, exceptions that
    leave the state as it is when they are raised. *)

Definition M (A : Type) : Type := node → result A * node.

Definition ret {A} (a : A) : M A := λ fs, (Ok a, fs).
Definition raise {A} (e : exn) : M A := λ fs, (Raise e, fs).
Definition bind {A B} (m : M A) (k : A → M B) : M B :=
  λ fs, match m fs with
        | (Ok a, fs') => k a fs'
        | (Raise e, fs') => (Raise e, fs')
        end.
Definition lift {A} (r : result A) : M A := λ fs, (r, fs).

Notation "'let!' x ':=' m 'in' k" := (bind m (λ x, k))
  (at level 10, x pattern, m at level 100, k at level 200).
Notation "m ';;' k" := (bind m (λ _, k))
  (at level 100, k at level 200, right associativity).

(** *** The calls into [os], [shutil], [zipfile] and [ElementTree] *)

Module Os.

Definition path_exists (p : string) : M bool :=
  λ fs, (Ok (bool_decide (is_Some (FS.resolve (FS.components p) fs))), fs).

Definition isfile (p : string) : M bool :=
  λ fs, (Ok (match FS.resolve (FS.components p) fs with
             | Some (File _) => true
             | _ => false
             end), fs).

Definition isdir (p : string) : M bool :=
  λ fs, (Ok (match FS.resolve (FS.components p) fs with
             | Some (Dir _) => true
             | _ => false
             end), fs).

Definition listdir (p : string) : M (list string) :=
  λ fs, match FS.resolve (FS.components p) fs with
        | Some (Dir es) => (Ok (map fst es), fs)
        | Some (File _) => (Raise NotADirectoryError, fs)
        | None => (Raise (FS.no_entry (FS.components p) fs), fs)
        end.

(** [shutil.rmtree(p)] *)
Definition rmtree (p : string) : M unit :=
  λ fs, match FS.resolve (FS.components p) fs with
        | Some (Dir _) =>
            match FS.del (FS.components p) fs with
            | Some fs' => (Ok (), fs')
            | None => (Raise PermissionError, fs)
            end
        | Some (File _) => (Raise NotADirectoryError, fs)
        | None => (Raise (FS.no_entry (FS.components p) fs), fs)
        end.

(** [os.makedirs(p)] *)
Definition makedirs (p : string) : M unit :=
  λ fs, match FS.mkdirs false (FS.components p) fs with
        | Ok fs' => (Ok (), fs')
        | Raise e => (Raise e, fs)
        end.

Definition read_file (p : string) : M content :=
  λ fs, match FS.resolve (FS.components p) fs with
        | Some (File c) => (Ok c, fs)
        | Some (Dir _) => (Raise IsADirectoryError, fs)
        | None => (Raise (FS.no_entry (FS.components p) fs), fs)
        end.

Definition write_file (p : string) (c : content) : M unit :=
  λ fs, match FS.resolve (FS.components p) fs with
        | Some (Dir _) => (Raise IsADirectoryError, fs)
        | _ =>
            match FS.put (FS.components p) (File c) fs with
            | Some fs' => (Ok (), fs')
            | None => (Raise (FS.no_entry (FS.components p) fs), fs)
            end
        end.

(** [shutil.copy2(src, dst)] *)
Definition copy2 (src dst : string) : M unit :=
  let! d := isdir dst in
  let dst := if d : bool then PyStr.join dst (PyStr.basename src) else dst in
  let! s := isfile src in
  let! t := isfile dst in
  if s && t && bool_decide (FS.components src = FS.components dst) then raise SameFileError
  else let! c := read_file src in write_file dst c.

(** [ET.parse(p).getroot()] *)
Definition parse (p : string) : M Element :=
  let! c := read_file p in
  match c with
  | Xml root => ret root
  | _ => raise ParseError
  end.

(** [tree.write(p, xml_declaration=True, encoding='utf-8')] *)
Definition write_tree (p : string) (root : Element) : M unit :=
  write_file p (Xml root).

(** [ZipFile.extractall(extract_to)]: the members in archive order, a
    name that ends in ['/'] being a directory.  The directory of a file
    member is made with its parents unless it exists; when what exists
    there is a file, opening the target below it raises
    [NotADirectoryError]. *)
Definition extract_member (extract_to : string) (m : string * content) : M unit :=
  let target := (FS.components extract_to ++ FS.member_components (fst m))%list in
  if PyStr.endswith "/" (fst m)
  then λ fs, match FS.mkdirs true target fs with
             | Ok fs' => (Ok (), fs')
             | Raise e => (Raise e, fs)
             end
  else λ fs, match FS.mkdirs true (removelast target) fs with
             | Ok fs' =>
                 match FS.resolve target fs' with
                 | Some (Dir _) => (Raise IsADirectoryError, fs')
                 | _ =>
                     match FS.put target (File (snd m)) fs' with
                     | Some fs'' => (Ok (), fs'')
                     | None => (Raise (FS.no_entry target fs'), fs')
                     end
                 end
             | Raise e =>
                 (Raise match e with
                        | FileExistsError => NotADirectoryError
                        | _ => e
                        end, fs)
             end.

Fixpoint extractall (extract_to : string) (members : list (string * content)) : M unit :=
  match members with
  | [] => ret ()
  | m :: rest => extract_member extract_to m ;; extractall extract_to rest
  end.

End Os.

(** ** The script *)

(** [extract_kmz(kmz_path, extract_to)] *)
Definition extract_kmz (kmz_path extract_to : string) : M unit :=
  let! c := Os.read_file kmz_path in
  match c with
  | Zip members => Os.extractall extract_to members
  | _ => raise BadZipFile
  end.

Definition lookup_members (d : string) (subs : list (string * list (string * content)))
  : list (string * content) :=
  match List.find (λ s, String.eqb (fst s) d) subs with
  | Some s => snd s
  | None => []
  end.

Definition lookup_content (f : string) (es : list (string * node)) : list content :=
  match FS.lookup_entry f es with
  | Some (File c) => [c]
  | _ => []
  end.

(** The members [create_kmz] writes for the directory [n], whose path
    relative to [source_dir] is [rel]: [os.walk] top-down with [dirs] and
    [files] sorted, so the files of a directory in sorted order, then
    each subdirectory in sorted order.  ([subs] holds the walk of every
    subdirectory before [dirs] picks them in sorted order.) *)
Fixpoint walk_members (rel : string) (n : node) : list (string * content) :=
  match n with
  | File _ => []
  | Dir es =>
      let dirs := sort_names (FS.dir_names es) in
      let files := sort_names (FS.file_names es) in
      let subs :=
        (fix walk_entries (es : list (string * node)) :=
           match es with
           | [] => []
           | (d, sub) :: es' => (d, walk_members (PyStr.join rel d) sub) :: walk_entries es'
           end) es in
      flat_map (λ file, map (λ c, (PyStr.join rel file, c)) (lookup_content file es)) files
      ++ flat_map (λ d, lookup_members d subs) dirs
  end.

(** [create_kmz(source_dir, kmz_path)]: the archive is opened for writing
    before the walk starts. *)
Definition create_kmz (source_dir kmz_path : string) : M unit :=
  Os.write_file kmz_path (Zip []) ;;
  λ fs,
    let members :=
      match FS.resolve (FS.components source_dir) fs with
      | Some n => walk_members EmptyString n
      | None => []
      end in
    Os.write_file kmz_path (Zip members) fs.

Definition is_kml (file : string) : bool := PyStr.endswith ".kml" (PyStr.lower file).
Definition is_kmz (file : string) : bool := PyStr.endswith ".kmz" (PyStr.lower file).
Definition is_png (file : string) : bool := PyStr.endswith ".png" (PyStr.lower file).

(** Lines 228-235 of [process_subfolder]: the first [.kml] that [os.walk]
    comes across. *)
Fixpoint find_kml (root_dir : string) (n : node) : option string :=
  match n with
  | File _ => None
  | Dir es =>
      match List.find is_kml (FS.file_names es) with
      | Some file => Some (PyStr.join root_dir file)
      | None =>
          (fix find_entries (es : list (string * node)) :=
             match es with
             | [] => None
             | (d, sub) :: es' =>
                 match find_kml (PyStr.join root_dir d) sub with
                 | Some k => Some k
                 | None => find_entries es'
                 end
             end) es
      end
  end.

Definition find_kml_file (temp_dir : string) : M (option string) :=
  λ fs, (Ok (match FS.resolve (FS.components temp_dir) fs with
             | Some n => find_kml temp_dir n
             | None => None
             end), fs).

(** Lines 174-180 of [modify_kml] *)
Fixpoint copy_pngs (subfolder_fullpath : string) (all_pngs : list (string * string)) : M unit :=
  match all_pngs with
  | [] => ret ()
  | (abs_path, fname) :: rest =>
      let dst_path := PyStr.join subfolder_fullpath fname in
      let! ok := Os.isfile abs_path in
      (if ok : bool then Os.copy2 abs_path dst_path else ret ()) ;;
      copy_pngs subfolder_fullpath rest
  end.

(** [modify_kml(kml_path, png_filepaths, subfolder_name)] *)
Definition modify_kml (kml_path : string) (png_filepaths : list string)
    (subfolder_name : string) : M bool :=
  let! root := Os.parse kml_path in
  let! built := lift (build_overlays root png_filepaths subfolder_name) in
  match built with
  | None => ret false
  | Some (root, document_node) =>
      let kml_dir := PyStr.dirname kml_path in
      let subfolder_fullpath := PyStr.join kml_dir subfolder_name in
      let! ex := Os.path_exists subfolder_fullpath in
      (if ex : bool then ret () else Os.makedirs subfolder_fullpath) ;;
      copy_pngs subfolder_fullpath (all_pngs_of png_filepaths) ;;
      let! root := lift (reorder_overlays document_node root) in
      Os.write_tree kml_path root ;;
      ret true
  end.

(** [process_subfolder(subfolder_path, output_folder)] *)
Definition process_subfolder (subfolder_path output_folder : string) : M bool :=
  let subfolder_name := PyStr.basename subfolder_path in
  let! names := Os.listdir subfolder_path in
  match List.filter is_kmz names with
  | [] => ret false
  | original_kmz :: _ =>
      let original_kmz_path := PyStr.join subfolder_path original_kmz in
      let! all_files := Os.listdir subfolder_path in
      let png_files_abs := map (PyStr.join subfolder_path) (List.filter is_png all_files) in
      match png_files_abs with
      | [] => ret false
      | _ :: _ =>
          let new_kmz_name := subfolder_name ++ " - transparent.kmz" in
          let new_kmz_path := PyStr.join output_folder new_kmz_name in
          let temp_dir := PyStr.join output_folder ("temp_extract_" ++ subfolder_name) in
          let! ex := Os.path_exists temp_dir in
          (if ex : bool then Os.rmtree temp_dir else ret ()) ;;
          Os.makedirs temp_dir ;;
          extract_kmz original_kmz_path temp_dir ;;
          let! kml_file := find_kml_file temp_dir in
          match kml_file with
          | None => Os.rmtree temp_dir ;; ret false
          | Some kml_file =>
              let! success := modify_kml kml_file png_files_abs subfolder_name in
              if success : bool
              then create_kmz temp_dir new_kmz_path ;; Os.rmtree temp_dir ;; ret true
              else Os.rmtree temp_dir ;; ret false
          end
      end
  end.

(** The loop of [main], lines 285-292: the count of the units that
    answered [True]. *)
Fixpoint run_units (output_folder : string) (all_subfolders : list string)
    (success_count : nat) : M nat :=
  match all_subfolders with
  | [] => ret success_count
  | subf :: rest =>
      let! ok := process_subfolder subf output_folder in
      run_units output_folder rest (if ok : bool then S success_count else success_count)
  end.

(** What [main] shows before it ends. *)
Inductive dialog : Type :=
  | WarningNoMainFolder
  | WarningNoOutputFolder
  | InfoNoSubfolders
  | Done (success_count : nat)
  | UnexpectedError (e : exn).

Fixpoint subdirs_of (main_folder : string) (names : list string) : M (list string) :=
  match names with
  | [] => ret []
  | d :: rest =>
      let! isd := Os.isdir (PyStr.join main_folder d) in
      let! tl := subdirs_of main_folder rest in
      ret (if isd : bool then PyStr.join main_folder d :: tl else tl)
  end.

(** [main()], the two folders being what the dialogs answer (the empty
    string when a dialog is cancelled). *)
Definition main (main_folder output_folder : string) (fs : node) : dialog * node :=
  if negb (PyStr.truthy main_folder) then (WarningNoMainFolder, fs)
  else if negb (PyStr.truthy output_folder) then (WarningNoOutputFolder, fs)
  else
    let body : M dialog :=
      let! names := Os.listdir main_folder in
      let! all_subfolders := subdirs_of main_folder names in
      match all_subfolders with
      | [] => ret InfoNoSubfolders
      | _ :: _ =>
          let! success_count := run_units output_folder all_subfolders 0 in
          ret (Done success_count)
      end in
    match body fs with
    | (Ok d, fs') => (d, fs')
    | (Raise e, fs') => (UnexpectedError e, fs')
    end.

(** The overlays anywhere in a tree, the root included. *)
Definition overlays_of (t : Element) : list Element := List.filter is_overlay (ET.nodes t).

Definition is_group_or_overlay (x : Element) : bool :=
  ET.has_tag (ET.kml "Document") x || ET.has_tag (ET.kml "Folder") x || is_overlay x.

(** No overlay of the document contains a group node or another overlay:
    the documents of the schema, root - group node - overlays. *)
Definition flat_overlays (root : Element) : bool :=
  forallb (λ e, negb (is_overlay e)
                || forallb (λ x, negb (is_group_or_overlay x)) (ET.descendants e))
          (ET.nodes root).

(** The state of the transformation: distinct objects, the group node in
    the tree, and the overlays of the tree being those of the input and
    the clones [C] made so far. *)
Definition overlay_inv (ovs0 : list Element) (doc : nat) (t : Element) (C : list Element)
  : Prop :=
  ET.wf t ∧ is_Some (ET.get doc t) ∧ overlays_of t ≡ₚ ovs0 ++ C.

(** ** Reading overlays *)

(** The display name and the asset reference of an overlay, found the
    way the script finds them. *)
Definition display_name (overlay : Element) : option string :=
  match ET.find_desc "name" overlay with
  | Some name_el => text name_el
  | None => None
  end.

Definition asset_reference (overlay : Element) : option string :=
  match ET.find_icon_href overlay with
  | Some href => text href
  | None => None
  end.

(** The overlay refers to the asset file [fname]. *)
Definition refers_to (fname : string) (overlay : Element) : bool :=
  match asset_reference overlay with
  | Some ref => String.eqb (PyStr.basename ref) fname
  | None => false
  end.

(** The name of a group node: the text of its first [name] child. *)
Definition group_name (document_node : Element) : option string :=
  match ET.find_child "name" document_node with
  | Some doc_name_el => text doc_name_el
  | None => None
  end.

(** The tags that occur in a tree, one for every element. *)
Definition tags_of (e : Element) : list string := map snd (ET.labels e).

(** ** Directory trees of a file system *)

(** A name that an entry of a directory can have: not empty, without
    separator, and neither ["."] nor [".."]. *)
Definition simple_name (c : string) : bool :=
  PyStr.truthy c && negb (PyStr.contains "/" c)
  && negb (String.eqb c ".") && negb (String.eqb c "..").

(** A directory tree as a file system has it: the entries have such
    names, and no directory has two entries of one name. *)
Fixpoint valid_tree (n : node) : bool :=
  match n with
  | File _ => true
  | Dir es =>
      forallb simple_name (map fst es)
      && bool_decide (NoDup (map fst es))
      && forallb (λ e, valid_tree (snd e)) es
  end.

(** The relative path that [os.path.join] makes of the names [cs]. *)
Definition rel_path (cs : list string) : string := foldl PyStr.join EmptyString cs.

(** The files at the paths [P] are the same in [fs] and in [fs']: such a
    path leads to a file with the content [c] in the one exactly when it
    does in the other. *)
Definition same_files (P : list string → Prop) (fs fs' : node) : Prop :=
  ∀ t c, P t → FS.resolve t fs' = Some (File c) ↔ FS.resolve t fs = Some (File c).

(** The step [m] leaves the files at the paths [P] as they are, whatever
    it answers or raises. *)
Definition keeps_files {A} (P : list string → Prop) (m : M A) : Prop :=
  ∀ fs r fs', m fs = (r, fs') → same_files P fs fs'.

(** The order of the top-down walk with sorted listings, on paths
    relative to the top directory, given by their components: two files
    of one directory, and two subdirectories of one directory, come in
    the order of their names; a file of a directory comes before
    whatever is inside a subdirectory of that directory.  [name_before]
    is the strict order of [list.sort] on names. *)
Definition name_before (a b : string) : bool := String.leb a b && negb (String.eqb a b).

Fixpoint walk_before (p q : list string) : bool :=
  match p, q with
  | [f], [g] => name_before f g
  | [f], _ :: _ :: _ => true
  | d :: ((_ :: _) as p'), e :: ((_ :: _) as q') =>
      if String.eqb d e then walk_before p' q' else name_before d e
  | _, _ => false
  end.

(** The same on the members of an archive, by the components of their
    names. *)
Definition walk_order (m1 m2 : string * content) : Prop :=
  walk_before (FS.components (fst m1)) (FS.components (fst m2)) = true.

(** The path of the working directory of a unit. *)
Definition temp_dir_of (subfolder_path output_folder : string) : string :=
  PyStr.join output_folder ("temp_extract_" ++ PyStr.basename subfolder_path).

(** ** Sample documents and directories *)

Module Examples.

Definition el (i : nat) (t : string) (x : option string) (cs : list Element) : Element :=
  mkElement i (ET.kml t) x cs.

Definition overlay (i : nat) (name href : string) : Element :=
  el i "GroundOverlay" None
    [el (i + 1) "name" (Some name) [];
     el (i + 2) "Icon" None [el (i + 3) "href" (Some href) []];
     el (i + 4) "LatLonBox" None []].

(** The scenario of the specification: one template overlay
    [N56E29-001] that refers to [base.png]. *)
Definition doc_scenario : Element :=
  el 0 "kml" None
    [el 1 "Document" None [el 2 "name" (Some "old") []; overlay 3 "N56E29-001" "base.png"]].

Definition scenario_pngs : list string :=
  ["/in/N56E29/base.png"; "/in/N56E29/N56E29-002.png"; "/in/N56E29/N56E29-010.png"].

(** A document without overlays. *)
Definition doc_no_overlay : Element :=
  el 0 "kml" None [el 1 "Document" None [el 2 "name" (Some "empty") []]].

(** An overlay that is not a child of the root, and no group node. *)
Definition doc_nested : Element :=
  el 0 "kml" None [el 1 "Placemark" None [overlay 2 "A-001" "base.png"]].

(** Overlays directly under the root, and no group node. *)
Definition doc_flat : Element :=
  el 0 "kml" None [overlay 1 "A-002" "base.png"; overlay 6 "A-001" "b.png"].

(** A name without a number in front of a number above the sentinel. *)
Definition doc_big_suffix : Element :=
  el 0 "kml" None
    [el 1 "Document" None [overlay 2 "notes" "base.png"; overlay 7 "A-1000000000" "b.png"]].

(** Two overlays of the input that refer to the same image. *)
Definition doc_two_same : Element :=
  el 0 "kml" None
    [el 1 "Document" None [overlay 2 "A-001" "base.png"; overlay 7 "A-002" "base.png"]].

(** A [Folder] as the group node, without a name, and no [Document]. *)
Definition doc_folder : Element :=
  el 0 "kml" None [el 1 "Folder" None [overlay 2 "A-001" "base.png"]].

(** A main folder with three units and an empty output folder: a unit
    without container, a unit whose container holds a document that is
    not well-formed, and the unit of the scenario. *)
Definition fs_batch : node :=
  Dir [("in",
        Dir [("skipped", Dir [("a.png", File (Bytes "a"))]);
             ("bad",
              Dir [("x.kmz", File (Zip [("doc.kml", Bytes "<kml><Document>")]));
                   ("a.png", File (Bytes "a"))]);
             ("N56E29",
              Dir [("orig.kmz",
                    File (Zip [("doc.kml", Xml doc_scenario);
                               ("files/base.png", Bytes "b")]));
                   ("base.png", File (Bytes "b"));
                   ("N56E29-010.png", File (Bytes "10"));
                   ("N56E29-002.png", File (Bytes "2"))]);
             ("notes.txt", File (Bytes "n"))]);
       ("out", Dir [])].

(** The same without the unit whose document is not well-formed. *)
Definition fs_units : node :=
  Dir [("in",
        Dir [("skipped", Dir [("a.png", File (Bytes "a"))]);
             ("N56E29",
              Dir [("orig.kmz",
                    File (Zip [("doc.kml", Xml doc_scenario);
                               ("files/base.png", Bytes "b")]));
                   ("base.png", File (Bytes "b"));
                   ("N56E29-010.png", File (Bytes "10"));
                   ("N56E29-002.png", File (Bytes "2"))]);
             ("notes.txt", File (Bytes "n"))]);
       ("out", Dir [])].

(** The working directory of a unit after the extraction, for a document
    [doc], next to the images of the unit of the scenario. *)
Definition fs_work (doc : Element) : node :=
  Dir [("in",
        Dir [("N56E29",
              Dir [("base.png", File (Bytes "b"));
                   ("N56E29-002.png", File (Bytes "2"));
                   ("N56E29-010.png", File (Bytes "10"))])]);
       ("work", Dir [("doc.kml", File (Xml doc)); ("base.png", File (Bytes "b"))])].

(** An extracted container after [modify_kml]: the document and the
    folder of the unit. *)
Definition fs_packed : node :=
  Dir [("work",
        Dir [("doc.kml", File (Xml doc_scenario));
             ("N56E29", Dir [("base.png", File (Bytes "b"))])]);
       ("out", Dir [])].

End Examples.

(** * Lemmas and theorems *)

(** *** Facts about the string builtins *)

Section PyStrFacts.
Import PyStr.

Lemma contains_app c s1 s2 :
  contains c (s1 ++ s2) = contains c s1 || contains c s2.
Proof.
  induction s1 as [|a s1 IH]; simpl; [done|].
  by rewrite IH, orb_assoc.
Qed.

Lemma rsplit_last_none sep s :
  rsplit_last sep s = None ↔ contains sep s = false.
Proof.
  induction s as [|a s IH]; simpl; [done|].
  destruct (rsplit_last sep s) as [[l r]|].
  - split; [done|]. intros [_ H]%orb_false_iff.
    destruct IH as [_ IH]. by specialize (IH H).
  - destruct IH as [IH _]. rewrite (IH eq_refl), orb_false_r.
    by destruct (Ascii.eqb a sep).
Qed.

(** Splitting happens at the last separator: nothing after it is one. *)
Lemma rsplit_last_app sep l r :
  contains sep r = false →
  rsplit_last sep (l ++ String sep r) = Some (l, r).
Proof.
  intros Hr. induction l as [|a l IH]; simpl.
  - apply rsplit_last_none in Hr. rewrite Hr.
    by rewrite Ascii.eqb_refl.
  - by rewrite IH.
Qed.

Lemma rsplit_last_some sep s l r :
  rsplit_last sep s = Some (l, r) →
  s = l ++ String sep r ∧ contains sep r = false.
Proof.
  revert l r. induction s as [|a s IH]; intros l r; simpl; [done|].
  destruct (rsplit_last sep s) as [[l' r']|] eqn:E.
  - intros [= <- <-]. destruct (IH _ _ eq_refl) as [-> ?]. done.
  - destruct (Ascii.eqb a sep) eqn:Ea; [|done].
    intros [= <- <-]. apply Ascii.eqb_eq in Ea as ->.
    split; [done|]. by apply rsplit_last_none.
Qed.

Lemma leading_digits_app ds rest :
  all_digits ds = true → starts_with_digit rest = false →
  leading_digits (ds ++ rest) = ds.
Proof.
  intros Hds Hrest. induction ds as [|a ds IH]; simpl in *.
  - destruct rest as [|b rest]; simpl in *; [done|]. by rewrite Hrest.
  - apply andb_true_iff in Hds as [Ha Hds]. rewrite Ha. by rewrite IH.
Qed.

Lemma leading_digits_all_digits s : all_digits (leading_digits s) = true.
Proof.
  induction s as [|a s IH]; simpl; [done|].
  destruct (is_digit a) eqn:E; simpl; [|done]. by rewrite E.
Qed.

Lemma leading_digits_truthy s :
  truthy (leading_digits s) = starts_with_digit s.
Proof. destruct s as [|a s]; simpl; [done|]. by destruct (is_digit a). Qed.

(** [int] reads a positional decimal numeral. *)
Lemma int_acc_snoc acc s a :
  int_acc acc (s ++ String a EmptyString) = (10 * int_acc acc s + digit_value a)%N.
Proof. revert acc. induction s as [|b s IH]; intros acc; simpl; [done|]. apply IH. Qed.

Lemma int_snoc s a :
  int (s ++ String a EmptyString) = (10 * int s + digit_value a)%N.
Proof. apply int_acc_snoc. Qed.

End PyStrFacts.

(** *** [int] and the decimal numerals of the standard library *)

Section IntFacts.
Import PyStr.

Lemma no_digit_ahead_start s : no_digit_ahead s = true → starts_with_digit s = false.
Proof.
  destruct s as [|a s]; [done|]. simpl. intros [_ H]%andb_true_iff.
  by apply negb_true_iff in H.
Qed.

Lemma all_digits_no_sep s : all_digits s = true → contains "-" s = false.
Proof.
  induction s as [|a s IH]; simpl; [done|].
  intros [Ha Hs]%andb_true_iff. rewrite (IH Hs), orb_false_r.
  destruct (Ascii.eqb_spec a "-") as [->|_]; [done|done].
Qed.

Lemma uint_of_char_inv a d u :
  uint_of_char a d = Some u →
  ∃ u0, d = Some u0 ∧ is_digit a = true ∧
        (∀ acc, Pos.of_uint_acc u acc
                = Pos.of_uint_acc u0 (match (10 * Npos acc + digit_value a)%N with
                                      | Npos p => p
                                      | N0 => 1%positive
                                      end)) ∧
        Pos.of_uint u = match digit_value a with
                        | N0 => Pos.of_uint u0
                        | Npos p => Npos (Pos.of_uint_acc u0 p)
                        end.
Proof.
  destruct d as [u0|]; [|done].
  destruct a as [[] [] [] [] [] [] [] []]; try discriminate;
    intros [= <-]; exists u0;
    (split_and!;
     [reflexivity
     |reflexivity
     |intros acc; cbn [Pos.of_uint_acc]; f_equal; unfold digit_value; simpl; lia
     |cbn [Pos.of_uint]; unfold digit_value; simpl; reflexivity]).
Qed.

Lemma int_acc_of_uint s : ∀ u acc,
  NilEmpty.uint_of_string s = Some u →
  int_acc (Npos acc) s = Npos (Pos.of_uint_acc u acc).
Proof.
  induction s as [|a s IH]; intros u acc; simpl.
  - by intros [= <-].
  - intros (u0 & Hs & Hd & Hacc & _)%uint_of_char_inv. rewrite Hacc.
    destruct (10 * N.pos acc + digit_value a)%N as [|p] eqn:E; [lia|].
    by apply IH.
Qed.

(** [int] reads a digit string as the standard library does. *)
Lemma int_of_uint s u :
  NilEmpty.uint_of_string s = Some u → int s = N.of_uint u.
Proof.
  unfold int, N.of_uint. revert u. induction s as [|a s IH]; intros u; simpl.
  - by intros [= <-].
  - intros (u0 & Hs & Hd & _ & Hu)%uint_of_char_inv. rewrite Hu.
    destruct (digit_value a) as [|p] eqn:E; simpl.
    + by apply IH.
    + by apply int_acc_of_uint.
Qed.

Lemma uint_of_string_all_digits s u :
  NilEmpty.uint_of_string s = Some u → all_digits s = true.
Proof.
  revert u. induction s as [|a s IH]; intros u; simpl; [done|].
  intros (u0 & Hs & Hd & _)%uint_of_char_inv. rewrite Hd. by eapply IH.
Qed.

End IntFacts.

(** C7.  [parse_trailing_number] splits the display name at the last ['-'];
    it answers the sentinel when the name is empty, when it has no
    separator, and when what follows the last separator does not begin
    with a digit (nothing follows it, or an ASCII character that is no
    digit); otherwise it answers the number that the maximal leading
    run of digits of what follows the last separator denotes in decimal
    notation, leading zeros allowed ([N.of_uint] of the numeral that the
    standard library reads from the run), for a run of ASCII digits
    that is within the 4300 digits CPython converts. *)
Theorem parse_trailing_number_spec (name : string) :
  (name = EmptyString → parse_trailing_number name = sentinel) ∧
  (PyStr.contains "-" name = false → parse_trailing_number name = sentinel) ∧
  (∀ prefix rest : string,
      name = prefix ++ String "-" rest →
      PyStr.contains "-" rest = false →
      PyStr.no_digit_ahead rest = true →
      parse_trailing_number name = sentinel) ∧
  (∀ (prefix digits rest : string) (numeral : Decimal.uint),
      name = prefix ++ String "-" (digits ++ rest) →
      PyStr.contains "-" rest = false →
      digits ≠ EmptyString →
      NilEmpty.uint_of_string digits = Some numeral →
      (String.length digits ≤ 4300)%nat →
      PyStr.no_digit_ahead rest = true →
      parse_trailing_number name = N.of_uint numeral).
Proof.
  unfold parse_trailing_number, PyStr.rsplit1, PyStr.re_match_digits.
  split; [by intros ->|]. split; [|split].
  - intros H. apply rsplit_last_none in H. rewrite H. simpl.
    by destruct (PyStr.truthy name).
  - intros prefix rest -> Hc Hd%no_digit_ahead_start.
    rewrite (rsplit_last_app _ _ _ Hc). simpl.
    rewrite leading_digits_truthy, Hd.
    by destruct (PyStr.truthy _).
  - intros prefix digits rest numeral -> Hc Hne Hu _ Hd%no_digit_ahead_start.
    pose proof (uint_of_string_all_digits _ _ Hu) as Hds.
    assert (PyStr.contains "-" (digits ++ rest) = false) as Hc'.
    { by rewrite contains_app, (all_digits_no_sep _ Hds), Hc. }
    rewrite (rsplit_last_app _ _ _ Hc'). simpl.
    rewrite (leading_digits_app _ _ Hds Hd), <-(int_of_uint _ _ Hu).
    destruct prefix; simpl; by destruct digits.
Qed.

Lemma parse_trailing_number_spec_witness :
  parse_trailing_number "" = sentinel ∧
  parse_trailing_number "N56E29" = sentinel ∧
  parse_trailing_number "N56-E29" = sentinel ∧
  parse_trailing_number "N56E29-" = sentinel ∧
  parse_trailing_number "N56-E29-010.5" = 10%N ∧
  parse_trailing_number "N56E29-001" = 1%N.
Proof.
  split; [|split; [|split; [|split; [|split]]]].
  - destruct (parse_trailing_number_spec "") as (H & _). apply H. reflexivity.
  - destruct (parse_trailing_number_spec "N56E29") as (_ & H & _). apply H. reflexivity.
  - destruct (parse_trailing_number_spec "N56-E29") as (_ & _ & H & _).
    apply (H "N56" "E29"); reflexivity.
  - destruct (parse_trailing_number_spec "N56E29-") as (_ & _ & H & _).
    apply (H "N56E29" ""); reflexivity.
  - destruct (parse_trailing_number_spec "N56-E29-010.5") as (_ & _ & _ & H).
    apply (H "N56-E29" "010" ".5" (Decimal.D0 (Decimal.D1 (Decimal.D0 Decimal.Nil))));
      [reflexivity|reflexivity|discriminate|reflexivity|simpl; lia|reflexivity].
  - destruct (parse_trailing_number_spec "N56E29-001") as (_ & _ & _ & H).
    apply (H "N56E29" "001" "" (Decimal.D0 (Decimal.D0 (Decimal.D1 Decimal.Nil))));
      [reflexivity|reflexivity|discriminate|reflexivity|simpl; lia|reflexivity].
Defined.

Local Close Scope string_scope.
Local Open Scope list_scope.

(** *** The stable sort *)

Section SortFacts.
Context {A : Type} (le : A → A → bool).

Lemma insert_sorted_perm x l : insert_sorted le x l ≡ₚ x :: l.
Proof.
  induction l as [|y l IH]; simpl; [done|].
  destruct (le x y); [done|]. rewrite IH. apply Permutation_swap.
Qed.

Lemma sort_with_perm l : sort_with le l ≡ₚ l.
Proof.
  induction l as [|x l IH]; simpl; [done|].
  by rewrite insert_sorted_perm, IH.
Qed.

Lemma sort_with_length l : length (sort_with le l) = length l.
Proof. by rewrite sort_with_perm. Qed.

Hypothesis le_total : ∀ x y, le x y = true ∨ le y x = true.

Lemma insert_sorted_HdRel a x l :
  le a x = true → HdRel (λ u v, le u v = true) a l →
  HdRel (λ u v, le u v = true) a (insert_sorted le x l).
Proof.
  intros Hax Hl. destruct l as [|y l]; simpl; [by constructor|].
  destruct (le x y); constructor; [done|]. by inversion Hl.
Qed.

Lemma insert_sorted_Sorted x l :
  Sorted (λ u v, le u v = true) l →
  Sorted (λ u v, le u v = true) (insert_sorted le x l).
Proof.
  induction 1 as [|y l Hl IH Hhd]; simpl; [by repeat constructor|].
  destruct (le x y) eqn:E.
  - constructor; [by constructor|]. by constructor.
  - constructor; [done|]. apply insert_sorted_HdRel; [|done].
    destruct (le_total x y); congruence.
Qed.

Lemma sort_with_Sorted l : Sorted (λ u v, le u v = true) (sort_with le l).
Proof.
  induction l as [|x l IH]; simpl; [constructor|].
  by apply insert_sorted_Sorted.
Qed.

End SortFacts.

Section SortedByKey.
Context {A : Type} (key : A → N).

Lemma sorted_perm l : sorted key l ≡ₚ l.
Proof. apply sort_with_perm. Qed.

Lemma sorted_StronglySorted l : StronglySorted (key_le key) (sorted key l).
Proof.
  apply Sorted_StronglySorted.
  - intros x y z. unfold key_le. lia.
  - assert (Sorted (λ u v, (key u <=? key v)%N = true) (sorted key l)) as Hs.
    { apply sort_with_Sorted. intros x y.
      destruct (N.le_ge_cases (key x) (key y)) as [H|H];
        [left|right]; by apply N.leb_le. }
    induction Hs as [|x l' Hs IH Hhd]; constructor; [done|].
    destruct Hhd; constructor. unfold key_le. by apply N.leb_le.
Qed.

(** Stability: the elements that share a key keep their relative order. *)
Lemma insert_sorted_filter_key (P : A → bool) x l :
  (∀ y, y ∈ l → P x = true → P y = true → (key x <=? key y)%N = true) →
  List.filter P (insert_sorted (λ x y, (key x <=? key y)%N) x l) = List.filter P (x :: l).
Proof.
  induction l as [|y l IH]; intros H; simpl; [done|].
  destruct (key x <=? key y)%N eqn:E; simpl; [done|].
  rewrite IH by (intros z Hz; apply H; by right). simpl.
  destruct (P x) eqn:Px, (P y) eqn:Py; try done.
  rewrite H in E; [done|by left|done|done].
Qed.

Lemma sorted_stable k l :
  List.filter (λ x, (key x =? k)%N) (sorted key l) = List.filter (λ x, (key x =? k)%N) l.
Proof.
  unfold sorted. induction l as [|x l IH]; simpl; [done|].
  rewrite insert_sorted_filter_key.
  - simpl. by rewrite IH.
  - intros y _ ->%N.eqb_eq ->%N.eqb_eq. apply N.leb_refl.
Qed.

Lemma StronglySorted_lookup_lt (l : list A) i j x y :
  StronglySorted (key_le key) l → l !! i = Some x → l !! j = Some y →
  (key y < key x)%N → j < i.
Proof.
  intros Hs Hi Hj Hlt. destruct (decide (j < i)) as [|Hge]; [done|exfalso].
  revert i j Hi Hj Hge. induction Hs as [|a l Hs IH Hall]; intros i j Hi Hj Hge; [done|].
  destruct i as [|i], j as [|j]; simpl in *.
  - simplify_eq. lia.
  - simplify_eq. rewrite Forall_forall in Hall.
    assert (key_le key x y) as Hle by (apply Hall; by eapply list_elem_of_lookup_2).
    unfold key_le in Hle. lia.
  - lia.
  - eapply (IH i j); [done|done|lia].
Qed.

End SortedByKey.

Section StableUnique.
Context {A : Type} (key : A → N).

Lemma filter_key_cons_inv k (x : A) l l' :
  List.filter (λ y, (key y =? k)%N) l = x :: l' → x ∈ l ∧ key x = k.
Proof.
  intros H.
  assert (x ∈ List.filter (λ y, (key y =? k)%N) l) as Hin by (rewrite H; by left).
  apply list_elem_of_In, filter_In in Hin as [Hin Hk].
  split; [by apply list_elem_of_In|by apply N.eqb_eq].
Qed.

(** A stable sort has one result: two lists sorted by key in which the
    elements of every key come in the same order are equal. *)
Lemma stable_sorted_unique (l1 l2 : list A) :
  StronglySorted (key_le key) l1 → StronglySorted (key_le key) l2 →
  (∀ k, List.filter (λ y, (key y =? k)%N) l1 = List.filter (λ y, (key y =? k)%N) l2) →
  l1 = l2.
Proof.
  intros H1. revert l2. induction H1 as [|x l1 Hs1 IH Hx]; intros l2 H2 Hf.
  - destruct l2 as [|y l2]; [done|]. specialize (Hf (key y)). simpl in Hf.
    by rewrite N.eqb_refl in Hf.
  - destruct H2 as [|y l2 Hs2 Hy].
    { specialize (Hf (key x)). simpl in Hf. by rewrite N.eqb_refl in Hf. }
    rewrite Forall_forall in Hx, Hy. unfold key_le in *.
    assert (key x = key y) as Hk.
    { pose proof (Hf (key x)) as Hfx. pose proof (Hf (key y)) as Hfy. simpl in Hfx, Hfy.
      rewrite N.eqb_refl in Hfx, Hfy.
      destruct (N.eqb_spec (key y) (key x)) as [|Hne]; [done|].
      destruct (N.eqb_spec (key x) (key y)) as [|_]; [done|].
      symmetry in Hfx. apply filter_key_cons_inv in Hfx as [Hin1 _].
      apply filter_key_cons_inv in Hfy as [Hin2 _].
      apply Hy in Hin1. apply Hx in Hin2. lia. }
    assert (x = y) as <-.
    { specialize (Hf (key x)). simpl in Hf. rewrite Hk, !N.eqb_refl in Hf.
      congruence. }
    f_equal. apply IH; [done|]. intros k. specialize (Hf k). simpl in Hf.
    destruct (key x =? k)%N; congruence.
Qed.

(** So [sorted] is the result of any stable sort, Python's among them. *)
Lemma sorted_unique (l l' : list A) :
  StronglySorted (key_le key) l' →
  (∀ k, List.filter (λ y, (key y =? k)%N) l' = List.filter (λ y, (key y =? k)%N) l) →
  l' = sorted key l.
Proof.
  intros Hs Hf. apply stable_sorted_unique; [done|apply sorted_StronglySorted|].
  intros k. by rewrite Hf, sorted_stable.
Qed.

End StableUnique.

(** *** Element trees *)

Section ElementFacts.
Import ET.

Lemma Element_forall_ind (P : Element → Prop) :
  (∀ i t x cs, Forall P cs → P (mkElement i t x cs)) → ∀ e, P e.
Proof.
  intros H. fix IH 1. intros [i t x cs]. apply H.
  induction cs as [|c cs IHcs]; constructor; [apply IH|apply IHcs].
Qed.

Lemma nodes_unfold e : nodes e = e :: flat_map nodes (children e).
Proof. by destruct e. Qed.

Lemma ids_unfold e : ids e = eid e :: flat_map ids (children e).
Proof.
  unfold ids. rewrite nodes_unfold. simpl. f_equal.
  induction (children e) as [|c cs IH]; simpl; [done|].
  by rewrite map_app, IH.
Qed.

Lemma elem_of_flat_map {A B} (f : A → list B) l y :
  y ∈ flat_map f l ↔ ∃ x, x ∈ l ∧ y ∈ f x.
Proof.
  rewrite list_elem_of_In, in_flat_map.
  split; intros (x & H1 & H2); exists x; by rewrite ?list_elem_of_In in *.
Qed.

Lemma elem_of_filter_bool {A} (P : A → bool) l x :
  x ∈ List.filter P l ↔ x ∈ l ∧ P x = true.
Proof. by rewrite !list_elem_of_In, filter_In. Qed.

Lemma nodes_self e : e ∈ nodes e.
Proof. rewrite nodes_unfold. by left. Qed.

Lemma elem_of_nodes e x :
  x ∈ nodes e ↔ x = e ∨ ∃ c, c ∈ children e ∧ x ∈ nodes c.
Proof. rewrite nodes_unfold, elem_of_cons, elem_of_flat_map. done. Qed.

Lemma elem_of_ids e i :
  i ∈ ids e ↔ i = eid e ∨ ∃ c, c ∈ children e ∧ i ∈ ids c.
Proof. rewrite ids_unfold, elem_of_cons, elem_of_flat_map. done. Qed.

Lemma elem_of_ids_nodes e i : i ∈ ids e ↔ ∃ x, x ∈ nodes e ∧ eid x = i.
Proof.
  unfold ids. rewrite list_elem_of_In, in_map_iff.
  split; intros (x & H1 & H2); exists x; by rewrite ?list_elem_of_In in *.
Qed.

Lemma nodes_trans e x y : x ∈ nodes e → y ∈ nodes x → y ∈ nodes e.
Proof.
  revert x y. induction e as [i t s cs IH] using Element_forall_ind.
  intros x y Hx Hy. apply elem_of_nodes in Hx as [->|(c & Hc & Hx)]; [done|].
  apply elem_of_nodes. right. exists c. split; [done|].
  rewrite Forall_forall in IH. by eapply IH.
Qed.

Lemma ids_nodes_subseteq e x : x ∈ nodes e → ids x ⊆ ids e.
Proof.
  intros Hx i (y & Hy & <-)%elem_of_ids_nodes.
  apply elem_of_ids_nodes. exists y. split; [|done]. by eapply nodes_trans.
Qed.

Lemma children_nodes e c : c ∈ children e → c ∈ nodes e.
Proof. intros. apply elem_of_nodes. right. exists c. split; [done|apply nodes_self]. Qed.

Lemma descendants_nodes e x : x ∈ descendants e ↔ ∃ c, c ∈ children e ∧ x ∈ nodes c.
Proof. unfold descendants. apply elem_of_flat_map. Qed.

Lemma NoDup_flat_map_elem {A B} (f : A → list B) l x :
  NoDup (flat_map f l) → x ∈ l → NoDup (f x).
Proof.
  induction l as [|a l IH]; simpl; [by intros _ ?%elem_of_nil|].
  intros (H1 & H2 & H3)%NoDup_app [->|Hx]%elem_of_cons; auto.
Qed.

Lemma wf_child e c : wf e → c ∈ children e → wf c.
Proof.
  unfold wf. rewrite ids_unfold. intros [_ H]%NoDup_cons Hc.
  by eapply NoDup_flat_map_elem.
Qed.

Lemma wf_nodes e x : wf e → x ∈ nodes e → wf x.
Proof.
  revert x. induction e as [i t s cs IH] using Element_forall_ind.
  intros x Hwf [->|(c & Hc & Hx)]%elem_of_nodes; [done|].
  rewrite Forall_forall in IH. eapply IH; [done| |done].
  by eapply wf_child.
Qed.

Lemma wf_not_in_children e c : wf e → c ∈ children e → eid e ∉ ids c.
Proof.
  unfold wf. rewrite ids_unfold. intros [H _]%NoDup_cons Hc Hin.
  apply H. apply elem_of_flat_map. eauto.
Qed.

(** Two children of a node share no object. *)
Lemma NoDup_flat_map_disjoint {A B} (f : A → list B) l1 x l2 y :
  NoDup (flat_map f (l1 ++ x :: l2)) → y ∈ f x →
  (∀ c, c ∈ l1 ++ l2 → y ∉ f c).
Proof.
  rewrite flat_map_app. simpl.
  intros (H1 & H2 & (H3 & H4 & H5)%NoDup_app)%NoDup_app Hy c Hc Hyc.
  apply elem_of_app in Hc as [Hc|Hc].
  - eapply (H2 y); [apply elem_of_flat_map; eauto|]. apply elem_of_app. by left.
  - eapply (H4 y); [done|]. apply elem_of_flat_map; eauto.
Qed.


Lemma upd_unfold i f e :
  upd i f e = if Nat.eqb (eid e) i then f e
              else mkElement (eid e) (tag e) (text e) (map (upd i f) (children e)).
Proof. by destruct e. Qed.

Lemma map_id_on {A} (f : A → A) l : (∀ x, x ∈ l → f x = x) → map f l = l.
Proof.
  induction l as [|a l IH]; intros H; simpl; [done|].
  rewrite H by (by left). rewrite IH; [done|]. intros x Hx. apply H. by right.
Qed.

(** Mutating an object that is not in the tree changes nothing. *)
Lemma upd_notin i f e : i ∉ ids e → upd i f e = e.
Proof.
  induction e as [j t s cs IH] using Element_forall_ind. intros Hi.
  rewrite upd_unfold. simpl.
  destruct (Nat.eqb_spec j i) as [->|Hne].
  - exfalso. apply Hi. apply elem_of_ids. by left.
  - f_equal. apply map_id_on. intros c Hc.
    rewrite Forall_forall in IH. apply IH; [done|].
    intros Hin. apply Hi. apply elem_of_ids. right. eauto.
Qed.

Lemma get_unfold i e :
  get i e = if Nat.eqb (eid e) i then Some e
            else List.find (has_id i) (flat_map nodes (children e)).
Proof. unfold get. rewrite nodes_unfold. simpl. unfold has_id at 1. done. Qed.

Lemma get_Some i e x : get i e = Some x → x ∈ nodes e ∧ eid x = i.
Proof.
  unfold get. intros [H1 H2]%find_some. split; [by apply list_elem_of_In|].
  unfold has_id in H2. by apply Nat.eqb_eq.
Qed.

Lemma get_None i e : get i e = None ↔ i ∉ ids e.
Proof.
  unfold get. split.
  - intros H (x & Hx & <-)%elem_of_ids_nodes.
    eapply find_none in H; [|by apply list_elem_of_In].
    unfold has_id in H. by rewrite Nat.eqb_refl in H.
  - intros H. destruct (List.find _ _) as [x|] eqn:E; [|done].
    apply find_some in E as [H1 H2]. exfalso. apply H.
    apply elem_of_ids_nodes. exists x. split; [by apply list_elem_of_In|].
    by apply Nat.eqb_eq.
Qed.

Lemma find_NoDup_map {A} (g : A → nat) (l : list A) x :
  NoDup (map g l) → x ∈ l → List.find (λ y, Nat.eqb (g y) (g x)) l = Some x.
Proof.
  induction l as [|a l IH]; simpl; [by intros _ ?%elem_of_nil|].
  intros [H1 H2]%NoDup_cons [->|Hx]%elem_of_cons.
  - by rewrite Nat.eqb_refl.
  - destruct (Nat.eqb_spec (g a) (g x)) as [E|_]; [|by apply IH].
    exfalso. apply H1. rewrite E. apply list_elem_of_In, in_map, list_elem_of_In. done.
Qed.

(** In a tree of distinct objects an object is found by its identity. *)
Lemma get_wf e x : wf e → x ∈ nodes e → get (eid x) e = Some x.
Proof. intros Hwf Hx. unfold get, has_id. by apply (find_NoDup_map eid). Qed.

Lemma get_self e : get (eid e) e = Some e.
Proof. rewrite get_unfold. by rewrite Nat.eqb_refl. Qed.


Lemma flat_map_flat_map {A B C} (f : A → list B) (g : B → list C) l :
  flat_map g (flat_map f l) = flat_map (λ x, flat_map g (f x)) l.
Proof.
  induction l as [|a l IH]; simpl; [done|]. by rewrite flat_map_app, IH.
Qed.

Lemma find_app_Some {A} (P : A → bool) l1 l2 :
  List.find P (l1 ++ l2) =
    match List.find P l1 with Some x => Some x | None => List.find P l2 end.
Proof. induction l1 as [|a l1 IH]; simpl; [done|]. by destruct (P a). Qed.

(** A mutation of the object [d] seen through a projection [h] of the
    nodes that does not look at the children of the ancestors of [d]:
    what [f] adds below [d] is what is added to the tree. *)
Section UpdFlat.
Context {B : Type} (h : Element → list B) (d : nat) (f : Element → Element).
Context (X : list B) (dn : Element).
Hypothesis Hf : flat_map h (nodes (f dn)) ≡ₚ flat_map h (nodes dn) ++ X.

Lemma flat_upd_children cs :
  NoDup (flat_map ids cs) →
  List.find (has_id d) (flat_map nodes cs) = Some dn →
  Forall (λ c, get d c = Some dn →
               flat_map h (nodes (upd d f c)) ≡ₚ flat_map h (nodes c) ++ X) cs →
  flat_map (λ c, flat_map h (nodes c)) (map (upd d f) cs)
    ≡ₚ flat_map (λ c, flat_map h (nodes c)) cs ++ X.
Proof.
  induction cs as [|c cs IH]; simpl; [done|].
  intros (Hc & Hdisj & Hcs)%NoDup_app Hfind [Hhd Htl]%Forall_cons.
  rewrite find_app_Some in Hfind. fold (get d c) in Hfind.
  destruct (get d c) as [x|] eqn:Hg.
  - simplify_eq. rewrite Hhd by done.
    rewrite (map_id_on (upd d f) cs).
    + by rewrite <-!app_assoc, (Permutation_app_comm X).
    + intros c' Hc'. apply upd_notin. intros Hin.
      apply get_Some in Hg as [Hx <-].
      eapply Hdisj; [|apply elem_of_flat_map; eauto].
      apply elem_of_ids_nodes; eauto.
  - rewrite upd_notin by (by apply get_None).
    rewrite IH by done. by rewrite app_assoc.
Qed.

Lemma flat_upd t :
  wf t → get d t = Some dn →
  (∀ e cs, e ∈ nodes t → d ∈ flat_map ids (children e) →
           h (mkElement (eid e) (tag e) (text e) cs) = h e) →
  flat_map h (nodes (upd d f t)) ≡ₚ flat_map h (nodes t) ++ X.
Proof.
  induction t as [j tg s cs IH] using Element_forall_ind.
  intros Hwf Hget Hh. rewrite upd_unfold. simpl eid.
  rewrite get_unfold in Hget. simpl in Hget.
  destruct (Nat.eqb j d) eqn:Ej; [by simplify_eq|].
  simpl. rewrite !flat_map_flat_map.
  rewrite (Hh (mkElement j tg s cs)); simpl.
  - rewrite <-app_assoc. f_equiv.
    unfold wf in Hwf. rewrite ids_unfold in Hwf. apply NoDup_cons in Hwf as [_ Hwf].
    apply flat_upd_children; [done|done|].
    rewrite Forall_forall in IH |- *. intros c Hc Hgc. apply IH; [done| |done|].
    + by eapply NoDup_flat_map_elem.
    + intros e cs' He Hd. apply Hh; [|done].
      apply elem_of_nodes. right. eauto.
  - apply nodes_self.
  - apply find_some in Hget as [H1 H2]. apply list_elem_of_In in H1.
    apply elem_of_flat_map in H1 as (c & Hc & Hx).
    apply elem_of_flat_map. exists c. split; [done|].
    apply elem_of_ids_nodes. exists dn. split; [done|]. by apply Nat.eqb_eq.
Qed.

End UpdFlat.

(** The object [d] after its mutation. *)
Lemma get_upd_same d f t dn :
  get d t = Some dn → eid (f dn) = d → get d (upd d f t) = Some (f dn).
Proof.
  induction t as [j tg s cs IH] using Element_forall_ind.
  intros Hget Hid. rewrite upd_unfold. simpl eid.
  rewrite get_unfold in Hget. simpl in Hget.
  destruct (Nat.eqb j d) eqn:Ej.
  - injection Hget as <-. by rewrite get_unfold, Hid, Nat.eqb_refl.
  - rewrite get_unfold. simpl. rewrite Ej.
    clear Ej. induction cs as [|c cs IHcs]; simpl in *; [done|].
    apply Forall_cons in IH as [IHc IH].
    rewrite find_app_Some in Hget |- *. fold (get d c) in Hget.
    fold (get d (upd d f c)).
    destruct (get d c) as [x|] eqn:Hg.
    + simplify_eq. by rewrite IHc.
    + rewrite upd_notin by (by apply get_None). rewrite Hg. by apply IHcs.
Qed.


(** *** Assignments to [text] keep the shape of the tree *)

Lemma eid_upd_set_text i s e : eid (upd i (set_text s) e) = eid e.
Proof. rewrite upd_unfold. by destruct (Nat.eqb _ _). Qed.

Lemma tag_upd_set_text i s e : tag (upd i (set_text s) e) = tag e.
Proof. rewrite upd_unfold. by destruct (Nat.eqb _ _). Qed.

Lemma children_upd_set_text i s e :
  children (upd i (set_text s) e) =
    if Nat.eqb (eid e) i then children e else map (upd i (set_text s)) (children e).
Proof. rewrite upd_unfold. by destruct (Nat.eqb _ _). Qed.

Lemma text_upd_set_text i s e :
  text (upd i (set_text s) e) = if Nat.eqb (eid e) i then Some s else text e.
Proof. rewrite upd_unfold. by destruct (Nat.eqb _ _). Qed.

Lemma flat_map_map {A B C} (f : A → B) (g : B → list C) l :
  flat_map g (map f l) = flat_map (λ x, g (f x)) l.
Proof. induction l as [|a l IH]; simpl; [done|]. by rewrite IH. Qed.

Lemma map_flat_map {A B C} (f : A → list B) (g : B → C) l :
  map g (flat_map f l) = flat_map (λ x, map g (f x)) l.
Proof. induction l as [|a l IH]; simpl; [done|]. by rewrite map_app, IH. Qed.

Lemma flat_map_ext_elem {A B} (f g : A → list B) l :
  (∀ x, x ∈ l → f x = g x) → flat_map f l = flat_map g l.
Proof.
  induction l as [|a l IH]; intros H; simpl; [done|].
  rewrite H by (by left). rewrite IH; [done|]. intros x Hx. apply H. by right.
Qed.

Lemma map_ext_elem {A B} (f g : A → B) l :
  (∀ x, x ∈ l → f x = g x) → map f l = map g l.
Proof.
  induction l as [|a l IH]; intros H; simpl; [done|].
  rewrite H by (by left). rewrite IH; [done|]. intros x Hx. apply H. by right.
Qed.

Lemma wf_descendant_not_self e x : wf e → x ∈ descendants e → eid e ∉ ids x.
Proof.
  intros Hwf (c & Hc & Hx)%descendants_nodes Hin.
  eapply wf_not_in_children; [done|done|]. by eapply ids_nodes_subseteq.
Qed.

Lemma nodes_upd_set_text i s e :
  wf e → nodes (upd i (set_text s) e) = map (upd i (set_text s)) (nodes e).
Proof.
  induction e as [j tg x cs IH] using Element_forall_ind. intros Hwf.
  rewrite upd_unfold. simpl eid. destruct (Nat.eqb_spec j i) as [->|Hne].
  - rewrite (nodes_unfold (mkElement _ _ _ _)). simpl.
    rewrite Nat.eqb_refl. f_equal. symmetry. apply map_id_on.
    intros y Hy. apply upd_notin. by apply (wf_descendant_not_self (mkElement i tg x cs)).
  - rewrite (nodes_unfold (mkElement j tg x cs)). simpl.
    destruct (Nat.eqb_spec j i) as [|_]; [done|]. f_equal.
    rewrite flat_map_map, map_flat_map. apply flat_map_ext_elem.
    intros c Hc. rewrite Forall_forall in IH. apply IH; [done|].
    by eapply wf_child.
Qed.

Lemma ids_upd_set_text i s e : wf e → ids (upd i (set_text s) e) = ids e.
Proof.
  intros Hwf. unfold ids. rewrite nodes_upd_set_text by done.
  rewrite map_map. apply map_ext. intros. apply eid_upd_set_text.
Qed.

Lemma wf_upd_set_text i s e : wf e → wf (upd i (set_text s) e).
Proof. intros Hwf. unfold wf. by rewrite ids_upd_set_text. Qed.

Lemma filter_map_comm {A} (P : A → bool) (g : A → A) l :
  (∀ x, P (g x) = P x) → List.filter P (map g l) = map g (List.filter P l).
Proof.
  intros H. induction l as [|a l IH]; simpl; [done|].
  rewrite H. destruct (P a); simpl; by rewrite IH.
Qed.

(** *** Copies *)

Lemma eid_shift k e : eid (shift k e) = k + eid e.
Proof. by destruct e. Qed.
Lemma tag_shift k e : tag (shift k e) = tag e.
Proof. by destruct e. Qed.
Lemma text_shift k e : text (shift k e) = text e.
Proof. by destruct e. Qed.
Lemma children_shift k e : children (shift k e) = map (shift k) (children e).
Proof. by destruct e. Qed.

Lemma nodes_shift k e : nodes (shift k e) = map (shift k) (nodes e).
Proof.
  induction e as [j tg x cs IH] using Element_forall_ind.
  simpl. f_equal. rewrite flat_map_map, map_flat_map.
  apply flat_map_ext_elem. intros c Hc. rewrite Forall_forall in IH. by apply IH.
Qed.

Lemma ids_shift k e : ids (shift k e) = map (λ i, k + i) (ids e).
Proof.
  unfold ids. rewrite nodes_shift, !map_map. apply map_ext. intros. apply eid_shift.
Qed.

Lemma wf_shift k e : wf e → wf (shift k e).
Proof.
  unfold wf. rewrite ids_shift. intros H.
  assert (Inj (=) (=) (λ i, k + i)) by (intros a b; lia).
  by apply (NoDup_fmap_2 (λ i, k + i)).
Qed.

Lemma fresh_gt e i : i ∈ ids e → i < fresh e.
Proof.
  intros Hi. unfold fresh.
  pose proof (proj1 (list_max_le (ids e) (list_max (ids e))) (le_n _)) as H.
  rewrite Forall_forall in H. apply H in Hi. lia.
Qed.

Lemma fresh_notin e : fresh e ∉ ids e.
Proof. intros H%fresh_gt. lia. Qed.

Lemma clone_ids_fresh root e i : i ∈ ids (clone root e) → fresh root ≤ i.
Proof.
  unfold clone. rewrite ids_shift. intros H%list_elem_of_In%in_map_iff.
  destruct H as (j & <- & _). lia.
Qed.

End ElementFacts.

Section ReorderFacts.
Import ET.

Lemma remove_child_app i acc o l :
  (∀ x, x ∈ acc → eid x ≠ i) → eid o = i →
  remove_child i (acc ++ o :: l) = Some (acc ++ l).
Proof.
  intros Hacc Ho. induction acc as [|a acc IH]; simpl.
  - unfold has_id. by rewrite Ho, Nat.eqb_refl.
  - unfold has_id at 1. destruct (Nat.eqb_spec (eid a) i) as [E|_].
    + exfalso. by apply (Hacc a); [left|].
    + rewrite IH; [done|]. intros x Hx. apply Hacc. by right.
Qed.

Lemma remove_child_Some i cs cs' :
  remove_child i cs = Some cs' →
  ∃ pre o post, cs = pre ++ o :: post ∧ cs' = pre ++ post ∧ eid o = i.
Proof.
  revert cs'. induction cs as [|c cs IH]; intros cs'; simpl; [done|].
  unfold has_id at 1. destruct (Nat.eqb_spec (eid c) i) as [E|_].
  - intros [= <-]. by exists [], c, cs.
  - destruct (remove_child i cs) as [r|]; [|done]. intros [= <-].
    destruct (IH r eq_refl) as (pre & o & post & -> & -> & Ho).
    by exists (c :: pre), o, post.
Qed.

Lemma remove_all_filter (P : Element → bool) acc l :
  NoDup (map eid (acc ++ l)) → (∀ x, x ∈ acc → P x = false) →
  remove_all (List.filter P l) (acc ++ l) = Some (acc ++ List.filter (λ x, negb (P x)) l).
Proof.
  revert acc. induction l as [|x l IH]; intros acc Hnd Hacc; simpl; [done|].
  destruct (P x) eqn:Px; simpl.
  - rewrite remove_child_app; [| |done].
    + apply IH; [|done]. rewrite map_app in Hnd |- *. simpl in Hnd.
      apply NoDup_app in Hnd as (H1 & H2 & [H3 H4]%NoDup_cons).
      apply NoDup_app. split_and!; [done| |done].
      intros i Hi Hin. apply (H2 i Hi). by right.
    + intros y Hy E. rewrite map_app in Hnd. simpl in Hnd.
      apply NoDup_app in Hnd as (_ & H2 & _). apply (H2 (eid y)).
      * apply list_elem_of_In, in_map, list_elem_of_In. done.
      * rewrite E. by left.
  - rewrite (cons_middle x acc l), app_assoc. rewrite IH.
    + by rewrite <-app_assoc.
    + by rewrite <-app_assoc.
    + intros y [Hy|Hy%list_elem_of_singleton]%elem_of_app; [auto|by subst].
Qed.

Lemma NoDup_map_head {A B} (f : A → list B) (g : A → B) l :
  (∀ x, g x ∈ f x) → NoDup (flat_map f l) → NoDup (map g l).
Proof.
  intros Hg. induction l as [|a l IH]; simpl; [constructor|].
  intros (H1 & H2 & H3)%NoDup_app. apply NoDup_cons. split; [|by apply IH].
  intros (x & E & Hx%list_elem_of_In)%list_elem_of_In%in_map_iff.
  apply (H2 (g a)); [apply Hg|]. apply elem_of_flat_map. exists x.
  split; [done|]. rewrite <-E. apply Hg.
Qed.

Lemma wf_children_ids e : wf e → NoDup (map eid (children e)).
Proof.
  unfold wf. rewrite ids_unfold. intros [_ H]%NoDup_cons.
  eapply NoDup_map_head; [|done]. intros x. rewrite ids_unfold. by left.
Qed.

Lemma filter_all {A} (P : A → bool) l : (∀ x, x ∈ l → P x = true) → List.filter P l = l.
Proof.
  induction l as [|a l IH]; intros H; simpl; [done|].
  rewrite H by (by left). f_equal. apply IH. intros x Hx. apply H. by right.
Qed.

Lemma filter_none {A} (P : A → bool) l : (∀ x, x ∈ l → P x = false) → List.filter P l = [].
Proof.
  induction l as [|a l IH]; intros H; simpl; [done|].
  rewrite H by (by left). apply IH. intros x Hx. apply H. by right.
Qed.

Lemma filter_split_perm {A} (P : A → bool) l :
  List.filter (λ x, negb (P x)) l ++ List.filter P l ≡ₚ l.
Proof.
  induction l as [|a l IH]; simpl; [done|].
  destruct (P a); simpl.
  - by rewrite <-Permutation_middle, IH.
  - by rewrite IH.
Qed.

(** [reorder_overlays] on a node whose children are distinct objects:
    the other children stay in place in front, the overlays follow in
    sorted order. *)
Lemma reorder_node_wf dn :
  wf dn →
  reorder_node dn =
    Ok (set_children
          (List.filter (λ x, negb (is_overlay x)) (children dn)
           ++ sorted get_overlay_key (findall_child "GroundOverlay" dn)) dn).
Proof.
  intros Hwf. unfold reorder_node, findall_child.
  pose proof (remove_all_filter (has_tag (kml "GroundOverlay")) [] (children dn)) as H.
  simpl app in H. rewrite H; [done| |].
  - by apply wf_children_ids.
  - by intros x ?%elem_of_nil.
Qed.

Lemma findall_child_reordered dn :
  findall_child "GroundOverlay"
    (set_children
       (List.filter (λ x, negb (is_overlay x)) (children dn)
        ++ sorted get_overlay_key (findall_child "GroundOverlay" dn)) dn)
  = sorted get_overlay_key (findall_child "GroundOverlay" dn).
Proof.
  unfold findall_child at 1. simpl. rewrite List.filter_app.
  rewrite filter_none, filter_all; [done| |].
  - intros x Hx. rewrite sorted_perm in Hx. by apply elem_of_filter_bool in Hx as [_ ?].
  - intros x [_ Hx]%elem_of_filter_bool. unfold is_overlay in Hx.
    by destruct (has_tag _ x).
Qed.

Lemma ids_set_children_perm cs e :
  cs ≡ₚ children e → ids (set_children cs e) ≡ₚ ids e.
Proof.
  intros H. rewrite !ids_unfold. simpl. constructor.
  by apply Permutation_flat_map.
Qed.

End ReorderFacts.

Section Labels.
Import ET.

Lemma flat_map_singleton {A B} (g : A → B) l : flat_map (λ x, [g x]) l = map g l.
Proof. induction l as [|a l IH]; simpl; [done|]. by rewrite IH. Qed.

Lemma labels_fst e : map fst (labels e) = ids e.
Proof. unfold labels, ids. by rewrite map_map. Qed.

Lemma elem_of_map_iff {A B} (g : A → B) l y : y ∈ map g l ↔ ∃ x, x ∈ l ∧ g x = y.
Proof.
  rewrite list_elem_of_In, in_map_iff.
  split; intros (x & H1 & H2); exists x; by rewrite ?list_elem_of_In in *.
Qed.

Lemma labels_get e i g :
  wf e → (i, g) ∈ labels e → ∃ x, get i e = Some x ∧ tag x = g ∧ x ∈ nodes e.
Proof.
  intros Hwf (x & Hx & [= <- <-])%elem_of_map_iff.
  exists x. split_and!; [by apply get_wf|done|done].
Qed.

Lemma get_labels e i x : get i e = Some x → (i, tag x) ∈ labels e.
Proof.
  intros [Hx <-]%get_Some. apply elem_of_map_iff. by exists x.
Qed.

(** What a mutation of the object [d] does to the identities and to the
    labels of the tree. *)
Lemma ids_upd d f t dn X :
  wf t → get d t = Some dn → ids (f dn) ≡ₚ ids dn ++ X →
  ids (upd d f t) ≡ₚ ids t ++ X.
Proof.
  intros Hwf Hg Hf. unfold ids in *. rewrite <-!flat_map_singleton in *.
  by eapply flat_upd.
Qed.

Lemma labels_upd d f t dn X :
  wf t → get d t = Some dn → labels (f dn) ≡ₚ labels dn ++ X →
  labels (upd d f t) ≡ₚ labels t ++ X.
Proof.
  intros Hwf Hg Hf. unfold labels in *. rewrite <-!flat_map_singleton in *.
  by eapply flat_upd.
Qed.

Lemma wf_upd d f t dn X :
  wf t → get d t = Some dn → ids (f dn) ≡ₚ ids dn ++ X →
  NoDup X → (∀ i, i ∈ X → i ∉ ids t) →
  wf (upd d f t).
Proof.
  intros Hwf Hg Hf HX Hdisj. unfold wf. rewrite (ids_upd d f t dn X) by done.
  apply NoDup_app. split_and!; [done| |done].
  intros i Hi HiX. by apply (Hdisj i).
Qed.

Lemma ids_append c e : ids (append c e) = ids e ++ ids c.
Proof.
  rewrite (ids_unfold (append c e)), (ids_unfold e). simpl.
  rewrite flat_map_app. simpl. by rewrite app_nil_r.
Qed.

Lemma labels_append c e : labels (append c e) = labels e ++ labels c.
Proof.
  unfold labels. rewrite (nodes_unfold (append c e)), (nodes_unfold e). simpl.
  rewrite flat_map_app, map_app. simpl. by rewrite app_nil_r.
Qed.

Lemma labels_upd_set_text i s e : wf e → labels (upd i (set_text s) e) = labels e.
Proof.
  intros Hwf. unfold labels. rewrite nodes_upd_set_text by done.
  rewrite map_map. apply map_ext. intros x.
  by rewrite eid_upd_set_text, tag_upd_set_text.
Qed.

Lemma labels_shift k e : labels (shift k e) = map (λ p, (k + p.1, p.2)) (labels e).
Proof.
  unfold labels. rewrite nodes_shift, !map_map. apply map_ext. intros x.
  by rewrite eid_shift, tag_shift.
Qed.

Lemma find_map_preserve {A} (P : A → bool) (g : A → A) l :
  (∀ x, P (g x) = P x) → List.find P (map g l) = g <$> List.find P l.
Proof.
  intros H. induction l as [|a l IH]; simpl; [done|].
  rewrite H. by destruct (P a).
Qed.

Lemma get_upd_set_text d i s t :
  wf t → get d (upd i (set_text s) t) = upd i (set_text s) <$> get d t.
Proof.
  intros Hwf. unfold get. rewrite nodes_upd_set_text by done.
  apply find_map_preserve. intros x. unfold has_id. by rewrite eid_upd_set_text.
Qed.

End Labels.

Section BuildFacts.
Import ET.

Lemma has_tag_eq t e : has_tag t e = true ↔ tag e = t.
Proof. unfold has_tag. apply String.eqb_eq. Qed.

(** **** The clone of the template *)

Lemma assign_text_shape found s e :
  wf e →
  let e' := assign_text found s e in
  wf e' ∧ ids e' = ids e ∧ tag e' = tag e ∧ labels e' = labels e.
Proof.
  intros He. unfold assign_text. destruct found as [el|]; [|done].
  split_and!; [by apply wf_upd_set_text|by apply ids_upd_set_text
              |apply tag_upd_set_text|by apply labels_upd_set_text].
Qed.

Lemma new_overlay_shape subfolder_name fname root T :
  wf T →
  let c := new_overlay_for subfolder_name fname root T in
  wf c ∧ ids c = map (λ i, fresh root + i) (ids T) ∧ tag c = tag T ∧
  labels c = map (λ p, (fresh root + p.1, p.2)) (labels T).
Proof.
  intros HT. unfold new_overlay_for, clone.
  pose proof (wf_shift (fresh root) T HT) as H0.
  set (c0 := shift (fresh root) T) in *.
  destruct (assign_text_shape (find_icon_href c0)
              (subfolder_name +:+ "/" +:+ fname) c0 H0) as (H1 & I1 & T1 & L1).
  set (c1 := assign_text (find_icon_href c0) _ c0) in *.
  destruct (assign_text_shape (find_desc "name" c1)
              (PyStr.splitext_root fname) c1 H1) as (H2 & I2 & T2 & L2).
  simpl. split_and!; [done| | |].
  - rewrite I2, I1. apply ids_shift.
  - rewrite T2, T1. apply tag_shift.
  - rewrite L2, L1. apply labels_shift.
Qed.

Lemma add_overlay_inv subfolder_name fname tmpl doc t T dn :
  wf t → get tmpl t = Some T → get doc t = Some dn →
  let c := new_overlay_for subfolder_name fname t T in
  let t' := upd doc (append c) t in
  wf t' ∧ get doc t' = Some (append c dn) ∧ labels t' ≡ₚ labels t ++ labels c ∧
  tag c = tag T.
Proof.
  intros Hwf HT Hdn c t'.
  assert (wf T) as HwT by (eapply wf_nodes; [done|by apply get_Some in HT as [? _]]).
  destruct (new_overlay_shape subfolder_name fname t T HwT) as (Hc & Ic & Tc & Lc).
  fold c in Hc, Ic, Tc, Lc.
  split_and!; [| | |done].
  - eapply (wf_upd doc _ t dn (ids c)); [done|done|by rewrite ids_append|done|].
    intros i Hi Hin. rewrite Ic in Hi.
    apply elem_of_map_iff in Hi as (j & _ & <-). apply fresh_gt in Hin. lia.
  - apply get_upd_same; [done|]. simpl. by apply get_Some in Hdn as [_ ?].
  - eapply labels_upd; [done|done|]. by rewrite labels_append.
Qed.

Lemma create_overlays_inv subfolder_name tmpl doc cl : ∀ t dn,
  wf t → (tmpl, overlay_tag) ∈ labels t → get doc t = Some dn →
  let t' := create_overlays subfolder_name tmpl doc cl t in
  ∃ clones,
    wf t' ∧ (tmpl, overlay_tag) ∈ labels t' ∧
    get doc t' = Some (set_children (children dn ++ clones) dn) ∧
    length clones = length cl ∧ Forall (λ c, tag c = overlay_tag) clones.
Proof.
  induction cl as [|[abs fname] cl IH]; intros t dn Hwf Hl Hdn; simpl.
  - exists []. rewrite app_nil_r. split_and!; try done. by destruct dn.
  - destruct (labels_get t tmpl overlay_tag Hwf Hl) as (T & HT & Htag & _).
    rewrite HT.
    destruct (add_overlay_inv subfolder_name fname tmpl doc t T dn Hwf HT Hdn)
      as (Hwf' & Hdn' & Hl' & Hc).
    set (c := new_overlay_for subfolder_name fname t T) in *.
    destruct (IH (upd doc (append c) t) (append c dn)) as (clones & W & L & G & Len & Tags);
      [done| |done|].
    { rewrite Hl'. apply elem_of_app. by left. }
    exists (c :: clones). split_and!; [done|done| |by simpl; rewrite Len|].
    + rewrite G. simpl. by rewrite <-app_assoc.
    + constructor; [|done]. by rewrite Hc.
Qed.

(** **** The name of the group node *)

Lemma rename_group_inv subfolder_name tmpl doc t dn :
  wf t → (tmpl, overlay_tag) ∈ labels t → get doc t = Some dn →
  let t' := rename_group subfolder_name doc t in
  ∃ dn', wf t' ∧ (tmpl, overlay_tag) ∈ labels t' ∧ get doc t' = Some dn' ∧
         length (findall_child "GroundOverlay" dn') = length (findall_child "GroundOverlay" dn).
Proof.
  intros Hwf Hl Hdn. unfold rename_group. rewrite Hdn.
  destruct (find_child "name" dn) as [n|].
  - exists (upd (eid n) (set_text subfolder_name) dn). split_and!.
    + by apply wf_upd_set_text.
    + by rewrite labels_upd_set_text.
    + by rewrite get_upd_set_text, Hdn.
    + unfold findall_child. rewrite children_upd_set_text.
      destruct (Nat.eqb _ _); [done|].
      rewrite filter_map_comm, length_map; [done|].
      intros x. unfold has_tag. by rewrite tag_upd_set_text.
  - set (nm := mkElement (fresh t) (kml "name") (Some subfolder_name) []).
    exists (append nm dn). split_and!.
    + eapply (wf_upd doc _ t dn [fresh t]); [done|done|by rewrite ids_append| |].
      * apply NoDup_singleton.
      * intros i ->%list_elem_of_singleton. apply fresh_notin.
    + rewrite (labels_upd doc _ t dn (labels nm)); [|done|done|by rewrite labels_append].
      apply elem_of_app. by left.
    + apply get_upd_same; [done|]. simpl. by apply get_Some in Hdn as [_ ?].
    + unfold findall_child. simpl. rewrite List.filter_app. simpl.
      by rewrite app_nil_r.
Qed.

End BuildFacts.

Section LocateFacts.
Import ET.

Lemma NoDup_flat_map_inj {A B} (f : A → list B) l x y z :
  NoDup (flat_map f l) → x ∈ l → y ∈ l → z ∈ f x → z ∈ f y → x = y.
Proof.
  induction l as [|a l IH]; simpl; [by intros _ ?%elem_of_nil|].
  intros (H1 & H2 & H3)%NoDup_app [->|Hx]%elem_of_cons [->|Hy]%elem_of_cons Hzx Hzy.
  - done.
  - exfalso. apply (H2 z Hzx). apply elem_of_flat_map; eauto.
  - exfalso. apply (H2 z Hzy). apply elem_of_flat_map; eauto.
  - by apply IH.
Qed.

Lemma ids_removed_child e pre o post :
  children e = pre ++ o :: post →
  ids e ≡ₚ ids (set_children (pre ++ post) e) ++ ids o.
Proof.
  intros Hc. rewrite (ids_unfold e), (ids_unfold (set_children _ _)), Hc. simpl.
  constructor. rewrite !flat_map_app. simpl.
  rewrite <-app_assoc. f_equiv. apply Permutation_app_comm.
Qed.

Lemma labels_removed_child e pre o post :
  children e = pre ++ o :: post →
  labels e ≡ₚ labels (set_children (pre ++ post) e) ++ labels o.
Proof.
  intros Hc. unfold labels.
  rewrite (nodes_unfold e), (nodes_unfold (set_children _ _)), Hc. simpl.
  constructor. rewrite !flat_map_app, !map_app. simpl. rewrite map_app.
  rewrite <-app_assoc. f_equiv. apply Permutation_app_comm.
Qed.

(** One turn of the loop that moves the overlays under the new node. *)
Lemma move_overlay_step doc r pre o post D :
  wf r → eid r ≠ doc → children r = pre ++ o :: post →
  D ∈ children r → eid D = doc → eid o ≠ doc →
  let r' := upd doc (append o) (set_children (pre ++ post) r) in
  wf r' ∧ labels r' ≡ₚ labels r ∧ eid r' = eid r ∧
  children r' = map (upd doc (append o)) (pre ++ post) ∧
  append o D ∈ children r'.
Proof.
  intros Hwf Hr Hc HD HDid Ho r'.
  set (r2 := set_children (pre ++ post) r).
  pose proof (ids_removed_child r pre o post Hc) as Hids. fold r2 in Hids.
  assert (NoDup (ids r2 ++ ids o)) as Hnd by (by rewrite <-Hids).
  apply NoDup_app in Hnd as (Hwf2 & Hdisj & Hwfo).
  assert (D ∈ pre ++ post) as HD2.
  { rewrite Hc in HD. apply elem_of_app in HD as [?|[->|?]%elem_of_cons];
      [apply elem_of_app; by left|done|apply elem_of_app; by right]. }
  assert (get doc r2 = Some D) as HgD.
  { rewrite <-HDid. apply get_wf; [done|]. by apply children_nodes. }
  assert (children r' = map (upd doc (append o)) (pre ++ post) ∧ eid r' = eid r) as [Hc' Hid'].
  { unfold r'. rewrite upd_unfold. fold r2. simpl.
    destruct (Nat.eqb_spec (eid r) doc); [done|]. done. }
  split_and!; [| |done|done|].
  - change (wf (upd doc (append o) r2)).
    eapply (wf_upd doc _ r2 D (ids o)); [done|done|by rewrite ids_append|done|].
    intros i Hi Hin. by apply (Hdisj i).
  - change (labels (upd doc (append o) r2) ≡ₚ labels r).
    rewrite (labels_upd doc _ r2 D (labels o));
      [|done|done|by rewrite labels_append].
    symmetry. by apply labels_removed_child.
  - rewrite Hc'. apply elem_of_map_iff. exists D. split; [done|].
    rewrite upd_unfold, HDid. by rewrite Nat.eqb_refl.
Qed.

Lemma move_overlays_inv doc ovs : ∀ r r',
  wf r → eid r ≠ doc → (∃ D, D ∈ children r ∧ eid D = doc) →
  Forall (λ ov, eid ov ≠ doc) ovs →
  move_overlays doc ovs r = Ok r' →
  wf r' ∧ labels r' ≡ₚ labels r ∧ eid r' = eid r ∧ (∃ D, D ∈ children r' ∧ eid D = doc).
Proof.
  induction ovs as [|ov ovs IH]; intros r r' Hwf Hr (D & HD & HDid) Hovs;
    cbn [move_overlays].
  - intros [= <-]. split_and!; eauto.
  - apply Forall_cons in Hovs as [Hov Hovs].
    destruct (remove_child (eid ov) (children r)) as [cs|] eqn:Hrm; [|done].
    destruct (get (eid ov) r) as [o|] eqn:Hgo; [|done].
    apply remove_child_Some in Hrm as (pre & o' & post & Hc & -> & Ho').
    assert (o = o') as <-.
    { assert (get (eid o') r = Some o') as Hg.
      { apply get_wf; [done|]. apply children_nodes. rewrite Hc.
        apply elem_of_app. right. by left. }
      rewrite Ho' in Hg. congruence. }
    destruct (move_overlay_step doc r pre o post D) as (W & L & I & C & HD');
      [done|done|done|done|done|by rewrite Ho'|].
    intros Hmv. apply IH in Hmv as (W' & L' & I' & HD''); [|done|congruence| |done].
    + split_and!; [done|by rewrite L'|congruence|done].
    + exists (append o D). split; [done|]. simpl. done.
Qed.

Lemma findall_desc_nodes t e x : x ∈ findall_desc t e → x ∈ nodes e ∧ tag x = kml t.
Proof.
  unfold findall_desc. intros [Hx Ht]%elem_of_filter_bool.
  split; [|by apply has_tag_eq].
  apply descendants_nodes in Hx as (c & Hc & Hx).
  apply elem_of_nodes. right. eauto.
Qed.

Lemma find_desc_nodes t e x : find_desc t e = Some x → x ∈ nodes e ∧ tag x = kml t.
Proof.
  unfold find_desc. intros H. apply findall_desc_nodes.
  destruct (findall_desc t e); simplify_eq/=. by left.
Qed.

(** The group node is in the tree, and so is the template. *)
Lemma locate_group_inv root T rest root1 doc :
  wf root → findall_desc "GroundOverlay" root = T :: rest →
  locate_group (T :: rest) root = Ok (root1, doc) →
  wf root1 ∧ (eid T, overlay_tag) ∈ labels root1 ∧ ∃ dn, get doc root1 = Some dn.
Proof.
  intros Hwf Hovs. unfold locate_group.
  assert ((eid T, overlay_tag) ∈ labels root) as HT.
  { assert (T ∈ findall_desc "GroundOverlay" root) as H by (rewrite Hovs; by left).
    apply findall_desc_nodes in H as [H1 H2].
    apply elem_of_map_iff. exists T. split; [done|]. by rewrite H2. }
  destruct (find_desc "Document" root) as [d|] eqn:Hd.
  { intros [= <- <-]. split_and!; [done|done|].
    apply find_desc_nodes in Hd as [Hd _]. exists d. by apply get_wf. }
  destruct (find_desc "Folder" root) as [d|] eqn:Hf.
  { intros [= <- <-]. split_and!; [done|done|].
    apply find_desc_nodes in Hf as [Hf _]. exists d. by apply get_wf. }
  set (doc0 := fresh root).
  set (D := mkElement doc0 (kml "Document") None []).
  destruct (move_overlays doc0 (T :: rest) (append D root)) as [r'|] eqn:Hmv; [|done].
  simpl. intros [= <- <-].
  apply move_overlays_inv in Hmv as (W & L & I & (D' & HD' & HDid')).
  - split_and!; [done| |].
    + rewrite L, labels_append. apply elem_of_app. by left.
    + exists D'. rewrite <-HDid'. apply get_wf; [done|]. by apply children_nodes.
  - unfold wf. rewrite ids_append. apply NoDup_app. split_and!; [done| |apply NoDup_singleton].
    intros i Hi ->%list_elem_of_singleton. by apply fresh_notin in Hi.
  - simpl. intros E. apply (fresh_notin root). fold doc0. rewrite <-E.
    apply elem_of_ids. by left.
  - exists D. split; [|done]. simpl. apply elem_of_app. right. by left.
  - rewrite <-Hovs. apply Forall_forall. intros ov [Hov _]%findall_desc_nodes E.
    apply (fresh_notin root). fold doc0. rewrite <-E.
    apply elem_of_ids_nodes. eauto.
Qed.

End LocateFacts.

Section TransformFacts.
Import ET.

Lemma parse_trailing_number_suffix name :
  parse_trailing_number name = default sentinel (suffix_number name).
Proof.
  unfold parse_trailing_number, suffix_number, PyStr.rsplit1.
  destruct name as [|a name]; [done|]. cbn [PyStr.truthy negb].
  destruct (PyStr.rsplit_last "-" (String a name)) as [[l r]|]; [|done].
  simpl. by destruct (PyStr.re_match_digits r).
Qed.

Lemma get_overlay_key_number e :
  get_overlay_key e = default sentinel (overlay_number e).
Proof.
  unfold get_overlay_key, overlay_number, text_truthy, text_or_empty.
  destruct (find_desc "name" e) as [n|]; [|done].
  destruct (text n) as [s|]; [|done].
  rewrite parse_trailing_number_suffix. by destruct s.
Qed.

Lemma build_overlays_eq root png_filepaths subfolder_name T rest root1 doc :
  findall_desc "GroundOverlay" root = T :: rest →
  locate_group (T :: rest) root = Ok (root1, doc) →
  build_overlays root png_filepaths subfolder_name =
    Ok (Some (create_overlays subfolder_name (eid T) doc
                (create_list_of
                   (template_png (eid T) (rename_group subfolder_name doc root1))
                   (all_pngs_of png_filepaths))
                (rename_group subfolder_name doc root1), doc)).
Proof. intros Hovs Hloc. unfold build_overlays. by rewrite Hovs, Hloc. Qed.

Lemma build_overlays_Some root png_filepaths subfolder_name pre doc :
  build_overlays root png_filepaths subfolder_name = Ok (Some (pre, doc)) →
  ∃ T rest root1,
    findall_desc "GroundOverlay" root = T :: rest ∧
    locate_group (T :: rest) root = Ok (root1, doc).
Proof.
  unfold build_overlays.
  destruct (findall_desc "GroundOverlay" root) as [|T rest]; [done|].
  destruct (locate_group (T :: rest) root) as [[root1 doc1]|] eqn:Hloc; [|done].
  simpl. intros [= <- <-]. by exists T, rest, root1.
Qed.

(** The tree before the reordering: distinct objects, the group node
    holding what it held plus the clones. *)
Lemma build_overlays_inv root png_filepaths subfolder_name T rest root1 doc :
  wf root →
  findall_desc "GroundOverlay" root = T :: rest →
  locate_group (T :: rest) root = Ok (root1, doc) →
  ∃ pre,
    build_overlays root png_filepaths subfolder_name = Ok (Some (pre, doc)) ∧
    wf pre ∧ is_Some (get doc pre) ∧
    length (group_overlays doc pre) =
      length (group_overlays doc root1) +
      length (create_list_of
                (template_png (eid T) (rename_group subfolder_name doc root1))
                (all_pngs_of png_filepaths)).
Proof.
  intros Hwf Hovs Hloc.
  rewrite (build_overlays_eq _ _ _ _ _ _ _ Hovs Hloc).
  eexists. split; [done|].
  destruct (locate_group_inv root T rest root1 doc Hwf Hovs Hloc) as (W1 & L1 & dn1 & G1).
  destruct (rename_group_inv subfolder_name (eid T) doc root1 dn1 W1 L1 G1)
    as (dn2 & W2 & L2 & G2 & Len2).
  set (root2 := rename_group subfolder_name doc root1) in *.
  set (cl := create_list_of _ _).
  destruct (create_overlays_inv subfolder_name (eid T) doc cl root2 dn2 W2 L2 G2)
    as (clones & W3 & L3 & G3 & Len3 & Tags).
  split_and!; [done|by rewrite G3|].
  unfold group_overlays. rewrite G3, G1. unfold findall_child at 1. simpl.
  rewrite List.filter_app, length_app. fold (findall_child "GroundOverlay" dn2).
  rewrite Len2. f_equal. rewrite filter_all; [done|].
  intros c Hc. rewrite Forall_forall in Tags. by apply has_tag_eq, Tags.
Qed.

(** The reordering of a tree of distinct objects. *)
Lemma reorder_overlays_wf doc pre dn :
  wf pre → get doc pre = Some dn →
  ∃ final,
    reorder_overlays doc pre = Ok final ∧ wf final ∧
    group_overlays doc final = sorted get_overlay_key (group_overlays doc pre).
Proof.
  intros Hwf Hdn. unfold reorder_overlays. rewrite Hdn.
  assert (wf dn) as Hwdn by (eapply wf_nodes; [done|by apply get_Some in Hdn as [? _]]).
  rewrite (reorder_node_wf dn Hwdn). simpl.
  set (cs := List.filter _ (children dn) ++ _).
  assert (cs ≡ₚ children dn) as Hperm.
  { unfold cs, findall_child. rewrite sorted_perm. apply filter_split_perm. }
  eexists. split; [done|]. split.
  - eapply (wf_upd doc _ pre dn []); [done|done| |constructor|by intros ? ?%elem_of_nil].
    rewrite app_nil_r. by apply ids_set_children_perm.
  - unfold group_overlays.
    rewrite (get_upd_same doc _ pre dn Hdn), Hdn.
    + apply findall_child_reordered.
    + simpl. by apply get_Some in Hdn as [_ ?].
Qed.

End TransformFacts.

(** ** The transformed document *)

Lemma filter_negb_length {A} (P : A → bool) l :
  length (List.filter (λ x, negb (P x)) l) + length (List.filter P l) = length l.
Proof. by rewrite <-length_app, filter_split_perm. Qed.

Lemma create_list_length original_png png_filepaths :
  length (create_list_of original_png (all_pngs_of png_filepaths))
  + length (List.filter (is_original original_png) (map PyStr.basename png_filepaths))
  = length png_filepaths.
Proof.
  unfold create_list_of, all_pngs_of.
  induction png_filepaths as [|p l IH]; simpl; [done|].
  destruct (is_original original_png (PyStr.basename p)); simpl; lia.
Qed.

Lemma modify_kml_tree_wf root png_filepaths subfolder_name pre doc :
  ET.wf root →
  build_overlays root png_filepaths subfolder_name = Ok (Some (pre, doc)) →
  ∃ final,
    modify_kml_tree root png_filepaths subfolder_name = Ok (Some final) ∧
    ET.wf final ∧
    group_overlays doc final = sorted get_overlay_key (group_overlays doc pre).
Proof.
  intros Hwf Hb.
  destruct (build_overlays_Some _ _ _ _ _ Hb) as (T & rest & root1 & Hovs & Hloc).
  destruct (build_overlays_inv root png_filepaths subfolder_name T rest root1 doc Hwf Hovs Hloc)
    as (pre' & Hb' & Wp & [dn Hdn] & _).
  assert (pre' = pre) as -> by congruence.
  destruct (reorder_overlays_wf doc pre dn Wp Hdn) as (final & Hr & Wf & Hg).
  exists final. split_and!; [|done|done].
  unfold modify_kml_tree. rewrite Hb. simpl. by rewrite Hr.
Qed.

(** C1 (amended).  After [modify_kml] the group node holds the overlays
    it held when it was located (or synthesized) plus one clone for every
    input asset whose file name differs from the one the template refers
    to; it holds exactly [N] overlays for [N] assets when it held one
    overlay and exactly one asset has the file name of the template. *)
Theorem modify_kml_overlay_count root png_filepaths subfolder_name T rest root1 doc :
  ET.wf root →
  ET.findall_desc "GroundOverlay" root = T :: rest →
  locate_group (T :: rest) root = Ok (root1, doc) →
  let original_png := template_png (eid T) (rename_group subfolder_name doc root1) in
  let create_list := create_list_of original_png (all_pngs_of png_filepaths) in
  ∃ final,
    modify_kml_tree root png_filepaths subfolder_name = Ok (Some final) ∧
    length (group_overlays doc final)
      = length (group_overlays doc root1) + length create_list ∧
    (length (group_overlays doc root1) = 1 →
     length (List.filter (is_original original_png) (map PyStr.basename png_filepaths)) = 1 →
     length (group_overlays doc final) = length png_filepaths).
Proof.
  intros Hwf Hovs Hloc original_png create_list.
  destruct (build_overlays_inv root png_filepaths subfolder_name T rest root1 doc Hwf Hovs Hloc)
    as (pre & Hb & Wp & _ & Hlen).
  destruct (modify_kml_tree_wf root png_filepaths subfolder_name pre doc Hwf Hb)
    as (final & Hm & _ & Hg).
  exists final. split; [done|].
  assert (length (group_overlays doc final)
          = length (group_overlays doc root1) + length create_list) as Hcount.
  { rewrite Hg. unfold sorted. by rewrite sort_with_length. }
  split; [done|]. intros H1 Hmatch. rewrite Hcount, H1.
  pose proof (create_list_length original_png png_filepaths) as Hl.
  fold create_list in Hl. lia.
Qed.

Lemma wf_decide e : bool_decide (NoDup (ET.ids e)) = true → ET.wf e.
Proof. apply bool_decide_eq_true_1. Qed.

Lemma modify_kml_overlay_count_witness :
  ∃ final,
    modify_kml_tree Examples.doc_scenario Examples.scenario_pngs "N56E29" = Ok (Some final) ∧
    length (group_overlays 1 final) = 3.
Proof.
  destruct (modify_kml_overlay_count Examples.doc_scenario Examples.scenario_pngs "N56E29"
              (Examples.overlay 3 "N56E29-001" "base.png") [] Examples.doc_scenario 1)
    as (final & Hm & _ & HN).
  - apply wf_decide. vm_compute. reflexivity.
  - reflexivity.
  - reflexivity.
  - exists final. split; [exact Hm|]. apply HN; reflexivity.
Defined.

(** The claim C1 as stated fails: one asset that is not the template's
    gives two overlays. *)
Lemma overlay_count_counterexample :
  ∃ final,
    modify_kml_tree Examples.doc_scenario ["/in/N56E29/N56E29-002.png"] "N56E29"
      = Ok (Some final) ∧
    length (group_overlays 1 final) = 2 ∧
    length (group_overlays 1 final) ≠ length ["/in/N56E29/N56E29-002.png"].
Proof. eexists. split; [vm_compute; reflexivity|]. split; [reflexivity|]. vm_compute. lia. Qed.

(** C2 (amended).  After [modify_kml] the overlay children of the group
    node are the ones it had before the reordering, in non-decreasing
    order of sort key, the overlays with the same key (all those without a
    number among them) in the order they had before; an overlay whose
    name has no number comes after every overlay whose number is below
    the sentinel 999999999. *)
Theorem modify_kml_overlays_sorted root png_filepaths subfolder_name pre doc :
  ET.wf root →
  build_overlays root png_filepaths subfolder_name = Ok (Some (pre, doc)) →
  ∃ final,
    modify_kml_tree root png_filepaths subfolder_name = Ok (Some final) ∧
    let before := group_overlays doc pre in
    let after := group_overlays doc final in
    after ≡ₚ before ∧
    StronglySorted (key_le get_overlay_key) after ∧
    (∀ k, List.filter (λ o, (get_overlay_key o =? k)%N) after
          = List.filter (λ o, (get_overlay_key o =? k)%N) before) ∧
    (∀ i j u p n,
        after !! i = Some u → after !! j = Some p →
        overlay_number u = None → overlay_number p = Some n → (n < sentinel)%N →
        j < i).
Proof.
  intros Hwf Hb.
  destruct (modify_kml_tree_wf root png_filepaths subfolder_name pre doc Hwf Hb)
    as (final & Hm & _ & Hg).
  exists final. split; [done|]. simpl. rewrite Hg. split_and!.
  - apply (sorted_perm get_overlay_key).
  - apply (sorted_StronglySorted get_overlay_key).
  - intros k. apply (sorted_stable get_overlay_key).
  - intros i j u p n Hi Hj Hu Hp Hn.
    eapply (StronglySorted_lookup_lt get_overlay_key); [apply sorted_StronglySorted|done|done|].
    rewrite !get_overlay_key_number, Hu, Hp. done.
Qed.

Lemma modify_kml_overlays_sorted_witness :
  ∃ final,
    modify_kml_tree Examples.doc_scenario Examples.scenario_pngs "N56E29" = Ok (Some final) ∧
    StronglySorted (key_le get_overlay_key) (group_overlays 1 final).
Proof.
  edestruct (modify_kml_overlays_sorted Examples.doc_scenario Examples.scenario_pngs "N56E29")
    as (final & Hm & _ & Hs & _).
  - apply wf_decide. vm_compute. reflexivity.
  - vm_compute. reflexivity.
  - exists final. split; [exact Hm|exact Hs].
Defined.

(** The claim C2 as stated fails: an overlay without a number stays in
    front of an overlay whose number is above the sentinel. *)
Lemma unparseable_last_counterexample :
  ∃ final u p,
    modify_kml_tree Examples.doc_big_suffix ["/in/base.png"] "N56E29" = Ok (Some final) ∧
    group_overlays 1 final = [u; p] ∧
    overlay_number u = None ∧ overlay_number p = Some 1000000000%N.
Proof.
  eexists _, _, _. split; [vm_compute; reflexivity|].
  split; [vm_compute; reflexivity|]. split; vm_compute; reflexivity.
Qed.

(** ** The file system and the batch *)

Section FsFacts.
Import FS.

Lemma lookup_del_entry c es : lookup_entry c (del_entry c es) = None.
Proof.
  unfold del_entry. induction es as [|[k v] es IH]; simpl; [done|].
  destruct (String.eqb k c) eqn:E; simpl; [done|]. by rewrite E.
Qed.

Lemma lookup_set_entry c v es : lookup_entry c (set_entry c v es) = Some v.
Proof.
  induction es as [|[k x] es IH]; simpl.
  - by rewrite String.eqb_refl.
  - destruct (String.eqb k c) eqn:E; simpl; by rewrite E.
Qed.

(** What [del] takes out is not there any more. *)
Lemma resolve_del cs : ∀ n n', del cs n = Some n' → resolve cs n' = None.
Proof.
  induction cs as [|c cs IH]; intros n n'; simpl; [done|].
  destruct n as [|es]; [done|].
  destruct (lookup_entry c es) as [sub|] eqn:E; [|done].
  destruct cs as [|c' cs].
  - intros [= <-]. simpl. by rewrite lookup_del_entry.
  - destruct (del (c' :: cs) sub) as [sub'|] eqn:Hd; [|done].
    intros [= <-]. cbn [resolve]. rewrite lookup_set_entry. by eapply IH.
Qed.

Lemma rmtree_gone p fs fs' :
  Os.rmtree p fs = (Ok (), fs') → resolve (components p) fs' = None.
Proof.
  unfold Os.rmtree.
  destruct (resolve (components p) fs) as [[|es]|]; [done| |done].
  destruct (del (components p) fs) as [n|] eqn:Hd; [|done].
  intros [= <-]. by eapply resolve_del.
Qed.

Lemma listdir_state p fs r fs' : Os.listdir p fs = (r, fs') → fs' = fs.
Proof.
  unfold Os.listdir. destruct (resolve _ _) as [[|]|]; by intros [= _ <-].
Qed.

End FsFacts.

(** Runs one step of a computation in the monad. *)
Tactic Notation "run_bind" hyp(H) "as" ident(a) ident(fs1) ident(E) :=
  match type of H with
  | bind ?m ?k ?fs = _ =>
      unfold bind at 1 in H; destruct (m fs) as [[a|?] fs1] eqn:E;
      [|discriminate H]
  end.

Ltac run_ret H := cbv [ret] in H; injection H as <- <-.

(** C3 (amended).  On every path on which [process_subfolder] returns
    after it made the working directory of the unit (success, no [.kml]
    in the container, [modify_kml] answering [False]) the directory is
    gone when it returns; it returns before it makes the directory only
    when the unit has no container or no image, and then it leaves the
    file system as it is. *)
Theorem process_subfolder_cleanup subfolder_path output_folder fs b fs' :
  process_subfolder subfolder_path output_folder fs = (Ok b, fs') →
  (b = false ∧ fs' = fs ∧
   ∃ names, Os.listdir subfolder_path fs = (Ok names, fs) ∧
            (List.filter is_kmz names = [] ∨ List.filter is_png names = []))
  ∨ FS.resolve (FS.components (temp_dir_of subfolder_path output_folder)) fs' = None.
Proof.
  unfold process_subfolder, temp_dir_of. intros H.
  run_bind H as names fs1 Els. pose proof (listdir_state _ _ _ _ Els) as ->.
  destruct (List.filter is_kmz names) as [|original_kmz ?] eqn:Hkmz.
  { run_ret H. left. split_and!; [done|done|]. exists names. auto. }
  run_bind H as all_files fs1 Els'. pose proof (listdir_state _ _ _ _ Els') as ->.
  assert (all_files = names) as -> by congruence.
  destruct (map _ (List.filter is_png names)) as [|png ?] eqn:Hpng.
  { run_ret H. left. split_and!; [done|done|]. exists names. split; [done|].
    right. by destruct (List.filter is_png names). }
  right.
  run_bind H as ex fs1 Eex. run_bind H as u1 fs2 Erm. run_bind H as u2 fs3 Emk.
  run_bind H as u3 fs4 Eext. run_bind H as kml_file fs5 Ekml.
  destruct kml_file as [kml_file|].
  - run_bind H as success fs6 Emod. destruct success.
    + run_bind H as u4 fs7 Ezip. run_bind H as u5 fs8 Ecl. run_ret H.
      destruct u5. by eapply rmtree_gone.
    + run_bind H as u4 fs7 Ecl. run_ret H. destruct u4. by eapply rmtree_gone.
  - run_bind H as u4 fs6 Ecl. run_ret H. destruct u4. by eapply rmtree_gone.
Qed.

Lemma process_subfolder_cleanup_witness :
  ∃ fs',
    process_subfolder "/in/N56E29" "/out" Examples.fs_batch = (Ok true, fs') ∧
    FS.resolve (FS.components "/out/temp_extract_N56E29") fs' = None.
Proof.
  eexists. split; [vm_compute; reflexivity|].
  edestruct (process_subfolder_cleanup "/in/N56E29" "/out" Examples.fs_batch true)
    as [(Hb & _)|H]; [vm_compute; reflexivity|discriminate Hb|exact H].
Defined.

(** The claim C3 as stated fails: when the document does not parse, the
    exception leaves [process_subfolder] and the working directory stays. *)
Lemma cleanup_counterexample :
  ∃ fs',
    process_subfolder "/in/bad" "/out" Examples.fs_batch = (Raise ParseError, fs') ∧
    is_Some (FS.resolve (FS.components (temp_dir_of "/in/bad" "/out")) fs').
Proof. eexists. split; [vm_compute; reflexivity|]. vm_compute. eauto. Qed.

Lemma run_units_app output_folder before : ∀ rest n0 n fs fs1,
  run_units output_folder before n0 fs = (Ok n, fs1) →
  run_units output_folder (before ++ rest) n0 fs = run_units output_folder rest n fs1.
Proof.
  induction before as [|u before IH]; intros rest n0 n fs fs1; simpl.
  - by intros [= <- <-].
  - unfold bind at 1 2.
    destruct (process_subfolder u output_folder fs) as [[ok|e] fs0]; [|done].
    apply IH.
Qed.

(** C4 (amended).  A unit that answers [False] is skipped and the batch
    goes on with the next one.  A document that does not parse makes
    [modify_kml] raise [ParseError] before it changes anything;
    [process_subfolder] does not catch it: when the document that it
    finds in the working directory does not parse, it raises
    [ParseError] in the state it has reached, the working directory
    still there; and an exception that leaves [process_subfolder] ends
    [main]: it reports the exception, in the state in which it was
    raised, so that the units after it are not processed. *)
Theorem parse_failure_ends_batch :
  (∀ output_folder u rest n fs fs1,
      process_subfolder u output_folder fs = (Ok false, fs1) →
      run_units output_folder (u :: rest) n fs = run_units output_folder rest n fs1) ∧
  (∀ kml_path png_filepaths subfolder_name fs c,
      FS.resolve (FS.components kml_path) fs = Some (File c) →
      (∀ root, c ≠ Xml root) →
      modify_kml kml_path png_filepaths subfolder_name fs = (Raise ParseError, fs)) ∧
  (∀ subfolder_path output_folder fs names original_kmz ex fs2 fs3 fs4 kml_file c,
      let temp_dir := temp_dir_of subfolder_path output_folder in
      Os.listdir subfolder_path fs = (Ok names, fs) →
      head (List.filter is_kmz names) = Some original_kmz →
      List.filter is_png names ≠ [] →
      Os.path_exists temp_dir fs = (Ok ex, fs) →
      (if ex then Os.rmtree temp_dir else ret ()) fs = (Ok (), fs2) →
      Os.makedirs temp_dir fs2 = (Ok (), fs3) →
      extract_kmz (PyStr.join subfolder_path original_kmz) temp_dir fs3 = (Ok (), fs4) →
      find_kml_file temp_dir fs4 = (Ok (Some kml_file), fs4) →
      FS.resolve (FS.components kml_file) fs4 = Some (File c) →
      (∀ root, c ≠ Xml root) →
      process_subfolder subfolder_path output_folder fs = (Raise ParseError, fs4)) ∧
  (∀ main_folder output_folder fs names before u rest n fs1 fs2 e,
      PyStr.truthy main_folder = true → PyStr.truthy output_folder = true →
      Os.listdir main_folder fs = (Ok names, fs) →
      subdirs_of main_folder names fs = (Ok (before ++ u :: rest), fs) →
      run_units output_folder before 0 fs = (Ok n, fs1) →
      process_subfolder u output_folder fs1 = (Raise e, fs2) →
      main main_folder output_folder fs = (UnexpectedError e, fs2)).
Proof.
  assert (∀ kml_path png_filepaths subfolder_name fs c,
             FS.resolve (FS.components kml_path) fs = Some (File c) →
             (∀ root, c ≠ Xml root) →
             modify_kml kml_path png_filepaths subfolder_name fs = (Raise ParseError, fs))
    as Hparse.
  { intros kml_path png_filepaths subfolder_name fs c Hc Hx.
    unfold modify_kml, Os.parse, Os.read_file, bind. rewrite Hc.
    destruct c as [data|root|members]; [done| |done]. by destruct (Hx root). }
  split_and!.
  - intros output_folder u rest n fs fs1 H. simpl. unfold bind at 1. by rewrite H.
  - exact Hparse.
  - intros subfolder_path output_folder fs names original_kmz ex fs2 fs3 fs4 kml_file c
      temp_dir Hls Hkmz Hpng Hex Hrm Hmk Hext Hfind Hc Hx.
    unfold process_subfolder. fold (temp_dir_of subfolder_path output_folder). fold temp_dir.
    unfold bind at 1. rewrite Hls.
    destruct (List.filter is_kmz names) as [|k ks]; [done|]. injection Hkmz as ->.
    unfold bind at 1. rewrite Hls.
    destruct (List.filter is_png names) as [|png pngs]; [done|]. cbn [map].
    unfold bind at 1. rewrite Hex.
    unfold bind at 1. rewrite Hrm.
    unfold bind at 1. rewrite Hmk.
    unfold bind at 1. rewrite Hext.
    unfold bind at 1. rewrite Hfind.
    unfold bind at 1. by rewrite (Hparse _ _ _ _ _ Hc Hx).
  - intros main_folder output_folder fs names before u rest n fs1 fs2 e
      Hm Ho Hls Hsub Hb Hu.
    unfold main. rewrite Hm, Ho. cbn [negb].
    unfold bind at 1. rewrite Hls. unfold bind at 1. rewrite Hsub.
    assert (run_units output_folder (before ++ u :: rest) 0 fs = (Raise e, fs2)) as Hrun.
    { rewrite (run_units_app _ _ _ _ _ _ _ Hb). simpl. unfold bind at 1. by rewrite Hu. }
    destruct (before ++ u :: rest) as [|x l] eqn:E; [by destruct before|].
    unfold bind at 1. by rewrite Hrun.
Qed.

Lemma parse_failure_ends_batch_witness :
  (run_units "/out" ["/in/skipped"; "/in/bad"] 0 Examples.fs_batch
   = run_units "/out" ["/in/bad"] 0 Examples.fs_batch) ∧
  (let fs := Dir [("work", Dir [("doc.kml", File (Bytes "<kml>"))])] in
   modify_kml "/work/doc.kml" ["/in/a.png"] "U" fs = (Raise ParseError, fs)) ∧
  (∃ fs', process_subfolder "/in/bad" "/out" Examples.fs_batch = (Raise ParseError, fs') ∧
          main "/in" "/out" Examples.fs_batch = (UnexpectedError ParseError, fs')).
Proof.
  destruct parse_failure_ends_batch as (Hskip & Hparse & Hunit & Hmain).
  split; [|split].
  - apply Hskip. vm_compute. reflexivity.
  - intros fs. apply (Hparse _ _ _ fs (Bytes "<kml>")); [reflexivity|discriminate].
  - assert (∃ fs', process_subfolder "/in/bad" "/out" Examples.fs_batch
                   = (Raise ParseError, fs')) as [fs' Hbad].
    { eexists.
      eapply (Hunit "/in/bad" "/out" Examples.fs_batch _ _ _ _ _ _ _ (Bytes "<kml><Document>")).
      - vm_compute. reflexivity.
      - vm_compute. reflexivity.
      - vm_compute. discriminate.
      - vm_compute. reflexivity.
      - vm_compute. reflexivity.
      - vm_compute. reflexivity.
      - vm_compute. reflexivity.
      - vm_compute. reflexivity.
      - vm_compute. reflexivity.
      - discriminate. }
    exists fs'. split; [exact Hbad|].
    eapply (Hmain "/in" "/out" Examples.fs_batch _ ["/in/skipped"] "/in/bad" ["/in/N56E29"] 0).
    + reflexivity.
    + reflexivity.
    + vm_compute. reflexivity.
    + vm_compute. reflexivity.
    + vm_compute. reflexivity.
    + exact Hbad.
Defined.

(** The claim C4 as stated fails: the unit whose document does not parse
    ends the batch, and the unit after it, which would succeed, is not
    processed. *)
Lemma batch_abort_counterexample :
  ∃ fs',
    main "/in" "/out" Examples.fs_batch = (UnexpectedError ParseError, fs') ∧
    FS.resolve (FS.components "/out/N56E29 - transparent.kmz") fs' = None ∧
    fst (process_subfolder "/in/N56E29" "/out" Examples.fs_batch) = Ok true.
Proof.
  eexists. split; [vm_compute; reflexivity|]. split; vm_compute; reflexivity.
Qed.

(** C10.  A document without any [GroundOverlay] below its root makes
    [modify_kml] answer [False] with the file system as it was: nothing
    is created, copied or rewritten. *)
Theorem modify_kml_no_overlay kml_path png_filepaths subfolder_name fs root :
  FS.resolve (FS.components kml_path) fs = Some (File (Xml root)) →
  ET.findall_desc "GroundOverlay" root = [] →
  modify_kml kml_path png_filepaths subfolder_name fs = (Ok false, fs).
Proof.
  intros Hf Hovs. unfold modify_kml, Os.parse, Os.read_file, bind, lift, build_overlays.
  rewrite Hf. simpl. by rewrite Hovs.
Qed.

Lemma modify_kml_no_overlay_witness :
  let fs := Dir [("work", Dir [("doc.kml", File (Xml Examples.doc_no_overlay));
                               ("a.png", File (Bytes "a"))])] in
  modify_kml "/work/doc.kml" ["/work/a.png"] "U" fs = (Ok false, fs).
Proof.
  intros fs. apply (modify_kml_no_overlay "/work/doc.kml" ["/work/a.png"] "U" fs
                      Examples.doc_no_overlay); reflexivity.
Defined.

(** ** The archive *)

Section WalkFacts.
Import FS.

Lemma sort_names_Sorted names : Sorted String.le (sort_names names).
Proof.
  unfold sort_names.
  assert (Sorted (λ u v, String.leb u v = true) (sort_with String.leb names)) as H.
  { apply sort_with_Sorted. intros x y.
    destruct (String.leb_total x y) as [H|H]; [left|right]; done. }
  induction H as [|x l Hs IH Hhd]; constructor; [done|].
  destruct Hhd; constructor. unfold String.le. by apply Is_true_true.
Qed.

Lemma sort_names_perm names : sort_names names ≡ₚ names.
Proof. apply sort_with_perm. Qed.

(** The walk of the subdirectory [d], taken from the table of the walks
    of all entries, is the walk of the entry that [d] names. *)
Lemma lookup_members_walk rel d es :
  lookup_members d
    ((fix walk_entries (es : list (string * node)) :=
        match es with
        | [] => []
        | (d, sub) :: es' => (d, walk_members (PyStr.join rel d) sub) :: walk_entries es'
        end) es)
  = match lookup_entry d es with
    | Some sub => walk_members (PyStr.join rel d) sub
    | None => []
    end.
Proof.
  unfold lookup_members. induction es as [|[k v] es IH]; simpl; [done|].
  destruct (String.eqb_spec k d) as [->|_]; [done|]. apply IH.
Qed.

Lemma walk_members_Dir rel es :
  walk_members rel (Dir es) =
    flat_map (λ file, map (λ c, (PyStr.join rel file, c)) (lookup_content file es))
      (sort_names (file_names es))
    ++ flat_map (λ d, match lookup_entry d es with
                      | Some sub => walk_members (PyStr.join rel d) sub
                      | None => []
                      end)
         (sort_names (dir_names es)).
Proof.
  cbn [walk_members]. f_equal. apply flat_map_ext. intros d.
  apply lookup_members_walk.
Qed.

Lemma lookup_entry_perm c es es' :
  NoDup (map fst es) → es ≡ₚ es' → lookup_entry c es = lookup_entry c es'.
Proof.
  intros Hnd Hp. induction Hp as [|[k v] l l' Hp IH|[k v] [k' v'] l|l l' l'' Hp1 IH1 Hp2 IH2];
    simpl in *.
  - done.
  - apply NoDup_cons in Hnd as [_ Hnd]. destruct (String.eqb k c); [done|by apply IH].
  - apply NoDup_cons in Hnd as [Hk _].
    destruct (String.eqb_spec k c) as [->|_], (String.eqb_spec k' c) as [->|_]; try done.
    exfalso. apply Hk. by left.
  - rewrite IH1 by done. apply IH2. by rewrite <-Hp1.
Qed.

Lemma filter_bool_perm {A} (P : A → bool) l l' :
  l ≡ₚ l' → List.filter P l ≡ₚ List.filter P l'.
Proof.
  induction 1 as [|x l l' Hp IH|x y l|l l' l'' Hp1 IH1 Hp2 IH2]; simpl.
  - done.
  - destruct (P x); by rewrite IH.
  - destruct (P x), (P y); try done. apply Permutation_swap.
  - by rewrite IH1.
Qed.

Lemma sort_names_unique l l' : l ≡ₚ l' → sort_names l = sort_names l'.
Proof.
  intros Hp. apply (Sorted_unique String.le); [apply sort_names_Sorted..|].
  by rewrite !sort_names_perm.
Qed.

End WalkFacts.

Lemma resolve_put cs v : ∀ n n', FS.put cs v n = Some n' → FS.resolve cs n' = Some v.
Proof.
  induction cs as [|c cs IH]; intros n n'; simpl; [done|].
  destruct n as [|es]; [done|]. destruct cs as [|c' cs].
  - intros [= <-]. simpl. by rewrite lookup_set_entry.
  - destruct (FS.lookup_entry c es) as [sub|]; [|done].
    destruct (FS.put (c' :: cs) v sub) as [sub'|] eqn:Hp; [|done].
    intros [= <-]. cbn [FS.resolve]. rewrite lookup_set_entry. by eapply IH.
Qed.

Lemma write_file_read p c fs fs' :
  Os.write_file p c fs = (Ok (), fs') → Os.read_file p fs' = (Ok c, fs').
Proof.
  unfold Os.write_file, Os.read_file. intros H.
  assert (FS.put (FS.components p) (File c) fs = Some fs') as Hp.
  { destruct (FS.resolve (FS.components p) fs) as [[|]|];
      destruct (FS.put (FS.components p) (File c) fs); congruence. }
  by rewrite (resolve_put _ _ _ _ Hp).
Qed.

(** The archive that [create_kmz] leaves holds the members of the walk
    of [source_dir], in that order. *)
Lemma create_kmz_members source_dir kmz_path fs fs' :
  create_kmz source_dir kmz_path fs = (Ok (), fs') →
  ∃ fs1,
    Os.write_file kmz_path (Zip []) fs = (Ok (), fs1) ∧
    Os.read_file kmz_path fs'
    = (Ok (Zip match FS.resolve (FS.components source_dir) fs1 with
               | Some n => walk_members EmptyString n
               | None => []
               end), fs').
Proof.
  unfold create_kmz. intros H. run_bind H as u fs1 Ew. destruct u.
  exists fs1. split; [done|]. by eapply write_file_read.
Qed.

(** The claim C9 as stated fails: the document is written before the
    folder of the unit, whose member paths are smaller. *)
Lemma member_order_counterexample :
  ∃ fs' members,
    create_kmz "/work" "/out/x.kmz" Examples.fs_packed = (Ok (), fs') ∧
    Os.read_file "/out/x.kmz" fs' = (Ok (Zip members), fs') ∧
    map fst members = ["doc.kml"; "N56E29/base.png"]%string ∧
    ¬ Sorted String.le (map fst members).
Proof.
  eexists _, _. split; [vm_compute; reflexivity|]. split; [vm_compute; reflexivity|].
  split; [reflexivity|].
  intros H. inversion H as [|? ? _ Hhd]; subst. inversion Hhd as [|? ? Hle]; subst.
  vm_compute in Hle. exact Hle.
Qed.

(** ** [modify_kml] and the tree it writes *)

Lemma parse_state p fs r fs' : Os.parse p fs = (r, fs') → fs' = fs.
Proof.
  unfold Os.parse, Os.read_file, bind.
  destruct (FS.resolve _ _) as [[c|]|]; [|by intros [= _ <-]..].
  destruct c; by intros [= _ <-].
Qed.

(** When [modify_kml] answers [True], the document file holds the tree
    [modify_kml_tree] computes from the tree that was parsed. *)
Lemma modify_kml_writes_tree kml_path png_filepaths subfolder_name fs fs' root :
  Os.parse kml_path fs = (Ok root, fs) →
  modify_kml kml_path png_filepaths subfolder_name fs = (Ok true, fs') →
  ∃ final,
    modify_kml_tree root png_filepaths subfolder_name = Ok (Some final) ∧
    Os.read_file kml_path fs' = (Ok (Xml final), fs').
Proof.
  intros Hparse H. unfold modify_kml in H.
  unfold bind at 1 in H. rewrite Hparse in H.
  unfold bind at 1, lift at 1 in H.
  destruct (build_overlays root png_filepaths subfolder_name) as [[[pre doc]|]|e] eqn:Hb;
    [|discriminate H..].
  cbv beta iota zeta in H.
  run_bind H as ex fs1 Eex.
  run_bind H as u1 fs2 Emk. run_bind H as u2 fs3 Ecp.
  unfold bind at 1, lift at 1 in H.
  destruct (reorder_overlays doc pre) as [final|e] eqn:Hr; [|discriminate H].
  run_bind H as u3 fs4 Ew. cbv [ret] in H. injection H as <-. destruct u3.
  exists final. split.
  - unfold modify_kml_tree. rewrite Hb. simpl. by rewrite Hr.
  - by eapply write_file_read.
Qed.

(** An exception of the transformation leaves [modify_kml] before it
    touches a file. *)
Lemma modify_kml_raises kml_path png_filepaths subfolder_name fs root e :
  Os.parse kml_path fs = (Ok root, fs) →
  build_overlays root png_filepaths subfolder_name = Raise e →
  modify_kml kml_path png_filepaths subfolder_name fs = (Raise e, fs).
Proof.
  intros Hparse Hb. unfold modify_kml.
  unfold bind at 1. rewrite Hparse. unfold bind at 1, lift at 1. by rewrite Hb.
Qed.

(** C5.  In the scenario the three overlays come out in the order
    [N56E29-001], [N56E29-002], [N56E29-010], the two clones referring to
    [N56E29/N56E29-002.png] and [N56E29/N56E29-010.png]; the reference
    of the template overlay is still [base.png], not [N56E29/base.png]. *)
Theorem scenario_template_reference :
  ∃ fs' final,
    modify_kml "/work/doc.kml" Examples.scenario_pngs "N56E29"
      (Examples.fs_work Examples.doc_scenario) = (Ok true, fs') ∧
    Os.read_file "/work/doc.kml" fs' = (Ok (Xml final), fs') ∧
    map display_name (ET.findall_desc "GroundOverlay" final)
    = [Some "N56E29-001"; Some "N56E29-002"; Some "N56E29-010"]%string ∧
    map asset_reference (ET.findall_desc "GroundOverlay" final)
    = [Some "base.png"; Some "N56E29/N56E29-002.png"; Some "N56E29/N56E29-010.png"]%string.
Proof.
  eexists _, _. split; [vm_compute; reflexivity|].
  split; [vm_compute; reflexivity|]. split; vm_compute; reflexivity.
Qed.

(** C8.  An overlay that is not a child of the root, in a document
    without [Document] and [Folder]: [root.remove(ov)] raises
    [ValueError], and [modify_kml] with it, instead of moving the overlay
    under a new group node. *)
Theorem synthesis_nested_overlay :
  let fs := Examples.fs_work Examples.doc_nested in
  ET.find_desc "Document" Examples.doc_nested = None ∧
  ET.find_desc "Folder" Examples.doc_nested = None ∧
  length (ET.findall_desc "GroundOverlay" Examples.doc_nested) = 1 ∧
  modify_kml "/work/doc.kml" ["/in/N56E29/base.png"%string] "N56E29" fs
  = (Raise ValueError, fs).
Proof. split_and!; vm_compute; reflexivity. Qed.

(** When the overlays are children of the root the new group node takes
    them over, the clones after them. *)
Lemma synthesis_flat_overlays :
  ∃ final group,
    modify_kml_tree Examples.doc_flat ["/in/U/base.png"; "/in/U/A-003.png"]%string "U"
    = Ok (Some final) ∧
    children final = [group] ∧ tag group = ET.kml "Document" ∧
    map display_name (ET.findall_child "GroundOverlay" group)
    = [Some "A-001"; Some "A-002"; Some "A-003"]%string ∧
    ET.findall_desc "GroundOverlay" final = ET.findall_child "GroundOverlay" group.
Proof.
  eexists _, _. split; [vm_compute; reflexivity|].
  split_and!; vm_compute; reflexivity.
Qed.

Section SynthesisFacts.
Import ET.

Lemma set_children_id e : set_children (children e) e = e.
Proof. by destruct e. Qed.

(** The loop that moves the overlays, when the overlays are children of
    the root: the other children stay, the new node (the last child)
    takes the overlays over in document order. *)
Lemma move_overlays_children doc tg : ∀ l acc moved r,
  wf r → eid r ≠ doc →
  children r = acc ++ l ++ [mkElement doc tg None moved] →
  move_overlays doc (List.filter is_overlay l) r =
    Ok (set_children
          (acc ++ List.filter (λ x, negb (is_overlay x)) l
               ++ [mkElement doc tg None (moved ++ List.filter is_overlay l)]) r).
Proof.
  induction l as [|x l IH]; intros acc moved r Hwf Hr Hc; simpl.
  - rewrite !app_nil_r. simpl in Hc. rewrite <-Hc. by rewrite set_children_id.
  - set (D := mkElement doc tg None moved) in *.
    change ((x :: l) ++ [D]) with (x :: (l ++ [D])) in Hc.
    destruct (is_overlay x) eqn:Hx; cbn [negb move_overlays].
    + assert (NoDup (flat_map ids (children r))) as Hnd.
      { unfold wf in Hwf. rewrite ids_unfold in Hwf. by apply NoDup_cons in Hwf as [_ ?]. }
      rewrite Hc.
      rewrite (remove_child_app (eid x) acc x (l ++ [D])); [| |done].
      * assert (get (eid x) r = Some x) as ->.
        { apply get_wf; [done|]. apply children_nodes. rewrite Hc.
          apply elem_of_app. right. by left. }
        destruct (move_overlay_step doc r acc x (l ++ [D]) D) as (W & _ & _ & C & _);
          [done|done|done| |done| |].
        { rewrite Hc. apply elem_of_app. right. right. apply elem_of_app. right. by left. }
        { intros E. rewrite Hc in Hnd.
          eapply (NoDup_flat_map_disjoint ids acc x (l ++ [D]) (eid x) Hnd).
          - apply elem_of_ids. by left.
          - apply elem_of_app. right. apply elem_of_app. right. by left.
          - rewrite E. apply elem_of_ids. by left. }
        set (r1 := upd doc (append x) (set_children (acc ++ l ++ [D]) r)) in *.
        assert (children r1 = acc ++ l ++ [mkElement doc tg None (moved ++ [x])]) as Hc1.
        { rewrite C.
          replace (acc ++ l ++ [D]) with ((acc ++ l) ++ [D]) by (by rewrite <-app_assoc).
          rewrite map_app, map_id_on.
          - rewrite <-app_assoc. simpl. by rewrite Nat.eqb_refl.
          - intros y Hy. apply upd_notin. intros Hin.
            rewrite Hc in Hnd.
            replace (acc ++ x :: l ++ [D]) with ((acc ++ x :: l) ++ D :: []) in Hnd
              by (by rewrite <-app_assoc).
            eapply (NoDup_flat_map_disjoint ids (acc ++ x :: l) D [] doc Hnd).
            + apply elem_of_ids. by left.
            + rewrite app_nil_r. apply elem_of_app.
              apply elem_of_app in Hy as [?|?]; [by left|right; by right].
            + done. }
        rewrite (IH acc (moved ++ [x]) r1 W); [| |done].
        -- f_equal. unfold r1. rewrite upd_unfold. simpl.
           destruct (Nat.eqb_spec (eid r) doc); [done|].
           unfold set_children. simpl. by rewrite <-app_assoc.
        -- unfold r1. rewrite upd_unfold. simpl.
           destruct (Nat.eqb_spec (eid r) doc); [done|]. done.
      * intros y Hy E. rewrite Hc in Hnd.
        eapply (NoDup_flat_map_disjoint ids acc x (l ++ [D]) (eid x) Hnd).
        -- apply elem_of_ids. by left.
        -- apply elem_of_app. left. done.
        -- rewrite <-E. apply elem_of_ids. by left.
    + rewrite (IH (acc ++ [x]) moved r Hwf Hr).
      * by rewrite <-app_assoc.
      * rewrite Hc. by rewrite <-app_assoc.
Qed.

(** The synthesis of the group node when the overlays of the document
    are children of its root: one new [Document], the last child of the
    root, that holds the overlays themselves, in document order. *)
Lemma locate_group_synthesizes root :
  wf root →
  find_desc "Document" root = None → find_desc "Folder" root = None →
  findall_desc "GroundOverlay" root = List.filter is_overlay (children root) →
  locate_group (findall_desc "GroundOverlay" root) root =
    Ok (set_children
          (List.filter (λ x, negb (is_overlay x)) (children root)
           ++ [mkElement (fresh root) (kml "Document") None
                 (findall_desc "GroundOverlay" root)]) root,
        fresh root).
Proof.
  intros Hwf Hd Hf Hovs. unfold locate_group. rewrite Hd, Hf, Hovs.
  set (D := mkElement (fresh root) (kml "Document") None []).
  rewrite (move_overlays_children (fresh root) (kml "Document")
             (children root) [] [] (append D root)).
  - done.
  - unfold wf. rewrite ids_append. apply NoDup_app.
    split_and!; [done| |apply NoDup_singleton].
    intros i Hi ->%list_elem_of_singleton. by apply fresh_notin in Hi.
  - simpl. intros E. apply (fresh_notin root). rewrite <-E. apply elem_of_ids. by left.
  - done.
Qed.

End SynthesisFacts.

(** ** Overlays anywhere in the tree *)

Section OverlayFacts.
Import ET.

Lemma flat_map_filter {A} (P : A → bool) l :
  flat_map (λ x, if P x then [x] else []) l = List.filter P l.
Proof. induction l as [|a l IH]; simpl; [done|]. rewrite IH. by destruct (P a). Qed.

Lemma is_overlay_tag e : is_overlay e = true ↔ tag e = overlay_tag.
Proof. apply has_tag_eq. Qed.

Lemma is_overlay_same_tag e e' : tag e = tag e' → is_overlay e = is_overlay e'.
Proof. unfold is_overlay, has_tag. by intros ->. Qed.

(** A mutation of an object that no overlay contains: the overlays of
    the tree are those it had and those that [f] adds. *)
Lemma overlays_upd d f t dn X :
  wf t → get d t = Some dn →
  (∀ e, e ∈ nodes t → is_overlay e = true → d ∉ ids e) →
  List.filter is_overlay (nodes (f dn)) ≡ₚ List.filter is_overlay (nodes dn) ++ X →
  List.filter is_overlay (nodes (upd d f t)) ≡ₚ List.filter is_overlay (nodes t) ++ X.
Proof.
  intros Hwf Hg Hprot Hf. rewrite <-!flat_map_filter in *.
  eapply flat_upd; [done|done|done|].
  intros e cs He Hd.
  rewrite (is_overlay_same_tag (mkElement (eid e) (tag e) (text e) cs) e) by done.
  destruct (is_overlay e) eqn:Ho; [|done].
  exfalso. apply (Hprot e He Ho). rewrite ids_unfold. by right.
Qed.

(** An element of a tree of distinct objects whose identity occurs below
    [x] is below [x]. *)
Lemma wf_inside t x y :
  wf t → x ∈ nodes t → y ∈ nodes t → eid y ∈ ids x → y ∈ nodes x.
Proof.
  intros Hwf Hx Hy (y' & Hy' & E)%elem_of_ids_nodes.
  assert (get (eid y) t = Some y) as H1 by (by apply get_wf).
  assert (get (eid y') t = Some y') as H2.
  { apply get_wf; [done|]. by apply (nodes_trans t x y'). }
  rewrite E in H2. by simplify_eq.
Qed.

Lemma nodes_parent e x :
  x ∈ nodes e → x = e ∨ ∃ p, p ∈ nodes e ∧ x ∈ children p.
Proof.
  induction e as [i t s cs IH] using Element_forall_ind.
  intros [->|(c & Hc & Hx)]%elem_of_nodes; [by left|]. right.
  rewrite Forall_forall in IH. destruct (IH c Hc Hx) as [->|(p & Hp & Hxp)].
  - eexists. split; [apply nodes_self|done].
  - exists p. split; [|done]. apply elem_of_nodes. right. eauto.
Qed.

Lemma no_cycle n q : wf n → q ∈ nodes n → n ∈ children q → False.
Proof.
  intros Hwf Hq Hn.
  assert (eid n ∈ ids q) as Hin.
  { apply elem_of_ids. right. exists n. split; [done|]. apply elem_of_ids. by left. }
  apply elem_of_nodes in Hq as [->|(c & Hc & Hq)].
  - eapply (wf_not_in_children n n); [done|done|]. apply elem_of_ids. by left.
  - eapply (wf_not_in_children n c); [done|done|]. by eapply ids_nodes_subseteq.
Qed.

(** An object has one parent. *)
Lemma unique_parent t p q n :
  wf t → p ∈ nodes t → q ∈ nodes t → n ∈ children p → n ∈ children q → p = q.
Proof.
  revert p q. induction t as [i tg s cs IH] using Element_forall_ind.
  intros p q Hwf Hp Hq Hnp Hnq.
  assert (eid n ∈ ids n) as Hnn by (apply elem_of_ids; by left).
  assert (∀ x, n ∈ children x → eid n ∈ ids x) as Hchild.
  { intros x Hx. apply elem_of_ids. right. eauto. }
  assert (NoDup (flat_map ids cs)) as Hnd.
  { unfold wf in Hwf. rewrite ids_unfold in Hwf. by apply NoDup_cons in Hwf as [_ ?]. }
  assert (∀ r c, c ∈ cs → r ∈ nodes c → n ∈ cs → n ∈ children r → False) as Hmix.
  { intros r c Hc Hr Hncs Hnr.
    assert (n = c) as ->.
    { eapply (NoDup_flat_map_inj ids cs n c (eid n)); [done|done|done|done|].
      eapply ids_nodes_subseteq; [done|]. by apply Hchild. }
    eapply (no_cycle c r); [|done|done].
    by eapply (wf_child (mkElement i tg s cs)). }
  apply elem_of_nodes in Hp as [->|(c1 & Hc1 & Hp)];
    apply elem_of_nodes in Hq as [->|(c2 & Hc2 & Hq)]; simpl in *.
  - done.
  - exfalso. by eapply (Hmix q c2).
  - exfalso. by eapply (Hmix p c1).
  - assert (c1 = c2) as <-.
    { eapply (NoDup_flat_map_inj ids cs c1 c2 (eid n)); [done|done|done| |].
      - eapply ids_nodes_subseteq; [done|]. by apply Hchild.
      - eapply ids_nodes_subseteq; [done|]. by apply Hchild. }
    rewrite Forall_forall in IH. eapply (IH c1); [done| |done|done|done|done].
    by eapply (wf_child (mkElement i tg s cs)).
Qed.

(** The child [n] of the object [d] is not inside an overlay when [d]
    is not and [n] is not an overlay. *)
Lemma child_not_in_overlay t dn n e :
  wf t → dn ∈ nodes t → n ∈ children dn → is_overlay n = false →
  e ∈ nodes t → is_overlay e = true → eid dn ∉ ids e → eid n ∉ ids e.
Proof.
  intros Hwf Hdn Hn Hno He Ho Hprot Hin.
  assert (n ∈ nodes t) as Hnt.
  { apply (nodes_trans t dn n); [done|]. by apply children_nodes. }
  pose proof (wf_inside t e n Hwf He Hnt Hin) as Hne.
  apply nodes_parent in Hne as [->|(p & Hp & Hnp)]; [congruence|].
  assert (p = dn) as ->.
  { eapply (unique_parent t p dn n); [done| |done|done|done].
    by apply (nodes_trans t e p). }
  apply Hprot. apply elem_of_ids_nodes. eauto.
Qed.

End OverlayFacts.

(** *** Maps of trees that keep the tags and commute with [children] *)

Section TreeMaps.
Import ET.
Context (g : Element → Element).
Hypothesis g_tag : ∀ x, tag (g x) = tag x.

Lemma nodes_map e :
  (∀ x, x ∈ nodes e → children (g x) = map g (children x)) →
  nodes (g e) = map g (nodes e).
Proof.
  induction e as [i t s cs IH] using Element_forall_ind. intros Hc.
  rewrite (nodes_unfold (g _)), (nodes_unfold (mkElement i t s cs)).
  rewrite Hc by apply nodes_self. simpl. f_equal.
  rewrite flat_map_map, map_flat_map. apply flat_map_ext_elem.
  intros c Hcs. rewrite Forall_forall in IH. apply IH; [done|].
  intros x Hx. apply Hc. apply elem_of_nodes. right. eauto.
Qed.

Lemma descendants_map e :
  (∀ x, x ∈ nodes e → children (g x) = map g (children x)) →
  descendants (g e) = map g (descendants e).
Proof.
  intros Hc. unfold descendants. rewrite Hc by apply nodes_self.
  rewrite flat_map_map, map_flat_map. apply flat_map_ext_elem.
  intros c Hcs. apply nodes_map. intros x Hx. apply Hc.
  apply elem_of_nodes. right. eauto.
Qed.

Lemma has_tag_map t x : has_tag t (g x) = has_tag t x.
Proof. unfold has_tag. by rewrite g_tag. Qed.

Lemma findall_desc_map t e :
  (∀ x, x ∈ nodes e → children (g x) = map g (children x)) →
  findall_desc t (g e) = map g (findall_desc t e).
Proof.
  intros Hc. unfold findall_desc. rewrite descendants_map by done.
  apply filter_map_comm. intros x. apply has_tag_map.
Qed.

Lemma findall_child_map t x :
  children (g x) = map g (children x) →
  findall_child t (g x) = map g (findall_child t x).
Proof.
  intros Hc. unfold findall_child. rewrite Hc.
  apply filter_map_comm. intros y. apply has_tag_map.
Qed.

Lemma head_map {A B} (f : A → B) l : head (map f l) = f <$> head l.
Proof. by destruct l. Qed.

Lemma find_desc_map t e :
  (∀ x, x ∈ nodes e → children (g x) = map g (children x)) →
  find_desc t (g e) = g <$> find_desc t e.
Proof. intros Hc. unfold find_desc. by rewrite findall_desc_map, head_map. Qed.

Lemma find_icon_href_map e :
  (∀ x, x ∈ nodes e → children (g x) = map g (children x)) →
  find_icon_href (g e) = g <$> find_icon_href e.
Proof.
  intros Hc. unfold find_icon_href. rewrite findall_desc_map by done.
  rewrite flat_map_map, <-head_map, map_flat_map. f_equal.
  apply flat_map_ext_elem. intros x [Hx _]%findall_desc_nodes.
  apply findall_child_map. by apply Hc.
Qed.

Lemma overlays_map e :
  (∀ x, x ∈ nodes e → children (g x) = map g (children x)) →
  List.filter is_overlay (nodes (g e)) = map g (List.filter is_overlay (nodes e)).
Proof.
  intros Hc. rewrite nodes_map by done. apply filter_map_comm.
  intros x. apply has_tag_map.
Qed.

End TreeMaps.

Section CloneFacts.
Import ET.

Lemma shift_children k x : children (shift k x) = map (shift k) (children x).
Proof. apply children_shift. Qed.

Lemma upd_set_text_children i s e x :
  wf e → x ∈ nodes e →
  children (upd i (set_text s) x) = map (upd i (set_text s)) (children x).
Proof.
  intros Hwf Hx. rewrite children_upd_set_text.
  destruct (Nat.eqb_spec (eid x) i) as [<-|_]; [|done].
  symmetry. apply map_id_on. intros c Hc. apply upd_notin.
  apply (wf_not_in_children x); [|done]. by eapply wf_nodes.
Qed.

Lemma assign_text_tag found s x : tag (assign_text found s x) = tag x.
Proof. unfold assign_text. destruct found; [apply tag_upd_set_text|done]. Qed.

Lemma assign_text_children found s e x :
  wf e → x ∈ nodes e →
  children (assign_text found s x) = map (assign_text found s) (children x).
Proof.
  intros Hwf Hx. unfold assign_text. destruct found as [el|].
  - by eapply upd_set_text_children.
  - by rewrite map_id.
Qed.

(** The text of an element after an assignment to another object. *)
Lemma assign_text_text found s x :
  text (assign_text found s x) =
    match found with
    | Some el => if Nat.eqb (eid x) (eid el) then Some s else text x
    | None => text x
    end.
Proof. unfold assign_text. destruct found; [apply text_upd_set_text|done]. Qed.

Lemma basename_no_sep p : PyStr.contains "/" (PyStr.basename p) = false.
Proof.
  unfold PyStr.basename. destruct (PyStr.rsplit_last "/" p) as [[l r]|] eqn:E.
  - by apply rsplit_last_some in E as [_ ?].
  - by apply rsplit_last_none.
Qed.

Lemma basename_join d f :
  PyStr.contains "/" f = false → PyStr.basename (d +:+ "/" +:+ f) = f.
Proof.
  intros Hf. unfold PyStr.basename.
  change (d +:+ "/" +:+ f) with (d +:+ String "/" f).
  by rewrite (rsplit_last_app "/" d f Hf).
Qed.

(** The clone refers to the file it is made for, under the folder of the
    unit. *)
Lemma new_overlay_reference subfolder_name fname root T h :
  wf T → find_icon_href T = Some h →
  asset_reference (new_overlay_for subfolder_name fname root T)
  = Some (subfolder_name +:+ "/" +:+ fname).
Proof.
  intros HT Hh. unfold new_overlay_for, clone, asset_reference.
  pose proof (wf_shift (fresh root) T HT) as H0.
  set (c0 := shift (fresh root) T) in *.
  assert (find_icon_href c0 = Some (shift (fresh root) h)) as Hh0.
  { unfold c0. rewrite (find_icon_href_map (shift (fresh root))), Hh; [done| |].
    - intros x. apply tag_shift.
    - intros x _. apply shift_children. }
  rewrite Hh0. set (h0 := shift (fresh root) h) in *.
  set (s1 := subfolder_name +:+ "/" +:+ fname).
  destruct (assign_text_shape (Some h0) s1 c0 H0) as (H1 & _).
  set (c1 := assign_text (Some h0) s1 c0) in *.
  assert (find_icon_href c1 = Some (assign_text (Some h0) s1 h0)) as Hh1.
  { unfold c1. rewrite (find_icon_href_map (assign_text (Some h0) s1)), Hh0; [done| |].
    - intros x. apply assign_text_tag.
    - intros x Hx. by apply (assign_text_children _ _ c0). }
  set (h1 := assign_text (Some h0) s1 h0) in *.
  set (found := find_desc "name" c1).
  rewrite (find_icon_href_map (assign_text found (PyStr.splitext_root fname))), Hh1.
  - simpl. rewrite assign_text_text.
    assert (text h1 = Some s1) as Ht1.
    { unfold h1. rewrite assign_text_text. by rewrite Nat.eqb_refl. }
    destruct found as [nm|] eqn:Hnm; [|done].
    destruct (Nat.eqb_spec (eid h1) (eid nm)) as [E|_]; [|done].
    exfalso.
    (* two elements of the clone with one identity are one element *)
    assert (h1 ∈ nodes c1 ∧ tag h1 = kml "href") as [Hin1 Htag1].
    { unfold find_icon_href in Hh1.
      destruct (flat_map _ _) as [|y l] eqn:El; simplify_eq/=.
      assert (h1 ∈ flat_map (findall_child "href") (findall_desc "Icon" c1)) as Hy
        by (rewrite El; by left).
      apply elem_of_flat_map in Hy as (ic & [Hic _]%findall_desc_nodes & Hy).
      unfold findall_child in Hy. apply elem_of_filter_bool in Hy as [Hy Ht].
      split; [|by apply has_tag_eq].
      apply (nodes_trans c1 ic h1); [done|]. by apply children_nodes. }
    apply find_desc_nodes in Hnm as [Hin2 Htag2].
    assert (get (eid h1) c1 = Some h1) as G1 by (by apply get_wf).
    assert (get (eid nm) c1 = Some nm) as G2 by (by apply get_wf).
    rewrite E in G1. assert (h1 = nm) as Heq by congruence.
    rewrite Heq in Htag1. rewrite Htag1 in Htag2. vm_compute in Htag2. discriminate.
  - intros x. apply assign_text_tag.
  - intros x Hx. by apply (assign_text_children _ _ c1).
Qed.

(** A clone of a template without overlays below it has none either. *)
Lemma new_overlay_overlays subfolder_name fname root T :
  wf T → List.filter is_overlay (nodes T) = [T] →
  List.filter is_overlay (nodes (new_overlay_for subfolder_name fname root T))
  = [new_overlay_for subfolder_name fname root T].
Proof.
  intros HT Ho. unfold new_overlay_for, clone.
  pose proof (wf_shift (fresh root) T HT) as H0.
  set (c0 := shift (fresh root) T) in *.
  assert (List.filter is_overlay (nodes c0) = [c0]) as Ho0.
  { unfold c0. rewrite (overlays_map (shift (fresh root))), Ho; [done| |].
    - intros x. apply tag_shift.
    - intros x _. apply shift_children. }
  set (f0 := find_icon_href c0). set (s1 := subfolder_name +:+ "/" +:+ fname).
  destruct (assign_text_shape f0 s1 c0 H0) as (H1 & _).
  assert (List.filter is_overlay (nodes (assign_text f0 s1 c0)) = [assign_text f0 s1 c0]) as Ho1.
  { rewrite (overlays_map (assign_text f0 s1)), Ho0; [done| |].
    - intros x. apply assign_text_tag.
    - intros x Hx. by apply (assign_text_children _ _ c0). }
  set (c1 := assign_text f0 s1 c0) in *.
  rewrite (overlays_map (assign_text _ _)), Ho1; [done| |].
  - intros x. apply assign_text_tag.
  - intros x Hx. by apply (assign_text_children _ _ c1).
Qed.

End CloneFacts.

Section DedupFacts.
Import ET.

Lemma flat_overlays_spec root e x :
  flat_overlays root = true → e ∈ nodes root → is_overlay e = true →
  x ∈ descendants e → is_group_or_overlay x = false.
Proof.
  unfold flat_overlays. rewrite forallb_forall. intros H He Ho Hx.
  apply list_elem_of_In, H in He. rewrite Ho in He. simpl in He.
  rewrite forallb_forall in He. apply list_elem_of_In, He in Hx.
  by destruct (is_group_or_overlay x).
Qed.

Lemma nodes_descendants e : nodes e = e :: descendants e.
Proof. apply nodes_unfold. Qed.

Lemma findall_desc_overlays t :
  is_overlay t = false → findall_desc "GroundOverlay" t = overlays_of t.
Proof.
  intros Ht. unfold overlays_of, findall_desc. rewrite nodes_descendants. simpl.
  by rewrite Ht.
Qed.

Lemma overlays_of_leaf e :
  flat_overlays e = true → is_overlay e = true → overlays_of e = [e].
Proof.
  intros Hf Ho. unfold overlays_of. rewrite nodes_descendants. simpl. rewrite Ho.
  f_equal. apply filter_none. intros x Hx.
  pose proof (flat_overlays_spec e e x Hf (nodes_self e) Ho Hx) as H.
  unfold is_group_or_overlay in H. by apply orb_false_iff in H as [_ ?].
Qed.

Lemma flat_overlays_nodes root e :
  flat_overlays root = true → e ∈ nodes root → flat_overlays e = true.
Proof.
  unfold flat_overlays. rewrite !forallb_forall. intros H He x Hx.
  apply H. apply list_elem_of_In. apply list_elem_of_In in Hx.
  by apply (nodes_trans root e x).
Qed.

Section Invariant.
Context (ovs0 : list Element) (doc : nat).
Hypothesis P0 : ∀ e, e ∈ ovs0 → doc ∉ ids e.

Lemma inv_protect t C :
  overlay_inv ovs0 doc t C → (∀ c, c ∈ C → doc ∉ ids c) →
  ∀ e, e ∈ nodes t → is_overlay e = true → doc ∉ ids e.
Proof.
  intros (_ & _ & Hp) HC e He Ho.
  assert (e ∈ overlays_of t) as Hin by (by apply elem_of_filter_bool).
  rewrite Hp in Hin. apply elem_of_app in Hin as [?|?]; auto.
Qed.

Lemma inv_group_not_overlay t C dn :
  overlay_inv ovs0 doc t C → (∀ c, c ∈ C → doc ∉ ids c) →
  get doc t = Some dn → is_overlay dn = false.
Proof.
  intros HJ HC Hdn. destruct (is_overlay dn) eqn:Ho; [|done]. exfalso.
  apply get_Some in Hdn as [Hin Hid].
  eapply (inv_protect t C HJ HC dn Hin Ho). rewrite <-Hid. apply elem_of_ids. by left.
Qed.

(** A mutation of the group node keeps the invariant. *)
Lemma inv_upd t C f dn X Y :
  overlay_inv ovs0 doc t C → (∀ c, c ∈ C → doc ∉ ids c) →
  get doc t = Some dn → eid (f dn) = doc →
  ids (f dn) ≡ₚ ids dn ++ Y → NoDup Y → (∀ i, i ∈ Y → i ∉ ids t) →
  overlays_of (f dn) ≡ₚ overlays_of dn ++ X →
  overlay_inv ovs0 doc (upd doc f t) (C ++ X).
Proof.
  intros HJ HC Hdn Hid Hids HY Hfresh Hovs.
  pose proof (inv_protect t C HJ HC) as Hprot.
  destruct HJ as (Hwf & _ & Hp). split_and!.
  - by eapply wf_upd.
  - rewrite (get_upd_same doc f t dn); done.
  - unfold overlays_of in *. rewrite (overlays_upd doc f t dn X); [|done..].
    by rewrite Hp, app_assoc.
Qed.

Lemma overlays_of_append c dn :
  is_overlay dn = false → overlays_of (append c dn) = overlays_of dn ++ overlays_of c.
Proof.
  intros Hdn. unfold overlays_of. rewrite (nodes_unfold (append c dn)), (nodes_unfold dn).
  simpl. rewrite (is_overlay_same_tag (append c dn) dn) by done. rewrite Hdn.
  rewrite flat_map_app, List.filter_app. simpl. by rewrite app_nil_r.
Qed.

Lemma inv_rename subfolder_name t C :
  overlay_inv ovs0 doc t C → (∀ c, c ∈ C → doc ∉ ids c) →
  overlay_inv ovs0 doc (rename_group subfolder_name doc t) C.
Proof.
  intros HJ HC. pose proof HJ as (Hwf & [dn Hdn] & Hp).
  pose proof (inv_group_not_overlay t C dn HJ HC Hdn) as Hno.
  unfold rename_group. rewrite Hdn.
  destruct (find_child "name" dn) as [n|] eqn:Hn.
  - assert (n ∈ children dn ∧ tag n = kml "name") as [Hnc Hnt].
    { unfold find_child, findall_child in Hn.
      destruct (List.filter _ _) as [|y l] eqn:El; simplify_eq/=.
      assert (n ∈ List.filter (has_tag (kml "name")) (children dn)) as Hy
        by (rewrite El; by left).
      apply elem_of_filter_bool in Hy as [? ?]. split; [done|]. by apply has_tag_eq. }
    split_and!.
    + by apply wf_upd_set_text.
    + rewrite get_upd_set_text, Hdn by done. by eexists.
    + unfold overlays_of in *. rewrite nodes_upd_set_text by done.
      rewrite filter_map_comm by (intros x; apply is_overlay_same_tag, tag_upd_set_text).
      rewrite map_id_on; [done|].
      intros e [He Ho]%elem_of_filter_bool. apply upd_notin.
      apply get_Some in Hdn as [Hdn Hid].
      eapply (child_not_in_overlay t dn n e); try done.
      * unfold is_overlay, has_tag. rewrite Hnt. by vm_compute.
      * rewrite Hid. by eapply inv_protect.
  - set (nm := mkElement (fresh t) (kml "name") (Some subfolder_name) []).
    rewrite <-(app_nil_r C).
    eapply (inv_upd t C _ dn [] [fresh t]); try done.
    + simpl. by apply get_Some in Hdn as [_ ?].
    + by rewrite ids_append.
    + apply NoDup_singleton.
    + intros i ->%list_elem_of_singleton. apply fresh_notin.
    + by rewrite overlays_of_append.
Qed.

Lemma inv_reorder t C dn n :
  overlay_inv ovs0 doc t C → (∀ c, c ∈ C → doc ∉ ids c) →
  get doc t = Some dn →
  n = set_children
        (List.filter (λ x, negb (is_overlay x)) (children dn)
         ++ sorted get_overlay_key (findall_child "GroundOverlay" dn)) dn →
  overlay_inv ovs0 doc (upd doc (λ _, n) t) C.
Proof.
  intros HJ HC Hdn ->.
  pose proof (inv_group_not_overlay t C dn HJ HC Hdn) as Hno.
  set (cs := List.filter _ (children dn) ++ _).
  assert (cs ≡ₚ children dn) as Hperm.
  { unfold cs, findall_child. rewrite (sorted_perm get_overlay_key). apply filter_split_perm. }
  rewrite <-(app_nil_r C).
  eapply (inv_upd t C _ dn [] []); try done.
  - simpl. by apply get_Some in Hdn as [_ ?].
  - rewrite app_nil_r. by apply ids_set_children_perm.
  - constructor.
  - by intros i ?%elem_of_nil.
  - rewrite app_nil_r. unfold overlays_of.
    rewrite (nodes_unfold (set_children cs dn)), (nodes_unfold dn). simpl.
    rewrite (is_overlay_same_tag (set_children cs dn) dn) by done. rewrite Hno.
    apply filter_bool_perm. by apply Permutation_flat_map.
Qed.

End Invariant.
End DedupFacts.

Section DedupSteps.
Import ET.

Lemma inv_create_overlays ovs0 doc subfolder_name T h o cl : ∀ t C,
  (∀ e, e ∈ ovs0 → doc ∉ ids e) →
  T ∈ ovs0 → overlays_of T = [T] → find_icon_href T = Some h →
  (∀ p, p ∈ cl → snd p ≠ o ∧ PyStr.contains "/" (snd p) = false) →
  overlay_inv ovs0 doc t C →
  (∀ c, c ∈ C → (doc ∉ ids c) ∧ refers_to o c = false) →
  ∃ C',
    overlay_inv ovs0 doc (create_overlays subfolder_name (eid T) doc cl t) C' ∧
    (∀ c, c ∈ C' → (doc ∉ ids c) ∧ refers_to o c = false).
Proof.
  induction cl as [|[abs fname] cl IH]; intros t C P0 HT HoT Hh Hcl HJ HC; simpl.
  - by exists C.
  - pose proof HJ as (Hwf & [dn Hdn] & Hp).
    assert (T ∈ nodes t) as HTt.
    { assert (T ∈ overlays_of t) as Hin by (rewrite Hp; apply elem_of_app; by left).
      by apply elem_of_filter_bool in Hin as [? _]. }
    rewrite (get_wf t T Hwf HTt).
    assert (wf T) as HwT by (by eapply wf_nodes).
    set (c := new_overlay_for subfolder_name fname t T).
    destruct (new_overlay_shape subfolder_name fname t T HwT) as (Hwc & Hic & _ & _).
    fold c in Hwc, Hic.
    assert (∀ i, i ∈ ids c → i ∉ ids t) as Hfresh.
    { intros i Hi Hin. rewrite Hic in Hi. apply elem_of_map_iff in Hi as (j & _ & <-).
      apply fresh_gt in Hin. lia. }
    assert (∀ c', c' ∈ C → doc ∉ ids c') as HC' by (intros c' Hc'; by apply HC).
    pose proof (inv_group_not_overlay ovs0 doc P0 t C dn HJ HC' Hdn) as Hno.
    destruct (Hcl (abs, fname)) as [Hne Hsep]; [by left|]. simpl in Hne, Hsep.
    apply (IH _ (C ++ [c])); try done.
    + intros p Hp'. apply Hcl. by right.
    + eapply (inv_upd ovs0 doc P0 t C _ dn [c] (ids c)); try done.
      * simpl. by apply get_Some in Hdn as [_ ?].
      * by rewrite ids_append.
      * assert (overlays_of c = [c]) as Hoc by (by apply new_overlay_overlays).
        by rewrite overlays_of_append, Hoc.
    + intros c' [Hc'|Hc'%list_elem_of_singleton]%elem_of_app; [by apply HC|].
      subst c'. split.
      * intros Hin. apply (Hfresh doc Hin). apply get_Some in Hdn as [Hdn <-].
        apply elem_of_ids_nodes. eauto.
      * unfold refers_to, c.
        rewrite (new_overlay_reference subfolder_name fname t T h HwT Hh).
        rewrite basename_join by done. by apply String.eqb_neq.
Qed.

(** The group node, a child of a root that is no overlay, is in no
    overlay. *)
Lemma protect_child r D e :
  wf r → is_overlay r = false → D ∈ children r → is_overlay D = false →
  e ∈ nodes r → is_overlay e = true → eid D ∉ ids e.
Proof.
  intros Hwf Hr HD HDo He Ho Hin.
  apply elem_of_nodes in He as [->|(c & Hc & He)]; [congruence|].
  assert (c = D) as ->.
  { unfold wf in Hwf. rewrite ids_unfold in Hwf. apply NoDup_cons in Hwf as [_ Hnd].
    eapply (NoDup_flat_map_inj ids (children r) c D (eid D)); [done|done|done| |].
    - by eapply ids_nodes_subseteq.
    - apply elem_of_ids. by left. }
  rewrite nodes_descendants in He. apply elem_of_cons in He as [->|He]; [congruence|].
  eapply (wf_descendant_not_self D e); [|done|done]. by eapply wf_child.
Qed.

Lemma overlays_removed_child e pre o post :
  is_overlay e = false → children e = pre ++ o :: post →
  overlays_of e ≡ₚ overlays_of (set_children (pre ++ post) e) ++ overlays_of o.
Proof.
  intros Hno Hc. unfold overlays_of.
  rewrite (nodes_unfold e), (nodes_unfold (set_children _ _)), Hc. simpl.
  rewrite (is_overlay_same_tag (set_children (pre ++ post) e) e) by done. rewrite Hno.
  rewrite !flat_map_app, !List.filter_app. simpl. rewrite List.filter_app.
  rewrite <-app_assoc. f_equiv. apply Permutation_app_comm.
Qed.

Lemma move_overlays_overlays doc ovs : ∀ r r',
  wf r → eid r ≠ doc → is_overlay r = false →
  (∃ D, D ∈ children r ∧ eid D = doc ∧ is_overlay D = false) →
  Forall (λ ov, eid ov ≠ doc) ovs →
  move_overlays doc ovs r = Ok r' →
  overlays_of r' ≡ₚ overlays_of r.
Proof.
  induction ovs as [|ov ovs IH]; intros r r' Hwf Hr Hno (D & HD & HDid & HDo) Hovs;
    cbn [move_overlays].
  - by intros [= <-].
  - apply Forall_cons in Hovs as [Hov Hovs].
    destruct (remove_child (eid ov) (children r)) as [cs|] eqn:Hrm; [|done].
    destruct (get (eid ov) r) as [o|] eqn:Hgo; [|done].
    apply remove_child_Some in Hrm as (pre & o' & post & Hc & -> & Ho').
    assert (o = o') as <-.
    { assert (get (eid o') r = Some o') as Hg.
      { apply get_wf; [done|]. apply children_nodes. rewrite Hc.
        apply elem_of_app. right. by left. }
      rewrite Ho' in Hg. congruence. }
    destruct (move_overlay_step doc r pre o post D) as (W & L & I & C & HD');
      [done|done|done|done|done|by rewrite Ho'|].
    set (r2 := set_children (pre ++ post) r) in *.
    set (r1 := upd doc (append o) r2) in *.
    assert (overlays_of r1 ≡ₚ overlays_of r) as Hstep.
    { rewrite (overlays_removed_child r pre o post Hno Hc). fold r2.
      pose proof (ids_removed_child r pre o post Hc) as Hids. fold r2 in Hids.
      assert (NoDup (ids r2 ++ ids o)) as Hnd by (by rewrite <-Hids).
      apply NoDup_app in Hnd as (Hwf2 & _ & _).
      assert (D ∈ pre ++ post) as HD2.
      { rewrite Hc in HD. apply elem_of_app in HD as [?|[->|?]%elem_of_cons];
          [apply elem_of_app; by left|by rewrite Ho' in HDid
          |apply elem_of_app; by right]. }
      assert (get doc r2 = Some D) as HgD.
      { rewrite <-HDid. apply get_wf; [done|]. by apply children_nodes. }
      unfold overlays_of, r1. apply (overlays_upd doc _ r2 D); [done|done| |].
      - intros e He Hoe. rewrite <-HDid. by apply (protect_child r2 D e).
      - pose proof (overlays_of_append o D HDo) as Happ. unfold overlays_of in Happ.
        by rewrite Happ. }
    intros Hmv. rewrite <-Hstep. apply (IH r1 r'); try done.
    + by rewrite I.
    + unfold r1. rewrite upd_unfold. simpl.
      destruct (Nat.eqb_spec (eid r) doc); [done|]. done.
    + exists (append o D). split_and!; [done|done|done].
Qed.

End DedupSteps.

Section DedupLocate.
Import ET.

Lemma root_not_overlay root T rest :
  flat_overlays root = true → findall_desc "GroundOverlay" root = T :: rest →
  is_overlay root = false.
Proof.
  intros Hf Hovs. destruct (is_overlay root) eqn:Ho; [|done]. exfalso.
  assert (T ∈ findall_desc "GroundOverlay" root) as HT by (rewrite Hovs; by left).
  unfold findall_desc in HT. apply elem_of_filter_bool in HT as [HT HTo].
  pose proof (flat_overlays_spec root root T Hf (nodes_self root) Ho HT) as H.
  unfold is_group_or_overlay in H. apply orb_false_iff in H as [_ H].
  unfold is_overlay, overlay_tag in H. congruence.
Qed.

(** A group node of the input is in no overlay. *)
Lemma group_not_in_overlay root d e :
  wf root → flat_overlays root = true → d ∈ nodes root →
  is_group_or_overlay d = true → is_overlay d = false →
  e ∈ nodes root → is_overlay e = true → eid d ∉ ids e.
Proof.
  intros Hwf Hf Hd Hg Hdo He Ho Hin.
  pose proof (wf_inside root e d Hwf He Hd Hin) as Hde.
  rewrite nodes_descendants in Hde. apply elem_of_cons in Hde as [->|Hde]; [congruence|].
  pose proof (flat_overlays_spec root e d Hf He Ho Hde). congruence.
Qed.

Lemma inv_locate root T rest root1 doc :
  wf root → flat_overlays root = true →
  findall_desc "GroundOverlay" root = T :: rest →
  locate_group (T :: rest) root = Ok (root1, doc) →
  overlay_inv (overlays_of root) doc root1 [] ∧
  (∀ e, e ∈ overlays_of root → doc ∉ ids e).
Proof.
  intros Hwf Hf Hovs Hloc.
  pose proof (root_not_overlay root T rest Hf Hovs) as Hroot.
  destruct (locate_group_inv root T rest root1 doc Hwf Hovs Hloc) as (W1 & _ & G1).
  revert Hloc. unfold locate_group.
  destruct (find_desc "Document" root) as [d|] eqn:Hd.
  { intros [= <- <-]. apply find_desc_nodes in Hd as [Hd Htag]. split.
    - split_and!; [done|done|by rewrite app_nil_r].
    - intros e [He Ho]%elem_of_filter_bool.
      apply (group_not_in_overlay root d e); try done.
      + unfold is_group_or_overlay, has_tag. rewrite Htag. by vm_compute.
      + unfold is_overlay, has_tag. rewrite Htag. by vm_compute. }
  destruct (find_desc "Folder" root) as [d|] eqn:Hfo.
  { intros [= <- <-]. apply find_desc_nodes in Hfo as [Hfo Htag]. split.
    - split_and!; [done|done|by rewrite app_nil_r].
    - intros e [He Ho]%elem_of_filter_bool.
      apply (group_not_in_overlay root d e); try done.
      + unfold is_group_or_overlay, has_tag. rewrite Htag. by vm_compute.
      + unfold is_overlay, has_tag. rewrite Htag. by vm_compute. }
  set (doc0 := fresh root).
  set (D := mkElement doc0 (kml "Document") None []).
  destruct (move_overlays doc0 (T :: rest) (append D root)) as [r'|] eqn:Hmv; [|done].
  simpl. intros [= <- <-].
  assert (overlays_of r' ≡ₚ overlays_of root) as Hp.
  { rewrite (move_overlays_overlays doc0 (T :: rest) (append D root) r'); try done.
    - rewrite overlays_of_append by done. unfold D, overlays_of. simpl.
      by rewrite app_nil_r.
    - unfold wf. rewrite ids_append. apply NoDup_app.
      split_and!; [done| |apply NoDup_singleton].
      intros i Hi ->%list_elem_of_singleton. by apply fresh_notin in Hi.
    - simpl. intros E. apply (fresh_notin root). fold doc0. rewrite <-E.
      apply elem_of_ids. by left.
    - exists D. split_and!; [|done|done]. simpl. apply elem_of_app. right. by left.
    - rewrite <-Hovs. apply Forall_forall. intros ov [Hov _]%findall_desc_nodes E.
      apply (fresh_notin root). fold doc0. rewrite <-E.
      apply elem_of_ids_nodes. eauto. }
  split.
  - split_and!; [done|done|by rewrite app_nil_r].
  - intros e [He _]%elem_of_filter_bool Hin.
    apply (fresh_notin root). fold doc0.
    by apply (ids_nodes_subseteq root e He).
Qed.

End DedupLocate.

(** C6 (amended).  In a document whose overlays contain neither group
    nodes nor other overlays, when the template overlay refers to the
    file [o]: no clone is created for an input asset named [o], and the
    overlays of the transformed document that refer to [o] are those of
    the input document that did; there is exactly one, the template
    itself, when no other overlay of the input refers to [o]. *)
Theorem modify_kml_dedup root png_filepaths subfolder_name T rest root1 doc o :
  ET.wf root → flat_overlays root = true →
  ET.findall_desc "GroundOverlay" root = T :: rest →
  locate_group (T :: rest) root = Ok (root1, doc) →
  original_png_of T = Some o → o ≠ EmptyString →
  let create_list :=
    create_list_of (template_png (eid T) (rename_group subfolder_name doc root1))
      (all_pngs_of png_filepaths) in
  ∃ final,
    modify_kml_tree root png_filepaths subfolder_name = Ok (Some final) ∧
    (∀ p, p ∈ create_list → snd p ≠ o) ∧
    List.filter (refers_to o) (ET.findall_desc "GroundOverlay" final)
      ≡ₚ List.filter (refers_to o) (ET.findall_desc "GroundOverlay" root) ∧
    (refers_to o T = true → (∀ e, e ∈ rest → refers_to o e = false) →
     List.filter (refers_to o) (ET.findall_desc "GroundOverlay" final) = [T]).
Proof.
  intros Hwf Hf Hovs Hloc Ho Hne create_list.
  pose proof (root_not_overlay root T rest Hf Hovs) as Hroot.
  pose proof (findall_desc_overlays root Hroot) as Hovs0. rewrite Hovs in Hovs0.
  destruct (inv_locate root T rest root1 doc Hwf Hf Hovs Hloc) as (J1 & P0).
  set (ovs0 := overlays_of root) in *.
  assert (∀ c, c ∈ [] → doc ∉ ET.ids c) as HC0 by (by intros c ?%elem_of_nil).
  pose proof (inv_rename ovs0 doc P0 subfolder_name root1 [] J1 HC0) as J2.
  set (root2 := rename_group subfolder_name doc root1) in *.
  assert (T ∈ ovs0) as HT0 by (rewrite <-Hovs0; by left).
  assert (T ∈ ET.nodes root ∧ is_overlay T = true) as [HTr HTo].
  { by apply elem_of_filter_bool in HT0. }
  (* the template is as it was *)
  assert (template_png (eid T) root2 = Some o) as Hpng.
  { unfold template_png. destruct J2 as (W2 & _ & Hp2).
    assert (T ∈ overlays_of root2) as Hin by (rewrite Hp2; apply elem_of_app; by left).
    apply elem_of_filter_bool in Hin as [Hin _]. by rewrite (get_wf root2 T W2 Hin). }
  assert (∀ p, p ∈ create_list → snd p ≠ o ∧ PyStr.contains "/" (snd p) = false) as Hcl.
  { intros [abs fname]. unfold create_list, create_list_of, all_pngs_of. rewrite Hpng.
    intros [Hin Hnot]%elem_of_filter_bool. simpl in *.
    apply elem_of_map_iff in Hin as (a & _ & [= _ <-]). split; [|apply basename_no_sep].
    intros E. unfold is_original in Hnot. rewrite E, String.eqb_refl in Hnot.
    destruct o; [done|]. done. }
  assert (∃ h, ET.find_icon_href T = Some h) as [h Hh].
  { unfold original_png_of in Ho. destruct (ET.find_icon_href T); [by eexists|done]. }
  assert (overlays_of T = [T]) as HoT.
  { apply overlays_of_leaf; [|done]. by apply (flat_overlays_nodes root). }
  destruct (inv_create_overlays ovs0 doc subfolder_name T h o create_list root2 [])
    as (C & J3 & HC); try done; [by intros c ?%elem_of_nil|].
  set (root3 := create_overlays subfolder_name (eid T) doc create_list root2) in *.
  assert (build_overlays root png_filepaths subfolder_name = Ok (Some (root3, doc))) as Hb.
  { by rewrite (build_overlays_eq _ _ _ _ _ _ _ Hovs Hloc). }
  pose proof J3 as (W3 & [dn Hdn] & Hp3).
  assert (ET.wf dn) as Hwdn by (eapply wf_nodes; [done|by apply get_Some in Hdn as [? _]]).
  assert (∀ c, c ∈ C → doc ∉ ET.ids c) as HCd by (intros c Hc; by apply HC).
  pose proof (inv_reorder ovs0 doc P0 root3 C dn _ J3 HCd Hdn eq_refl) as J4.
  set (final := ET.upd doc _ root3) in *.
  assert (modify_kml_tree root png_filepaths subfolder_name = Ok (Some final)) as Hm.
  { unfold modify_kml_tree. rewrite Hb. simpl. unfold reorder_overlays.
    rewrite Hdn, (reorder_node_wf dn Hwdn). done. }
  exists final. split; [done|]. split; [intros p Hp; by apply Hcl|].
  assert (is_overlay final = false) as Hfinal.
  { destruct (is_overlay final) eqn:E; [|done]. exfalso.
    destruct J4 as (W4 & [dn4 Hdn4] & Hp4).
    apply (inv_protect ovs0 doc P0 final C (conj W4 (conj (ex_intro _ dn4 Hdn4) Hp4)) HCd
             final (nodes_self final) E).
    apply get_Some in Hdn4 as [Hin <-]. apply elem_of_ids_nodes. eauto. }
  assert (List.filter (refers_to o) (ET.findall_desc "GroundOverlay" final)
          ≡ₚ List.filter (refers_to o) (T :: rest)) as Hperm.
  { rewrite (findall_desc_overlays final Hfinal).
    destruct J4 as (_ & _ & Hp4). rewrite (filter_bool_perm _ _ _ Hp4).
    rewrite List.filter_app, <-Hovs0.
    rewrite (filter_none (refers_to o) C), app_nil_r; [done|].
    intros c Hc. by apply HC. }
  split; [by rewrite Hovs|].
  intros HTref Hrest. apply Permutation_singleton_r.
  rewrite Hperm. simpl. rewrite HTref, (filter_none (refers_to o) rest); done.
Qed.

Lemma modify_kml_dedup_witness :
  ∃ final,
    modify_kml_tree Examples.doc_scenario Examples.scenario_pngs "N56E29" = Ok (Some final) ∧
    List.filter (refers_to "base.png") (ET.findall_desc "GroundOverlay" final)
    = [Examples.overlay 3 "N56E29-001" "base.png"].
Proof.
  destruct (modify_kml_dedup Examples.doc_scenario Examples.scenario_pngs "N56E29"
              (Examples.overlay 3 "N56E29-001" "base.png") [] Examples.doc_scenario 1
              "base.png")
    as (final & Hm & _ & _ & H1).
  - apply wf_decide. vm_compute. reflexivity.
  - vm_compute. reflexivity.
  - reflexivity.
  - reflexivity.
  - reflexivity.
  - discriminate.
  - exists final. split; [exact Hm|]. apply H1; [reflexivity|].
    intros e He. inversion He.
Defined.

(** The claim C6 as stated fails: two overlays of the input refer to the
    image of the template, and both are in the transformed document. *)
Lemma dedup_counterexample :
  ∃ final,
    modify_kml_tree Examples.doc_two_same ["/in/U/base.png"%string] "U" = Ok (Some final) ∧
    original_png_of (Examples.overlay 2 "A-001" "base.png") = Some "base.png"%string ∧
    length (List.filter (refers_to "base.png") (ET.findall_desc "GroundOverlay" final)) = 2.
Proof. eexists. split; [vm_compute; reflexivity|]. split; vm_compute; reflexivity. Qed.

(** ** Further properties of the script *)

(** *** Reordering twice *)

Section ReorderAgain.
Import ET.

Lemma sorted_idem {A} (key : A → N) (l : list A) : sorted key (sorted key l) = sorted key l.
Proof. symmetry. apply sorted_unique; [apply sorted_StronglySorted|done]. Qed.

Lemma upd_const_idem d n t :
  eid n = d → upd d (λ _, n) (upd d (λ _, n) t) = upd d (λ _, n) t.
Proof.
  intros Hn. induction t as [j tg s cs IH] using Element_forall_ind.
  rewrite (upd_unfold d _ (mkElement j tg s cs)). simpl.
  destruct (Nat.eqb j d) eqn:E.
  - by rewrite upd_unfold, Hn, Nat.eqb_refl.
  - rewrite upd_unfold. simpl. rewrite E. f_equal. rewrite map_map.
    apply map_ext_elem. intros c Hc. rewrite Forall_forall in IH. by apply IH.
Qed.

Lemma filter_nonoverlay_sorted (cs : list Element) :
  List.filter (λ x, negb (is_overlay x))
    (List.filter (λ x, negb (is_overlay x)) cs
     ++ sorted get_overlay_key (List.filter is_overlay cs))
  = List.filter (λ x, negb (is_overlay x)) cs.
Proof.
  rewrite List.filter_app.
  rewrite (filter_none _ (sorted _ _)).
  - rewrite app_nil_r. apply filter_all. by intros x [_ Hx]%elem_of_filter_bool.
  - intros x Hx. rewrite sorted_perm in Hx.
    apply elem_of_filter_bool in Hx as [_ ->]. done.
Qed.

Lemma reorder_node_fixed dn :
  let n := set_children
             (List.filter (λ x, negb (is_overlay x)) (children dn)
              ++ sorted get_overlay_key (findall_child "GroundOverlay" dn)) dn in
  wf n → reorder_node n = Ok n.
Proof.
  intros n Hn. rewrite (reorder_node_wf n Hn). f_equal.
  unfold n at 3. unfold n at 1 2. rewrite findall_child_reordered. simpl.
  unfold findall_child at 1. fold overlay_tag. fold is_overlay.
  change (List.filter is_overlay (children dn)) with (findall_child "GroundOverlay" dn).
  unfold findall_child.
  change (has_tag (kml "GroundOverlay")) with is_overlay.
  by rewrite filter_nonoverlay_sorted, sorted_idem.
Qed.

End ReorderAgain.

(** X1.  When [reorder_overlays] returns, on a tree of distinct objects:
    the children of the group node that are no overlays are in front,
    in the order they had, the overlay children come behind them in
    sorted order, and a second call returns the same tree. *)
Theorem reorder_overlays_idempotent doc root dn root' :
  ET.wf root → ET.get doc root = Some dn →
  reorder_overlays doc root = Ok root' →
  ∃ dn',
    ET.get doc root' = Some dn' ∧
    children dn' =
      List.filter (λ x, negb (is_overlay x)) (children dn)
      ++ sorted get_overlay_key (ET.findall_child "GroundOverlay" dn) ∧
    reorder_overlays doc root' = Ok root'.
Proof.
  intros Hwf Hdn Hrun.
  destruct (reorder_overlays_wf doc root dn Hwf Hdn) as (final & Hr & Hwf' & _).
  assert (final = root') as -> by congruence.
  assert (ET.wf dn) as Hwdn by (apply (wf_nodes root); [done|by apply get_Some in Hdn as [? _]]).
  unfold reorder_overlays in Hr. rewrite Hdn, (reorder_node_wf dn Hwdn) in Hr.
  simpl in Hr. injection Hr as Hr.
  set (n := ET.set_children _ dn) in Hr.
  assert (eid n = doc) as Hid by (unfold n; simpl; by apply get_Some in Hdn as [_ ?]).
  assert (ET.get doc root' = Some n) as Hn.
  { rewrite <-Hr. by apply (get_upd_same doc (λ _, n) root dn). }
  exists n. split_and!; [done|done|].
  unfold reorder_overlays. rewrite Hn.
  assert (ET.wf n) as Hwn by (apply (wf_nodes root'); [done|by apply get_Some in Hn as [? _]]).
  pose proof (reorder_node_fixed dn Hwn) as Hfix. change (reorder_node n = Ok n) in Hfix.
  rewrite Hfix. simpl. f_equal.
  rewrite <-Hr. by apply upd_const_idem.
Qed.

Lemma reorder_overlays_idempotent_witness :
  let group :=
    Examples.el 1 "Document" None
      [Examples.overlay 2 "A-010" "c.png";
       Examples.el 12 "Placemark" None [];
       Examples.overlay 7 "A-002" "b.png"] in
  ∃ root' dn',
    reorder_overlays 1 (Examples.el 0 "kml" None [group]) = Ok root' ∧
    ET.get 1 root' = Some dn' ∧
    map eid (children dn') = [12; 7; 2] ∧
    reorder_overlays 1 root' = Ok root'.
Proof.
  intros group.
  destruct (reorder_overlays 1 (Examples.el 0 "kml" None [group])) as [root'|e] eqn:E;
    [|vm_compute in E; discriminate E].
  destruct (reorder_overlays_idempotent 1 (Examples.el 0 "kml" None [group]) group root')
    as (dn' & H1 & H2 & H3).
  - apply wf_decide. vm_compute. reflexivity.
  - reflexivity.
  - exact E.
  - exists root', dn'. split; [reflexivity|]. split; [exact H1|]. split; [|exact H3].
    rewrite H2. vm_compute. reflexivity.
Defined.

Section GroupName.
Import ET.

Lemma reorder_overlays_get doc t dn :
  wf t → get doc t = Some dn →
  let n := set_children
             (List.filter (λ x, negb (is_overlay x)) (children dn)
              ++ sorted get_overlay_key (findall_child "GroundOverlay" dn)) dn in
  reorder_overlays doc t = Ok (upd doc (λ _, n) t) ∧
  get doc (upd doc (λ _, n) t) = Some n.
Proof.
  intros Hwf Hdn n.
  assert (wf dn) as Hwdn by (apply (wf_nodes t); [done|by apply get_Some in Hdn as [? _]]).
  split.
  - unfold reorder_overlays. by rewrite Hdn, (reorder_node_wf dn Hwdn).
  - apply (get_upd_same doc (λ _, n) t dn); [done|].
    unfold n. simpl. by apply get_Some in Hdn as [_ ?].
Qed.

Lemma find_child_app_l t dn n clones :
  find_child t dn = Some n →
  find_child t (set_children (children dn ++ clones) dn) = Some n.
Proof.
  unfold find_child, findall_child. simpl. rewrite List.filter_app.
  by destruct (List.filter _ (children dn)).
Qed.

Lemma find_child_reordered t dn :
  kml t ≠ overlay_tag →
  find_child t
    (set_children
       (List.filter (λ x, negb (is_overlay x)) (children dn)
        ++ sorted get_overlay_key (findall_child "GroundOverlay" dn)) dn)
  = find_child t dn.
Proof.
  intros Hne. unfold find_child. f_equal. unfold findall_child at 1. simpl.
  rewrite List.filter_app. rewrite (filter_none _ (sorted _ _)).
  - rewrite app_nil_r. unfold findall_child.
    induction (children dn) as [|c cs IH]; simpl; [done|].
    destruct (is_overlay c) eqn:Ec; simpl.
    + apply is_overlay_tag in Ec.
      destruct (has_tag (kml t) c) eqn:Et; [|done].
      apply has_tag_eq in Et. congruence.
    + destruct (has_tag (kml t) c); by rewrite IH.
  - intros x Hx. rewrite sorted_perm in Hx.
    apply elem_of_filter_bool in Hx as [_ Hx]. apply has_tag_eq in Hx.
    destruct (has_tag (kml t) x) eqn:Et; [|done].
    apply has_tag_eq in Et. unfold overlay_tag in Hne. congruence.
Qed.

Lemma rename_group_named s doc t dn :
  wf t → get doc t = Some dn →
  ∃ dn', get doc (rename_group s doc t) = Some dn' ∧ tag dn' = tag dn ∧ group_name dn' = Some s.
Proof.
  intros Hwf Hdn. unfold rename_group. rewrite Hdn.
  destruct (find_child "name" dn) as [n|] eqn:Hn.
  - exists (upd (eid n) (set_text s) dn). split_and!.
    + by rewrite get_upd_set_text, Hdn.
    + apply tag_upd_set_text.
    + unfold group_name, find_child, findall_child in *. rewrite children_upd_set_text.
      destruct (Nat.eqb (eid dn) (eid n)) eqn:E.
      * exfalso. apply Nat.eqb_eq in E.
        assert (n ∈ List.filter (has_tag (kml "name")) (children dn)) as Hin.
        { destruct (List.filter _ (children dn)); simplify_eq/=. by left. }
        apply elem_of_filter_bool in Hin as [Hin _].
        assert (wf dn) as Hwdn
          by (apply (wf_nodes t); [done|by apply get_Some in Hdn as [? _]]).
        apply (wf_not_in_children dn n Hwdn Hin). rewrite E. apply elem_of_ids. by left.
      * rewrite filter_map_comm by (intros x; unfold has_tag; by rewrite tag_upd_set_text).
        rewrite head_map, Hn. simpl. by rewrite upd_unfold, Nat.eqb_refl.
  - set (nm := mkElement (fresh t) (kml "name") (Some s) []).
    exists (append nm dn). split_and!.
    + apply get_upd_same; [done|]. simpl. by apply get_Some in Hdn as [_ ?].
    + done.
    + unfold group_name, find_child, findall_child in *. simpl. rewrite List.filter_app.
      destruct (List.filter _ (children dn)); [|done]. done.
Qed.

End GroupName.

Section GroupNameThm.
Import ET.

Lemma group_name_app_l dn clones s :
  group_name dn = Some s → group_name (set_children (children dn ++ clones) dn) = Some s.
Proof.
  unfold group_name. destruct (find_child "name" dn) as [n|] eqn:Hn; [|done].
  by rewrite (find_child_app_l "name" dn n clones Hn).
Qed.

Lemma group_name_reordered dn :
  group_name
    (set_children
       (List.filter (λ x, negb (is_overlay x)) (children dn)
        ++ sorted get_overlay_key (findall_child "GroundOverlay" dn)) dn)
  = group_name dn.
Proof. unfold group_name. by rewrite find_child_reordered. Qed.

End GroupNameThm.

(** The group node through the steps of [modify_kml]. *)
Lemma modify_kml_tree_group root png_filepaths subfolder_name T rest root1 doc :
  ET.wf root →
  ET.findall_desc "GroundOverlay" root = T :: rest →
  locate_group (T :: rest) root = Ok (root1, doc) →
  ∃ final dn1 dn,
    modify_kml_tree root png_filepaths subfolder_name = Ok (Some final) ∧
    ET.wf final ∧
    ET.get doc root1 = Some dn1 ∧ ET.get doc final = Some dn ∧
    tag dn = tag dn1 ∧ group_name dn = Some subfolder_name.
Proof.
  intros Hwf Hovs Hloc.
  destruct (locate_group_inv root T rest root1 doc Hwf Hovs Hloc) as (W1 & L1 & dn1 & Hdn1).
  destruct (rename_group_inv subfolder_name (eid T) doc root1 dn1 W1 L1 Hdn1)
    as (dn2 & W2 & L2 & Hdn2 & _).
  destruct (rename_group_named subfolder_name doc root1 dn1 W1 Hdn1) as (dn2' & Hdn2' & Htag & Hname).
  assert (dn2' = dn2) as -> by congruence.
  set (root2 := rename_group subfolder_name doc root1) in *.
  set (cl := create_list_of (template_png (eid T) root2) (all_pngs_of png_filepaths)).
  destruct (create_overlays_inv subfolder_name (eid T) doc cl root2 dn2 W2 L2 Hdn2)
    as (clones & W3 & _ & Hdn3 & _).
  set (root3 := create_overlays subfolder_name (eid T) doc cl root2) in *.
  destruct (reorder_overlays_get doc root3 _ W3 Hdn3) as [Hr Hdn4].
  destruct (reorder_overlays_wf doc root3 _ W3 Hdn3) as (final & Hr' & W4 & _).
  rewrite Hr in Hr'. injection Hr' as <-.
  eexists _, dn1, _. split_and!; [|done|done|exact Hdn4| |].
  - unfold modify_kml_tree.
    rewrite (build_overlays_eq root png_filepaths subfolder_name T rest root1 doc Hovs Hloc).
    simpl. fold root2. fold cl. fold root3. by rewrite Hr.
  - done.
  - rewrite group_name_reordered. by apply group_name_app_l.
Qed.

(** X2.  Whichever the group node is (the first [Document], else the
    first [Folder], else the synthesized [Document]), after [modify_kml]
    it is still that kind of node and its name, the text of its first
    [name] child, is the name of the unit. *)
Theorem modify_kml_group_named root png_filepaths subfolder_name T rest root1 doc :
  ET.wf root →
  ET.findall_desc "GroundOverlay" root = T :: rest →
  locate_group (T :: rest) root = Ok (root1, doc) →
  ∃ final dn1 dn,
    modify_kml_tree root png_filepaths subfolder_name = Ok (Some final) ∧
    ET.get doc root1 = Some dn1 ∧ ET.get doc final = Some dn ∧
    tag dn = tag dn1 ∧ group_name dn = Some subfolder_name.
Proof.
  intros Hwf Hovs Hloc.
  destruct (modify_kml_tree_group root png_filepaths subfolder_name T rest root1 doc
              Hwf Hovs Hloc) as (final & dn1 & dn & H1 & _ & H2 & H3 & H4 & H5).
  by exists final, dn1, dn.
Qed.

Lemma modify_kml_group_named_witness :
  ∃ final dn,
    modify_kml_tree Examples.doc_flat ["/in/U/base.png"%string] "U" = Ok (Some final) ∧
    ET.get 11 final = Some dn ∧
    tag dn = ET.kml "Document" ∧ group_name dn = Some "U"%string.
Proof.
  destruct (modify_kml_group_named Examples.doc_flat ["/in/U/base.png"%string] "U"%string
              (Examples.overlay 1 "A-002" "base.png") [Examples.overlay 6 "A-001" "b.png"]
              (Examples.el 0 "kml" None
                 [Examples.el 11 "Document" None
                    [Examples.overlay 1 "A-002" "base.png";
                     Examples.overlay 6 "A-001" "b.png"]]) 11)
    as (final & dn1 & dn & H1 & H2 & H3 & H4 & H5).
  - apply wf_decide. vm_compute. reflexivity.
  - reflexivity.
  - vm_compute. reflexivity.
  - exists final, dn. split; [exact H1|]. split; [exact H3|]. split; [|exact H5].
    rewrite H4. vm_compute in H2. injection H2 as <-. reflexivity.
Defined.

Section LabelFacts.
Import ET.

Lemma labels_set_children_perm cs e :
  cs ≡ₚ children e → labels (set_children cs e) ≡ₚ labels e.
Proof.
  intros H. unfold labels. rewrite (nodes_unfold (set_children cs e)), (nodes_unfold e).
  simpl. constructor. apply Permutation_map. by apply Permutation_flat_map.
Qed.

Lemma tags_of_nodes t x : x ∈ nodes t → tags_of x ⊆ tags_of t.
Proof.
  intros Hx g (p & Hp & <-)%elem_of_map_iff.
  apply elem_of_map_iff in Hp as (y & Hy & <-).
  apply elem_of_map_iff. exists (eid y, tag y). split; [|done].
  apply elem_of_map_iff. exists y. split; [|done]. by eapply nodes_trans.
Qed.

(** The clones bring no tag that the tree does not have. *)
Lemma create_overlays_labels subfolder_name tmpl doc cl : ∀ t dn,
  wf t → (tmpl, overlay_tag) ∈ labels t → get doc t = Some dn →
  ∃ added,
    labels (create_overlays subfolder_name tmpl doc cl t) ≡ₚ labels t ++ added ∧
    (∀ p, p ∈ added → p.2 ∈ tags_of t).
Proof.
  induction cl as [|[abs fname] cl IH]; intros t dn Hwf Hl Hdn; simpl.
  - exists []. by rewrite app_nil_r; split; [|intros p ?%elem_of_nil].
  - destruct (labels_get t tmpl overlay_tag Hwf Hl) as (T & HT & Htag & HTt).
    rewrite HT.
    destruct (add_overlay_inv subfolder_name fname tmpl doc t T dn Hwf HT Hdn)
      as (Hwf' & Hdn' & Hl' & Hc).
    assert (wf T) as HwT by (by apply (wf_nodes t)).
    destruct (new_overlay_shape subfolder_name fname t T HwT) as (_ & _ & _ & Lc).
    set (c := new_overlay_for subfolder_name fname t T) in *.
    assert (∀ p, p ∈ labels c → p.2 ∈ tags_of t) as Hc'.
    { intros p Hp. rewrite Lc in Hp. apply elem_of_map_iff in Hp as (q & Hq & <-). simpl.
      apply (tags_of_nodes t T HTt). apply elem_of_map_iff. by exists q. }
    destruct (IH (upd doc (append c) t) (append c dn)) as (added & Hperm & Hadd);
      [done| |done|].
    { rewrite Hl'. apply elem_of_app. by left. }
    exists (labels c ++ added). split.
    + by rewrite Hperm, Hl', <-app_assoc.
    + intros p [Hp|Hp]%elem_of_app; [by apply Hc'|].
      apply Hadd in Hp. unfold tags_of in Hp. rewrite Hl', map_app in Hp.
      apply elem_of_app in Hp as [Hp|Hp]; [done|].
      apply elem_of_map_iff in Hp as (q & Hq & <-). by apply Hc'.
Qed.

Lemma rename_group_labels s doc t dn :
  wf t → get doc t = Some dn →
  labels (rename_group s doc t) = labels t ∨
  labels (rename_group s doc t) ≡ₚ labels t ++ [(fresh t, kml "name")].
Proof.
  intros Hwf Hdn. unfold rename_group. rewrite Hdn.
  destruct (find_child "name" dn) as [n|].
  - left. by apply labels_upd_set_text.
  - right. set (nm := mkElement (fresh t) (kml "name") (Some s) []).
    by rewrite (labels_upd doc _ t dn (labels nm)); [|done|done|by rewrite labels_append].
Qed.

Lemma locate_group_labels root T rest root1 doc :
  wf root → findall_desc "GroundOverlay" root = T :: rest →
  locate_group (T :: rest) root = Ok (root1, doc) →
  match find_desc "Document" root, find_desc "Folder" root with
  | Some d, _ => root1 = root ∧ doc = eid d
  | None, Some d => root1 = root ∧ doc = eid d
  | None, None =>
      doc = fresh root ∧ labels root1 ≡ₚ labels root ++ [(fresh root, kml "Document")]
  end.
Proof.
  intros Hwf Hovs. unfold locate_group.
  destruct (find_desc "Document" root) as [d|] eqn:Hd; [by intros [= <- <-]|].
  destruct (find_desc "Folder" root) as [d|] eqn:Hf; [by intros [= <- <-]|].
  set (doc0 := fresh root).
  set (D := mkElement doc0 (kml "Document") None []).
  destruct (move_overlays doc0 (T :: rest) (append D root)) as [r'|] eqn:Hmv; [|done].
  simpl. intros [= <- <-]. split; [done|].
  apply move_overlays_inv in Hmv as (W & L & I & (D' & HD' & HDid')).
  - by rewrite L, labels_append.
  - unfold wf. rewrite ids_append. apply NoDup_app. split_and!; [done| |apply NoDup_singleton].
    intros i Hi ->%list_elem_of_singleton. by apply fresh_notin in Hi.
  - simpl. intros E. apply (fresh_notin root). fold doc0. rewrite <-E.
    apply elem_of_ids. by left.
  - exists D. split; [|done]. simpl. apply elem_of_app. right. by left.
  - rewrite <-Hovs. apply Forall_forall. intros ov [Hov _]%findall_desc_nodes E.
    apply (fresh_notin root). fold doc0. rewrite <-E.
    apply elem_of_ids_nodes. eauto.
Qed.

(** The labels of the transformed tree: those of the tree in which the
    group node was located, and labels whose tag is [name] or a tag of
    that tree. *)
Lemma modify_kml_tree_labels root png_filepaths subfolder_name T rest root1 doc :
  wf root →
  findall_desc "GroundOverlay" root = T :: rest →
  locate_group (T :: rest) root = Ok (root1, doc) →
  ∃ final added,
    modify_kml_tree root png_filepaths subfolder_name = Ok (Some final) ∧
    labels final ≡ₚ labels root1 ++ added ∧
    (∀ p, p ∈ added → p.2 = kml "name" ∨ p.2 ∈ tags_of root1).
Proof.
  intros Hwf Hovs Hloc.
  destruct (locate_group_inv root T rest root1 doc Hwf Hovs Hloc) as (W1 & L1 & dn1 & Hdn1).
  destruct (rename_group_inv subfolder_name (eid T) doc root1 dn1 W1 L1 Hdn1)
    as (dn2 & W2 & L2 & Hdn2 & _).
  pose proof (rename_group_labels subfolder_name doc root1 dn1 W1 Hdn1) as Hl2.
  set (root2 := rename_group subfolder_name doc root1) in *.
  set (cl := create_list_of (template_png (eid T) root2) (all_pngs_of png_filepaths)).
  destruct (create_overlays_inv subfolder_name (eid T) doc cl root2 dn2 W2 L2 Hdn2)
    as (clones & W3 & _ & Hdn3 & _).
  destruct (create_overlays_labels subfolder_name (eid T) doc cl root2 dn2 W2 L2 Hdn2)
    as (added & Hl3 & Hadd).
  set (root3 := create_overlays subfolder_name (eid T) doc cl root2) in *.
  destruct (reorder_overlays_get doc root3 _ W3 Hdn3) as [Hr Hdn4].
  set (n := set_children _ _) in Hr, Hdn4.
  assert (labels (upd doc (λ _, n) root3) ≡ₚ labels root3) as Hl4.
  { rewrite <-(app_nil_r (labels root3)).
    apply (labels_upd doc _ root3 _ [] W3 Hdn3). rewrite app_nil_r.
    apply labels_set_children_perm. simpl. unfold findall_child.
    rewrite (sorted_perm get_overlay_key). apply filter_split_perm. }
  assert (modify_kml_tree root png_filepaths subfolder_name
          = Ok (Some (upd doc (λ _, n) root3))) as Hm.
  { unfold modify_kml_tree.
    rewrite (build_overlays_eq root png_filepaths subfolder_name T rest root1 doc Hovs Hloc).
    simpl. fold root2. fold cl. fold root3. by rewrite Hr. }
  destruct Hl2 as [Hl2|Hl2].
  - exists (upd doc (λ _, n) root3), added. split_and!; [done| |].
    + by rewrite Hl4, Hl3, Hl2.
    + intros p Hp. right. apply Hadd in Hp. unfold tags_of in *. by rewrite Hl2 in Hp.
  - exists (upd doc (λ _, n) root3), ((fresh root1, kml "name") :: added). split_and!; [done| |].
    + rewrite Hl4, Hl3, Hl2. by rewrite <-app_assoc.
    + intros p [->|Hp]%elem_of_cons; [by left|].
      apply Hadd in Hp. unfold tags_of in *. rewrite Hl2, map_app in Hp.
      apply elem_of_app in Hp as [Hp|Hp]; [by right|].
      apply list_elem_of_singleton in Hp. by left.
Qed.

End LabelFacts.

Lemma notin_decide (g : string) (l : list string) : bool_decide (g ∉ l) = true → g ∉ l.
Proof. apply bool_decide_eq_true_1. Qed.

(** X3.  In a document without any [Document] element whose first
    [Folder] is [f], the group node that [modify_kml] names after the
    unit is that [Folder], and the transformed document has no
    [Document] element either. *)
Theorem modify_kml_keeps_folder root png_filepaths subfolder_name T rest f :
  ET.wf root →
  ET.kml "Document" ∉ tags_of root →
  ET.find_desc "Folder" root = Some f →
  ET.findall_desc "GroundOverlay" root = T :: rest →
  ∃ final dn,
    modify_kml_tree root png_filepaths subfolder_name = Ok (Some final) ∧
    ET.get (eid f) final = Some dn ∧
    tag dn = ET.kml "Folder" ∧ group_name dn = Some subfolder_name ∧
    ET.kml "Document" ∉ tags_of final.
Proof.
  intros Hwf Hnd Hf Hovs.
  assert (ET.find_desc "Document" root = None) as Hd.
  { destruct (ET.find_desc "Document" root) as [d|] eqn:Hd; [|done]. exfalso.
    apply find_desc_nodes in Hd as [Hd Htag]. apply Hnd.
    apply elem_of_map_iff. exists (eid d, tag d). split; [|done].
    apply elem_of_map_iff. by exists d. }
  assert (locate_group (T :: rest) root = Ok (root, eid f)) as Hloc.
  { unfold locate_group. by rewrite Hd, Hf. }
  destruct (modify_kml_tree_group root png_filepaths subfolder_name T rest root (eid f)
              Hwf Hovs Hloc) as (final & dn1 & dn & Hm & _ & Hdn1 & Hdn & Htag & Hname).
  destruct (modify_kml_tree_labels root png_filepaths subfolder_name T rest root (eid f)
              Hwf Hovs Hloc) as (final' & added & Hm' & Hl & Hadd).
  assert (final' = final) as -> by congruence.
  apply find_desc_nodes in Hf as [Hfn Hft].
  rewrite (get_wf root f Hwf Hfn) in Hdn1. injection Hdn1 as <-.
  exists final, dn. split_and!; [done|done|congruence|done|].
  unfold tags_of. rewrite Hl, map_app. intros [Hin|Hin]%elem_of_app; [done|].
  apply elem_of_map_iff in Hin as (p & Hp & Hp2).
  destruct (Hadd p Hp) as [E|E].
  - rewrite Hp2 in E. vm_compute in E. discriminate E.
  - rewrite Hp2 in E. done.
Qed.

Lemma modify_kml_keeps_folder_witness :
  ∃ final dn,
    modify_kml_tree Examples.doc_folder ["/in/U/a.png"%string] "U" = Ok (Some final) ∧
    ET.get 1 final = Some dn ∧
    tag dn = ET.kml "Folder" ∧ group_name dn = Some "U"%string.
Proof.
  destruct (modify_kml_keeps_folder Examples.doc_folder ["/in/U/a.png"%string] "U"%string
              (Examples.overlay 2 "A-001" "base.png") []
              (Examples.el 1 "Folder" None [Examples.overlay 2 "A-001" "base.png"]))
    as (final & dn & H1 & H2 & H3 & H4 & _).
  - apply wf_decide. vm_compute. reflexivity.
  - apply notin_decide. vm_compute. reflexivity.
  - reflexivity.
  - reflexivity.
  - exists final, dn. split; [exact H1|]. split; [exact H2|]. split; [exact H3|exact H4].
Defined.

(** X4.  [modify_kml] drops no element and changes no tag: every element
    of the input document is in the transformed document, with the tag
    it had; and the transformed document has no kind of element that the
    input did not have, but for [name] and [Document]. *)
Theorem modify_kml_keeps_elements root png_filepaths subfolder_name T rest root1 doc :
  ET.wf root →
  ET.findall_desc "GroundOverlay" root = T :: rest →
  locate_group (T :: rest) root = Ok (root1, doc) →
  ∃ final,
    modify_kml_tree root png_filepaths subfolder_name = Ok (Some final) ∧
    (∀ i g, (i, g) ∈ ET.labels root → (i, g) ∈ ET.labels final) ∧
    (∀ g, g ∈ tags_of final →
          g ∈ tags_of root ∨ g = ET.kml "name" ∨ g = ET.kml "Document").
Proof.
  intros Hwf Hovs Hloc.
  destruct (modify_kml_tree_labels root png_filepaths subfolder_name T rest root1 doc
              Hwf Hovs Hloc) as (final & added & Hm & Hl & Hadd).
  pose proof (locate_group_labels root T rest root1 doc Hwf Hovs Hloc) as H1.
  assert (ET.labels root1 ≡ₚ ET.labels root ∨
          ET.labels root1 ≡ₚ ET.labels root ++ [(ET.fresh root, ET.kml "Document")]) as Hl1.
  { destruct (ET.find_desc "Document" root); [destruct H1 as [-> _]; by left|].
    destruct (ET.find_desc "Folder" root); [destruct H1 as [-> _]; by left|].
    destruct H1 as [_ H1]. by right. }
  assert (∀ g, g ∈ tags_of root1 → g ∈ tags_of root ∨ g = ET.kml "Document") as Ht1.
  { intros g. unfold tags_of. destruct Hl1 as [Hl1|Hl1]; rewrite Hl1; [by left|].
    rewrite map_app. intros [?|Hg%list_elem_of_singleton]%elem_of_app; [by left|by right]. }
  exists final. split_and!; [done| |].
  - intros i g Hin. rewrite Hl. apply elem_of_app. left.
    destruct Hl1 as [Hl1|Hl1]; rewrite Hl1; [done|]. apply elem_of_app. by left.
  - intros g. unfold tags_of at 1. rewrite Hl, map_app.
    intros [Hg|Hg]%elem_of_app.
    + destruct (Ht1 g Hg); auto.
    + apply elem_of_map_iff in Hg as (p & Hp & <-).
      destruct (Hadd p Hp) as [E|E]; [auto|]. destruct (Ht1 _ E); auto.
Qed.

Lemma modify_kml_keeps_elements_witness :
  ∃ final,
    modify_kml_tree Examples.doc_scenario Examples.scenario_pngs "N56E29" = Ok (Some final) ∧
    (∀ i g, (i, g) ∈ ET.labels Examples.doc_scenario → (i, g) ∈ ET.labels final).
Proof.
  destruct (modify_kml_keeps_elements Examples.doc_scenario Examples.scenario_pngs "N56E29"
              (Examples.overlay 3 "N56E29-001" "base.png") [] Examples.doc_scenario 1)
    as (final & H1 & H2 & _).
  - apply wf_decide. vm_compute. reflexivity.
  - reflexivity.
  - reflexivity.
  - exists final. split; [exact H1|exact H2].
Defined.

Section CloneName.
Import ET.

Lemma new_overlay_name subfolder_name fname root T n :
  wf T → find_desc "name" T = Some n →
  display_name (new_overlay_for subfolder_name fname root T)
  = Some (PyStr.splitext_root fname).
Proof.
  intros HT Hn. unfold new_overlay_for, clone, display_name.
  pose proof (wf_shift (fresh root) T HT) as H0.
  set (c0 := shift (fresh root) T) in *.
  assert (find_desc "name" c0 = Some (shift (fresh root) n)) as Hn0.
  { unfold c0. rewrite (find_desc_map (shift (fresh root))), Hn; [done| |].
    - intros x. apply tag_shift.
    - intros x _. apply shift_children. }
  set (f0 := find_icon_href c0). set (s1 := subfolder_name +:+ "/" +:+ fname).
  destruct (assign_text_shape f0 s1 c0 H0) as (H1 & _).
  set (c1 := assign_text f0 s1 c0) in *.
  assert (find_desc "name" c1 = Some (assign_text f0 s1 (shift (fresh root) n))) as Hn1.
  { unfold c1. rewrite (find_desc_map (assign_text f0 s1)), Hn0; [done| |].
    - intros x. apply assign_text_tag.
    - intros x Hx. by apply (assign_text_children _ _ c0). }
  rewrite Hn1. set (n1 := assign_text f0 s1 (shift (fresh root) n)) in *.
  rewrite (find_desc_map (assign_text (Some n1) (PyStr.splitext_root fname))), Hn1.
  - cbn [fmap option_fmap option_map]. rewrite assign_text_text. by rewrite Nat.eqb_refl.
  - intros x. apply assign_text_tag.
  - intros x Hx. by apply (assign_text_children _ _ c1).
Qed.

Lemma new_overlay_tags subfolder_name fname root T :
  wf T → tags_of (new_overlay_for subfolder_name fname root T) = tags_of T.
Proof.
  intros HT. destruct (new_overlay_shape subfolder_name fname root T HT) as (_ & _ & _ & L).
  unfold tags_of. rewrite L, map_map. done.
Qed.

(** What [create_overlays] adds: one clone of the template for every
    entry of [create_list], in that order. *)
Lemma inv_create_clones ovs0 doc subfolder_name T cl : ∀ t C,
  (∀ e, e ∈ ovs0 → doc ∉ ids e) →
  T ∈ ovs0 → overlays_of T = [T] →
  overlay_inv ovs0 doc t C →
  (∀ c, c ∈ C → doc ∉ ids c) →
  ∃ C',
    overlay_inv ovs0 doc (create_overlays subfolder_name (eid T) doc cl t) (C ++ C') ∧
    (∀ c, c ∈ C' → doc ∉ ids c) ∧
    Forall2 (λ c p, ∃ r, c = new_overlay_for subfolder_name (snd p) r T) C' cl.
Proof.
  induction cl as [|[abs fname] cl IH]; intros t C P0 HT HoT HJ HC; simpl.
  - exists []. rewrite app_nil_r. split_and!; [done|by intros c ?%elem_of_nil|constructor].
  - pose proof HJ as (Hwf & [dn Hdn] & Hp).
    assert (T ∈ nodes t) as HTt.
    { assert (T ∈ overlays_of t) as Hin by (rewrite Hp; apply elem_of_app; by left).
      by apply elem_of_filter_bool in Hin as [? _]. }
    rewrite (get_wf t T Hwf HTt).
    assert (wf T) as HwT by (by eapply wf_nodes).
    set (c := new_overlay_for subfolder_name fname t T).
    destruct (new_overlay_shape subfolder_name fname t T HwT) as (Hwc & Hic & _ & _).
    fold c in Hwc, Hic.
    assert (∀ i, i ∈ ids c → i ∉ ids t) as Hfresh.
    { intros i Hi Hin. rewrite Hic in Hi. apply elem_of_map_iff in Hi as (j & _ & <-).
      apply fresh_gt in Hin. lia. }
    pose proof (inv_group_not_overlay ovs0 doc P0 t C dn HJ HC Hdn) as Hno.
    assert (doc ∉ ids c) as Hdc.
    { intros Hin. apply (Hfresh doc Hin). apply get_Some in Hdn as [Hdn <-].
      apply elem_of_ids_nodes. eauto. }
    destruct (IH (upd doc (append c) t) (C ++ [c])) as (C' & J' & HC' & HF); try done.
    + eapply (inv_upd ovs0 doc P0 t C _ dn [c] (ids c)); try done.
      * simpl. by apply get_Some in Hdn as [_ ?].
      * by rewrite ids_append.
      * assert (overlays_of c = [c]) as Hoc by (by apply new_overlay_overlays).
        by rewrite overlays_of_append, Hoc.
    + intros c' [Hc'|Hc'%list_elem_of_singleton]%elem_of_app; [by apply HC|by subst].
    + exists (c :: C'). split_and!.
      * by rewrite <-app_assoc in J'.
      * intros c' [->|Hc']%elem_of_cons; [done|by apply HC'].
      * constructor; [by exists t|done].
Qed.

(** The overlays of the transformed document: those of the input, as
    they were, and the clones. *)
Lemma modify_kml_tree_overlays root png_filepaths subfolder_name T rest root1 doc :
  wf root → flat_overlays root = true →
  findall_desc "GroundOverlay" root = T :: rest →
  locate_group (T :: rest) root = Ok (root1, doc) →
  let create_list := create_list_of (original_png_of T) (all_pngs_of png_filepaths) in
  ∃ final clones,
    modify_kml_tree root png_filepaths subfolder_name = Ok (Some final) ∧
    template_png (eid T) (rename_group subfolder_name doc root1) = original_png_of T ∧
    overlay_inv (T :: rest) doc final clones ∧
    is_overlay final = false ∧
    (∀ e, e ∈ (T :: rest) ++ clones → doc ∉ ids e) ∧
    Forall2 (λ c p, ∃ r, c = new_overlay_for subfolder_name (snd p) r T) clones create_list.
Proof.
  intros Hwf Hf Hovs Hloc create_list.
  pose proof (root_not_overlay root T rest Hf Hovs) as Hroot.
  pose proof (findall_desc_overlays root Hroot) as Hovs0. rewrite Hovs in Hovs0.
  destruct (inv_locate root T rest root1 doc Hwf Hf Hovs Hloc) as (J1 & P0).
  rewrite <-Hovs0 in J1, P0.
  set (ovs0 := T :: rest) in *.
  assert (∀ c, c ∈ [] → doc ∉ ids c) as HC0 by (by intros c ?%elem_of_nil).
  pose proof (inv_rename ovs0 doc P0 subfolder_name root1 [] J1 HC0) as J2.
  set (root2 := rename_group subfolder_name doc root1) in *.
  assert (T ∈ ovs0) as HT0 by (by left).
  assert (T ∈ nodes root ∧ is_overlay T = true) as [HTr HTo].
  { assert (T ∈ overlays_of root) as Hin by (rewrite <-Hovs0; by left).
    by apply elem_of_filter_bool in Hin. }
  assert (template_png (eid T) root2 = original_png_of T) as Hpng.
  { unfold template_png. destruct J2 as (W2 & _ & Hp2).
    assert (T ∈ overlays_of root2) as Hin by (rewrite Hp2; apply elem_of_app; by left).
    apply elem_of_filter_bool in Hin as [Hin _]. by rewrite (get_wf root2 T W2 Hin). }
  assert (overlays_of T = [T]) as HoT.
  { apply overlays_of_leaf; [|done]. by apply (flat_overlays_nodes root). }
  destruct (inv_create_clones ovs0 doc subfolder_name T create_list root2 [])
    as (C & J3 & HC & HF); try done.
  simpl in J3.
  set (root3 := create_overlays subfolder_name (eid T) doc create_list root2) in *.
  assert (build_overlays root png_filepaths subfolder_name = Ok (Some (root3, doc))) as Hb.
  { rewrite (build_overlays_eq _ _ _ _ _ _ _ Hovs Hloc). fold root2. by rewrite Hpng. }
  pose proof J3 as (W3 & [dn Hdn] & Hp3).
  assert (wf dn) as Hwdn by (apply (wf_nodes root3); [done|by apply get_Some in Hdn as [? _]]).
  pose proof (inv_reorder ovs0 doc P0 root3 C dn _ J3 HC Hdn eq_refl) as J4.
  set (final := upd doc _ root3) in *.
  assert (modify_kml_tree root png_filepaths subfolder_name = Ok (Some final)) as Hm.
  { unfold modify_kml_tree. rewrite Hb. simpl. unfold reorder_overlays.
    rewrite Hdn, (reorder_node_wf dn Hwdn). done. }
  exists final, C. split_and!; [done|done|done| | |done].
  - destruct (is_overlay final) eqn:E; [|done]. exfalso.
    destruct J4 as (W4 & [dn4 Hdn4] & Hp4).
    apply (inv_protect ovs0 doc P0 final C (conj W4 (conj (ex_intro _ dn4 Hdn4) Hp4)) HC
             final (nodes_self final) E).
    apply get_Some in Hdn4 as [Hin <-]. apply elem_of_ids_nodes. eauto.
  - intros e [He|He]%elem_of_app; [by apply P0|by apply HC].
Qed.

End CloneName.

(** X5.  In a document whose overlays contain neither group nodes nor
    other overlays, the overlays of the transformed document are the
    overlays of the input, each one as it was, and one clone of the
    template for every input asset whose file name is not the one the
    template refers to, made in the order of the input assets.  A clone
    has the elements of the template; its asset reference is
    [<unit>/<file name>] when the template has an [Icon/href], and its
    display name is the file name without extension when the template
    has a [name]. *)
Theorem modify_kml_clones root png_filepaths subfolder_name T rest root1 doc :
  ET.wf root → flat_overlays root = true →
  ET.findall_desc "GroundOverlay" root = T :: rest →
  locate_group (T :: rest) root = Ok (root1, doc) →
  let create_list := create_list_of (original_png_of T) (all_pngs_of png_filepaths) in
  ∃ final clones,
    modify_kml_tree root png_filepaths subfolder_name = Ok (Some final) ∧
    ET.findall_desc "GroundOverlay" final ≡ₚ (T :: rest) ++ clones ∧
    Forall2 (λ c p,
               tags_of c = tags_of T ∧
               (is_Some (ET.find_icon_href T) →
                asset_reference c = Some (subfolder_name +:+ "/" +:+ snd p)) ∧
               (is_Some (ET.find_desc "name" T) →
                display_name c = Some (PyStr.splitext_root (snd p))))
            clones create_list.
Proof.
  intros Hwf Hf Hovs Hloc create_list.
  destruct (modify_kml_tree_overlays root png_filepaths subfolder_name T rest root1 doc
              Hwf Hf Hovs Hloc) as (final & clones & Hm & _ & (_ & _ & Hp) & Hno & _ & HF).
  assert (ET.wf T) as HwT.
  { apply (wf_nodes root); [done|].
    assert (T ∈ ET.findall_desc "GroundOverlay" root) as Hin by (rewrite Hovs; by left).
    by apply findall_desc_nodes in Hin as [? _]. }
  exists final, clones. split_and!; [done| |].
  - by rewrite (findall_desc_overlays final Hno).
  - eapply Forall2_impl; [exact HF|]. intros c p [r ->]. split_and!.
    + by apply new_overlay_tags.
    + intros [h Hh]. by apply (new_overlay_reference _ _ _ _ h).
    + intros [n Hn]. by apply (new_overlay_name _ _ _ _ n).
Qed.

Lemma modify_kml_clones_witness :
  ∃ final clones,
    modify_kml_tree Examples.doc_scenario Examples.scenario_pngs "N56E29" = Ok (Some final) ∧
    ET.findall_desc "GroundOverlay" final
      ≡ₚ [Examples.overlay 3 "N56E29-001" "base.png"] ++ clones ∧
    map asset_reference clones
    = [Some "N56E29/N56E29-002.png"; Some "N56E29/N56E29-010.png"]%string.
Proof.
  destruct (modify_kml_clones Examples.doc_scenario Examples.scenario_pngs "N56E29"%string
              (Examples.overlay 3 "N56E29-001" "base.png") [] Examples.doc_scenario 1)
    as (final & clones & H1 & H2 & H3).
  - apply wf_decide. vm_compute. reflexivity.
  - vm_compute. reflexivity.
  - reflexivity.
  - reflexivity.
  - exists final, clones. split; [exact H1|]. split; [exact H2|].
    vm_compute create_list_of in H3.
    inversion H3 as [|c1 p1 l1 l1' (_ & R1 & _) H3']. subst.
    inversion H3' as [|c2 p2 l2 l2' (_ & R2 & _) H3'']. subst.
    inversion H3''. subst. simpl.
    rewrite R1, R2; [reflexivity|eexists; reflexivity|eexists; reflexivity].
Defined.

Section SynthesisShape.
Import ET.

(** A mutation below the last child of the root. *)
Lemma upd_last_child r0 A D i f :
  wf (set_children (A ++ [D]) r0) → i ∈ ids D →
  upd i f (set_children (A ++ [D]) r0) = set_children (A ++ [upd i f D]) r0.
Proof.
  intros Hwf Hi. rewrite upd_unfold. simpl.
  destruct (Nat.eqb_spec (eid r0) i) as [E|_].
  - exfalso. apply (wf_not_in_children _ D Hwf).
    + simpl. apply elem_of_app. right. by left.
    + simpl. by rewrite E.
  - unfold set_children. f_equal. rewrite map_app. simpl. f_equal.
    apply map_id_on. intros a Ha. apply upd_notin. intros Hin.
    unfold wf in Hwf. rewrite ids_unfold in Hwf. simpl in Hwf.
    apply NoDup_cons in Hwf as [_ Hnd]. rewrite flat_map_app in Hnd.
    apply NoDup_app in Hnd as (_ & Hdisj & _).
    apply (Hdisj i); [apply elem_of_flat_map; eauto|]. simpl. by rewrite app_nil_r.
Qed.

Lemma get_last_child r0 A D :
  wf (set_children (A ++ [D]) r0) → get (eid D) (set_children (A ++ [D]) r0) = Some D.
Proof.
  intros Hwf. apply get_wf; [done|]. apply children_nodes. simpl.
  apply elem_of_app. right. by left.
Qed.

Lemma rename_group_shape s doc r0 A D :
  wf (set_children (A ++ [D]) r0) → eid D = doc →
  ∃ D', rename_group s doc (set_children (A ++ [D]) r0) = set_children (A ++ [D']) r0 ∧
        eid D' = doc.
Proof.
  intros Hwf HD. unfold rename_group. rewrite <-HD, (get_last_child r0 A D Hwf).
  destruct (find_child "name" D) as [n|] eqn:Hn.
  - exists (upd (eid n) (set_text s) D). split; [|apply eid_upd_set_text].
    apply upd_last_child; [done|].
    assert (n ∈ List.filter (has_tag (kml "name")) (children D)) as Hin.
    { unfold find_child, findall_child in Hn.
      destruct (List.filter _ (children D)); simplify_eq/=. by left. }
    apply elem_of_filter_bool in Hin as [Hin _].
    apply elem_of_ids_nodes. exists n. split; [by apply children_nodes|done].
  - eexists. split.
    + apply upd_last_child; [done|]. apply elem_of_ids. by left.
    + rewrite upd_unfold, Nat.eqb_refl. done.
Qed.

Lemma create_overlays_shape s tmpl doc r0 A cl : ∀ D,
  wf (set_children (A ++ [D]) r0) → eid D = doc →
  ∃ D', create_overlays s tmpl doc cl (set_children (A ++ [D]) r0)
        = set_children (A ++ [D']) r0 ∧ eid D' = doc.
Proof.
  induction cl as [|[abs fname] cl IH]; intros D Hwf HD; cbn [create_overlays].
  - by exists D.
  - set (t := set_children (A ++ [D]) r0) in *.
    destruct (get tmpl t) as [T0|] eqn:HT; [|by apply IH].
    pose proof (get_last_child r0 A D Hwf) as Hdn. rewrite HD in Hdn. fold t in Hdn.
    destruct (add_overlay_inv s fname tmpl doc t T0 D Hwf HT Hdn) as (Hwf' & _).
    set (c := new_overlay_for s fname t T0) in *.
    assert (upd doc (append c) t = set_children (A ++ [append c D]) r0) as E.
    { unfold t. rewrite upd_last_child; [|done|rewrite <-HD; apply elem_of_ids; by left].
      by rewrite (upd_unfold doc _ D), HD, Nat.eqb_refl. }
    rewrite E in Hwf' |- *. by apply IH.
Qed.

(** *** Sublists of the nodes of a tree *)

Lemma sublist_filter_bool {A} (P : A → bool) (l1 l2 : list A) :
  l1 `sublist_of` l2 → List.filter P l1 `sublist_of` List.filter P l2.
Proof.
  induction 1 as [|x l1 l2 _ IH|x l1 l2 _ IH]; simpl.
  - constructor.
  - destruct (P x); [by constructor|done].
  - destruct (P x); [by constructor|done].
Qed.

Lemma sublist_same_length {A} (l1 l2 : list A) :
  l1 `sublist_of` l2 → length l2 ≤ length l1 → l1 = l2.
Proof.
  induction 1 as [|x l1 l2 _ IH|x l1 l2 H IH]; simpl; intros Hlen.
  - done.
  - f_equal. apply IH. lia.
  - apply sublist_length in H. lia.
Qed.

Lemma children_sublist e : children e `sublist_of` descendants e.
Proof.
  unfold descendants. induction (children e) as [|c cs IH]; simpl; [constructor|].
  rewrite (nodes_unfold c). simpl. constructor.
  by apply sublist_inserts_l.
Qed.

Lemma nodes_sublist t : ∀ x, x ∈ nodes t → nodes x `sublist_of` nodes t.
Proof.
  induction t as [j tg s cs IH] using Element_forall_ind. intros x Hx.
  apply elem_of_nodes in Hx as [->|(c & Hc & Hx)]; [done|]. simpl in Hc.
  rewrite (nodes_unfold (mkElement j tg s cs)). simpl. apply sublist_cons.
  rewrite Forall_forall in IH.
  induction cs as [|c' cs IHcs]; simpl; [by apply elem_of_nil in Hc|].
  apply elem_of_cons in Hc as [->|Hc].
  - apply sublist_inserts_r. apply IH; [by left|done].
  - apply sublist_inserts_l. apply IHcs; [|done].
    intros y Hy. apply IH. by right.
Qed.

Lemma findall_child_sublist g t dn :
  dn ∈ nodes t → findall_child g dn `sublist_of` List.filter (has_tag (kml g)) (nodes t).
Proof.
  intros Hdn. unfold findall_child. apply sublist_filter_bool.
  transitivity (nodes dn); [|by apply nodes_sublist].
  rewrite nodes_descendants. apply sublist_cons, children_sublist.
Qed.

End SynthesisShape.

(** X6.  A document without group node whose overlays are the overlay
    children of the root: [modify_kml] leaves the other children of the
    root in place and puts one new [Document] behind them; that node has
    the name of the unit, and every overlay of the transformed document
    (the overlays of the input, as they were, and the clones) is a child
    of it. *)
Theorem modify_kml_synthesis root png_filepaths subfolder_name T rest :
  ET.wf root → flat_overlays root = true →
  ET.find_desc "Document" root = None → ET.find_desc "Folder" root = None →
  ET.findall_desc "GroundOverlay" root = List.filter is_overlay (children root) →
  ET.findall_desc "GroundOverlay" root = T :: rest →
  ∃ final group clones,
    modify_kml_tree root png_filepaths subfolder_name = Ok (Some final) ∧
    children final = List.filter (λ x, negb (is_overlay x)) (children root) ++ [group] ∧
    tag group = ET.kml "Document" ∧ group_name group = Some subfolder_name ∧
    ET.findall_desc "GroundOverlay" final = ET.findall_child "GroundOverlay" group ∧
    ET.findall_child "GroundOverlay" group ≡ₚ (T :: rest) ++ clones ∧
    length clones = length (create_list_of (original_png_of T) (all_pngs_of png_filepaths)).
Proof.
  intros Hwf Hf Hd Hfo Hch Hovs.
  pose proof (locate_group_synthesizes root Hwf Hd Hfo Hch) as Hloc. rewrite Hovs in Hloc.
  set (A := List.filter (λ x, negb (is_overlay x)) (children root)) in *.
  set (doc := ET.fresh root) in *.
  set (D1 := mkElement doc (ET.kml "Document") None (T :: rest)) in *.
  set (root1 := ET.set_children (A ++ [D1]) root) in *.
  destruct (modify_kml_tree_group root png_filepaths subfolder_name T rest root1 doc
              Hwf Hovs Hloc) as (final & dn1 & dn & Hm & W4 & Hdn1 & Hdn & Htag & Hname).
  destruct (modify_kml_tree_overlays root png_filepaths subfolder_name T rest root1 doc
              Hwf Hf Hovs Hloc)
    as (final' & clones & Hm' & Hpng & (_ & _ & Hp) & Hno & _ & HF).
  assert (final' = final) as -> by congruence. clear Hm'.
  destruct (locate_group_inv root T rest root1 doc Hwf Hovs Hloc) as (W1 & L1 & _).
  pose proof (get_last_child root A D1 W1) as HD1. change (eid D1) with doc in HD1. fold root1 in HD1.
  assert (dn1 = D1) as -> by congruence.
  (* the shape of the tree through the steps *)
  destruct (rename_group_inv subfolder_name (eid T) doc root1 D1 W1 L1 Hdn1)
    as (dn2 & W2 & L2 & Hdn2 & _).
  destruct (rename_group_shape subfolder_name doc root A D1 W1 eq_refl) as (D2 & E2 & HD2).
  fold root1 in E2. rewrite E2 in W2, L2, Hdn2.
  pose proof (get_last_child root A D2 W2) as HD2'. rewrite HD2 in HD2'.
  assert (dn2 = D2) as -> by congruence.
  set (cl := create_list_of (template_png (eid T) (rename_group subfolder_name doc root1))
               (all_pngs_of png_filepaths)).
  destruct (create_overlays_inv subfolder_name (eid T) doc cl _ D2 W2 L2 Hdn2)
    as (cs & W3 & _ & _).
  destruct (create_overlays_shape subfolder_name (eid T) doc root A cl D2 W2 HD2)
    as (D3 & E3 & HD3).
  rewrite E3 in W3.
  pose proof (get_last_child root A D3 W3) as HD3'. rewrite HD3 in HD3'.
  destruct (reorder_overlays_get doc _ D3 W3 HD3') as [Hr _].
  set (n := ET.set_children _ D3) in Hr.
  rewrite upd_last_child in Hr; [|done|rewrite <-HD3; apply elem_of_ids; by left].
  rewrite (upd_unfold doc _ D3), HD3, Nat.eqb_refl in Hr.
  assert (final = ET.set_children (A ++ [n]) root) as Hfinal.
  { unfold modify_kml_tree in Hm.
    rewrite (build_overlays_eq root png_filepaths subfolder_name T rest root1 doc Hovs Hloc)
      in Hm.
    simpl in Hm. fold cl in Hm. rewrite E2, E3, Hr in Hm. simpl in Hm. congruence. }
  assert (dn = n) as ->.
  { rewrite Hfinal in W4, Hdn. pose proof (get_last_child root A n W4) as Hn.
    change (eid n) with (eid D3) in Hn. rewrite HD3 in Hn. congruence. }
  (* the overlays *)
  assert (length clones
          = length (create_list_of (original_png_of T) (all_pngs_of png_filepaths))) as Hlc
    by (by apply Forall2_length in HF).
  assert (ET.findall_desc "GroundOverlay" final = ET.findall_child "GroundOverlay" n) as Hall.
  { symmetry. apply sublist_same_length.
    - rewrite (findall_desc_overlays final Hno).
      apply (findall_child_sublist "GroundOverlay" final n).
      by apply get_Some in Hdn as [? _].
    - rewrite (findall_desc_overlays final Hno), Hp, length_app, Hlc.
      destruct (build_overlays_inv root png_filepaths subfolder_name T rest root1 doc
                  Hwf Hovs Hloc) as (pre & Hb & _ & _ & Hlen).
      destruct (modify_kml_tree_wf root png_filepaths subfolder_name pre doc Hwf Hb)
        as (final'' & Hm'' & _ & Hgo).
      assert (final'' = final) as -> by congruence.
      unfold group_overlays at 1 in Hgo. rewrite Hdn in Hgo. rewrite Hgo.
      rewrite (Permutation_length (sorted_perm get_overlay_key _)), Hlen.
      fold cl. unfold cl. rewrite Hpng.
      unfold group_overlays. rewrite Hdn1. unfold ET.findall_child. simpl children.
      rewrite filter_all; [done|].
      intros x Hx. rewrite <-Hovs in Hx. apply findall_desc_nodes in Hx as [_ Hx].
      by apply has_tag_eq. }
  exists final, n, clones. split_and!; [done|by rewrite Hfinal|done|done|done| |done].
  by rewrite <-Hall, (findall_desc_overlays final Hno).
Qed.

Lemma modify_kml_synthesis_witness :
  ∃ final group,
    modify_kml_tree Examples.doc_flat ["/in/U/base.png"; "/in/U/A-003.png"]%string "U"
    = Ok (Some final) ∧
    children final = [group] ∧ tag group = ET.kml "Document" ∧
    ET.findall_desc "GroundOverlay" final = ET.findall_child "GroundOverlay" group.
Proof.
  destruct (modify_kml_synthesis Examples.doc_flat
              ["/in/U/base.png"; "/in/U/A-003.png"]%string "U"%string
              (Examples.overlay 1 "A-002" "base.png") [Examples.overlay 6 "A-001" "b.png"])
    as (final & group & clones & H1 & H2 & H3 & _ & H4 & _).
  - apply wf_decide. vm_compute. reflexivity.
  - vm_compute. reflexivity.
  - reflexivity.
  - reflexivity.
  - reflexivity.
  - reflexivity.
  - exists final, group. split; [exact H1|]. split; [exact H2|]. split; [exact H3|exact H4].
Defined.

Lemma move_overlays_raises doc ovs : ∀ r e,
  move_overlays doc ovs r = Raise e → e = ValueError.
Proof.
  induction ovs as [|ov ovs IH]; intros r e; cbn [move_overlays]; [done|].
  destruct (ET.remove_child (eid ov) (children r)) as [cs|]; [|by intros [= <-]].
  destruct (ET.get (eid ov) r) as [o|]; [|by intros [= <-]].
  apply IH.
Qed.

(** *** The batch *)

Lemma run_units_count output_folder units : ∀ n0 fs n fs',
  run_units output_folder units n0 fs = (Ok n, fs') →
  n0 ≤ n ∧ n ≤ n0 + length units.
Proof.
  induction units as [|u units IH]; intros n0 fs n fs' H; cbn [run_units] in H.
  - run_ret H. simpl. lia.
  - run_bind H as ok fs1 E. cbv beta in H. apply IH in H. simpl. destruct ok; lia.
Qed.

Lemma subdirs_of_spec main_folder names fs :
  subdirs_of main_folder names fs
  = (Ok (map (PyStr.join main_folder)
           (List.filter (λ d, match FS.resolve (FS.components (PyStr.join main_folder d)) fs with
                              | Some (Dir _) => true
                              | _ => false
                              end) names)), fs).
Proof.
  induction names as [|d names IH]; cbn [subdirs_of]; [done|].
  unfold bind at 1. unfold Os.isdir at 1. unfold bind at 1. rewrite IH.
  cbn [List.filter]. unfold ret.
  by destruct (FS.resolve _ fs) as [[|]|].
Qed.

(** X8.  When [main] ends with the message [Done], the units it went
    through are the entries of the main folder that are directories, in
    the order of the listing, there is at least one, and the count it
    shows is the count of [run_units], at most the number of units. *)
Theorem main_success_count main_folder output_folder fs n fs' :
  main main_folder output_folder fs = (Done n, fs') →
  ∃ names,
    Os.listdir main_folder fs = (Ok names, fs) ∧
    let is_unit d :=
      match FS.resolve (FS.components (PyStr.join main_folder d)) fs with
      | Some (Dir _) => true
      | _ => false
      end in
    let all_subfolders := map (PyStr.join main_folder) (List.filter is_unit names) in
    all_subfolders ≠ [] ∧
    run_units output_folder all_subfolders 0 fs = (Ok n, fs') ∧
    n ≤ length all_subfolders.
Proof.
  unfold main.
  destruct (PyStr.truthy main_folder); [|done]. destruct (PyStr.truthy output_folder); [|done].
  cbn [negb]. cbv zeta.
  unfold bind at 1. destruct (Os.listdir main_folder fs) as [[names|e] fs1] eqn:El; [|done].
  pose proof (listdir_state _ _ _ _ El) as ->.
  unfold bind at 1. rewrite subdirs_of_spec.
  set (subs := map _ (List.filter _ names)).
  destruct subs as [|u subs'] eqn:Es; [done|]. rewrite <-Es.
  unfold bind at 1.
  destruct (run_units output_folder subs 0 fs) as [[k|e] fs2] eqn:Er; [|done].
  unfold ret. intros [= <- <-].
  exists names. split; [done|]. cbv zeta. fold subs. split_and!.
  - by rewrite Es.
  - done.
  - apply run_units_count in Er. lia.
Qed.

Lemma main_success_count_witness :
  ∃ fs' names,
    main "/in" "/out" Examples.fs_units = (Done 1, fs') ∧
    Os.listdir "/in" Examples.fs_units = (Ok names, Examples.fs_units) ∧
    names = ["skipped"; "N56E29"; "notes.txt"]%string.
Proof.
  destruct (main "/in" "/out" Examples.fs_units) as [d fs'] eqn:E.
  assert (d = Done 1) as -> by (vm_compute in E; congruence).
  destruct (main_success_count "/in" "/out" Examples.fs_units 1 fs' E)
    as (names & Hl & _ & _ & _).
  exists fs', names. split; [reflexivity|]. split; [exact Hl|].
  vm_compute in Hl. congruence.
Defined.

(** *** The members of the archive *)

Section PackFacts.
Import FS.

Lemma node_forall_ind (P : node → Prop) :
  (∀ c, P (File c)) → (∀ es, Forall (λ e, P e.2) es → P (Dir es)) → ∀ n, P n.
Proof.
  intros HF HD. fix IH 1. intros [c|es]; [apply HF|]. apply HD.
  induction es as [|[k v] es IHes]; constructor; [apply IH|apply IHes].
Qed.

Lemma lookup_entry_Some d es v : lookup_entry d es = Some v → (d, v) ∈ es.
Proof.
  induction es as [|[k x] es IH]; simpl; [done|].
  destruct (String.eqb_spec k d) as [->|_].
  - intros [= ->]. by left.
  - intros H. right. by apply IH.
Qed.

Lemma elem_of_file_names d es : d ∈ file_names es ↔ ∃ c, (d, File c) ∈ es.
Proof.
  unfold file_names. rewrite elem_of_map_iff. split.
  - intros ([k [c|es']] & [Hin Hf]%elem_of_filter_bool & <-); [|done]. by exists c.
  - intros [c Hin]. exists (d, File c). split; [|done]. by apply elem_of_filter_bool.
Qed.

Lemma elem_of_dir_names d es : d ∈ dir_names es ↔ ∃ sub, (d, Dir sub) ∈ es.
Proof.
  unfold dir_names. rewrite elem_of_map_iff. split.
  - intros ([k [c|es']] & [Hin Hf]%elem_of_filter_bool & <-); [done|]. by exists es'.
  - intros [sub Hin]. exists (d, Dir sub). split; [|done]. by apply elem_of_filter_bool.
Qed.

(** The members are the regular files below the directory, each under
    the path made of the names that lead to it. *)
Lemma walk_members_spec n : ∀ rel name c,
  (name, c) ∈ walk_members rel n ↔
  ∃ cs, cs ≠ [] ∧ name = foldl PyStr.join rel cs ∧ resolve cs n = Some (File c).
Proof.
  induction n as [c0|es IH] using node_forall_ind; intros rel name c.
  { split; [by intros ?%elem_of_nil|]. intros ([|d cs] & Hne & _ & Hr); [done|]. done. }
  rewrite walk_members_Dir, elem_of_app, !elem_of_flat_map.
  rewrite Forall_forall in IH. split.
  - intros [(file & Hfile & Hin)|(d & Hd & Hin)].
    + apply elem_of_map_iff in Hin as (c' & Hc' & [= <- <-]).
      exists [file]. split_and!; [done|done|]. simpl.
      unfold lookup_content in Hc'. destruct (lookup_entry file es) as [[c1|]|]; try (by apply elem_of_nil in Hc').
      by apply list_elem_of_singleton in Hc' as ->.
    + destruct (lookup_entry d es) as [sub|] eqn:Hl; [|by apply elem_of_nil in Hin].
      apply (IH (d, sub)) in Hin as (cs & Hne & -> & Hr); [|by apply lookup_entry_Some].
      exists (d :: cs). split_and!; [done|done|]. simpl. by rewrite Hl.
  - intros ([|d cs] & Hne & -> & Hr); [done|]. simpl in Hr.
    destruct (lookup_entry d es) as [sub|] eqn:Hl; [|done].
    pose proof (lookup_entry_Some d es sub Hl) as Hin.
    destruct cs as [|d' cs].
    + simpl in Hr. injection Hr as ->. left. exists d. split.
      * rewrite sort_names_perm. apply elem_of_file_names. by exists c.
      * apply elem_of_map_iff. exists c. split; [|done].
        unfold lookup_content. rewrite Hl. by left.
    + right. exists d. destruct sub as [c1|sub]; [done|]. split.
      * rewrite sort_names_perm. apply elem_of_dir_names. by exists sub.
      * rewrite Hl. apply (IH (d, Dir sub) Hin). exists (d' :: cs). by split_and!.
Qed.

End PackFacts.

(** *** What a write leaves in place *)

Section FrameFacts.
Import FS.

Lemma lookup_set_entry_ne c' c v es :
  c' ≠ c → lookup_entry c' (set_entry c v es) = lookup_entry c' es.
Proof.
  intros Hne. induction es as [|[k x] es IH]; simpl.
  - destruct (String.eqb_spec c c'); [congruence|done].
  - destruct (String.eqb_spec k c) as [->|Hkc]; simpl.
    + destruct (String.eqb_spec c c'); [congruence|done].
    + destruct (String.eqb_spec k c'); [done|apply IH].
Qed.

Lemma lookup_del_entry_ne c' c es :
  c' ≠ c → lookup_entry c' (del_entry c es) = lookup_entry c' es.
Proof.
  intros Hne. unfold del_entry. induction es as [|[k x] es IH]; simpl; [done|].
  destruct (String.eqb_spec k c) as [->|Hkc]; simpl.
  - destruct (String.eqb_spec c c'); [congruence|done].
  - destruct (String.eqb_spec k c'); [done|apply IH].
Qed.

(** [os.makedirs] leaves every file where it is. *)
Lemma mkdirs_keeps_file b cs : ∀ n n' t c,
  mkdirs b cs n = Ok n' → resolve t n = Some (File c) → resolve t n' = Some (File c).
Proof.
  induction cs as [|d cs IH]; intros n n' t c; simpl.
  - destruct n; [done|]. destruct b; [|done]. by intros [= <-].
  - destruct n as [c0|es]; [done|].
    destruct (lookup_entry d es) as [sub|] eqn:Hl.
    + destruct (mkdirs b cs sub) as [sub'|e] eqn:Hm; [|done]. simpl. intros [= <-].
      destruct t as [|d' t]; [done|]. simpl.
      destruct (String.eqb_spec d' d) as [->|Hne].
      * rewrite Hl, lookup_set_entry. by apply IH.
      * by rewrite lookup_set_entry_ne.
    + intros [= <-]. destruct t as [|d' t]; [done|]. simpl.
      destruct (String.eqb_spec d' d) as [->|Hne].
      * by rewrite Hl.
      * by rewrite lookup_set_entry_ne.
Qed.

(** A write leaves every other file where it is, unless it replaces a
    directory. *)
Lemma put_keeps_file cs v : ∀ n n' t c,
  put cs v n = Some n' → resolve t n = Some (File c) → t ≠ cs →
  (∀ es, resolve cs n ≠ Some (Dir es)) →
  resolve t n' = Some (File c).
Proof.
  induction cs as [|d cs IH]; intros n n' t c; simpl; [done|].
  destruct n as [c0|es]; [done|].
  destruct cs as [|d2 cs].
  - intros [= <-] Ht Hne Hnd. destruct t as [|d' t]; [done|]. simpl in *.
    destruct (String.eqb_spec d' d) as [->|Hdd].
    + destruct (lookup_entry d es) as [sub|]; [|done].
      destruct t as [|d3 t]; [done|]. destruct sub as [|sub]; [done|].
      by destruct (Hnd sub).
    + by rewrite lookup_set_entry_ne.
  - destruct (lookup_entry d es) as [sub|] eqn:Hl; [|done].
    destruct (put (d2 :: cs) v sub) as [sub'|] eqn:Hp; [|done].
    intros [= <-] Ht Hne Hnd. destruct t as [|d' t]; [done|]. simpl in Ht |- *.
    destruct (String.eqb_spec d' d) as [->|Hdd].
    + rewrite Hl in Ht. rewrite lookup_set_entry.
      apply (IH sub sub' t c Hp Ht); [congruence|done].
    + by rewrite lookup_set_entry_ne.
Qed.

Lemma write_file_keeps p c0 fs fs' t c :
  Os.write_file p c0 fs = (Ok (), fs') →
  resolve t fs = Some (File c) → t ≠ components p →
  resolve t fs' = Some (File c).
Proof.
  unfold Os.write_file. intros H Ht Hne.
  destruct (resolve (components p) fs) as [[c1|es]|] eqn:Hr; [| done |];
    destruct (put (components p) (File c0) fs) as [fs1|] eqn:Hp; try done;
    injection H as <-; eapply put_keeps_file; try done; intros es'; congruence.
Qed.

End FrameFacts.

(** *** Extraction *)

Section ExtractFacts.
Import FS.

Lemma extract_member_keeps extract_to m fs1 fs2 t c :
  Os.extract_member extract_to m fs1 = (Ok (), fs2) →
  resolve t fs1 = Some (File c) →
  t ≠ components extract_to ++ member_components (fst m) →
  resolve t fs2 = Some (File c).
Proof.
  unfold Os.extract_member. set (target := components extract_to ++ _).
  destruct (PyStr.endswith "/" m.1).
  - destruct (mkdirs true target fs1) as [fs'|e] eqn:Hm; [|done].
    intros [= <-] Ht _. by eapply mkdirs_keeps_file.
  - destruct (mkdirs true (removelast target) fs1) as [fs'|e] eqn:Hm; [|done].
    destruct (resolve target fs') as [[c1|es]|] eqn:Hr; [|done|];
      destruct (put target (File m.2) fs') as [fs''|] eqn:Hp; try done;
      intros [= <-] Ht Hne;
      (eapply put_keeps_file; [done|by eapply mkdirs_keeps_file|done|intros es'; congruence]).
Qed.

Lemma extract_member_file extract_to m fs1 fs2 :
  Os.extract_member extract_to m fs1 = (Ok (), fs2) →
  PyStr.endswith "/" (fst m) = false →
  resolve (components extract_to ++ member_components (fst m)) fs2 = Some (File (snd m)).
Proof.
  unfold Os.extract_member. set (target := components extract_to ++ _).
  intros H Hf. rewrite Hf in H.
  destruct (mkdirs true (removelast target) fs1) as [fs'|e] eqn:Hm; [|done].
  destruct (resolve target fs') as [[c1|es]|] eqn:Hr; [|done|];
    destruct (put target (File m.2) fs') as [fs''|] eqn:Hp; try done;
    injection H as <-; by eapply resolve_put.
Qed.

Lemma extractall_keeps extract_to members : ∀ fs fs' t c,
  Os.extractall extract_to members fs = (Ok (), fs') →
  resolve t fs = Some (File c) →
  (∀ m, m ∈ members → t ≠ components extract_to ++ member_components (fst m)) →
  resolve t fs' = Some (File c).
Proof.
  induction members as [|m members IH]; intros fs fs' t c H Ht Hne;
    cbn [Os.extractall] in H.
  - cbv [ret] in H. by injection H as <-.
  - run_bind H as u fs1 E. destruct u. cbv beta in H.
    eapply IH; [done| |].
    + eapply extract_member_keeps; [done|done|]. apply Hne. by left.
    + intros m' Hm'. apply Hne. by right.
Qed.

(** The file of a member is where the member was extracted to, unless a
    later member has the same path. *)
Lemma extractall_last extract_to l1 name c l2 fs fs' :
  Os.extractall extract_to (l1 ++ (name, c) :: l2) fs = (Ok (), fs') →
  PyStr.endswith "/" name = false →
  (∀ m, m ∈ l2 → member_components (fst m) ≠ member_components name) →
  resolve (components extract_to ++ member_components name) fs' = Some (File c).
Proof.
  revert fs. induction l1 as [|m l1 IH]; intros fs H Hf Hl2; simpl in H.
  - run_bind H as u fs1 E. destruct u. cbv beta in H.
    eapply extractall_keeps; [done| |].
    + by apply (extract_member_file extract_to (name, c) fs fs1).
    + intros m Hm Heq. apply app_inv_head in Heq. by apply (Hl2 m).
  - run_bind H as u fs1 E. cbv beta in H. by eapply IH.
Qed.

End ExtractFacts.

(** X10.  When [extract_kmz] returns, every member of the archive that
    is a file is under the extraction directory, at the path its name
    gives once cleaned, with the content of the member; of several
    members with one path the last one is the one that is there. *)
Theorem extract_kmz_extracts kmz_path extract_to fs fs' :
  extract_kmz kmz_path extract_to fs = (Ok (), fs') →
  ∃ members,
    Os.read_file kmz_path fs = (Ok (Zip members), fs) ∧
    ∀ l1 name c l2,
      members = l1 ++ (name, c) :: l2 →
      PyStr.endswith "/" name = false →
      (∀ m, m ∈ l2 → FS.member_components (fst m) ≠ FS.member_components name) →
      FS.resolve (FS.components extract_to ++ FS.member_components name) fs'
      = Some (File c).
Proof.
  unfold extract_kmz. intros H. run_bind H as c0 fs1 E.
  assert (fs1 = fs) as ->.
  { unfold Os.read_file in E. by destruct (FS.resolve _ fs) as [[|]|]; simplify_eq. }
  destruct c0 as [|root|members]; try done.
  exists members. split; [done|]. intros l1 name c l2 -> Hf Hl2.
  by eapply extractall_last.
Qed.

Lemma extract_kmz_extracts_witness :
  ∃ fs',
    extract_kmz "/in/N56E29/orig.kmz" "/out/tmp" Examples.fs_units = (Ok (), fs') ∧
    FS.resolve ["out"; "tmp"; "files"; "base.png"]%string fs' = Some (File (Bytes "b")).
Proof.
  destruct (extract_kmz "/in/N56E29/orig.kmz" "/out/tmp" Examples.fs_units)
    as [r fs'] eqn:E.
  assert (r = Ok ()) as -> by (vm_compute in E; congruence).
  destruct (extract_kmz_extracts "/in/N56E29/orig.kmz" "/out/tmp" Examples.fs_units fs' E)
    as (members & H1 & H2).
  exists fs'. split; [reflexivity|].
  vm_compute in H1. injection H1 as <-.
  apply (H2 [("doc.kml"%string, Xml Examples.doc_scenario)] "files/base.png"%string
            (Bytes "b") []); [reflexivity|reflexivity|].
  intros m Hm. inversion Hm.
Defined.

(** *** Paths and their components *)

Section PathFacts.
Import PyStr FS.

Lemma string_app_assoc (a b c : string) : a +:+ (b +:+ c) = (a +:+ b) +:+ c.
Proof.
  induction a as [|x a IH]; [done|].
  change (String x (a +:+ (b +:+ c)) = String x ((a +:+ b) +:+ c)). by rewrite IH.
Qed.

Lemma split_no_sep sep s : contains sep s = false → split sep s = [s].
Proof.
  induction s as [|a s IH]; simpl; [done|].
  intros [Ha Hs]%orb_false_iff. rewrite Ha, (IH Hs). done.
Qed.

Lemma split_nonempty sep s : split sep s ≠ [].
Proof.
  destruct s as [|a s]; simpl; [done|].
  destruct (Ascii.eqb a sep); [done|]. by destruct (split sep s).
Qed.

Lemma split_app_sep sep a b :
  split sep (a +:+ String sep b) = split sep a ++ split sep b.
Proof.
  induction a as [|x a IH]; simpl.
  - by rewrite Ascii.eqb_refl.
  - destruct (Ascii.eqb x sep); [by rewrite IH|].
    rewrite IH. destruct (split sep a) as [|w ws] eqn:E; [|done].
    by apply split_nonempty in E.
Qed.

Lemma components_empty : components EmptyString = [].
Proof. done. Qed.

Lemma simple_name_spec c :
  simple_name c = true →
  truthy c = true ∧ contains "/" c = false ∧ c ≠ "."%string ∧ c ≠ ".."%string.
Proof.
  unfold simple_name. intros [[[H1 H2]%andb_true_iff H3]%andb_true_iff H4]%andb_true_iff.
  split_and!; [done|by destruct (contains "/" c)| |].
  - intros ->. done.
  - intros ->. done.
Qed.

Lemma components_simple c : simple_name c = true → components c = [c].
Proof.
  intros (H1 & H2 & H3 & _)%simple_name_spec. unfold components.
  rewrite (split_no_sep _ _ H2). simpl. rewrite H1.
  destruct (String.eqb_spec c "."); [done|done].
Qed.

Lemma components_app_sep a b :
  components (a +:+ String "/" b) = components a ++ components b.
Proof. unfold components. by rewrite split_app_sep, List.filter_app. Qed.

Lemma components_sep_end a : components (a +:+ "/") = components a.
Proof. rewrite components_app_sep. by rewrite components_empty, app_nil_r. Qed.

(** [s.endswith(c)] for a one-character string *)
Lemma endswith1_cons c a s :
  s ≠ EmptyString →
  endswith (String c EmptyString) (String a s) = endswith (String c EmptyString) s.
Proof.
  intros Hs. unfold endswith. destruct s as [|b s]; [done|].
  cbn [String.length]. cbn [Nat.leb Nat.sub]. rewrite !Nat.sub_0_r.
  done.
Qed.

Lemma endswith1_app c x s :
  s ≠ EmptyString →
  endswith (String c EmptyString) (x +:+ s) = endswith (String c EmptyString) s.
Proof.
  intros Hs. induction x as [|a x IH]; [done|].
  change (String a x +:+ s) with (String a (x +:+ s)).
  rewrite endswith1_cons; [done|]. by destruct x, s.
Qed.

Lemma endswith1_inv c s :
  endswith (String c EmptyString) s = true → ∃ s', s = s' +:+ String c EmptyString.
Proof.
  induction s as [|a s IH]; [done|].
  destruct s as [|b s].
  - unfold endswith. simpl. destruct (Ascii.eqb_spec a c) as [->|]; [|done].
    intros _. by exists EmptyString.
  - rewrite endswith1_cons by done. intros [s' Hs']%IH. exists (String a s').
    simpl. by rewrite Hs'.
Qed.

Lemma endswith_sep_simple c : simple_name c = true → endswith "/" c = false.
Proof.
  intros (H1 & H2 & _)%simple_name_spec.
  destruct (endswith "/" c) eqn:E; [|done].
  apply endswith1_inv in E as [s' ->]. rewrite contains_app in H2. simpl in H2.
  by rewrite orb_true_r in H2.
Qed.

Lemma startswith_sep_simple c : simple_name c = true → startswith "/" c = false.
Proof.
  intros (H1 & H2 & _)%simple_name_spec. destruct c as [|a c]; [done|].
  simpl in H2. apply orb_false_iff in H2 as [Ha _].
  apply Ascii.eqb_neq in Ha.
  unfold startswith.
  change (String.prefix "/" (String a c))
    with (if ascii_dec "/" a then String.prefix EmptyString c else false).
  destruct (ascii_dec "/" a); [congruence|done].
Qed.

(** [os.path.join] with the name of an entry *)
Lemma join_simple_cases a c :
  simple_name c = true →
  join a c = c ∧ a = EmptyString ∨
  (∃ a', a = a' +:+ "/" ∧ join a c = a' +:+ String "/" c) ∨
  join a c = a +:+ String "/" c.
Proof.
  intros Hc. unfold join. rewrite (startswith_sep_simple c Hc).
  destruct a as [|x a]; [by left|]. cbn [truthy negb orb].
  destruct (endswith "/" (String x a)) eqn:E.
  - right. left. apply endswith1_inv in E as [a' Ha']. exists a'. split; [done|].
    rewrite Ha'. rewrite <-string_app_assoc. done.
  - right. right. done.
Qed.

Lemma components_join a c :
  simple_name c = true → components (join a c) = components a ++ [c].
Proof.
  intros Hc. destruct (join_simple_cases a c Hc) as [[-> ->]|[(a' & -> & ->)| ->]].
  - by rewrite components_simple.
  - by rewrite (components_app_sep a' c), (components_sep_end a'), (components_simple c Hc).
  - by rewrite (components_app_sep a c), (components_simple c Hc).
Qed.

Lemma endswith_sep_join a c : simple_name c = true → endswith "/" (join a c) = false.
Proof.
  intros Hc. pose proof (endswith_sep_simple c Hc) as He.
  assert (c ≠ EmptyString) as Hne by (by destruct c).
  destruct (join_simple_cases a c Hc) as [[-> ->]|[(a' & -> & ->)| ->]]; [done| |].
  - change (a' +:+ String "/" c) with (a' +:+ ("/" +:+ c)).
    rewrite string_app_assoc. by rewrite endswith1_app.
  - change (a +:+ String "/" c) with (a +:+ ("/" +:+ c)).
    rewrite string_app_assoc. by rewrite endswith1_app.
Qed.

Lemma components_foldl_join cs : ∀ rel,
  Forall (λ c, simple_name c = true) cs →
  components (foldl join rel cs) = components rel ++ cs.
Proof.
  induction cs as [|c cs IH]; intros rel Hcs; simpl; [by rewrite app_nil_r|].
  apply Forall_cons in Hcs as [Hc Hcs].
  rewrite IH, components_join by done. by rewrite <-app_assoc.
Qed.

Lemma components_rel_path cs :
  Forall (λ c, simple_name c = true) cs → components (rel_path cs) = cs.
Proof. intros H. unfold rel_path. by rewrite components_foldl_join. Qed.

Lemma member_components_rel_path cs :
  Forall (λ c, simple_name c = true) cs → member_components (rel_path cs) = cs.
Proof.
  intros H. unfold member_components. rewrite components_rel_path by done.
  apply filter_all. intros c Hc. rewrite Forall_forall in H.
  apply H, simple_name_spec in Hc as (_ & _ & _ & Hc).
  by destruct (String.eqb_spec c "..").
Qed.

Lemma endswith_sep_foldl cs : ∀ rel,
  cs ≠ [] → Forall (λ c, simple_name c = true) cs →
  endswith "/" (foldl join rel cs) = false.
Proof.
  induction cs as [|c cs IH]; intros rel Hne Hcs; [done|]. simpl.
  apply Forall_cons in Hcs as [Hc Hcs].
  destruct cs as [|c' cs]; [simpl; by apply endswith_sep_join|].
  by apply IH.
Qed.

Lemma endswith_sep_rel_path cs :
  cs ≠ [] → Forall (λ c, simple_name c = true) cs → endswith "/" (rel_path cs) = false.
Proof. apply endswith_sep_foldl. Qed.

(** The names on a path of a valid tree *)
Lemma valid_tree_Dir es :
  valid_tree (Dir es) = true →
  Forall (λ e, simple_name e.1 = true ∧ valid_tree e.2 = true) es ∧ NoDup (map fst es).
Proof.
  cbn [valid_tree]. intros [[H1 H2]%andb_true_iff H3]%andb_true_iff.
  split; [|by apply bool_decide_eq_true_1 in H2].
  apply Forall_forall. intros e He. split.
  - rewrite forallb_forall in H1. apply H1. apply in_map. by apply list_elem_of_In.
  - rewrite forallb_forall in H3. apply H3. by apply list_elem_of_In.
Qed.

Lemma valid_tree_resolve cs : ∀ n x,
  valid_tree n = true → resolve cs n = Some x →
  Forall (λ c, simple_name c = true) cs ∧ valid_tree x = true.
Proof.
  induction cs as [|c cs IH]; intros n x Hv; simpl.
  - intros [= <-]. done.
  - destruct n as [c0|es]; [done|].
    destruct (lookup_entry c es) as [sub|] eqn:Hl; [|done].
    apply lookup_entry_Some in Hl. apply valid_tree_Dir in Hv as [Hv _].
    rewrite Forall_forall in Hv. destruct (Hv _ Hl) as [Hc Hsub]. simpl in *.
    intros Hr. destruct (IH sub x Hsub Hr) as [Hcs Hx]. split; [|done].
    by constructor.
Qed.

End PathFacts.

(** *** Packing and extracting *)

Section RoundTrip.
Import FS.

Lemma last_occurrence {A} (P : A → bool) (l : list A) :
  existsb P l = true →
  ∃ l1 y l2, l = l1 ++ y :: l2 ∧ P y = true ∧ ∀ z, z ∈ l2 → P z = false.
Proof.
  induction l as [|a l IH]; simpl; [done|].
  destruct (existsb P l) eqn:E.
  - intros _. destruct (IH eq_refl) as (l1 & y & l2 & -> & Hy & Hl2).
    by exists (a :: l1), y, l2.
  - rewrite orb_false_r. intros Ha. exists [], a, l. split_and!; [done|done|].
    intros z Hz. destruct (P z) eqn:Ez; [|done].
    rewrite <-E. symmetry. apply existsb_exists. exists z. split; [|done].
    by apply list_elem_of_In.
Qed.

(** Every file of a valid tree is extracted from the archive of the
    tree, to the place it has in the tree. *)
Lemma walk_extract n extract_to fs fs' :
  valid_tree n = true →
  Os.extractall extract_to (walk_members EmptyString n) fs = (Ok (), fs') →
  ∀ cs c, cs ≠ [] → resolve cs n = Some (File c) →
          resolve (components extract_to ++ cs) fs' = Some (File c).
Proof.
  intros Hv Hx cs c Hne Hr.
  set (P := λ m : string * content, bool_decide (member_components m.1 = cs)).
  assert (∀ name c', (name, c') ∈ walk_members EmptyString n →
                     ∃ cs', cs' ≠ [] ∧ name = rel_path cs' ∧ resolve cs' n = Some (File c') ∧
                            member_components name = cs' ∧ PyStr.endswith "/" name = false)
    as Hmem.
  { intros name c' (cs' & Hne' & -> & Hr')%walk_members_spec.
    destruct (valid_tree_resolve cs' n _ Hv Hr') as [Hs _].
    exists cs'. split_and!; [done|done|done| |].
    - by apply member_components_rel_path.
    - by apply endswith_sep_rel_path. }
  assert (existsb P (walk_members EmptyString n) = true) as Hex.
  { apply existsb_exists. exists (rel_path cs, c). split.
    - apply list_elem_of_In, walk_members_spec. by exists cs.
    - unfold P. apply bool_decide_eq_true_2. simpl.
      apply member_components_rel_path. by destruct (valid_tree_resolve cs n _ Hv Hr). }
  destruct (last_occurrence P _ Hex) as (l1 & [name' c'] & l2 & El & Hy & Hl2).
  destruct (Hmem name' c') as (cs' & _ & _ & Hr' & Hmc & He).
  { rewrite El. apply elem_of_app. right. by left. }
  unfold P in Hy. apply bool_decide_eq_true_1 in Hy. simpl in Hy.
  assert (cs' = cs) as -> by congruence.
  assert (c' = c) as -> by congruence.
  rewrite El in Hx. rewrite <-Hy.
  eapply extractall_last; [done|done|].
  intros m Hm. apply Hl2 in Hm. unfold P in Hm. apply bool_decide_eq_false_1 in Hm.
  congruence.
Qed.

End RoundTrip.

(** X11.  Packing and extracting: when [create_kmz] has packed a
    directory that is a valid tree and [extract_kmz] has extracted the
    archive, every file of the directory is under the extraction
    directory, at the relative path it had and with the content it had. *)
Theorem create_extract_round_trip source_dir kmz_path extract_to fs fs1 fs2 :
  create_kmz source_dir kmz_path fs = (Ok (), fs1) →
  extract_kmz kmz_path extract_to fs1 = (Ok (), fs2) →
  ∃ fs0,
    Os.write_file kmz_path (Zip []) fs = (Ok (), fs0) ∧
    ∀ n, FS.resolve (FS.components source_dir) fs0 = Some n →
         valid_tree n = true →
         ∀ cs c, cs ≠ [] → FS.resolve cs n = Some (File c) →
                 FS.resolve (FS.components extract_to ++ cs) fs2 = Some (File c).
Proof.
  intros Hc Hx.
  destruct (create_kmz_members source_dir kmz_path fs fs1 Hc) as (fs0 & Hw & Hread).
  exists fs0. split; [done|]. intros n Hn Hv cs c Hne Hr.
  unfold extract_kmz in Hx. unfold bind at 1 in Hx. rewrite Hread, Hn in Hx.
  by eapply walk_extract.
Qed.

Lemma create_extract_round_trip_witness :
  ∃ fs1 fs2,
    create_kmz "/work" "/out/x.kmz" Examples.fs_packed = (Ok (), fs1) ∧
    extract_kmz "/out/x.kmz" "/out/again" fs1 = (Ok (), fs2) ∧
    FS.resolve ["out"; "again"; "N56E29"; "base.png"]%string fs2 = Some (File (Bytes "b")).
Proof.
  destruct (create_kmz "/work" "/out/x.kmz" Examples.fs_packed) as [r fs1] eqn:E1.
  assert (r = Ok ()) as -> by (vm_compute in E1; congruence).
  destruct (extract_kmz "/out/x.kmz" "/out/again" fs1) as [r fs2] eqn:E2.
  assert (r = Ok ()) as ->.
  { vm_compute in E1. injection E1 as <-. vm_compute in E2. congruence. }
  destruct (create_extract_round_trip "/work" "/out/x.kmz" "/out/again"
              Examples.fs_packed fs1 fs2 E1 E2) as (fs0 & H0 & H).
  exists fs1, fs2. split; [reflexivity|]. split; [exact E2|].
  vm_compute in H0. injection H0 as <-.
  apply (H (Dir [("doc.kml"%string, File (Xml Examples.doc_scenario));
                 ("N56E29"%string, Dir [("base.png"%string, File (Bytes "b"))])])
           eq_refl eq_refl ["N56E29"; "base.png"]%string (Bytes "b")); [discriminate|reflexivity].
Defined.

(** *** Looking for the document *)

Section FindKml.
Import FS.

Lemma lookup_entry_NoDup k v es :
  NoDup (map fst es) → (k, v) ∈ es → lookup_entry k es = Some v.
Proof.
  induction es as [|[k' v'] es IH]; simpl; [by intros _ ?%elem_of_nil|].
  intros [Hk Hnd]%NoDup_cons [[= -> ->]|Hin]%elem_of_cons.
  - by rewrite String.eqb_refl.
  - destruct (String.eqb_spec k' k) as [->|_]; [|by apply IH].
    exfalso. apply Hk. apply elem_of_map_iff. by exists (k, v).
Qed.

(** The loop over the subdirectories, in the order of the listing. *)
Lemma find_entries_Some root_dir es k :
  (fix find_entries (es : list (string * node)) :=
     match es with
     | [] => None
     | (d, sub) :: es' =>
         match find_kml (PyStr.join root_dir d) sub with
         | Some k => Some k
         | None => find_entries es'
         end
     end) es = Some k →
  ∃ d sub, (d, sub) ∈ es ∧ find_kml (PyStr.join root_dir d) sub = Some k.
Proof.
  induction es as [|[d sub] es IH]; [done|].
  destruct (find_kml (PyStr.join root_dir d) sub) as [k'|] eqn:E.
  - intros [= <-]. exists d, sub. split; [by left|done].
  - intros (d' & sub' & Hin & Hk)%IH. exists d', sub'. split; [by right|done].
Qed.

Lemma find_entries_None root_dir es :
  (fix find_entries (es : list (string * node)) :=
     match es with
     | [] => None
     | (d, sub) :: es' =>
         match find_kml (PyStr.join root_dir d) sub with
         | Some k => Some k
         | None => find_entries es'
         end
     end) es = None →
  ∀ d sub, (d, sub) ∈ es → find_kml (PyStr.join root_dir d) sub = None.
Proof.
  induction es as [|[d sub] es IH]; [by intros _ d sub ?%elem_of_nil|].
  destruct (find_kml (PyStr.join root_dir d) sub) as [k'|] eqn:E; [done|].
  intros H d' sub' [[= -> ->]|Hin]%elem_of_cons; [done|by apply IH].
Qed.

Lemma find_kml_sound n : ∀ root_dir p,
  valid_tree n = true → find_kml root_dir n = Some p →
  ∃ cs f c,
    p = foldl PyStr.join root_dir (cs ++ [f]) ∧
    resolve (cs ++ [f]) n = Some (File c) ∧ is_kml f = true.
Proof.
  induction n as [c0|es IH] using node_forall_ind; intros root_dir p Hv; [done|].
  apply valid_tree_Dir in Hv as [Hv Hnd]. rewrite Forall_forall in IH, Hv.
  cbn [find_kml].
  destruct (List.find is_kml (file_names es)) as [file|] eqn:Ef.
  - intros [= <-]. apply find_some in Ef as [Hin%list_elem_of_In Hk].
    apply elem_of_file_names in Hin as [c Hin].
    exists [], file, c. split_and!; [done| |done].
    simpl. by rewrite (lookup_entry_NoDup file (File c) es Hnd Hin).
  - intros (d & sub & Hin & Hk)%find_entries_Some.
    destruct (Hv _ Hin) as [_ Hvs]. simpl in Hvs.
    destruct (IH _ Hin _ _ Hvs Hk) as (cs & f & c & -> & Hr & Hf).
    exists (d :: cs), f, c. split_and!; [done| |done].
    simpl. by rewrite (lookup_entry_NoDup d sub es Hnd Hin).
Qed.

Lemma find_kml_complete n : ∀ root_dir,
  find_kml root_dir n = None →
  ∀ cs f c, resolve (cs ++ [f]) n = Some (File c) → is_kml f = false.
Proof.
  induction n as [c0|es IH] using node_forall_ind; intros root_dir Hk cs f c Hr.
  { by destruct cs. }
  rewrite Forall_forall in IH. cbn [find_kml] in Hk.
  destruct (List.find is_kml (file_names es)) as [file|] eqn:Ef; [done|].
  destruct cs as [|d cs]; simpl in Hr.
  - destruct (lookup_entry f es) as [sub|] eqn:Hl; [|done]. injection Hr as ->.
    apply lookup_entry_Some in Hl.
    apply (find_none _ _ Ef f).
    apply list_elem_of_In, elem_of_file_names. by exists c.
  - destruct (lookup_entry d es) as [sub|] eqn:Hl; [|done].
    apply lookup_entry_Some in Hl.
    pose proof (find_entries_None root_dir es Hk d sub Hl) as Hn.
    by apply (IH _ Hl _ Hn cs f c).
Qed.

End FindKml.

(** X12.  The document that [process_subfolder] looks for in the working
    directory, a valid tree: the path it finds is the path of a file
    below the working directory whose name ends in [.kml], whatever the
    case of the letters; and it finds none only when no file at any
    depth has such a name. *)
Theorem find_kml_file_spec temp_dir fs n :
  FS.resolve (FS.components temp_dir) fs = Some n →
  valid_tree n = true →
  match find_kml_file temp_dir fs with
  | (Ok (Some kml_file), fs') =>
      fs' = fs ∧
      ∃ cs file c,
        FS.components kml_file = FS.components temp_dir ++ cs ++ [file] ∧
        Os.read_file kml_file fs = (Ok c, fs) ∧
        FS.resolve (cs ++ [file]) n = Some (File c) ∧
        PyStr.endswith ".kml" (PyStr.lower file) = true
  | (Ok None, fs') =>
      fs' = fs ∧
      ∀ cs file c, FS.resolve (cs ++ [file]) n = Some (File c) →
                   PyStr.endswith ".kml" (PyStr.lower file) = false
  | (Raise _, _) => False
  end.
Proof.
  intros Hn Hv. unfold find_kml_file. rewrite Hn.
  destruct (find_kml temp_dir n) as [p|] eqn:Hk.
  - split; [done|].
    destruct (find_kml_sound n temp_dir p Hv Hk) as (cs & f & c & -> & Hr & Hf).
    exists cs, f, c.
    destruct (valid_tree_resolve _ n _ Hv Hr) as [Hs _].
    assert (FS.components (foldl PyStr.join temp_dir (cs ++ [f]))
            = FS.components temp_dir ++ cs ++ [f]) as Hc
      by (by apply components_foldl_join).
    split_and!; [done| |done|done].
    unfold Os.read_file. rewrite Hc.
    assert (FS.resolve (FS.components temp_dir ++ cs ++ [f]) fs = Some (File c)) as ->; [|done].
    clear Hc Hk. revert Hn. generalize (FS.components temp_dir). intros l. revert fs.
    induction l as [|x l IHl]; intros fs Hn; simpl in *; [by simplify_eq|].
    destruct fs as [|es]; [done|]. destruct (FS.lookup_entry x es); [|done]. by apply IHl.
  - split; [done|]. intros cs f c Hr. by apply (find_kml_complete n temp_dir Hk cs f c).
Qed.

Lemma find_kml_file_spec_witness :
  ∃ p c,
    find_kml_file "/work" Examples.fs_packed = (Ok (Some p), Examples.fs_packed) ∧
    Os.read_file p Examples.fs_packed = (Ok c, Examples.fs_packed).
Proof.
  pose proof (find_kml_file_spec "/work" Examples.fs_packed
                (Dir [("doc.kml"%string, File (Xml Examples.doc_scenario));
                      ("N56E29"%string, Dir [("base.png"%string, File (Bytes "b"))])])
                eq_refl eq_refl) as H.
  destruct (find_kml_file "/work" Examples.fs_packed) as [[[p|]|e] fs'] eqn:E.
  - destruct H as (-> & cs & file & c & _ & Hr & _). by exists p, c.
  - vm_compute in E. discriminate E.
  - destruct H.
Defined.

(** *** The answer of [modify_kml] *)

Lemma parse_xml kml_path fs root :
  FS.resolve (FS.components kml_path) fs = Some (File (Xml root)) →
  Os.parse kml_path fs = (Ok root, fs).
Proof. intros Hf. unfold Os.parse, Os.read_file, bind. by rewrite Hf. Qed.

Lemma build_overlays_None root png_filepaths subfolder_name :
  build_overlays root png_filepaths subfolder_name = Ok None →
  ET.findall_desc "GroundOverlay" root = [].
Proof.
  unfold build_overlays. destruct (ET.findall_desc "GroundOverlay" root) as [|T rest]; [done|].
  by destruct (locate_group (T :: rest) root) as [[r d]|e].
Qed.

(** X13.  [modify_kml] answers [False] only for a document without
    overlay, and then it has changed nothing; when it answers [True] the
    document had an overlay and the file holds the transformed document. *)
Theorem modify_kml_answer kml_path png_filepaths subfolder_name fs fs' root b :
  FS.resolve (FS.components kml_path) fs = Some (File (Xml root)) →
  modify_kml kml_path png_filepaths subfolder_name fs = (Ok b, fs') →
  if b
  then ET.findall_desc "GroundOverlay" root ≠ [] ∧
       ∃ final,
         modify_kml_tree root png_filepaths subfolder_name = Ok (Some final) ∧
         Os.read_file kml_path fs' = (Ok (Xml final), fs')
  else fs' = fs ∧ ET.findall_desc "GroundOverlay" root = [].
Proof.
  intros Hf H. pose proof (parse_xml kml_path fs root Hf) as Hparse.
  destruct b.
  - destruct (modify_kml_writes_tree kml_path png_filepaths subfolder_name fs fs' root
                Hparse H) as (final & Hm & Hread).
    split; [|by exists final].
    intros Hovs. unfold modify_kml_tree, build_overlays in Hm. by rewrite Hovs in Hm.
  - unfold modify_kml in H. unfold bind at 1 in H. rewrite Hparse in H.
    unfold bind at 1, lift at 1 in H.
    destruct (build_overlays root png_filepaths subfolder_name) as [[[pre doc]|]|e] eqn:Hb;
      [|cbv [ret] in H; injection H as <-; split; [done|by eapply build_overlays_None]
       |discriminate H].
    exfalso. cbv beta iota zeta in H.
    run_bind H as ex fs1 Eex.
    run_bind H as u1 fs2 Emk. run_bind H as u2 fs3 Ecp.
    unfold bind at 1, lift at 1 in H.
    destruct (reorder_overlays doc pre) as [final|e] eqn:Hr; [|discriminate H].
    run_bind H as u3 fs4 Ew. cbv [ret] in H. discriminate H.
Qed.

Lemma modify_kml_answer_witness :
  ∃ fs' final,
    modify_kml "/work/doc.kml" Examples.scenario_pngs "N56E29"
      (Examples.fs_work Examples.doc_scenario) = (Ok true, fs') ∧
    modify_kml_tree Examples.doc_scenario Examples.scenario_pngs "N56E29" = Ok (Some final) ∧
    Os.read_file "/work/doc.kml" fs' = (Ok (Xml final), fs').
Proof.
  destruct (modify_kml "/work/doc.kml" Examples.scenario_pngs "N56E29"
              (Examples.fs_work Examples.doc_scenario)) as [r fs'] eqn:E.
  assert (r = Ok true) as -> by (vm_compute in E; congruence).
  destruct (modify_kml_answer "/work/doc.kml" Examples.scenario_pngs "N56E29"%string
              (Examples.fs_work Examples.doc_scenario) fs' Examples.doc_scenario true
              eq_refl E) as (_ & final & H1 & H2).
  by exists fs', final.
Defined.

(** *** Copying the images *)

Section CopyFacts.
Import FS.

Lemma resolve_app l : ∀ cs n,
  resolve (l ++ cs) n = match resolve l n with Some x => resolve cs x | None => None end.
Proof.
  induction l as [|d l IH]; intros cs n; simpl; [done|].
  destruct n as [c|es]; [done|]. destruct (lookup_entry d es); [apply IH|done].
Qed.

Lemma put_child D f v : ∀ n es,
  resolve D n = Some (Dir es) →
  ∃ n', put (D ++ [f]) v n = Some n' ∧ resolve D n' = Some (Dir (set_entry f v es)).
Proof.
  induction D as [|d D IH]; intros n es; simpl.
  - intros [= ->]. by eexists.
  - destruct n as [c|es0]; [done|].
    destruct (lookup_entry d es0) as [sub|] eqn:Hl; [|done]. intros Hr.
    destruct (IH sub es Hr) as (sub' & Hp & Hr').
    destruct (D ++ [f]) as [|x l] eqn:E; [by destruct D|]. rewrite Hp.
    eexists. split; [done|]. simpl. by rewrite lookup_set_entry.
Qed.

(** A file that is there after a write of a file was there before, or
    is the one that was written. *)
Lemma put_file_origin cs c0 : ∀ n n' t c,
  put cs (File c0) n = Some n' → resolve t n' = Some (File c) →
  (t = cs ∧ c = c0) ∨ resolve t n = Some (File c).
Proof.
  induction cs as [|d cs IH]; intros n n' t c; simpl; [done|].
  destruct n as [c1|es]; [done|].
  destruct cs as [|d2 cs].
  - intros [= <-]. destruct t as [|d' t]; [done|]. simpl.
    destruct (String.eqb_spec d' d) as [->|Hne].
    + rewrite lookup_set_entry. destruct t as [|d3 t]; [|done].
      simpl. intros [= <-]. by left.
    + rewrite lookup_set_entry_ne by done. by right.
  - destruct (lookup_entry d es) as [sub|] eqn:Hl; [|done].
    destruct (put (d2 :: cs) (File c0) sub) as [sub'|] eqn:Hp; [|done].
    intros [= <-]. destruct t as [|d' t]; [done|]. simpl.
    destruct (String.eqb_spec d' d) as [->|Hne].
    + rewrite lookup_set_entry, Hl. intros Hr.
      destruct (IH sub sub' t c Hp Hr) as [[-> ->]|Hr']; [by left|by right].
    + rewrite lookup_set_entry_ne by done. by right.
Qed.

Lemma prefix_app_self (D cs : list string) : D `prefix_of` D ++ cs.
Proof. by exists cs. Qed.

(** One call of [shutil.copy2] of the loop. *)
Lemma copy2_into D f abs_path c fs es :
  resolve (components D) fs = Some (Dir es) →
  simple_name f = true →
  ¬ components D `prefix_of` components abs_path →
  (∀ sub, lookup_entry f es ≠ Some (Dir sub)) →
  resolve (components abs_path) fs = Some (File c) →
  ∃ fs',
    Os.copy2 abs_path (PyStr.join D f) fs = (Ok (), fs') ∧
    put (components D ++ [f]) (File c) fs = Some fs' ∧
    resolve (components D) fs' = Some (Dir (set_entry f (File c) es)).
Proof.
  intros HD Hf Hout Hnd Hsrc.
  destruct (put_child (components D) f (File c) fs es HD) as (fs' & Hp & HD').
  exists fs'. split; [|done].
  assert (resolve (components (PyStr.join D f)) fs = lookup_entry f es) as Hdst.
  { rewrite components_join, resolve_app, HD by done. simpl.
    by destruct (lookup_entry f es). }
  unfold Os.copy2. unfold bind at 1, Os.isdir at 1. rewrite Hdst.
  assert (match lookup_entry f es with Some (Dir _) => true | _ => false end = false) as ->.
  { destruct (lookup_entry f es) as [[|sub]|] eqn:E; try done. by destruct (Hnd sub). }
  unfold bind at 1, Os.isfile at 1. rewrite Hsrc.
  unfold bind at 1, Os.isfile at 1. rewrite Hdst.
  rewrite bool_decide_eq_false_2.
  2:{ intros E. apply Hout. rewrite E, components_join by done. apply prefix_app_self. }
  rewrite andb_false_r.
  unfold bind at 1, Os.read_file at 1. rewrite Hsrc.
  unfold Os.write_file. rewrite Hdst, components_join, Hp by done.
  destruct (lookup_entry f es) as [[|sub]|] eqn:E; try done. by destruct (Hnd sub).
Qed.

Lemma copy_pngs_spec D all : ∀ fs es,
  resolve (components D) fs = Some (Dir es) →
  (∀ a f, (a, f) ∈ all → simple_name f = true ∧
                         ¬ components D `prefix_of` components a ∧
                         ∀ sub, lookup_entry f es ≠ Some (Dir sub)) →
  NoDup (map snd all) →
  ∃ fs' es',
    copy_pngs D all fs = (Ok (), fs') ∧
    resolve (components D) fs' = Some (Dir es') ∧
    (∀ t c, ¬ components D `prefix_of` t →
            resolve t fs' = Some (File c) ↔ resolve t fs = Some (File c)) ∧
    (∀ a f, (a, f) ∈ all →
            match resolve (components a) fs with
            | Some (File c) => lookup_entry f es' = Some (File c)
            | _ => lookup_entry f es' = lookup_entry f es
            end) ∧
    (∀ f, f ∉ map snd all → lookup_entry f es' = lookup_entry f es).
Proof.
  induction all as [|[a f] all IH]; intros fs es HD Hall Hnd.
  { exists fs, es. by split_and!; [done|done|done|intros a f ?%elem_of_nil|]. }
  apply NoDup_cons in Hnd as [Hf Hnd]. simpl in Hf.
  destruct (Hall a f) as (Hsf & Hout & Hnodir); [by left|].
  assert (∃ fs1 es1,
            (let! ok := Os.isfile a in
             if ok : bool then Os.copy2 a (PyStr.join D f) else ret ()) fs = (Ok (), fs1) ∧
            resolve (components D) fs1 = Some (Dir es1) ∧
            (∀ t c, ¬ components D `prefix_of` t →
                    resolve t fs1 = Some (File c) ↔ resolve t fs = Some (File c)) ∧
            match resolve (components a) fs with
            | Some (File c) => lookup_entry f es1 = Some (File c)
            | _ => lookup_entry f es1 = lookup_entry f es
            end ∧
            (∀ f', f' ≠ f → lookup_entry f' es1 = lookup_entry f' es))
    as (fs1 & es1 & Hstep & HD1 & Hframe1 & Hf1 & Hother1).
  { unfold bind, Os.isfile.
    destruct (resolve (components a) fs) as [[c|sub]|] eqn:Hsrc;
      try (exists fs, es; by split_and!).
    destruct (copy2_into D f a c fs es HD Hsf Hout Hnodir Hsrc) as (fs1 & Hc & Hp & HD1).
    exists fs1, (set_entry f (File c) es). split_and!; [done|done| | |].
    - intros t c' Ht. split.
      + intros Hr. destruct (put_file_origin _ _ _ _ _ _ Hp Hr) as [[-> _]|]; [|done].
        destruct Ht. apply prefix_app_self.
      + intros Hr. eapply put_keeps_file; [done|done| |].
        * intros ->. apply Ht, prefix_app_self.
        * intros sub. rewrite resolve_app, HD. simpl.
          destruct (lookup_entry f es) as [[|sub']|] eqn:E; [done| |done].
          intros [= ->]. by destruct (Hnodir sub).
    - apply lookup_set_entry.
    - intros f' Hne. by apply lookup_set_entry_ne. }
  destruct (IH fs1 es1 HD1) as (fs' & es' & Hrest & HD' & Hframe & Hcopied & Hother);
    [|done|].
  { intros a' f' Hin. destruct (Hall a' f') as (H1 & H2 & H3); [by right|].
    split_and!; [done|done|]. intros sub. rewrite Hother1; [done|].
    intros ->. apply Hf. apply elem_of_map_iff. by exists (a', f). }
  exists fs', es'. split_and!; [|done| | |].
  - cbn [copy_pngs]. unfold bind at 1. unfold bind at 1 in Hstep.
    destruct (Os.isfile a fs) as [[ok|e] fs0]; [|done].
    unfold bind at 1. by rewrite Hstep.
  - intros t c Ht. by rewrite Hframe, Hframe1.
  - intros a' f' [[= -> ->]|Hin]%elem_of_cons.
    + rewrite (Hother f Hf). exact Hf1.
    + specialize (Hcopied a' f' Hin).
      assert (f' ≠ f) as Hne.
      { intros ->. apply Hf. apply elem_of_map_iff. by exists (a', f). }
      destruct (Hall a' f') as (_ & Hout' & _); [by right|].
      destruct (resolve (components a') fs) as [[c|sub]|] eqn:Hsrc.
      * apply Hframe1 in Hsrc; [|done]. by rewrite Hsrc in Hcopied.
      * destruct (resolve (components a') fs1) as [[c|sub']|] eqn:Hsrc1;
          [apply Hframe1 in Hsrc1; [congruence|done]|by rewrite Hcopied, Hother1..].
      * destruct (resolve (components a') fs1) as [[c|sub']|] eqn:Hsrc1;
          [apply Hframe1 in Hsrc1; [congruence|done]|by rewrite Hcopied, Hother1..].
  - intros f' Hf'. rewrite Hother, Hother1; [done| |].
    + intros ->. apply Hf'. by left.
    + intros Hin. apply Hf'. by right.
Qed.

End CopyFacts.

Lemma NoDup_names_decide (l : list string) : bool_decide (NoDup l) = true → NoDup l.
Proof. apply bool_decide_eq_true_1. Qed.

(** X14.  The loop that copies the images, into a folder that exists,
    for sources outside that folder, file names that are names of
    entries, no two the same, none the name of a directory of the folder:
    it does not raise; every source that is a file is then in the folder
    under its file name, with its content; for a source that is no file
    nothing is copied; and outside the folder no file has changed,
    appeared or gone. *)
Theorem copy_pngs_copies subfolder_fullpath all_pngs fs es :
  FS.resolve (FS.components subfolder_fullpath) fs = Some (Dir es) →
  (∀ abs_path fname, (abs_path, fname) ∈ all_pngs →
     simple_name fname = true ∧
     ¬ FS.components subfolder_fullpath `prefix_of` FS.components abs_path ∧
     ∀ sub, FS.lookup_entry fname es ≠ Some (Dir sub)) →
  NoDup (map snd all_pngs) →
  ∃ fs',
    copy_pngs subfolder_fullpath all_pngs fs = (Ok (), fs') ∧
    (∀ abs_path fname c, (abs_path, fname) ∈ all_pngs →
       FS.resolve (FS.components abs_path) fs = Some (File c) →
       Os.read_file (PyStr.join subfolder_fullpath fname) fs' = (Ok c, fs')) ∧
    (∀ abs_path fname, (abs_path, fname) ∈ all_pngs →
       (∀ c, FS.resolve (FS.components abs_path) fs ≠ Some (File c)) →
       FS.resolve (FS.components (PyStr.join subfolder_fullpath fname)) fs'
       = FS.resolve (FS.components (PyStr.join subfolder_fullpath fname)) fs) ∧
    (∀ t c, ¬ FS.components subfolder_fullpath `prefix_of` t →
       FS.resolve t fs' = Some (File c) ↔ FS.resolve t fs = Some (File c)).
Proof.
  intros HD Hall Hnd.
  destruct (copy_pngs_spec subfolder_fullpath all_pngs fs es HD Hall Hnd)
    as (fs' & es' & Hc & HD' & Hframe & Hcopied & _).
  assert (∀ f n es0, simple_name f = true →
            FS.resolve (FS.components subfolder_fullpath) n = Some (Dir es0) →
            FS.resolve (FS.components (PyStr.join subfolder_fullpath f)) n
            = FS.lookup_entry f es0) as Hdst.
  { intros f n es0 Hf Hn. rewrite components_join, resolve_app, Hn by done. simpl.
    by destruct (FS.lookup_entry f es0). }
  exists fs'. split_and!; [done| | |done].
  - intros a f c Hin Hsrc. destruct (Hall a f Hin) as (Hf & _).
    specialize (Hcopied a f Hin). rewrite Hsrc in Hcopied.
    unfold Os.read_file. by rewrite (Hdst f fs' es' Hf HD'), Hcopied.
  - intros a f Hin Hsrc. destruct (Hall a f Hin) as (Hf & _).
    specialize (Hcopied a f Hin).
    rewrite (Hdst f fs' es' Hf HD'), (Hdst f fs es Hf HD).
    destruct (FS.resolve (FS.components a) fs) as [[c|sub]|]; [by destruct (Hsrc c)|done..].
Qed.

Lemma copy_pngs_copies_witness :
  ∃ fs',
    copy_pngs "/work"
      [("/in/N56E29/N56E29-002.png", "N56E29-002.png"); ("/in/none.png", "none.png")]%string
      (Examples.fs_work Examples.doc_scenario) = (Ok (), fs') ∧
    Os.read_file "/work/N56E29-002.png" fs' = (Ok (Bytes "2"), fs') ∧
    FS.resolve ["work"; "none.png"]%string fs' = None.
Proof.
  destruct (copy_pngs_copies "/work"
              [("/in/N56E29/N56E29-002.png", "N56E29-002.png"); ("/in/none.png", "none.png")]%string
              (Examples.fs_work Examples.doc_scenario)
              [("doc.kml"%string, File (Xml Examples.doc_scenario));
               ("base.png"%string, File (Bytes "b"))])
    as (fs' & H1 & H2 & H3 & _).
  - reflexivity.
  - intros a f Hin.
    assert ((a, f) = ("/in/N56E29/N56E29-002.png", "N56E29-002.png")%string ∨
            (a, f) = ("/in/none.png", "none.png")%string) as [[= -> ->]|[= -> ->]].
    { inversion Hin as [|? ? ? Hin']; [by left|]. inversion Hin' as [|? ? ? Hin'']; [by right|].
      inversion Hin''. }
    + split; [reflexivity|]. split; [|intros sub; discriminate].
      intros [k Hk]. vm_compute in Hk. discriminate Hk.
    + split; [reflexivity|]. split; [|intros sub; discriminate].
      intros [k Hk]. vm_compute in Hk. discriminate Hk.
  - apply NoDup_names_decide. vm_compute. reflexivity.
  - exists fs'. split; [exact H1|]. split.
    + apply (H2 "/in/N56E29/N56E29-002.png"%string "N56E29-002.png"%string (Bytes "2"));
        [left|reflexivity].
    + refine (H3 "/in/none.png"%string "none.png"%string _ _); [right; left|].
      intros c. discriminate.
Defined.

(** *** Where the files of a directory tree come from *)

Section OriginFacts.
Import FS.

Lemma resolve_nest_file cs : ∀ t c, resolve t (nest cs) ≠ Some (File c).
Proof.
  induction cs as [|d cs IH]; intros t c; destruct t as [|d' t]; simpl; try done.
  destruct (String.eqb d d'); [apply IH|done].
Qed.

Lemma resolve_nest cs : resolve cs (nest cs) = Some (Dir []).
Proof. induction cs as [|d cs IH]; simpl; [done|]. by rewrite String.eqb_refl. Qed.

(** [os.makedirs] makes no file. *)
Lemma mkdirs_file_origin b cs : ∀ n n' t c,
  mkdirs b cs n = Ok n' → resolve t n' = Some (File c) → resolve t n = Some (File c).
Proof.
  induction cs as [|d cs IH]; intros n n' t c; simpl.
  - destruct n; [done|]. destruct b; [|done]. by intros [= <-].
  - destruct n as [c0|es]; [done|].
    destruct (lookup_entry d es) as [sub|] eqn:Hl.
    + destruct (mkdirs b cs sub) as [sub'|e] eqn:Hm; [|done]. simpl. intros [= <-].
      destruct t as [|d' t]; [done|]. simpl.
      destruct (String.eqb_spec d' d) as [->|Hne].
      * rewrite Hl, lookup_set_entry. by apply IH.
      * by rewrite lookup_set_entry_ne.
    + intros [= <-]. destruct t as [|d' t]; [done|]. simpl.
      destruct (String.eqb_spec d' d) as [->|Hne].
      * rewrite lookup_set_entry. intros H. by apply resolve_nest_file in H.
      * by rewrite lookup_set_entry_ne.
Qed.

Lemma mkdirs_keeps_dir b cs : ∀ n n' t es,
  mkdirs b cs n = Ok n' → resolve t n = Some (Dir es) → ∃ es', resolve t n' = Some (Dir es').
Proof.
  induction cs as [|d cs IH]; intros n n' t es; simpl.
  - destruct n; [done|]. destruct b; [|done]. intros [= <-]. eauto.
  - destruct n as [c0|es0]; [done|].
    destruct (lookup_entry d es0) as [sub|] eqn:Hl.
    + destruct (mkdirs b cs sub) as [sub'|e] eqn:Hm; [|done]. simpl. intros [= <-].
      destruct t as [|d' t]; [by eauto|]. simpl.
      destruct (String.eqb_spec d' d) as [->|Hne].
      * rewrite Hl, lookup_set_entry. by apply IH.
      * rewrite lookup_set_entry_ne by done. eauto.
    + intros [= <-]. destruct t as [|d' t]; [by eauto|]. simpl.
      destruct (String.eqb_spec d' d) as [->|Hne].
      * by rewrite Hl.
      * rewrite lookup_set_entry_ne by done. eauto.
Qed.

(** A new directory is empty. *)
Lemma mkdirs_new b cs : ∀ n n',
  resolve cs n = None → mkdirs b cs n = Ok n' → resolve cs n' = Some (Dir []).
Proof.
  induction cs as [|d cs IH]; intros n n'; simpl; [done|].
  destruct n as [c0|es]; [done|].
  destruct (lookup_entry d es) as [sub|] eqn:Hl.
  - destruct (mkdirs b cs sub) as [sub'|e] eqn:Hm; [|done]. simpl. intros Hr [= <-].
    rewrite lookup_set_entry. by apply (IH sub).
  - intros _ [= <-]. rewrite lookup_set_entry. apply resolve_nest.
Qed.

(** Taking a directory out makes no file, and leaves its siblings. *)
Lemma del_file_origin cs : ∀ n n' t c,
  del cs n = Some n' → resolve t n' = Some (File c) → resolve t n = Some (File c).
Proof.
  induction cs as [|d cs IH]; intros n n' t c; simpl; [done|].
  destruct n as [c0|es]; [done|].
  destruct (lookup_entry d es) as [sub|] eqn:Hl; [|done].
  destruct cs as [|d2 cs].
  - intros [= <-]. destruct t as [|d' t]; [done|]. simpl.
    destruct (String.eqb_spec d' d) as [->|Hne].
    + by rewrite lookup_del_entry.
    + by rewrite lookup_del_entry_ne.
  - destruct (del (d2 :: cs) sub) as [sub'|] eqn:Hd; [|done].
    intros [= <-]. destruct t as [|d' t]; [done|]. simpl.
    destruct (String.eqb_spec d' d) as [->|Hne].
    + rewrite lookup_set_entry, Hl. by apply IH.
    + by rewrite lookup_set_entry_ne.
Qed.

Lemma del_sibling D d d' r : ∀ n n',
  del (D ++ [d]) n = Some n' → d' ≠ d →
  resolve (D ++ d' :: r) n' = resolve (D ++ d' :: r) n.
Proof.
  induction D as [|x D IH]; intros n n'; simpl.
  - destruct n as [c0|es]; [done|].
    destruct (lookup_entry d es) as [sub|]; [|done].
    intros [= <-] Hne. by rewrite lookup_del_entry_ne.
  - destruct n as [c0|es]; [done|].
    destruct (lookup_entry x es) as [sub|] eqn:Hl; [|done].
    destruct (D ++ [d]) as [|y l] eqn:E; [by destruct D|].
    destruct (del (y :: l) sub) as [sub'|] eqn:Hd; [|done].
    intros [= <-] Hne. rewrite lookup_set_entry. by apply IH.
Qed.

Lemma write_file_origin p c0 fs fs' t c :
  Os.write_file p c0 fs = (Ok (), fs') → resolve t fs' = Some (File c) →
  (t = components p ∧ c = c0) ∨ resolve t fs = Some (File c).
Proof.
  unfold Os.write_file. intros H Ht.
  destruct (resolve (components p) fs) as [[c1|es]|] eqn:Hr; [| done |];
    destruct (put (components p) (File c0) fs) as [fs1|] eqn:Hp; try done;
    injection H as <-; by eapply put_file_origin.
Qed.

(** The files after an extraction: those that were there, and those of
    the members. *)
Lemma extract_member_origin extract_to m fs1 fs2 t c :
  Os.extract_member extract_to m fs1 = (Ok (), fs2) →
  resolve t fs2 = Some (File c) →
  resolve t fs1 = Some (File c) ∨
  (PyStr.endswith "/" (fst m) = false ∧ c = snd m ∧
   t = components extract_to ++ member_components (fst m)).
Proof.
  unfold Os.extract_member. set (target := components extract_to ++ _).
  destruct (PyStr.endswith "/" m.1).
  - destruct (mkdirs true target fs1) as [fs'|e] eqn:Hm; [|done].
    intros [= <-] Ht. left. by eapply mkdirs_file_origin.
  - destruct (mkdirs true (removelast target) fs1) as [fs'|e] eqn:Hm; [|done].
    destruct (resolve target fs') as [[c1|es]|] eqn:Hr; [|done|];
      destruct (put target (File m.2) fs') as [fs''|] eqn:Hp; try done;
      intros [= <-] Ht;
      (destruct (put_file_origin _ _ _ _ _ _ Hp Ht) as [[-> ->]|Ht'];
       [by right|left; by eapply mkdirs_file_origin]).
Qed.

Lemma extractall_origin extract_to members : ∀ fs fs' t c,
  Os.extractall extract_to members fs = (Ok (), fs') →
  resolve t fs' = Some (File c) →
  resolve t fs = Some (File c) ∨
  ∃ name, (name, c) ∈ members ∧ PyStr.endswith "/" name = false ∧
          t = components extract_to ++ member_components name.
Proof.
  induction members as [|m members IH]; intros fs fs' t c H Ht; cbn [Os.extractall] in H.
  - cbv [ret] in H. injection H as <-. by left.
  - run_bind H as u fs1 E. destruct u. cbv beta in H.
    destruct (IH fs1 fs' t c H Ht) as [Ht1|(name & Hin & He & ->)].
    + destruct (extract_member_origin extract_to m fs fs1 t c E Ht1)
        as [Ht0|(He & -> & ->)]; [by left|].
      right. exists m.1. split_and!; [|done|done]. destruct m. by left.
    + right. exists name. split_and!; [by right|done|done].
Qed.

End OriginFacts.

(** *** Valid trees under the writes of the script *)

Section ValidFacts.
Import FS.

Lemma valid_tree_intro es :
  Forall (λ e, simple_name e.1 = true ∧ valid_tree e.2 = true) es →
  NoDup (map fst es) → valid_tree (Dir es) = true.
Proof.
  intros HF Hnd. cbn [valid_tree]. rewrite Forall_forall in HF.
  apply andb_true_iff. split; [apply andb_true_iff; split|].
  - apply forallb_forall. intros c (e & <- & He%list_elem_of_In)%in_map_iff.
    by apply HF.
  - by apply bool_decide_eq_true_2.
  - apply forallb_forall. intros e He%list_elem_of_In. by apply HF.
Qed.

Lemma elem_of_set_entry c v es e :
  e ∈ set_entry c v es → e ∈ es ∨ e = (c, v).
Proof.
  induction es as [|[k x] es IH]; simpl.
  - intros ->%list_elem_of_singleton. by right.
  - destruct (String.eqb_spec k c) as [->|Hne].
    + intros [->|He]%elem_of_cons; [by right|left; by right].
    + intros [->|He]%elem_of_cons; [left; by left|].
      destruct (IH He); [left; by right|by right].
Qed.

Lemma set_entry_names c v es :
  (map fst (set_entry c v es) = map fst es) ∨
  ((c ∉ map fst es) ∧ map fst (set_entry c v es) = map fst es ++ [c]).
Proof.
  induction es as [|[k x] es IH]; simpl.
  - right. split; [by intros ?%elem_of_nil|done].
  - destruct (String.eqb_spec k c) as [->|Hne]; [by left|]. simpl.
    destruct IH as [->|[Hc ->]]; [by left|]. right. split; [|done].
    by intros [?|?]%elem_of_cons.
Qed.

Lemma set_entry_valid c v es :
  valid_tree (Dir es) = true → simple_name c = true → valid_tree v = true →
  valid_tree (Dir (set_entry c v es)) = true.
Proof.
  intros [HF Hnd]%valid_tree_Dir Hc Hv. apply valid_tree_intro.
  - apply Forall_forall. intros e [He| ->]%elem_of_set_entry; [|done].
    rewrite Forall_forall in HF. by apply HF.
  - destruct (set_entry_names c v es) as [->|[Hn ->]]; [done|].
    apply NoDup_app. split_and!; [done| |apply NoDup_singleton].
    by intros x Hx ->%list_elem_of_singleton.
Qed.

Lemma nest_valid cs :
  Forall (λ c, simple_name c = true) cs → valid_tree (nest cs) = true.
Proof.
  induction 1 as [|c cs Hc _ IH]; [done|]. cbn [nest].
  apply (set_entry_valid c (nest cs) []); done.
Qed.

Lemma lookup_entry_valid d es sub :
  valid_tree (Dir es) = true → lookup_entry d es = Some sub → valid_tree sub = true.
Proof.
  intros [HF _]%valid_tree_Dir Hl%lookup_entry_Some.
  rewrite Forall_forall in HF. by destruct (HF _ Hl).
Qed.

Lemma mkdirs_valid b cs : ∀ n n',
  Forall (λ c, simple_name c = true) cs → valid_tree n = true →
  mkdirs b cs n = Ok n' → valid_tree n' = true.
Proof.
  induction cs as [|d cs IH]; intros n n' Hcs Hv; simpl.
  - destruct n; [done|]. destruct b; [|done]. by intros [= <-].
  - apply Forall_cons in Hcs as [Hd Hcs]. destruct n as [c0|es]; [done|].
    destruct (lookup_entry d es) as [sub|] eqn:Hl.
    + destruct (mkdirs b cs sub) as [sub'|e] eqn:Hm; [|done]. simpl. intros [= <-].
      apply set_entry_valid; [done|done|].
      apply (IH sub sub' Hcs); [by eapply lookup_entry_valid|done].
    + intros [= <-]. apply set_entry_valid; [done|done|by apply nest_valid].
Qed.

Lemma put_valid cs v : ∀ n n',
  Forall (λ c, simple_name c = true) cs → valid_tree n = true → valid_tree v = true →
  put cs v n = Some n' → valid_tree n' = true.
Proof.
  induction cs as [|d cs IH]; intros n n' Hcs Hn Hv; simpl; [done|].
  apply Forall_cons in Hcs as [Hd Hcs]. destruct n as [c0|es]; [done|].
  destruct cs as [|d2 cs].
  - intros [= <-]. by apply set_entry_valid.
  - destruct (lookup_entry d es) as [sub|] eqn:Hl; [|done].
    destruct (put (d2 :: cs) v sub) as [sub'|] eqn:Hp; [|done].
    intros [= <-]. apply set_entry_valid; [done|done|].
    apply (IH sub sub' Hcs); [by eapply lookup_entry_valid|done|done].
Qed.

(** The same below a directory [T] of the file system. *)
Lemma mkdirs_app b T cs : ∀ fs fs' n,
  resolve T fs = Some n → mkdirs b (T ++ cs) fs = Ok fs' →
  ∃ n', mkdirs b cs n = Ok n' ∧ resolve T fs' = Some n'.
Proof.
  induction T as [|d T IH]; intros fs fs' n; simpl.
  - intros [= ->] H. by exists fs'.
  - destruct fs as [c0|es]; [done|].
    destruct (lookup_entry d es) as [sub|] eqn:Hl; [|done]. intros Hr.
    destruct (mkdirs b (T ++ cs) sub) as [sub'|e] eqn:Hm; [|done]. simpl. intros [= <-].
    destruct (IH sub sub' n Hr Hm) as (n' & H1 & H2). exists n'. split; [done|].
    by rewrite lookup_set_entry.
Qed.

Lemma put_app T cs v : ∀ fs fs' n,
  cs ≠ [] → resolve T fs = Some n → put (T ++ cs) v fs = Some fs' →
  ∃ n', put cs v n = Some n' ∧ resolve T fs' = Some n'.
Proof.
  induction T as [|d T IH]; intros fs fs' n Hne; simpl.
  - intros [= ->] H. by exists fs'.
  - destruct fs as [c0|es]; [done|].
    destruct (T ++ cs) as [|y l] eqn:E; [by destruct T, cs|].
    destruct (lookup_entry d es) as [sub|] eqn:Hl; [|done]. intros Hr.
    destruct (put (y :: l) v sub) as [sub'|] eqn:Hp; [|done]. intros [= <-].
    destruct (IH sub sub' n Hne Hr) as (n' & H1 & H2); [done|].
    exists n'. split; [done|]. by rewrite lookup_set_entry.
Qed.

Lemma put_Dir cs v es n' : put cs v (Dir es) = Some n' → ∃ es', n' = Dir es'.
Proof.
  destruct cs as [|d cs]; [done|]. cbn [put].
  destruct cs as [|d2 cs]; [intros [= <-]; eauto|].
  destruct (lookup_entry d es) as [sub|]; [|done].
  destruct (put (d2 :: cs) v sub); [|done]. intros [= <-]. eauto.
Qed.

(** The cleaned names of the members are names of entries. *)
Lemma split_pieces sep s w : w ∈ PyStr.split sep s → PyStr.contains sep w = false.
Proof.
  revert w. induction s as [|a s IH]; intros w; simpl.
  - by intros ->%list_elem_of_singleton.
  - destruct (Ascii.eqb a sep) eqn:Ea.
    + intros [->|Hw]%elem_of_cons; [done|by apply IH].
    + destruct (PyStr.split sep s) as [|w0 ws] eqn:Es.
      * intros ->%list_elem_of_singleton. simpl. by rewrite Ea.
      * intros [->|Hw]%elem_of_cons.
        -- simpl. rewrite Ea. apply IH. by left.
        -- apply IH. by right.
Qed.

Lemma member_components_simple name :
  Forall (λ c, simple_name c = true) (member_components name).
Proof.
  apply Forall_forall. intros c Hc. unfold member_components, components in Hc.
  apply elem_of_filter_bool in Hc as [Hc H1]. apply elem_of_filter_bool in Hc as [Hc H2].
  apply split_pieces in Hc. apply andb_true_iff in H2 as [H2 H3].
  unfold simple_name. by rewrite H2, Hc, H3, H1.
Qed.

Lemma Forall_removelast {A} (P : A → Prop) l : Forall P l → Forall P (removelast l).
Proof.
  induction 1 as [|x l Hx Hl IH]; [constructor|]. simpl.
  destruct l; [constructor|]. by constructor.
Qed.

Lemma extract_member_valid extract_to m fs fs' es :
  resolve (components extract_to) fs = Some (Dir es) → valid_tree (Dir es) = true →
  Os.extract_member extract_to m fs = (Ok (), fs') →
  ∃ es', resolve (components extract_to) fs' = Some (Dir es') ∧ valid_tree (Dir es') = true.
Proof.
  intros HT Hv. unfold Os.extract_member.
  pose proof (member_components_simple m.1) as Hs.
  set (T := components extract_to) in *. set (mc := member_components m.1) in *.
  assert (∀ b cs n', mkdirs b cs (Dir es) = Ok n' → ∃ es', n' = Dir es') as Hdir.
  { intros b [|d cs] n'; simpl.
    - destruct b; [|done]. intros [= <-]. eauto.
    - destruct (lookup_entry d es) as [sub|]; [|intros [= <-]; eauto].
      destruct (mkdirs b cs sub); [|done]. simpl. intros [= <-]. eauto. }
  destruct (PyStr.endswith "/" m.1).
  - destruct (mkdirs true (T ++ mc) fs) as [fs1|e] eqn:Hm; [|done]. intros [= <-].
    destruct (mkdirs_app true T mc fs fs1 _ HT Hm) as (n1 & H1 & H2).
    destruct (Hdir _ _ _ H1) as [es1 ->]. exists es1. split; [done|].
    by eapply mkdirs_valid.
  - destruct (mkdirs true (removelast (T ++ mc)) fs) as [fs1|e] eqn:Hm; [|done].
    destruct mc as [|c0 mc0] eqn:Emc.
    { rewrite app_nil_r in *.
      destruct (mkdirs_keeps_dir true _ fs fs1 T es Hm HT) as [es1 H1].
      by rewrite H1. }
    rewrite <-Emc in *. assert (mc ≠ []) as Hne by (by rewrite Emc).
    rewrite removelast_app in Hm by done.
    destruct (mkdirs_app true T (removelast mc) fs fs1 _ HT Hm) as (n1 & H1 & H2).
    destruct (Hdir _ _ _ H1) as [es1 ->].
    assert (valid_tree (Dir es1) = true) as Hv1.
    { eapply mkdirs_valid; [|done|done]. by apply Forall_removelast. }
    destruct (resolve (T ++ mc) fs1) as [[c1|es2]|] eqn:Hr; [|done|];
      destruct (put (T ++ mc) (File m.2) fs1) as [fs2|] eqn:Hp; try done;
      intros [= <-];
      destruct (put_app T mc (File m.2) fs1 fs2 _ Hne H2 Hp) as (n2 & H3 & H4);
      pose proof (put_valid mc (File m.2) (Dir es1) n2 Hs Hv1 eq_refl H3) as Hv2;
      destruct (put_Dir _ _ _ _ H3) as [es2' ->];
      by exists es2'.
Qed.

Lemma extractall_valid extract_to members : ∀ fs fs' es,
  resolve (components extract_to) fs = Some (Dir es) → valid_tree (Dir es) = true →
  Os.extractall extract_to members fs = (Ok (), fs') →
  ∃ es', resolve (components extract_to) fs' = Some (Dir es') ∧ valid_tree (Dir es') = true.
Proof.
  induction members as [|m members IH]; intros fs fs' es HT Hv H; cbn [Os.extractall] in H.
  - cbv [ret] in H. injection H as <-. eauto.
  - run_bind H as u fs1 E. destruct u. cbv beta in H.
    destruct (extract_member_valid extract_to m fs fs1 es HT Hv E) as (es1 & H1 & Hv1).
    by eapply IH.
Qed.

End ValidFacts.

(** *** A unit, from its container to the new container *)

Section UnitFacts.
Import FS.

Lemma string_length_app (a b : string) :
  String.length (a +:+ b) = String.length a + String.length b.
Proof. induction a as [|x a IH]; simpl; [done|]. by rewrite <-IH. Qed.

Lemma temp_name_simple X :
  PyStr.contains "/" X = false → simple_name ("temp_extract_" +:+ X) = true.
Proof.
  intros HX. unfold simple_name. rewrite contains_app, HX. done.
Qed.

Lemma kmz_name_simple X :
  PyStr.contains "/" X = false → simple_name (X +:+ " - transparent.kmz") = true.
Proof.
  intros HX. unfold simple_name. rewrite contains_app, HX.
  destruct X as [|a [|b [|c X]]]; try done.
  - simpl. by destruct (Ascii.eqb a ".").
  - simpl. destruct (Ascii.eqb a "."); [|done]. by destruct (Ascii.eqb b ".").
  - simpl. destruct (Ascii.eqb a "."); [|done]. by destruct (Ascii.eqb b ".").
Qed.

Lemma temp_kmz_names_differ X : "temp_extract_" +:+ X ≠ X +:+ " - transparent.kmz".
Proof.
  intros E. apply (f_equal String.length) in E. rewrite !string_length_app in E.
  simpl in E. lia.
Qed.

Lemma read_file_resolve p fs c fs' :
  Os.read_file p fs = (Ok c, fs') → resolve (components p) fs = Some (File c) ∧ fs' = fs.
Proof.
  unfold Os.read_file. destruct (resolve (components p) fs) as [[c0|es]|]; [|done..].
  by intros [= <- <-].
Qed.

Lemma resolve_read_file p fs c :
  resolve (components p) fs = Some (File c) → Os.read_file p fs = (Ok c, fs).
Proof. unfold Os.read_file. by intros ->. Qed.

End UnitFacts.

(** X15.  When [process_subfolder] answers [True]: the first [.kmz] of
    the unit is an archive with a file member that holds a well-formed
    document; the output folder has the archive
    [<unit> - transparent.kmz], which holds, under the cleaned path of
    that member, the document that the transformation makes of it for the
    images of the unit. *)
Theorem process_subfolder_output subfolder_path output_folder fs fs' :
  process_subfolder subfolder_path output_folder fs = (Ok true, fs') →
  let subfolder_name := PyStr.basename subfolder_path in
  ∃ names original_kmz members_in kml_member root final members,
    Os.listdir subfolder_path fs = (Ok names, fs) ∧
    head (List.filter is_kmz names) = Some original_kmz ∧
    Os.read_file (PyStr.join subfolder_path original_kmz) fs = (Ok (Zip members_in), fs) ∧
    (kml_member, Xml root) ∈ members_in ∧
    modify_kml_tree root
      (map (PyStr.join subfolder_path) (List.filter is_png names)) subfolder_name
      = Ok (Some final) ∧
    Os.read_file (PyStr.join output_folder (subfolder_name +:+ " - transparent.kmz")) fs'
      = (Ok (Zip members), fs') ∧
    (rel_path (FS.member_components kml_member), Xml final) ∈ members.
Proof.
  intros H X. unfold process_subfolder in H. fold X in H.
  run_bind H as names fs1 Els. pose proof (listdir_state _ _ _ _ Els) as ->.
  destruct (List.filter is_kmz names) as [|original_kmz ?] eqn:Hkmz.
  { cbv [ret] in H. discriminate H. }
  run_bind H as all_files fs1 Els'. pose proof (listdir_state _ _ _ _ Els') as ->.
  assert (all_files = names) as -> by congruence.
  set (pngs := map (PyStr.join subfolder_path) (List.filter is_png names)) in *.
  destruct pngs as [|png pngs'] eqn:Hpng.
  { cbv [ret] in H. discriminate H. }
  rewrite <-Hpng in H. clear Hpng png pngs'.
  pose proof (basename_no_sep subfolder_path) as HX. fold X in HX.
  set (temp := PyStr.join output_folder ("temp_extract_" +:+ X)) in *.
  set (new_kmz := PyStr.join output_folder (X +:+ " - transparent.kmz")) in *.
  set (O := FS.components output_folder).
  assert (FS.components temp = O ++ ["temp_extract_" +:+ X]) as HT
    by (by apply components_join, temp_name_simple).
  assert (FS.components new_kmz = O ++ [X +:+ " - transparent.kmz"]) as HK
    by (by apply components_join, kmz_name_simple).
  run_bind H as ex fs1 Eex.
  assert (fs1 = fs ∧ ex = bool_decide (is_Some (FS.resolve (FS.components temp) fs)))
    as [-> Hex] by (unfold Os.path_exists in Eex; by simplify_eq).
  run_bind H as u1 fs2 Erm. run_bind H as u2 fs3 Emk.
  run_bind H as u3 fs4 Eext. run_bind H as kml_file fs5 Ekml.
  assert (fs5 = fs4) as -> by (unfold find_kml_file in Ekml; by simplify_eq).
  destruct kml_file as [kml_file|]; [|run_bind H as u4 fs6 Ecl; cbv [ret] in H; discriminate H].
  run_bind H as success fs6 Emod.
  destruct success; [|run_bind H as u4 fs7 Ecl; cbv [ret] in H; discriminate H].
  run_bind H as u4 fs7 Ezip. run_bind H as u5 fs8 Ecl. cbv [ret] in H. injection H as <-.
  destruct u1, u2, u3, u4, u5.
  (* the working directory is new and empty *)
  assert (FS.resolve (FS.components temp) fs2 = None ∧
          ∀ t c, FS.resolve t fs2 = Some (File c) → FS.resolve t fs = Some (File c))
    as [Hgone Horigin2].
  { destruct ex.
    - split; [by eapply rmtree_gone|]. unfold Os.rmtree in Erm.
      destruct (FS.resolve (FS.components temp) fs) as [[|es]|]; try done.
      destruct (FS.del (FS.components temp) fs) as [fs0|] eqn:Hdel; [|done].
      injection Erm as <-. intros t c. by eapply del_file_origin.
    - cbv [ret] in Erm. injection Erm as <-. split; [|done].
      symmetry in Hex. apply bool_decide_eq_false_1 in Hex.
      destruct (FS.resolve (FS.components temp) fs); [|done]. by destruct Hex. }
  unfold Os.makedirs in Emk.
  destruct (FS.mkdirs false (FS.components temp) fs2) as [fs3'|e] eqn:Hmk; [|done].
  injection Emk as <-.
  pose proof (mkdirs_new _ _ _ _ Hgone Hmk) as Hempty.
  (* the extraction *)
  unfold extract_kmz in Eext. run_bind Eext as c0 fs0 Eread.
  apply read_file_resolve in Eread as [Hin ->].
  destruct c0 as [|?|members_in]; try done.
  destruct (extractall_valid temp members_in fs3' fs4 [] Hempty eq_refl Eext)
    as (es4 & HT4 & Hv4).
  (* the document *)
  unfold find_kml_file in Ekml. rewrite HT4 in Ekml.
  destruct (find_kml temp (Dir es4)) as [kml|] eqn:Hfind; [|done].
  injection Ekml as ->.
  destruct (find_kml_sound (Dir es4) temp kml_file Hv4 Hfind) as (cs & f & c & -> & Hr & Hf).
  destruct (valid_tree_resolve _ _ _ Hv4 Hr) as [Hs _].
  set (kml := foldl PyStr.join temp (cs ++ [f])) in *.
  assert (FS.components kml = FS.components temp ++ cs ++ [f]) as Hkc
    by (by apply components_foldl_join).
  assert (FS.resolve (FS.components kml) fs4 = Some (File c)) as Hkml4
    by (by rewrite Hkc, resolve_app, HT4).
  destruct (extractall_origin temp members_in fs3' fs4 _ c Eext Hkml4)
    as [Hold|(kml_member & Hmem & _ & Hpath)].
  { rewrite Hkc, resolve_app, Hempty in Hold. by destruct cs. }
  rewrite Hkc in Hpath. apply app_inv_head in Hpath.
  (* the transformation *)
  assert (∃ root, c = Xml root) as [root ->].
  { destruct c as [data|root|ms]; [|by eexists|]; exfalso;
      unfold modify_kml, Os.parse, Os.read_file, bind in Emod; by rewrite Hkml4 in Emod. }
  destruct (modify_kml_writes_tree kml pngs X fs4 fs6 root (parse_xml _ _ _ Hkml4) Emod)
    as (final & Hm & Hread).
  apply read_file_resolve in Hread as [Hkml6 _].
  (* the new container *)
  destruct (create_kmz_members temp new_kmz fs6 fs7 Ezip) as (fs6' & Hopen & Hzip).
  assert (FS.resolve (FS.components kml) fs6' = Some (File (Xml final))) as Hkml6'.
  { eapply write_file_keeps; [done|done|]. rewrite Hkc, HT, HK, <-app_assoc.
    intros E%app_inv_head. injection E as E _. by apply temp_kmz_names_differ in E. }
  rewrite Hkc, resolve_app in Hkml6'.
  destruct (FS.resolve (FS.components temp) fs6') as [n6|] eqn:HT6; [|done].
  apply read_file_resolve in Hzip as [HK7 _].
  unfold Os.rmtree in Ecl.
  destruct (FS.resolve (FS.components temp) fs7) as [[|es7]|]; try done.
  destruct (FS.del (FS.components temp) fs7) as [fs7'|] eqn:Hdel; [|done].
  injection Ecl as <-.
  exists names, original_kmz, members_in, kml_member, root, final, (walk_members EmptyString n6).
  split_and!; [done|by rewrite Hkmz| |done|exact Hm| |].
  - apply resolve_read_file. apply Horigin2. by eapply mkdirs_file_origin.
  - apply resolve_read_file. rewrite HT in Hdel. rewrite HK in HK7 |- *.
    rewrite (del_sibling O _ _ [] fs7 fs7' Hdel); [done|].
    intros E. by apply (temp_kmz_names_differ X).
  - apply walk_members_spec. exists (cs ++ [f]). rewrite <-Hpath.
    split_and!; [by destruct cs|done|done].
Qed.

Lemma process_subfolder_output_witness :
  ∃ fs' members final,
    process_subfolder "/in/N56E29" "/out" Examples.fs_units = (Ok true, fs') ∧
    Os.read_file "/out/N56E29 - transparent.kmz" fs' = (Ok (Zip members), fs') ∧
    ("doc.kml"%string, Xml final) ∈ members.
Proof.
  destruct (process_subfolder "/in/N56E29" "/out" Examples.fs_units) as [r fs'] eqn:E.
  assert (r = Ok true) as -> by (vm_compute in E; congruence).
  destruct (process_subfolder_output "/in/N56E29" "/out" Examples.fs_units fs' E)
    as (names & kmz & members_in & kml_member & root & final & members
        & H1 & H2 & H3 & H4 & H5 & H6 & H7).
  exists fs', members, final. split; [reflexivity|]. split; [exact H6|].
  vm_compute in H1. injection H1 as <-. vm_compute in H2. injection H2 as <-.
  vm_compute in H3. injection H3 as <-.
  assert (kml_member = "doc.kml"%string) as ->.
  { inversion H4 as [|? ? ? H4']; [done|]. inversion H4' as [|? ? ? H4'']; inversion H4''. }
  exact H7.
Defined.

(** *** The images next to the document *)

(** X16.  When [modify_kml] answers [True], every input image that is a
    file is in the folder of the unit next to the document, under its
    file name and with its content, provided the file names of the
    images are names of entries, no two the same; the images are not
    inside that folder, nor is the document; and the folder, if it is
    there before, is a directory without a subdirectory of such a
    name. *)
Theorem modify_kml_copies_assets kml_path png_filepaths subfolder_name fs fs' :
  let subfolder_fullpath := PyStr.join (PyStr.dirname kml_path) subfolder_name in
  modify_kml kml_path png_filepaths subfolder_name fs = (Ok true, fs') →
  (∀ abs_path, abs_path ∈ png_filepaths →
     simple_name (PyStr.basename abs_path) = true ∧
     ¬ FS.components subfolder_fullpath `prefix_of` FS.components abs_path) →
  NoDup (map PyStr.basename png_filepaths) →
  ¬ FS.components subfolder_fullpath `prefix_of` FS.components kml_path →
  match FS.resolve (FS.components subfolder_fullpath) fs with
  | None => True
  | Some (Dir es) =>
      ∀ abs_path sub, abs_path ∈ png_filepaths →
                      FS.lookup_entry (PyStr.basename abs_path) es ≠ Some (Dir sub)
  | Some (File _) => False
  end →
  ∀ abs_path c,
    abs_path ∈ png_filepaths →
    FS.resolve (FS.components abs_path) fs = Some (File c) →
    Os.read_file (PyStr.join subfolder_fullpath (PyStr.basename abs_path)) fs' = (Ok c, fs').
Proof.
  intros S H Hpngs Hnd Hkml Hdir a c Ha Hsrc. unfold modify_kml in H. fold S in H.
  run_bind H as root fs1 Ep. pose proof (parse_state _ _ _ _ Ep) as ->.
  unfold bind at 1, lift at 1 in H.
  destruct (build_overlays root png_filepaths subfolder_name) as [[[pre doc]|]|e] eqn:Hb;
    [|discriminate H..].
  cbv beta iota zeta in H.
  run_bind H as ex fs1 Eex.
  assert (fs1 = fs ∧ ex = bool_decide (is_Some (FS.resolve (FS.components S) fs)))
    as [-> Hex] by (unfold Os.path_exists in Eex; by simplify_eq).
  run_bind H as u1 fs2 Emk. run_bind H as u2 fs3 Ecp.
  unfold bind at 1, lift at 1 in H.
  destruct (reorder_overlays doc pre) as [final|e] eqn:Hr; [|discriminate H].
  run_bind H as u3 fs4 Ew. cbv [ret] in H. injection H as <-. destruct u1, u2, u3.
  (* the folder of the unit before the copies *)
  assert (∃ es2, FS.resolve (FS.components S) fs2 = Some (Dir es2) ∧
                 (∀ abs_path sub, abs_path ∈ png_filepaths →
                    FS.lookup_entry (PyStr.basename abs_path) es2 ≠ Some (Dir sub)) ∧
                 FS.resolve (FS.components a) fs2 = Some (File c))
    as (es2 & HS2 & Hnodir & Hsrc2).
  { destruct (FS.resolve (FS.components S) fs) as [[c0|es]|] eqn:HS; [done| |].
    - assert (ex = true) as -> by (rewrite Hex; apply bool_decide_eq_true_2; eauto).
      cbv [ret] in Emk. injection Emk as <-. by exists es.
    - assert (ex = false) as ->
        by (rewrite Hex; apply bool_decide_eq_false_2; by intros [? ?]).
      unfold Os.makedirs in Emk.
      destruct (FS.mkdirs false (FS.components S) fs) as [fs2'|e] eqn:Hmk; [|done].
      injection Emk as <-. exists []. split_and!.
      + by eapply mkdirs_new.
      + done.
      + by eapply mkdirs_keeps_file. }
  destruct (copy_pngs_spec S (all_pngs_of png_filepaths) fs2 es2 HS2)
    as (fs3' & es3 & Hc & HS3 & _ & Hcopied & _).
  { intros a' f' (p & Hp & [= <- <-])%elem_of_map_iff.
    destruct (Hpngs p Hp) as [H1 H2]. split_and!; [done|done|]. intros sub. by apply Hnodir. }
  { unfold all_pngs_of. by rewrite map_map. }
  assert (fs3' = fs3) as -> by congruence.
  specialize (Hcopied a (PyStr.basename a)). rewrite Hsrc2 in Hcopied.
  destruct (Hpngs a Ha) as [Hsimple _].
  assert (FS.resolve (FS.components (PyStr.join S (PyStr.basename a))) fs3
          = Some (File c)) as Hdst.
  { rewrite components_join, resolve_app, HS3 by done. simpl. rewrite Hcopied; [done|].
    apply elem_of_map_iff. by exists a. }
  apply resolve_read_file. eapply write_file_keeps; [exact Ew|done|].
  intros E. apply Hkml. rewrite <-E, components_join by done. apply prefix_app_self.
Qed.

Lemma modify_kml_copies_assets_witness :
  ∃ fs',
    modify_kml "/work/doc.kml" Examples.scenario_pngs "N56E29"
      (Examples.fs_work Examples.doc_scenario) = (Ok true, fs') ∧
    Os.read_file "/work/N56E29/N56E29-010.png" fs' = (Ok (Bytes "10"), fs').
Proof.
  destruct (modify_kml "/work/doc.kml" Examples.scenario_pngs "N56E29"
              (Examples.fs_work Examples.doc_scenario)) as [r fs'] eqn:E.
  assert (r = Ok true) as -> by (vm_compute in E; congruence).
  exists fs'. split; [reflexivity|].
  refine (modify_kml_copies_assets "/work/doc.kml" Examples.scenario_pngs "N56E29"%string
            (Examples.fs_work Examples.doc_scenario) fs' E _ _ _ _
            "/in/N56E29/N56E29-010.png"%string (Bytes "10") _ _).
  - intros a Ha.
    assert (a = "/in/N56E29/base.png"%string ∨ a = "/in/N56E29/N56E29-002.png"%string ∨
            a = "/in/N56E29/N56E29-010.png"%string) as [-> | [-> | ->]].
    { inversion Ha as [|? ? ? Ha1]; [by left|]. inversion Ha1 as [|? ? ? Ha2]; [right; by left|].
      inversion Ha2 as [|? ? ? Ha3]; [right; by right|]. inversion Ha3. }
    all: split; [reflexivity|]; intros [k Hk]; vm_compute in Hk; discriminate Hk.
  - apply NoDup_names_decide. vm_compute. reflexivity.
  - intros [k Hk]. vm_compute in Hk. discriminate Hk.
  - exact I.
  - right. right. left.
  - reflexivity.
Defined.

(** X17.  [main] changes the file system only while it processes units:
    when it ends with a warning (a dialog was cancelled) or with the
    message that there are no subfolders, the file system is as it was;
    and it shows that message exactly when the listing of the main
    folder has no directory. *)
Theorem main_no_units main_folder output_folder fs d fs' :
  main main_folder output_folder fs = (d, fs') →
  match d with
  | WarningNoMainFolder => fs' = fs ∧ main_folder = EmptyString
  | WarningNoOutputFolder => fs' = fs ∧ output_folder = EmptyString
  | InfoNoSubfolders =>
      fs' = fs ∧
      ∃ names, Os.listdir main_folder fs = (Ok names, fs) ∧
               ∀ name, name ∈ names →
                       Os.isdir (PyStr.join main_folder name) fs = (Ok false, fs)
  | Done _ | UnexpectedError _ =>
      main_folder ≠ EmptyString ∧ output_folder ≠ EmptyString
  end.
Proof.
  unfold main.
  destruct main_folder as [|a m]; [by intros [= <- <-]|].
  destruct output_folder as [|b o]; [by intros [= <- <-]|].
  cbn [PyStr.truthy negb]. cbv zeta.
  unfold bind at 1.
  destruct (Os.listdir (String a m) fs) as [[names|e] fs1] eqn:El;
    [|by intros [= <- <-]].
  pose proof (listdir_state _ _ _ _ El) as ->.
  unfold bind at 1. rewrite subdirs_of_spec.
  set (is_unit := λ d0, match FS.resolve _ fs with Some (Dir _) => true | _ => false end).
  destruct (List.filter is_unit names) as [|u subs] eqn:Es.
  - simpl. intros [= <- <-]. split; [done|]. exists names. split; [done|].
    intros name Hin. unfold Os.isdir.
    assert (is_unit name = false) as Hn.
    { destruct (is_unit name) eqn:E; [|done].
      assert (name ∈ List.filter is_unit names) as Hf by (by apply elem_of_filter_bool).
      rewrite Es in Hf. by apply elem_of_nil in Hf. }
    unfold is_unit in Hn. by rewrite Hn.
  - cbn [map]. unfold bind at 1.
    destruct (run_units _ _ 0 fs) as [[k|e] fs2]; by intros [= <- <-].
Qed.

Lemma main_no_units_witness :
  main "/out" "/out" Examples.fs_units = (InfoNoSubfolders, Examples.fs_units) ∧
  Os.listdir "/out" Examples.fs_units = (Ok [], Examples.fs_units).
Proof.
  destruct (main "/out" "/out" Examples.fs_units) as [d fs'] eqn:E.
  pose proof (main_no_units "/out" "/out" Examples.fs_units d fs' E) as H.
  assert (d = InfoNoSubfolders) as -> by (vm_compute in E; congruence).
  destruct H as (-> & names & Hl & _). split; [reflexivity|]. reflexivity.
Defined.

(** *** Directory names *)

Section DirnameFacts.
Import PyStr FS.

Lemma filter_replicate_empty k :
  List.filter (λ c, truthy c && negb (String.eqb c ".")) (replicate k EmptyString) = [].
Proof. induction k as [|k IH]; simpl; [done|]. exact IH. Qed.

Lemma split_rstrip_sep s :
  ∃ k, split "/" s = split "/" (rstrip_sep s) ++ replicate k EmptyString.
Proof.
  induction s as [|a s IH]; [by exists 0|].
  destruct IH as [k IH]. cbn [rstrip_sep]. cbv zeta.
  destruct (negb (truthy (rstrip_sep s)) && Ascii.eqb a "/") eqn:E.
  - apply andb_true_iff in E as [E1 E2]. apply Ascii.eqb_eq in E2 as ->.
    exists (S k). simpl. rewrite IH.
    destruct (rstrip_sep s); [done|done].
  - exists k. simpl. destruct (Ascii.eqb a "/"); [by rewrite IH|].
    rewrite IH. destruct (split "/" (rstrip_sep s)) as [|w ws] eqn:Es; [|done].
    by apply split_nonempty in Es.
Qed.

Lemma components_rstrip_sep s : components (rstrip_sep s) = components s.
Proof.
  destruct (split_rstrip_sep s) as [k Hk]. unfold components.
  by rewrite Hk, List.filter_app, filter_replicate_empty, app_nil_r.
Qed.

Lemma components_no_sep b : contains "/" b = false → length (components b) ≤ 1.
Proof.
  intros Hb. unfold components. rewrite (split_no_sep _ _ Hb). simpl.
  destruct (truthy b && _); simpl; lia.
Qed.

(** The directory name of a path leaves out at most the last component. *)
Lemma components_dirname p :
  ∃ r, components p = components (dirname p) ++ r ∧ length r ≤ 1.
Proof.
  unfold dirname. destruct (rsplit_last "/" p) as [[l r0]|] eqn:E.
  - apply rsplit_last_some in E as [-> Hr0].
    exists (components r0). split; [|by apply components_no_sep].
    rewrite components_app_sep. f_equal.
    destruct (truthy (rstrip_sep (l +:+ "/"))).
    + by rewrite components_rstrip_sep, components_sep_end.
    + by rewrite components_sep_end.
  - apply rsplit_last_none in E. exists (components p).
    split; [done|by apply components_no_sep].
Qed.

Lemma startswith_sep_no_sep b : contains "/" b = false → startswith "/" b = false.
Proof.
  destruct b as [|a b]; [done|]. intros Hb. simpl in Hb.
  apply orb_false_iff in Hb as [Ha _].
  apply Ascii.eqb_neq in Ha. unfold startswith.
  change (String.prefix "/" (String a b))
    with (if ascii_dec "/" a then String.prefix EmptyString b else false).
  destruct (ascii_dec "/" a); [congruence|done].
Qed.

Lemma components_join_no_sep a b :
  contains "/" b = false → components (join a b) = components a ++ components b.
Proof.
  intros Hb. unfold join. rewrite (startswith_sep_no_sep b Hb).
  destruct a as [|x a]; [done|]. cbn [truthy negb orb].
  destruct (endswith "/" (String x a)) eqn:E.
  - apply endswith1_inv in E as [a' ->].
    rewrite <-string_app_assoc. change ("/" +:+ b) with (String "/" b).
    by rewrite components_app_sep, components_sep_end.
  - apply components_app_sep.
Qed.

Lemma prefix_of_app_shorter {A} (l1 l2 l3 r : list A) :
  l1 ++ l2 = l3 ++ r → length r ≤ length l2 → l1 `prefix_of` l3.
Proof.
  revert l3. induction l1 as [|x l1 IH]; intros l3 E Hlen; [apply prefix_nil|].
  destruct l3 as [|y l3].
  - simpl in E. apply (f_equal length) in E. rewrite length_cons, length_app in E. lia.
  - injection E as -> E. apply prefix_cons. by apply IH.
Qed.

End DirnameFacts.

(** *** The files that the steps of the script leave in place *)

Section KeepFacts.
Import FS.

Lemma same_files_refl P fs : same_files P fs fs.
Proof. by intros t c _. Qed.

Lemma same_files_trans P fs1 fs2 fs3 :
  same_files P fs1 fs2 → same_files P fs2 fs3 → same_files P fs1 fs3.
Proof. intros H1 H2 t c Ht. by rewrite (H2 t c Ht), (H1 t c Ht). Qed.

Lemma same_files_weaken (P Q : list string → Prop) fs fs' :
  (∀ t, Q t → P t) → same_files P fs fs' → same_files Q fs fs'.
Proof. intros HQ H t c Ht. apply H. by apply HQ. Qed.

Lemma keeps_weaken {A} (P Q : list string → Prop) (m : M A) :
  (∀ t, Q t → P t) → keeps_files P m → keeps_files Q m.
Proof. intros HQ H fs r fs' E. eapply same_files_weaken; [done|]. by eapply H. Qed.

Lemma keeps_pure {A} P (m : M A) :
  (∀ fs r fs', m fs = (r, fs') → fs' = fs) → keeps_files P m.
Proof. intros H fs r fs' E. rewrite (H _ _ _ E). apply same_files_refl. Qed.

Lemma keeps_ret {A} P (a : A) : keeps_files P (ret a).
Proof. apply keeps_pure. by intros fs r fs' [= _ <-]. Qed.

Lemma keeps_raise {A} P e : keeps_files P (@raise A e).
Proof. apply keeps_pure. by intros fs r fs' [= _ <-]. Qed.

Lemma keeps_lift {A} P (r : result A) : keeps_files P (lift r).
Proof. apply keeps_pure. by intros fs r' fs' [= _ <-]. Qed.

Lemma keeps_bind {A B} P (m : M A) (k : A → M B) :
  keeps_files P m → (∀ a, keeps_files P (k a)) → keeps_files P (bind m k).
Proof.
  intros Hm Hk fs r fs' E. unfold bind in E.
  destruct (m fs) as [[a|e] fs1] eqn:Em.
  - eapply same_files_trans; [by eapply Hm|by eapply Hk].
  - injection E as <- <-. by eapply Hm.
Qed.

Lemma keeps_listdir P p : keeps_files P (Os.listdir p).
Proof. apply keeps_pure. intros fs r fs' E. by eapply listdir_state. Qed.

Lemma keeps_path_exists P p : keeps_files P (Os.path_exists p).
Proof. apply keeps_pure. by intros fs r fs' [= _ <-]. Qed.

Lemma keeps_isfile P p : keeps_files P (Os.isfile p).
Proof. apply keeps_pure. by intros fs r fs' [= _ <-]. Qed.

Lemma keeps_isdir P p : keeps_files P (Os.isdir p).
Proof. apply keeps_pure. by intros fs r fs' [= _ <-]. Qed.

Lemma keeps_read_file P p : keeps_files P (Os.read_file p).
Proof.
  apply keeps_pure. intros fs r fs'. unfold Os.read_file.
  by destruct (resolve (components p) fs) as [[|]|]; intros [= _ <-].
Qed.

Lemma keeps_parse P p : keeps_files P (Os.parse p).
Proof. apply keeps_pure. intros fs r fs' E. by eapply parse_state. Qed.

Lemma keeps_find_kml_file P p : keeps_files P (find_kml_file p).
Proof. apply keeps_pure. by intros fs r fs' [= _ <-]. Qed.

Lemma keeps_write_file p c :
  keeps_files (λ t, t ≠ components p) (Os.write_file p c).
Proof.
  intros fs r fs' E t c' Ht.
  destruct r as [[]|e].
  - split.
    + intros Hr. by destruct (write_file_origin p c fs fs' t c' E Hr) as [[-> _]|].
    + intros Hr. by eapply write_file_keeps.
  - assert (fs' = fs) as ->; [|done]. unfold Os.write_file in E.
    destruct (resolve (components p) fs) as [[|]|];
      try destruct (put (components p) (File c) fs); by simplify_eq.
Qed.

Lemma keeps_mkdirs b cs n n' P : mkdirs b cs n = Ok n' → same_files P n n'.
Proof.
  intros H t c _. split; [by eapply mkdirs_file_origin|by eapply mkdirs_keeps_file].
Qed.

Lemma keeps_makedirs P p : keeps_files P (Os.makedirs p).
Proof.
  intros fs r fs'. unfold Os.makedirs.
  destruct (mkdirs false (components p) fs) as [fs1|e] eqn:E; intros [= _ <-].
  - by eapply keeps_mkdirs.
  - apply same_files_refl.
Qed.

Lemma del_keeps cs : ∀ n n' t c,
  del cs n = Some n' → resolve t n = Some (File c) → ¬ cs `prefix_of` t →
  resolve t n' = Some (File c).
Proof.
  induction cs as [|d cs IH]; intros n n' t c; simpl; [done|].
  destruct n as [c0|es]; [done|].
  destruct (lookup_entry d es) as [sub|] eqn:Hl; [|done].
  destruct cs as [|d2 cs].
  - intros [= <-]. destruct t as [|d' t]; [done|]. simpl.
    destruct (String.eqb_spec d' d) as [->|Hne].
    + intros _ Hp. destruct Hp. by exists t.
    + by rewrite lookup_del_entry_ne.
  - destruct (del (d2 :: cs) sub) as [sub'|] eqn:Hd; [|done].
    intros [= <-]. destruct t as [|d' t]; [done|]. simpl.
    destruct (String.eqb_spec d' d) as [->|Hne].
    + rewrite Hl, lookup_set_entry. intros Hr Hp. apply (IH sub sub' t c Hd Hr).
      intros Hp'. apply Hp. by apply prefix_cons.
    + by rewrite lookup_set_entry_ne.
Qed.

Lemma keeps_rmtree p :
  keeps_files (λ t, ¬ components p `prefix_of` t) (Os.rmtree p).
Proof.
  intros fs r fs'. unfold Os.rmtree.
  destruct (resolve (components p) fs) as [[c0|es]|];
    [intros [= _ <-]; apply same_files_refl| |intros [= _ <-]; apply same_files_refl].
  destruct (del (components p) fs) as [fs1|] eqn:Hd;
    [|intros [= _ <-]; apply same_files_refl].
  intros [= _ <-] t c Ht. split; [by eapply del_file_origin|].
  intros Hr. by eapply del_keeps.
Qed.

Lemma prefix_of_trans_not (l1 l2 t : list string) :
  l1 `prefix_of` l2 → ¬ l1 `prefix_of` t → ¬ l2 `prefix_of` t.
Proof. intros H12 Hn H2. apply Hn. by etrans. Qed.

Lemma prefix_of_not_eq (l1 l2 t : list string) :
  l1 `prefix_of` l2 → ¬ l1 `prefix_of` t → t ≠ l2.
Proof. intros H12 Hn ->. done. Qed.

Lemma keeps_copy2 src dst :
  keeps_files (λ t, ¬ components dst `prefix_of` t) (Os.copy2 src dst).
Proof.
  unfold Os.copy2. apply keeps_bind; [apply keeps_isdir|]. intros d.
  set (dst' := if d then PyStr.join dst (PyStr.basename src) else dst).
  assert (components dst `prefix_of` components dst') as Hpre.
  { unfold dst'. destruct d; [|done].
    rewrite components_join_no_sep by apply basename_no_sep. apply prefix_app_self. }
  apply keeps_bind; [apply keeps_isfile|]. intros s.
  apply keeps_bind; [apply keeps_isfile|]. intros t0.
  destruct (s && t0 && bool_decide _); [apply keeps_raise|].
  apply keeps_bind; [apply keeps_read_file|]. intros c.
  eapply keeps_weaken; [|apply keeps_write_file].
  intros t Ht. by eapply prefix_of_not_eq.
Qed.

Lemma keeps_copy_pngs S all :
  (∀ a f, (a, f) ∈ all → PyStr.contains "/" f = false) →
  keeps_files (λ t, ¬ components S `prefix_of` t) (copy_pngs S all).
Proof.
  induction all as [|[a f] all IH]; intros Hall; cbn [copy_pngs]; [apply keeps_ret|].
  apply keeps_bind; [apply keeps_isfile|]. intros ok. apply keeps_bind.
  - destruct ok; [|apply keeps_ret].
    eapply keeps_weaken; [|apply keeps_copy2].
    intros t Ht. eapply prefix_of_trans_not; [|done].
    rewrite components_join_no_sep by (apply (Hall a f); by left). apply prefix_app_self.
  - intros _. apply IH. intros a' f' Hin. apply (Hall a' f'). by right.
Qed.

Lemma keeps_modify_kml kml_path png_filepaths subfolder_name :
  keeps_files
    (λ t, t ≠ components kml_path ∧
          ¬ components (PyStr.join (PyStr.dirname kml_path) subfolder_name) `prefix_of` t)
    (modify_kml kml_path png_filepaths subfolder_name).
Proof.
  unfold modify_kml. set (S := PyStr.join (PyStr.dirname kml_path) subfolder_name).
  apply keeps_bind; [apply keeps_parse|]. intros root.
  apply keeps_bind; [apply keeps_lift|]. intros [[pre doc]|]; [|apply keeps_ret].
  apply keeps_bind; [apply keeps_path_exists|]. intros ex.
  apply keeps_bind; [destruct ex; [apply keeps_ret|apply keeps_makedirs]|]. intros _.
  apply keeps_bind.
  { eapply keeps_weaken; [|apply keeps_copy_pngs].
    - by intros t [_ Ht].
    - intros a f (p & _ & [= <- <-])%elem_of_map_iff. apply basename_no_sep. }
  intros _. apply keeps_bind; [apply keeps_lift|]. intros final.
  apply keeps_bind; [|intros _; apply keeps_ret].
  eapply keeps_weaken; [|apply keeps_write_file]. by intros t [Ht _].
Qed.

Lemma keeps_extract_member extract_to m :
  keeps_files (λ t, ¬ components extract_to `prefix_of` t) (Os.extract_member extract_to m).
Proof.
  intros fs r fs'. unfold Os.extract_member.
  set (target := components extract_to ++ _).
  destruct (PyStr.endswith "/" m.1).
  - destruct (mkdirs true target fs) as [fs1|e] eqn:Hm; intros [= _ <-];
      [by eapply keeps_mkdirs|apply same_files_refl].
  - destruct (mkdirs true (removelast target) fs) as [fs1|e] eqn:Hm;
      [|intros [= _ <-]; apply same_files_refl].
    pose proof (keeps_mkdirs _ _ _ _ (λ t, ¬ components extract_to `prefix_of` t) Hm) as H1.
    destruct (resolve target fs1) as [[c1|es]|] eqn:Hr;
      [|by intros [= _ <-]|];
      (destruct (put target (File m.2) fs1) as [fs2|] eqn:Hp; [|by intros [= _ <-]]);
      intros [= _ <-]; (eapply same_files_trans; [exact H1|]);
      intros t c Ht; (split;
        [intros Hr2; destruct (put_file_origin _ _ _ _ _ _ Hp Hr2) as [[-> _]|]; [|done];
         destruct Ht; apply prefix_app_self
        |intros Hr1; eapply put_keeps_file; [done|done| |intros es'; congruence];
         intros ->; apply Ht, prefix_app_self]).
Qed.

Lemma keeps_extractall extract_to members :
  keeps_files (λ t, ¬ components extract_to `prefix_of` t) (Os.extractall extract_to members).
Proof.
  induction members as [|m members IH]; cbn [Os.extractall]; [apply keeps_ret|].
  apply keeps_bind; [apply keeps_extract_member|]. by intros _.
Qed.

Lemma keeps_extract_kmz kmz_path extract_to :
  keeps_files (λ t, ¬ components extract_to `prefix_of` t) (extract_kmz kmz_path extract_to).
Proof.
  unfold extract_kmz. apply keeps_bind; [apply keeps_read_file|].
  intros [| |members]; [apply keeps_raise..|apply keeps_extractall].
Qed.

Lemma keeps_create_kmz source_dir kmz_path :
  keeps_files (λ t, t ≠ components kmz_path) (create_kmz source_dir kmz_path).
Proof.
  unfold create_kmz. apply keeps_bind; [apply keeps_write_file|]. intros _.
  intros fs r fs' E. by eapply keeps_write_file.
Qed.

End KeepFacts.

Section UnitKeeps.
Import FS.

Lemma find_kml_under temp es kml X :
  valid_tree (Dir es) = true → find_kml temp (Dir es) = Some kml →
  PyStr.contains "/" X = false →
  components temp `prefix_of` components kml ∧
  components temp `prefix_of` components (PyStr.join (PyStr.dirname kml) X).
Proof.
  intros Hv Hfind HX.
  destruct (find_kml_sound (Dir es) temp kml Hv Hfind) as (cs & f & c & -> & Hr & Hf).
  destruct (valid_tree_resolve _ _ _ Hv Hr) as [Hs _].
  set (kml := foldl PyStr.join temp (cs ++ [f])) in *.
  assert (components kml = components temp ++ cs ++ [f]) as Hkc
    by (by apply components_foldl_join).
  split; [rewrite Hkc; apply prefix_app_self|].
  rewrite components_join_no_sep by done.
  destruct (components_dirname kml) as (r & Hd & Hlen). rewrite Hkc in Hd.
  etrans; [|apply prefix_app_self].
  apply (prefix_of_app_shorter _ _ _ _ Hd).
  rewrite length_app. simpl. lia.
Qed.

Lemma process_subfolder_keeps subfolder_path output_folder :
  keeps_files
    (λ t, ¬ components (temp_dir_of subfolder_path output_folder) `prefix_of` t ∧
          t ≠ components (PyStr.join output_folder
                            (PyStr.basename subfolder_path +:+ " - transparent.kmz")))
    (process_subfolder subfolder_path output_folder).
Proof.
  unfold process_subfolder, temp_dir_of.
  set (X := PyStr.basename subfolder_path).
  pose proof (basename_no_sep subfolder_path) as HX. fold X in HX.
  set (temp := PyStr.join output_folder ("temp_extract_" +:+ X)).
  set (new_kmz := PyStr.join output_folder (X +:+ " - transparent.kmz")).
  set (P := λ t : list string, ¬ components temp `prefix_of` t ∧ t ≠ components new_kmz).
  assert (keeps_files P (Os.rmtree temp)) as Krm.
  { eapply keeps_weaken; [|apply keeps_rmtree]. by intros t [Ht _]. }
  assert (∀ kmz, keeps_files P (extract_kmz kmz temp)) as Kext.
  { intros kmz. eapply keeps_weaken; [|apply keeps_extract_kmz]. by intros t [Ht _]. }
  assert (keeps_files P (create_kmz temp new_kmz)) as Kzip.
  { eapply keeps_weaken; [|apply keeps_create_kmz]. by intros t [_ Ht]. }
  apply keeps_bind; [apply keeps_listdir|]. intros names.
  destruct (List.filter is_kmz names) as [|original_kmz ?]; [apply keeps_ret|].
  apply keeps_bind; [apply keeps_listdir|]. intros all_files.
  set (pngs := map (PyStr.join subfolder_path) (List.filter is_png all_files)).
  destruct pngs as [|png pngs'] eqn:Hpng; [apply keeps_ret|].
  rewrite <-Hpng. clear Hpng png pngs'.
  intros fs r fs' H.
  unfold bind at 1 in H.
  destruct (Os.path_exists temp fs) as [[ex|e] fs1] eqn:Eex;
    [|unfold Os.path_exists in Eex; done].
  assert (fs1 = fs ∧ ex = bool_decide (is_Some (resolve (components temp) fs)))
    as [-> Hex] by (unfold Os.path_exists in Eex; by simplify_eq).
  unfold bind at 1 in H.
  destruct ((if ex then Os.rmtree temp else ret ()) fs) as [[[]|e] fs2] eqn:Erm.
  2: { injection H as <- <-. destruct ex; [by eapply Krm|by eapply (keeps_ret P ())]. }
  assert (same_files P fs fs2) as F2.
  { destruct ex; [by eapply Krm|by eapply (keeps_ret P ())]. }
  assert (resolve (components temp) fs2 = None) as Hgone.
  { destruct ex.
    - by eapply rmtree_gone.
    - cbv [ret] in Erm. injection Erm as <-.
      symmetry in Hex. apply bool_decide_eq_false_1 in Hex.
      destruct (resolve (components temp) fs); [|done]. by destruct Hex. }
  unfold bind at 1 in H.
  destruct (Os.makedirs temp fs2) as [[[]|e] fs3] eqn:Emk.
  2: { injection H as <- <-. eapply same_files_trans; [exact F2|].
       by eapply (keeps_makedirs P). }
  assert (same_files P fs fs3) as F3.
  { eapply same_files_trans; [exact F2|]. by eapply (keeps_makedirs P). }
  unfold Os.makedirs in Emk.
  destruct (mkdirs false (components temp) fs2) as [fs3'|e] eqn:Hmk; [|done].
  injection Emk as <-.
  pose proof (mkdirs_new _ _ _ _ Hgone Hmk) as Hempty.
  unfold bind at 1 in H.
  destruct (extract_kmz (PyStr.join subfolder_path original_kmz) temp fs3')
    as [[[]|e] fs4] eqn:Eext.
  2: { injection H as <- <-. eapply same_files_trans; [exact F3|]. by eapply Kext. }
  assert (same_files P fs fs4) as F4.
  { eapply same_files_trans; [exact F3|]. by eapply Kext. }
  eapply same_files_trans; [exact F4|].
  unfold extract_kmz in Eext. unfold bind at 1 in Eext.
  destruct (Os.read_file (PyStr.join subfolder_path original_kmz) fs3')
    as [[c0|e] fs0] eqn:Eread; [|done].
  apply read_file_resolve in Eread as [Hin ->].
  destruct c0 as [|?|members_in]; try done.
  destruct (extractall_valid temp members_in fs3' fs4 [] Hempty eq_refl Eext)
    as (es4 & HT4 & Hv4).
  unfold bind at 1, find_kml_file at 1 in H. rewrite HT4 in H.
  destruct (find_kml temp (Dir es4)) as [kml|] eqn:Hfind.
  - destruct (find_kml_under temp es4 kml X Hv4 Hfind HX) as [Hk1 Hk2].
    revert H. apply keeps_bind.
    + eapply keeps_weaken; [|apply keeps_modify_kml].
      intros t [Ht _]. split; [by eapply prefix_of_not_eq|by eapply prefix_of_trans_not].
    + intros [|].
      * apply keeps_bind; [done|]. intros _.
        apply keeps_bind; [done|]. intros _. apply keeps_ret.
      * apply keeps_bind; [done|]. intros _. apply keeps_ret.
  - revert H. apply keeps_bind; [done|]. intros _. apply keeps_ret.
Qed.

Lemma keeps_run_units output_folder all_subfolders : ∀ success_count,
  keeps_files (λ t, ¬ components output_folder `prefix_of` t)
    (run_units output_folder all_subfolders success_count).
Proof.
  induction all_subfolders as [|subf rest IH]; intros k; cbn [run_units]; [apply keeps_ret|].
  apply keeps_bind; [|by intros ok].
  eapply keeps_weaken; [|apply process_subfolder_keeps].
  intros t Ht. pose proof (basename_no_sep subf) as HX. unfold temp_dir_of. split.
  - eapply prefix_of_trans_not; [|done].
    rewrite components_join by (by apply temp_name_simple). apply prefix_app_self.
  - eapply prefix_of_not_eq; [|done].
    rewrite components_join by (by apply kmz_name_simple). apply prefix_app_self.
Qed.

Lemma keeps_subdirs_of P main_folder names : keeps_files P (subdirs_of main_folder names).
Proof.
  induction names as [|d rest IH]; cbn [subdirs_of]; [apply keeps_ret|].
  apply keeps_bind; [apply keeps_isdir|]. intros isd.
  apply keeps_bind; [done|]. intros tl. apply keeps_ret.
Qed.

End UnitKeeps.

(** X18.  Whatever [modify_kml] answers or raises, the files it makes,
    changes or removes are the document and files in the folder of the
    unit next to the document: at every other path, a file with a given
    content is there afterwards exactly when it was there before. *)
Theorem modify_kml_keeps_files kml_path png_filepaths subfolder_name fs r fs' t c :
  modify_kml kml_path png_filepaths subfolder_name fs = (r, fs') →
  t ≠ FS.components kml_path →
  ¬ FS.components (PyStr.join (PyStr.dirname kml_path) subfolder_name) `prefix_of` t →
  FS.resolve t fs' = Some (File c) ↔ FS.resolve t fs = Some (File c).
Proof.
  intros H Ht1 Ht2.
  by apply (keeps_modify_kml kml_path png_filepaths subfolder_name fs r fs' H t c).
Qed.

Lemma modify_kml_keeps_files_witness :
  ∃ r fs',
    modify_kml "/work/doc.kml" Examples.scenario_pngs "N56E29"
      (Examples.fs_work Examples.doc_scenario) = (r, fs') ∧
    FS.resolve (FS.components "/work/base.png") fs' = Some (File (Bytes "b")).
Proof.
  destruct (modify_kml "/work/doc.kml" Examples.scenario_pngs "N56E29"
              (Examples.fs_work Examples.doc_scenario)) as [r fs'] eqn:E.
  exists r, fs'. split; [reflexivity|].
  apply (modify_kml_keeps_files "/work/doc.kml" Examples.scenario_pngs "N56E29"%string
           (Examples.fs_work Examples.doc_scenario) r fs'
           (FS.components "/work/base.png") (Bytes "b") E).
  - intros Hk. vm_compute in Hk. discriminate Hk.
  - intros [k Hk]. vm_compute in Hk. discriminate Hk.
  - reflexivity.
Defined.

(** X19.  Whatever [process_subfolder] answers or raises, the files it
    makes, changes or removes are the new archive
    [<unit> - transparent.kmz] of the output folder and files in its
    working directory [temp_extract_<unit>] there: at every other path,
    the files of the unit among them, a file with a given content is
    there afterwards exactly when it was there before. *)
Theorem process_subfolder_keeps_files subfolder_path output_folder fs r fs' t c :
  process_subfolder subfolder_path output_folder fs = (r, fs') →
  ¬ FS.components (temp_dir_of subfolder_path output_folder) `prefix_of` t →
  t ≠ FS.components (PyStr.join output_folder
                       (PyStr.basename subfolder_path +:+ " - transparent.kmz")) →
  FS.resolve t fs' = Some (File c) ↔ FS.resolve t fs = Some (File c).
Proof.
  intros H Ht1 Ht2.
  by apply (process_subfolder_keeps subfolder_path output_folder fs r fs' H t c).
Qed.

Lemma process_subfolder_keeps_files_witness :
  ∃ r fs',
    process_subfolder "/in/N56E29" "/out" Examples.fs_units = (r, fs') ∧
    FS.resolve (FS.components "/in/N56E29/N56E29-010.png") fs' = Some (File (Bytes "10")).
Proof.
  destruct (process_subfolder "/in/N56E29" "/out" Examples.fs_units) as [r fs'] eqn:E.
  exists r, fs'. split; [reflexivity|].
  apply (process_subfolder_keeps_files "/in/N56E29" "/out" Examples.fs_units r fs'
           (FS.components "/in/N56E29/N56E29-010.png") (Bytes "10") E).
  - intros [k Hk]. vm_compute in Hk. discriminate Hk.
  - intros Hk. vm_compute in Hk. discriminate Hk.
  - reflexivity.
Defined.

(** X20.  However [main] ends, with a message or with the report of an
    error that stopped it, the files it has made, changed or removed are
    all in the output folder: at every path outside it, the main folder
    and its units among them if the output folder is elsewhere, a file
    with a given content is there afterwards exactly when it was there
    before. *)
Theorem main_keeps_files main_folder output_folder fs d fs' t c :
  main main_folder output_folder fs = (d, fs') →
  ¬ FS.components output_folder `prefix_of` t →
  FS.resolve t fs' = Some (File c) ↔ FS.resolve t fs = Some (File c).
Proof.
  intros H Ht. unfold main in H.
  destruct (negb (PyStr.truthy main_folder)); [by injection H as _ <-|].
  destruct (negb (PyStr.truthy output_folder)); [by injection H as _ <-|].
  set (P := λ t : list string, ¬ FS.components output_folder `prefix_of` t).
  assert (same_files P fs fs') as F; [|by apply F].
  match type of H with
  | (match ?body fs with _ => _ end) = _ =>
      assert (keeps_files P body) as K;
      [|destruct (body fs) as [[d0|e] fs1] eqn:E; injection H as _ <-; by eapply K]
  end.
  apply keeps_bind; [apply keeps_listdir|]. intros names.
  apply keeps_bind; [apply keeps_subdirs_of|]. intros [|subf rest]; [apply keeps_ret|].
  apply keeps_bind; [apply keeps_run_units|]. intros k. apply keeps_ret.
Qed.

Lemma main_keeps_files_witness :
  ∃ e fs',
    main "/in" "/out" Examples.fs_batch = (UnexpectedError e, fs') ∧
    FS.resolve (FS.components "/in/N56E29/orig.kmz") fs'
    = FS.resolve (FS.components "/in/N56E29/orig.kmz") Examples.fs_batch ∧
    FS.resolve (FS.components "/in/notes.txt") fs' = Some (File (Bytes "n")).
Proof.
  destruct (main "/in" "/out" Examples.fs_batch) as [d fs'] eqn:E.
  assert (∃ e, d = UnexpectedError e) as [e ->].
  { vm_compute in E. injection E as <- _. by eexists. }
  exists e, fs'. split; [reflexivity|]. split.
  - apply (main_keeps_files "/in" "/out" Examples.fs_batch (UnexpectedError e) fs'
             (FS.components "/in/N56E29/orig.kmz") _ E).
    + intros [k Hk]. vm_compute in Hk. discriminate Hk.
    + reflexivity.
  - apply (main_keeps_files "/in" "/out" Examples.fs_batch (UnexpectedError e) fs'
             (FS.components "/in/notes.txt") (Bytes "n") E).
    + intros [k Hk]. vm_compute in Hk. discriminate Hk.
    + reflexivity.
Defined.

(** *** When the overlays cannot be moved *)

Section MoveFails.
Import ET.

Lemma eid_upd_append i o e : eid (upd i (append o) e) = eid e.
Proof. rewrite upd_unfold. by destruct (Nat.eqb (eid e) i). Qed.

(** The loop that moves the overlays gets through only if every overlay
    is a child of the root. *)
Lemma move_overlays_Ok_children doc ovs : ∀ r r',
  move_overlays doc ovs r = Ok r' →
  Forall (λ ov, eid ov ∈ map eid (children r)) ovs.
Proof.
  induction ovs as [|ov ovs IH]; intros r r'; cbn [move_overlays]; [by constructor|].
  destruct (remove_child (eid ov) (children r)) as [cs|] eqn:Hrm; [|done].
  destruct (get (eid ov) r) as [o|] eqn:Hget; [|done].
  intros Hmv. apply remove_child_Some in Hrm as (pre & o' & post & Hch & -> & Ho').
  constructor.
  - rewrite Hch, map_app. apply elem_of_app. right. rewrite <-Ho'. by left.
  - apply IH in Hmv. eapply Forall_impl; [exact Hmv|]. intros x Hx. cbv beta in Hx.
    assert (∀ z, z ∈ pre ++ post → z ∈ children r) as Hsub.
    { intros z. rewrite Hch. rewrite !elem_of_app. intros [?|?]; [by left|right; by right]. }
    rewrite upd_unfold in Hx. simpl in Hx.
    destruct (Nat.eqb (eid r) doc); simpl in Hx.
    + rewrite map_app in Hx. apply elem_of_app in Hx as [Hx|Hx].
      * apply elem_of_map_iff in Hx as (y & Hy & <-). apply elem_of_map_iff.
        exists y. split; [by apply Hsub|done].
      * apply list_elem_of_singleton in Hx as ->.
        apply get_Some in Hget as [_ ->]. rewrite Hch, map_app.
        apply elem_of_app. right. rewrite <-Ho'. by left.
    + rewrite map_map in Hx. apply elem_of_map_iff in Hx as (y & Hy & <-).
      rewrite eid_upd_append. apply elem_of_map_iff.
      exists y. split; [by apply Hsub|done].
Qed.

Lemma locate_group_raises root ov :
  find_desc "Document" root = None → find_desc "Folder" root = None →
  ov ∈ findall_desc "GroundOverlay" root → eid ov ∉ map eid (children root) →
  locate_group (findall_desc "GroundOverlay" root) root = Raise ValueError.
Proof.
  intros Hd Hf Hov Hch. unfold locate_group. rewrite Hd, Hf.
  destruct (move_overlays _ _ _) as [r|e] eqn:Hmv.
  - exfalso. apply move_overlays_Ok_children in Hmv. rewrite Forall_forall in Hmv.
    specialize (Hmv ov Hov). simpl in Hmv. rewrite map_app in Hmv.
    apply elem_of_app in Hmv as [Hmv|Hmv]; [done|].
    apply list_elem_of_singleton in Hmv. simpl in Hmv.
    apply findall_desc_nodes in Hov as [Hov _].
    apply (fresh_notin root). rewrite <-Hmv. apply elem_of_ids_nodes. eauto.
  - simpl. by apply move_overlays_raises in Hmv as ->.
Qed.

End MoveFails.

(** X7.  A document that has neither [Document] nor [Folder] and has an
    overlay that is not a child of the root makes the transformation
    raise the [ValueError] of [root.remove(ov)], whatever the images;
    [modify_kml] then raises it too and leaves the file system as it
    was. *)
Theorem modify_kml_tree_raises root png_filepaths subfolder_name ov :
  ET.find_desc "Document" root = None → ET.find_desc "Folder" root = None →
  ov ∈ ET.findall_desc "GroundOverlay" root → eid ov ∉ map eid (children root) →
  modify_kml_tree root png_filepaths subfolder_name = Raise ValueError ∧
  ∀ kml_path fs,
    FS.resolve (FS.components kml_path) fs = Some (File (Xml root)) →
    modify_kml kml_path png_filepaths subfolder_name fs = (Raise ValueError, fs).
Proof.
  intros Hd Hf Hov Hch.
  pose proof (locate_group_raises root ov Hd Hf Hov Hch) as Hl.
  assert (build_overlays root png_filepaths subfolder_name = Raise ValueError) as Hb.
  { unfold build_overlays.
    destruct (ET.findall_desc "GroundOverlay" root) as [|T rest] eqn:Hovs;
      [by apply elem_of_nil in Hov|].
    by rewrite Hl. }
  split.
  - unfold modify_kml_tree. by rewrite Hb.
  - intros kml_path fs Hfile. apply (modify_kml_raises _ _ _ _ root); [|done].
    by apply parse_xml.
Qed.

Lemma modify_kml_tree_raises_witness :
  modify_kml_tree Examples.doc_nested ["/in/N56E29/base.png"%string] "N56E29"
    = Raise ValueError ∧
  (let fs := Examples.fs_work Examples.doc_nested in
   modify_kml "/work/doc.kml" ["/in/N56E29/base.png"%string] "N56E29" fs
   = (Raise ValueError, fs)).
Proof.
  destruct (modify_kml_tree_raises Examples.doc_nested ["/in/N56E29/base.png"%string]
              "N56E29"%string (Examples.overlay 2 "A-001" "base.png"))
    as [H1 H2].
  - reflexivity.
  - reflexivity.
  - vm_compute. by left.
  - intros Hin. vm_compute in Hin. inversion Hin as [|? ? ? Hin']. inversion Hin'.
  - split; [exact H1|]. intros fs. apply H2. reflexivity.
Defined.

(** *** The order of the members of the archive *)

Section WalkOrder.
Import FS.

Lemma name_before_spec a b : name_before a b = true ↔ String.le a b ∧ a ≠ b.
Proof.
  unfold name_before, String.le. rewrite andb_true_iff, negb_true_iff.
  rewrite Is_true_true. split; intros [H1 H2]; (split; [done|]).
  - intros ->. by rewrite String.eqb_refl in H2.
  - by apply String.eqb_neq.
Qed.

Lemma name_before_irrefl a : name_before a a = false.
Proof. unfold name_before. by rewrite String.eqb_refl, andb_false_r. Qed.

Lemma name_before_asym a b : name_before a b = true → name_before b a = true → False.
Proof.
  intros [H1 Hne]%name_before_spec [H2 _]%name_before_spec.
  apply Hne. unfold String.le in *. apply Is_true_true in H1, H2.
  by apply String.leb_antisym.
Qed.

Lemma walk_before_below d x p e y q :
  walk_before (d :: x :: p) (e :: y :: q)
  = if String.eqb d e then walk_before (x :: p) (y :: q) else name_before d e.
Proof. reflexivity. Qed.

Lemma walk_before_irrefl p : walk_before p p = false.
Proof.
  induction p as [|d [|e p] IH]; [done|apply name_before_irrefl|].
  by rewrite walk_before_below, String.eqb_refl.
Qed.

Lemma walk_before_asym p : ∀ q, walk_before p q = true → walk_before q p = true → False.
Proof.
  induction p as [|d [|e p] IH]; intros [|d' [|e' q]]; try done.
  - apply name_before_asym.
  - rewrite !walk_before_below, (String.eqb_sym d' d).
    destruct (String.eqb d d'); [apply IH|apply name_before_asym].
Qed.

Lemma walk_before_cons d p q :
  p ≠ [] → q ≠ [] → walk_before (d :: p) (d :: q) = walk_before p q.
Proof.
  destruct p as [|x p], q as [|y q]; try done. intros _ _.
  by rewrite walk_before_below, String.eqb_refl.
Qed.

Lemma walk_before_dirs d e p q :
  p ≠ [] → q ≠ [] → name_before d e = true → walk_before (d :: p) (e :: q) = true.
Proof.
  destruct p as [|x p], q as [|y q]; try done. intros _ _ H.
  rewrite walk_before_below. destruct (String.eqb_spec d e) as [->|_]; [|done].
  by rewrite name_before_irrefl in H.
Qed.

Lemma walk_before_file f d q : q ≠ [] → walk_before [f] (d :: q) = true.
Proof. by destruct q. Qed.

(** Sorted lists *)
Lemma StronglySorted_impl_elem {A} (R1 R2 : relation A) l :
  (∀ x y, x ∈ l → y ∈ l → R1 x y → R2 x y) →
  StronglySorted R1 l → StronglySorted R2 l.
Proof.
  intros HR H. induction H as [|x l Hl IH Hx]; constructor.
  - apply IH. intros a b Ha Hb. apply HR; by right.
  - rewrite Forall_forall in Hx |- *. intros y Hy. apply HR; [by left|by right|by apply Hx].
Qed.

Lemma StronglySorted_flat_map {K A} (Rk : relation K) (R : relation A) (f : K → list A) keys :
  StronglySorted Rk keys →
  (∀ k, k ∈ keys → StronglySorted R (f k)) →
  (∀ k1 k2 x y, k1 ∈ keys → k2 ∈ keys → Rk k1 k2 → x ∈ f k1 → y ∈ f k2 → R x y) →
  StronglySorted R (flat_map f keys).
Proof.
  intros Hk. induction Hk as [|k keys Hk IH Hhd]; intros Hin Hcross; simpl; [constructor|].
  apply StronglySorted_app_2.
  - intros x y Hx (k2 & Hk2 & Hy)%elem_of_flat_map.
    rewrite Forall_forall in Hhd.
    apply (Hcross k k2); [by left|by right|by apply Hhd|done|done].
  - apply Hin. by left.
  - apply IH.
    + intros k' Hk'. apply Hin. by right.
    + intros k1 k2 x y H1 H2. apply Hcross; by right.
Qed.

Lemma StronglySorted_strict {A} (R : relation A) l :
  StronglySorted R l → NoDup l → StronglySorted (λ a b, R a b ∧ a ≠ b) l.
Proof.
  intros H. induction H as [|x l Hl IH Hx]; intros Hnd; constructor.
  - apply IH. by apply NoDup_cons in Hnd as [_ ?].
  - apply NoDup_cons in Hnd as [Hx' _]. rewrite Forall_forall in Hx |- *.
    intros y Hy. split; [by apply Hx|]. by intros ->.
Qed.

Lemma StronglySorted_NoDup_key {A K} (Rk : K → K → bool) (g : A → K) (l : list A) :
  (∀ k, Rk k k = false) →
  StronglySorted (λ x y, Rk (g x) (g y) = true) l → NoDup (map g l).
Proof.
  intros Hirr H. induction H as [|x l Hl IH Hx]; simpl; constructor; [|done].
  intros (y & Hy & Hg)%elem_of_map_iff. rewrite Forall_forall in Hx.
  specialize (Hx y Hy). simpl in Hx. rewrite Hg, Hirr in Hx. done.
Qed.

Lemma NoDup_names_filter (P : string * node → bool) es :
  NoDup (map fst es) → NoDup (map fst (List.filter P es)).
Proof.
  induction es as [|e es IH]; simpl; [done|].
  intros [Hn Hnd]%NoDup_cons. destruct (P e); simpl; [|by apply IH].
  constructor; [|by apply IH].
  intros (y & [Hy _]%elem_of_filter_bool & Hg)%elem_of_map_iff.
  apply Hn. apply elem_of_map_iff. eauto.
Qed.

Lemma sort_names_strict names :
  NoDup names → StronglySorted (λ a b, name_before a b = true) (sort_names names).
Proof.
  intros Hnd.
  apply (StronglySorted_impl_elem (λ a b, String.le a b ∧ a ≠ b)).
  { intros x y _ _ H. by apply name_before_spec. }
  apply StronglySorted_strict.
  - apply Sorted_StronglySorted; [apply _|apply sort_names_Sorted].
  - by rewrite sort_names_perm.
Qed.

(** The key of a member of the walk below [rel]: the names that lead
    from the top directory to the file. *)
Lemma walk_member_key n rel m :
  valid_tree n = true → m ∈ walk_members rel n →
  ∃ cs, cs ≠ [] ∧ Forall (λ c, simple_name c = true) cs ∧
        m.1 = foldl PyStr.join rel cs ∧ resolve cs n = Some (File m.2) ∧
        components m.1 = components rel ++ cs.
Proof.
  intros Hv Hm. destruct m as [name c].
  apply walk_members_spec in Hm as (cs & Hne & -> & Hr).
  destruct (valid_tree_resolve _ _ _ Hv Hr) as [Hs _].
  exists cs. split_and!; try done. by apply components_foldl_join.
Qed.

Lemma lookup_content_length file es : length (lookup_content file es) ≤ 1.
Proof. unfold lookup_content. destruct (lookup_entry file es) as [[|]|]; simpl; lia. Qed.

Lemma StronglySorted_short {A} (R : relation A) l : length l ≤ 1 → StronglySorted R l.
Proof.
  destruct l as [|x [|y l]]; simpl; intros H; [constructor|repeat constructor|lia].
Qed.

(** The members of the walk come in the order of the walk, whatever the
    path the walk starts from. *)
Lemma walk_members_sorted n : ∀ rel,
  valid_tree n = true →
  StronglySorted
    (λ m1 m2, walk_before (drop (length (components rel)) (components m1.1))
                          (drop (length (components rel)) (components m2.1)) = true)
    (walk_members rel n).
Proof.
  induction n as [c0|es IH] using node_forall_ind; intros rel Hv; [constructor|].
  pose proof Hv as Hv0.
  apply valid_tree_Dir in Hv as [Hes Hnd]. rewrite Forall_forall in IH, Hes.
  set (key := λ m : string * content, drop (length (components rel)) (components m.1)).
  assert (∀ m, m ∈ walk_members rel (Dir es) →
               ∃ cs, cs ≠ [] ∧ key m = cs ∧ resolve cs (Dir es) = Some (File m.2)) as Hkey.
  { intros m Hm. destruct (walk_member_key _ _ _ Hv0 Hm) as (cs & Hne & _ & _ & Hr & Hc).
    exists cs. split_and!; [done| |done]. unfold key. by rewrite Hc, drop_app_length. }
  assert (∀ file m, m ∈ map (λ c, (PyStr.join rel file, c)) (lookup_content file es) →
                    file ∈ file_names es → key m = [file]) as Hfile.
  { intros file m (c & Hc & <-)%elem_of_map_iff Hf. unfold key. simpl.
    apply elem_of_file_names in Hf as [c' Hin]. destruct (Hes _ Hin) as [Hs _]. simpl in Hs.
    by rewrite components_join, drop_app_length. }
  assert (∀ d sub m, lookup_entry d es = Some sub → m ∈ walk_members (PyStr.join rel d) sub →
                     ∃ cs, cs ≠ [] ∧ key m = d :: cs ∧
                           drop (length (components (PyStr.join rel d))) (components m.1) = cs)
    as Hdir.
  { intros d sub m Hl Hm. apply lookup_entry_Some in Hl. destruct (Hes _ Hl) as [Hs Hvs].
    simpl in Hs, Hvs.
    destruct (walk_member_key _ _ _ Hvs Hm) as (cs & Hne & _ & _ & _ & Hc).
    exists cs. rewrite Hc, drop_app_length. split_and!; [done| |done].
    unfold key. rewrite Hc, components_join by done.
    by rewrite <-app_assoc, drop_app_length. }
  rewrite walk_members_Dir. apply StronglySorted_app_2.
  - intros x y (file & Hf & Hx)%elem_of_flat_map (d & Hd & Hy)%elem_of_flat_map.
    rewrite sort_names_perm in Hf. fold (key x). fold (key y).
    rewrite (Hfile file x Hx Hf).
    destruct (lookup_entry d es) as [sub|] eqn:Hl; [|by apply elem_of_nil in Hy].
    destruct (Hdir d sub y Hl Hy) as (cs & Hne & -> & _). by apply walk_before_file.
  - apply (StronglySorted_flat_map (λ a b, name_before a b = true)).
    + apply sort_names_strict. by apply NoDup_names_filter.
    + intros file _. apply StronglySorted_short. rewrite length_map.
      apply lookup_content_length.
    + intros k1 k2 x y Hk1 Hk2 Hlt Hx Hy. rewrite sort_names_perm in Hk1, Hk2.
      fold (key x). fold (key y).
      by rewrite (Hfile k1 x Hx Hk1), (Hfile k2 y Hy Hk2).
  - apply (StronglySorted_flat_map (λ a b, name_before a b = true)).
    + apply sort_names_strict. by apply NoDup_names_filter.
    + intros d _. destruct (lookup_entry d es) as [sub|] eqn:Hl; [|constructor].
      pose proof (lookup_entry_Some _ _ _ Hl) as Hin. destruct (Hes _ Hin) as [_ Hvs].
      simpl in Hvs.
      eapply StronglySorted_impl_elem; [|apply (IH _ Hin (PyStr.join rel d) Hvs)].
      intros x y Hx Hy Hxy. cbv beta in Hxy. fold (key x). fold (key y).
      destruct (Hdir d sub x Hl Hx) as (cs1 & Hne1 & -> & E1).
      destruct (Hdir d sub y Hl Hy) as (cs2 & Hne2 & -> & E2).
      simpl in E1, E2. rewrite E1, E2 in Hxy. by rewrite walk_before_cons.
    + intros k1 k2 x y _ _ Hlt Hx Hy. fold (key x). fold (key y).
      destruct (lookup_entry k1 es) as [sub1|] eqn:Hl1; [|by apply elem_of_nil in Hx].
      destruct (lookup_entry k2 es) as [sub2|] eqn:Hl2; [|by apply elem_of_nil in Hy].
      destruct (Hdir k1 sub1 x Hl1 Hx) as (cs1 & Hne1 & -> & _).
      destruct (Hdir k2 sub2 y Hl2 Hy) as (cs2 & Hne2 & -> & _).
      by apply walk_before_dirs.
Qed.

Lemma walk_members_order n :
  valid_tree n = true → StronglySorted walk_order (walk_members EmptyString n).
Proof.
  intros Hv. pose proof (walk_members_sorted n EmptyString Hv) as H.
  eapply StronglySorted_impl_elem; [|exact H]. by intros x y _ _ Hxy.
Qed.

Lemma walk_members_NoDup n :
  valid_tree n = true → NoDup (map fst (walk_members EmptyString n)).
Proof.
  intros Hv.
  assert (NoDup (map (λ m : string * content, components m.1) (walk_members EmptyString n))) as H.
  { apply (StronglySorted_NoDup_key walk_before); [apply walk_before_irrefl|].
    by apply walk_members_order. }
  rewrite <-(map_map fst components) in H. by apply NoDup_fmap_1 in H.
Qed.

(** The walk depends on the files of the tree only. *)
Lemma walk_members_unique n n' :
  valid_tree n = true → valid_tree n' = true →
  (∀ cs c, resolve cs n' = Some (File c) ↔ resolve cs n = Some (File c)) →
  walk_members EmptyString n' = walk_members EmptyString n.
Proof.
  intros Hv Hv' Hsame. apply (StronglySorted_unique_strong walk_order).
  - intros x y _ _ H1 H2. by destruct (walk_before_asym _ _ H1 H2).
  - by apply walk_members_order.
  - by apply walk_members_order.
  - apply NoDup_Permutation.
    + eapply NoDup_fmap_1. by apply walk_members_NoDup.
    + eapply NoDup_fmap_1. by apply walk_members_NoDup.
    + intros [name c]. rewrite !walk_members_spec.
      split; intros (cs & Hne & Hn & Hr); exists cs; split_and!; try done; by apply Hsame.
Qed.

Lemma filter_key_unique {A K} `{EqDecision K} (g : A → K) (l : list A) x :
  NoDup (map g l) → x ∈ l → List.filter (λ m, bool_decide (g m = g x)) l = [x].
Proof.
  induction l as [|y l IH]; intros Hnd Hx; [by apply elem_of_nil in Hx|].
  simpl in Hnd. apply NoDup_cons in Hnd as [Hy Hnd]. simpl.
  apply elem_of_cons in Hx as [->|Hx].
  - rewrite bool_decide_eq_true_2 by done. f_equal.
    apply filter_none. intros z Hz. apply bool_decide_eq_false_2. intros E.
    apply Hy. rewrite <-E. apply elem_of_map_iff. eauto.
  - rewrite bool_decide_eq_false_2; [by apply IH|].
    intros E. apply Hy. rewrite E. apply elem_of_map_iff. eauto.
Qed.

(** Every file of the tree has exactly one member. *)
Lemma walk_members_one n cs c :
  valid_tree n = true → cs ≠ [] → resolve cs n = Some (File c) →
  List.filter (λ m : string * content, bool_decide (components m.1 = cs))
    (walk_members EmptyString n)
  = [(rel_path cs, c)].
Proof.
  intros Hv Hne Hr. destruct (valid_tree_resolve _ _ _ Hv Hr) as [Hs _].
  assert (components (rel_path cs) = cs) as Hc by (by apply components_rel_path).
  pose proof (filter_key_unique (λ m : string * content, components m.1)
                (walk_members EmptyString n) (rel_path cs, c)) as Hone.
  cbv beta in Hone. simpl fst in Hone. rewrite Hc in Hone. apply Hone.
  - apply (StronglySorted_NoDup_key walk_before); [apply walk_before_irrefl|].
    by apply walk_members_order.
  - apply walk_members_spec. exists cs. by split_and!.
Qed.

End WalkOrder.

(** C9 (amended).  The archive that [create_kmz] writes for a source
    directory that is a valid tree (once the archive has been opened for
    writing) has its members in the order of the top-down walk with
    sorted listings, at every depth: the files of a directory in the
    order of their names, in front of what is inside its
    subdirectories, and the subdirectories in the order of their names.
    The members are the files of the tree, so that the sequence is
    determined by them: two source directories with the same files give
    the same archive, whatever the order in which their directories list
    their entries. *)
Theorem create_kmz_member_order source_dir kmz_path fs fs1 fs' n :
  Os.write_file kmz_path (Zip []) fs = (Ok (), fs1) →
  FS.resolve (FS.components source_dir) fs1 = Some n →
  valid_tree n = true →
  create_kmz source_dir kmz_path fs = (Ok (), fs') →
  ∃ members,
    Os.read_file kmz_path fs' = (Ok (Zip members), fs') ∧
    StronglySorted walk_order members ∧
    (∀ name c,
       (name, c) ∈ members ↔
       ∃ cs, cs ≠ [] ∧ name = rel_path cs ∧ FS.resolve cs n = Some (File c)) ∧
    ∀ source_dir2 kmz_path2 gs gs1 gs' n2,
      Os.write_file kmz_path2 (Zip []) gs = (Ok (), gs1) →
      FS.resolve (FS.components source_dir2) gs1 = Some n2 →
      valid_tree n2 = true →
      (∀ cs c, FS.resolve cs n2 = Some (File c) ↔ FS.resolve cs n = Some (File c)) →
      create_kmz source_dir2 kmz_path2 gs = (Ok (), gs') →
      Os.read_file kmz_path2 gs' = (Ok (Zip members), gs').
Proof.
  intros Hw Hn Hv H.
  destruct (create_kmz_members source_dir kmz_path fs fs' H) as (fs1' & H1 & H2).
  assert (fs1' = fs1) as -> by congruence. rewrite Hn in H2.
  exists (walk_members EmptyString n). split_and!.
  - exact H2.
  - by apply walk_members_order.
  - intros name c. apply walk_members_spec.
  - intros source_dir2 kmz_path2 gs gs1 gs' n2 Hw2 Hn2 Hv2 Hsame H'.
    destruct (create_kmz_members source_dir2 kmz_path2 gs gs' H') as (gs1' & G1 & G2).
    assert (gs1' = gs1) as -> by congruence. rewrite Hn2 in G2.
    by rewrite <-(walk_members_unique n n2 Hv Hv2 Hsame).
Qed.

Lemma create_kmz_member_order_witness :
  ∃ fs' members,
    create_kmz "/work" "/out/x.kmz" Examples.fs_packed = (Ok (), fs') ∧
    Os.read_file "/out/x.kmz" fs' = (Ok (Zip members), fs') ∧
    StronglySorted walk_order members ∧
    ("doc.kml"%string, Xml Examples.doc_scenario) ∈ members.
Proof.
  destruct (create_kmz "/work" "/out/x.kmz" Examples.fs_packed) as [r fs'] eqn:E.
  assert (r = Ok ()) as -> by (vm_compute in E; congruence).
  destruct (create_kmz_member_order "/work" "/out/x.kmz" Examples.fs_packed
              (Dir [("work",
                     Dir [("doc.kml", File (Xml Examples.doc_scenario));
                          ("N56E29", Dir [("base.png", File (Bytes "b"))])]);
                    ("out", Dir [("x.kmz", File (Zip []))])]%string)
              fs'
              (Dir [("doc.kml", File (Xml Examples.doc_scenario));
                    ("N56E29", Dir [("base.png", File (Bytes "b"))])]%string))
    as (members & H1 & H2 & H3 & _).
  - vm_compute. reflexivity.
  - vm_compute. reflexivity.
  - vm_compute. reflexivity.
  - exact E.
  - exists fs', members. split; [reflexivity|]. split; [exact H1|]. split; [exact H2|].
    apply H3. exists ["doc.kml"%string]. split; [discriminate|]. split; reflexivity.
Defined.

(** X9.  The archive that [create_kmz] writes holds the regular files of
    the source directory (as it is once the archive has been opened for
    writing), at any depth, and nothing else: a member for every file,
    under the path made of the directory names that lead to it and its
    name; directories get no member of their own.  For a source
    directory that is a valid tree no two members have the same name, so
    that every file has exactly one member. *)
Theorem create_kmz_packs_files source_dir kmz_path fs fs' :
  create_kmz source_dir kmz_path fs = (Ok (), fs') →
  ∃ fs1 members,
    Os.write_file kmz_path (Zip []) fs = (Ok (), fs1) ∧
    Os.read_file kmz_path fs' = (Ok (Zip members), fs') ∧
    ∀ n, FS.resolve (FS.components source_dir) fs1 = Some n →
         (∀ name c,
            (name, c) ∈ members ↔
            ∃ cs, cs ≠ [] ∧ name = rel_path cs ∧ FS.resolve cs n = Some (File c)) ∧
         (valid_tree n = true →
          NoDup (map fst members) ∧
          ∀ cs c, cs ≠ [] → FS.resolve cs n = Some (File c) →
                  List.filter (λ m, bool_decide (FS.components m.1 = cs)) members
                  = [(rel_path cs, c)]).
Proof.
  intros H. destruct (create_kmz_members source_dir kmz_path fs fs' H) as (fs1 & H1 & H2).
  exists fs1. eexists. split; [done|]. split; [exact H2|].
  intros n Hn. rewrite Hn. split; [intros name c; apply walk_members_spec|].
  intros Hv. split; [by apply walk_members_NoDup|].
  intros cs c Hne Hr. by apply walk_members_one.
Qed.

Lemma create_kmz_packs_files_witness :
  ∃ fs' members,
    create_kmz "/work" "/out/x.kmz" Examples.fs_packed = (Ok (), fs') ∧
    Os.read_file "/out/x.kmz" fs' = (Ok (Zip members), fs') ∧
    ("N56E29/base.png"%string, Bytes "b") ∈ members ∧
    NoDup (map fst members).
Proof.
  destruct (create_kmz "/work" "/out/x.kmz" Examples.fs_packed) as [r fs'] eqn:E.
  assert (r = Ok ()) as -> by (vm_compute in E; congruence).
  destruct (create_kmz_packs_files "/work" "/out/x.kmz" Examples.fs_packed fs' E)
    as (fs1 & members & H1 & H2 & H3).
  exists fs', members. split; [reflexivity|]. split; [exact H2|].
  vm_compute in H1. injection H1 as <-.
  edestruct H3 as [H4 H5]; [reflexivity|]. split.
  - apply H4. exists ["N56E29"; "base.png"]%string. split; [discriminate|]. split; reflexivity.
  - apply H5. vm_compute. reflexivity.
Defined.
